(* ===== verification/_CoqProject ===== *)
-Q . S2P
Prelude.v
GoFloat.v
GoString.v
Json.v
Settings.v
Domain.v
Capacity.v
Window.v
Score.v
Database.v
Circuit.v
CircuitProps.v
CircuitSafety.v
CircuitRecovery.v
Breaker.v
Picker.v
PickerProps.v
PickerAdmit.v
Stable.v
StableProps.v
Routes.v
RouteProps.v
JsonDecode.v
Upstream.v
UpstreamProps.v
Inbound.v
InboundProps.v
Sse.v
SseProps.v
Collector.v
CollectorProps.v
GatewayBase.v
LiveLog.v
LiveLogProps.v
Gateway.v
GatewayTrace.v
GatewayTerm.v
Proxy.v
ProxyProps.v
Billing.v
Cost.v
CostProps.v
Settle.v
SettleProps.v
