(* ===== verification/Prelude.v ===== *)
(** * simple-up-manage: an LLM API gateway

    The program (src/backend, Go) forwards chat and completion requests of its
    consumers to upstream providers through a pool of platform keys.  Which key
    serves a request is decided from rules, measured quality, circuit breakers
    and capacity; the gateway sends the request, repairs and checks the answer
    while it streams it to the client, retries and fails over, logs, prices and
    settles the request.  This development models that path from the consumer's
    request to the settled amounts, and proves the properties operators rely on.

    ** Parts of the program and files

    - Prelude (this file): results, 64-bit wrap-around, time, tactics, list and
      selection-loop lemmas.
    - GoFloat: float64 as IEEE binary64 over rationals (round to nearest even),
      with monotonicity lemmas.  GoString: the byte strings, TrimSpace, ToLower,
      decimal ids, JSON string literals, SHA-256 and FNV-1a of the standard
      library.  Json: encoding/json values and parser.
    - Settings: domain/scheduler.go (SchedulerSettings, Normalize, probe models).
    - Domain: domain/models.go, catalog.go, routing.go (providers, keys, route
      groups, their protocol and model rules, constants).
    - Capacity: runtimeState of picker/band.go (TryAcquire, TryAcquireAttempt,
      Release, resourceSnapshot): concurrency and requests per minute.
    - Window: metrics/window.go (Store, Observe, Backfill, Snapshot, summarize).
    - Score: picker/score.go (Quality, effectiveCost).
    - Database: the routing tables of domain/routing.go, SQL statements as data
      ([stmt], [prog]), their meaning on tables ([denote], [run]) and gorm
      transactions ([transaction]); the class [SQLStore] with [SQLStoreLaws] says
      what a database has to provide.
    - Circuit: routinghealth/store.go and recovery.go (admission, outcomes,
      release, exploration and recovery budgets, synthetic checks).
      CircuitProps: closed forms and the row transitions every operation makes.
      CircuitSafety, CircuitRecovery: the theorems.  Breaker: which observation
      opens a gate, recounted from the whole history.
    - Picker: picker/picker.go, band.go, routing_health.go ([inspect],
      [applyRoutingHealth], [rank], [evaluate], sticky sessions, budgets).
      PickerProps: the specification [choice] of the ranking and the theorems
      about a pass.  PickerAdmit: picker and circuit store agree.
    - Stable: picker/stable.go and the entry points PickDecision, Pick, Explain,
      CommitSuccess, ResolvePrevious.  StableProps: its theorems.
    - Routes: ops/routegroup.go, route_explain.go, MatchModel.  RouteProps: its
      theorems, with the picker.
    - JsonDecode: decoding into maps and structs (encoding/json), numbers.
      Upstream: upstream/errors.go, sse_text.go, validation.go, cost.go and the
      usage part of client.go.  UpstreamProps: what counts as generated text.
    - Inbound: the readers of a consumer's request (peekModel and the like of
      handler/gateway.go, domain/requestmeta.go, picker/session.go,
      externalprobe/classify.go).  InboundProps: the classifier's language.
    - Sse: upstream/sse_reader.go, a buffered reader that repairs event streams.
      SseProps: it refines a function on the list of lines.
    - Collector: streamCollector and copySSE of handler/gateway.go with
      event_diagnostics.go, response_validation.go.  CollectorProps: delivery,
      holding, validation, termination.
    - GatewayBase: failure_scope.go, attempt.go, consumer limits, answers.
      LiveLog: liveLog of handler/gateway.go, the request's log row and its saves.
      LiveLogProps: the row under concurrent saves.
    - Gateway: forwardOnce and the attempt loop of proxy, recovery_wait.go,
      no_route.go, in a state monad [G] that records effects.  GatewayTrace: the
      protocol machine its effects follow.  GatewayTerm: its bounds.
    - Proxy: the whole handler proxy with admission, route binding and probe
      permission (dash_hooks.go).  ProxyProps: the end-to-end theorems.
    - Billing: dashboard/money.go, billing_rules.go.  Cost: dashboard/catalog.go
      and settleCost: price cards, itemised costs, receipts.  CostProps: theorems.
    - Settle: dashboard/settle.go, models.go, service.go: events, queue, ledger,
      facts and aggregates, in the transaction monad [Tx]; the reports of
      dash_hooks.go.  SettleProps: its theorems.

    ** How the code is represented

    A struct is a record with the source's field names behind a two-letter prefix
    (rc_ RoutingCircuit, pk_ PlatformKey, cd_ Candidate, ...), an operation is one
    definition with the source's name; helpers in lower case are the bodies of its
    loops and branches.  Unsigned ids and counters are in Z with wrap_u64 and
    wrap_i64 where they can wrap; times are nanoseconds, clock readings and fresh
    UUIDs are arguments (one reading stands for the several of one call).  A
    transaction is a [prog], so an error leaves the tables as they were.  State is
    passed explicitly: Tables for the routing tables, runtimeState for the
    counters, the metrics Store, BandPicker for the picker's own fields.  Redis
    appears through the class [Redis] (metrics) and through the replies it gave
    ([watch_reply], [rget]); rows of tables that routing only reads (keys,
    cooldowns, probes, attempts, groups) are arguments.

    Interleavings: every store operation is one transaction, so the reachable
    states of [reachable] (CircuitSafety) and [cap_reachable] (Capacity) are all
    sequences of complete operations with non-decreasing clocks; the saves of a
    log row are steps of their own ([log_step]), and so are the processings of
    settlement events and the purges of old rows ([settling]), with every way a
    statement or a commit can fail; the calls on a stable-routing state by several
    gateways are the sequences of [calls_between].  The gateway runs against an environment [gatewayEnv] that
    supplies every clock reading, reply, failure and the doings of other requests.

    Recursion is structural where the code's is.  Fuel: the JSON parser (input
    length) and SHA-256 (number of words), enough by construction; [copySSE] gets
    one clock reading per read, and [copy_sse_returns] shows that one more than the
    bytes of the stream are enough; [pick_loop] and [proxy_loop] have fuel, and
    [proxy_returns] and [request_is_answered] show what is enough; [drainFinal]
    likewise in [shutdown_settles].  [watch_loop] has the source's bound of five
    attempts.

    ** What the theorems show

    - Circuits: rows stay well formed, leases exclude each other and are never
      taken over, stale outcomes do not count, recovery closes or reopens the
      gates it entered, backoff and budgets behave as documented, and a closed
      gate opens exactly at the failure its rules name.
    - Capacity and windows: limits hold in every interleaving; trimmed windows
      summarise as the whole history; scores stay in their ranges in float64.
    - Selection: the ranking refines its specification, which fixes the priority
      of validation, sticky key, exploration and best candidate; a pass selects at most
      one candidate, only one that passes every rule and circuit, and one whenever
      one is eligible; what it finds eligible the store admits.
    - Stable routing: decisions stay within the eligible candidates, a session
      whose key still serves keeps it unless a lead is confirmed or a trial is due,
      previews change nothing, response ids resolve, in memory and through Redis,
      late completions do not overwrite.
    - Requests: the classifier of external probes accepts exactly its language.
    - Routes: consumers stay within their groups, listed models can be routed.
    - Streams: the reader repairs and bounds events for every buffer size; the
      client receives a prefix of the repaired stream, nothing while the answer is
      held, all of the response on success, and success means a validated end.
    - Gateway: every run follows the protocol of admission, reservation, send,
      release, observation and answer, balances, ends, sends a bounded number of
      requests and only to keys the consumer may use; a log row shows a prefix of
      the writes to it.
    - Money: costs and receipts are sound, published cards are found, the day rows
      of the dashboard equal the recount of everything settled and the minute rows
      that of what retention keeps, nothing is settled twice, and shutdown settles
      what can be settled.

    ** Not modelled

    Reads that fail (a failed SELECT returns an error before any effect), except
    where the transaction interface covers them; ToLower beyond ASCII; the order
    sort.Slice gives to equal elements (one order is fixed); the token returned
    together with an error by Admit and ClaimCheck; the trimming of the counters
    on a pass that ends in an error.  The decision returned together with a
    failed stable-state transaction carries no reason.  In the gateway: the Models
    and Usage endpoints, the header dump and body archive, the timers of the
    first-token watch (their firing is part of the environment), the cache of the
    recovery poller, and the finalizer of rows left in flight for longer than a
    request may take (ops/logs.go, FinalizeStaleInFlightLogs), which also writes a
    log row.  The recovery lease released at the first output of a stream is released
    when the copy is over.  In settlement: the rounding of decimal columns by the
    database, the JSON encoding of queued payloads beyond its failure on
    infinities, the live counters of dashboard/metrics.go.  Probing and recovery
    jobs, administration, reporting, migrations, archives and updates are planned
    or left out; the manifest lists them. *)

From stdpp Require Export base tactics option list gmap strings numbers.
From Stdlib Require Export ZArith Lia.

#[global] Open Scope Z_scope.

(** ** Errors and results *)

(** Results of fallible Go code: a value, or an error value. *)
Inductive result (E A : Type) : Type :=
| Ok (a : A)
| Err (e : E).
Arguments Ok {E A} a.
Arguments Err {E A} e.

Definition is_ok {E A} (r : result E A) : bool :=
  match r with Ok _ => true | Err _ => false end.

(** ** Machine integers

    Go's [int], [int64] and [uint64] are 64 bits wide; [wrap_i64] and [wrap_u64]
    are their wrap-around. *)

Definition wrap_u64 (z : Z) : Z := z mod 2 ^ 64.
Definition wrap_i64 (z : Z) : Z := (z + 2 ^ 63) mod 2 ^ 64 - 2 ^ 63.

Definition in_u64 (z : Z) : Prop := 0 <= z < 2 ^ 64.
Definition in_i64 (z : Z) : Prop := - 2 ^ 63 <= z < 2 ^ 63.

Lemma wrap_u64_range z : in_u64 (wrap_u64 z).
Proof. apply Z.mod_pos_bound. lia. Qed.

Lemma wrap_u64_id z : in_u64 z -> wrap_u64 z = z.
Proof. apply Z.mod_small. Qed.

Lemma wrap_i64_id z : in_i64 z -> wrap_i64 z = z.
Proof. unfold in_i64, wrap_i64. intros. rewrite Z.mod_small; lia. Qed.

(** A 64-bit counter never repeats under a single increment. *)
Lemma wrap_u64_succ_neq z : in_u64 z -> wrap_u64 (z + 1) <> z.
Proof.
  unfold in_u64, wrap_u64. intros H. destruct (Z.eq_dec (z + 1) (2 ^ 64)) as [E|].
  - rewrite E, Z_mod_same_full. lia.
  - rewrite Z.mod_small; lia.
Qed.

(** ** Time

    A [time.Time] is the number of nanoseconds since the Unix epoch, a
    [time.Duration] a number of nanoseconds.  Operations take the clock reading
    they make as the argument [now]. *)

Definition time : Type := Z.
Definition duration : Type := Z.

Definition Millisecond : duration := 10 ^ 6.
Definition Second : duration := 10 ^ 9.
Definition Minute : duration := 60 * Second.
Definition Hour : duration := 60 * Minute.

(** The zero [time.Time]: January 1, year 1, UTC. *)
Definition time_zero : time := - 62135596800 * Second.

Definition After (t u : time) : bool := u <? t.
Definition Before (t u : time) : bool := t <? u.
Definition IsZero (t : time) : bool := t =? time_zero.
Definition UnixMilli (t : time) : Z := t / Millisecond.

(** [p != nil && p.After(now)] for a [*time.Time]. *)
Definition after_opt (p : option time) (now : time) : bool :=
  match p with Some t => After t now | None => false end.

Lemma After_spec t u : After t u = true <-> u < t.
Proof. unfold After. lia. Qed.

Lemma After_false t u : After t u = false <-> t <= u.
Proof. unfold After. lia. Qed.

Lemma UnixMilli_mono t u : t <= u -> UnixMilli t <= UnixMilli u.
Proof. intros. unfold UnixMilli, Millisecond. apply Z.div_le_mono; lia. Qed.

(** ** Proof automation *)

Create HintDb go.
Create Rewrite HintDb go.

(** Splits every match and conditional of the goal and simplifies. *)
Ltac go_cases := repeat (case_match; simplify_eq/=); try done.

(** Turns boolean hypotheses into propositions [lia] understands. *)
Ltac bools :=
  repeat match goal with
  | H : _ && _ = true |- _ => apply andb_true_iff in H as [? ?]
  | H : _ || _ = false |- _ => apply orb_false_iff in H as [? ?]
  | H : negb _ = true |- _ => apply negb_true_iff in H
  | H : negb _ = false |- _ => apply negb_false_iff in H
  | H : After _ _ = true |- _ => apply After_spec in H
  | H : After _ _ = false |- _ => apply After_false in H
  end.

(** ** Lists *)

Section list_lemmas.
Context {A : Type}.
Implicit Types (l : list A).

Lemma filter_length_le (P : A -> Prop) `{!forall x, Decision (P x)} l :
  (length (filter P l) <= length l)%nat.
Proof. induction l as [|x l IH]; simpl; [lia|]. rewrite filter_cons. case_decide; simpl; lia. Qed.

Lemma filter_true (P : A -> Prop) `{!forall x, Decision (P x)} l : Forall P l -> filter P l = l.
Proof. induction 1 as [|x l Hx _ IH]; [done|]. by rewrite filter_cons_True, IH. Qed.

(** The last [n] elements: Go's [s[len(s)-n:]] when [n <= len(s)]. *)
Definition lastn (n : nat) l : list A := drop (length l - n) l.

Lemma lastn_length n l : length (lastn n l) = Nat.min n (length l).
Proof. unfold lastn. rewrite length_drop. lia. Qed.

Lemma lastn_suffix n l : lastn n l `suffix_of` l.
Proof. exists (take (length l - n) l). unfold lastn. by rewrite take_drop. Qed.

Lemma lastn_all n l : (length l <= n)%nat -> lastn n l = l.
Proof. intros. unfold lastn. by replace (length l - n)%nat with 0%nat by lia. Qed.
End list_lemmas.

(** Go's selection loop
    [best := -1; for i, c := range l { if !ok { continue }; if best < 0 || better(c, l[best]) { best = i } }]. *)
Section scan.
Context {A : Type} (ok : nat -> A -> bool) (better : A -> A -> bool).

Fixpoint scan_from (i : nat) (l : list A) (best : option (nat * A)) : option (nat * A) :=
  match l with
  | [] => best
  | c :: l' =>
      scan_from (S i) l'
        (if ok i c then
           match best with
           | None => Some (i, c)
           | Some (_, b) => if better c b then Some (i, c) else best
           end
         else best)
  end.

Definition scan_best (l : list A) : option (nat * A) := scan_from 0 l None.

(** [best] is sound for the first [i] elements of [pre]. *)
Definition scan_inv (pre : list A) (best : option (nat * A)) : Prop :=
  match best with
  | None => forall j d, pre !! j = Some d -> ok j d = false
  | Some (k, b) => pre !! k = Some b /\ ok k b = true /\
                   forall j d, pre !! j = Some d -> ok j d = true -> better d b = false
  end.

Context (better_irrefl : forall a, better a a = false).
Context (better_trans : forall a b c, better a b = true -> better b c = true -> better a c = true).

Lemma scan_inv_step pre c best :
  scan_inv pre best ->
  scan_inv (pre ++ [c])
    (if ok (length pre) c then
       match best with
       | None => Some (length pre, c)
       | Some (_, b) => if better c b then Some (length pre, c) else best
       end
     else best).
Proof using better_irrefl better_trans.
  intros H. assert (Hsplit : forall j d, (pre ++ [c]) !! j = Some d ->
    (j < length pre)%nat /\ pre !! j = Some d \/ j = length pre /\ d = c).
  { intros j d Hj. apply lookup_app_Some in Hj as [Hj|[Hl Hj]].
    - left. split; [by eapply lookup_lt_Some|done].
    - right. apply list_lookup_singleton_Some in Hj as [? <-]. split; [lia|done]. }
  destruct (ok (length pre) c) eqn:Eok; [|].
  - destruct best as [[k b]|]; [destruct H as (H1&H2&H3); destruct (better c b) eqn:Eb|].
    + split_and!; [by rewrite list_lookup_middle|done|].
      intros j d [[? Hj]|[-> ->]]%Hsplit Hd; [|by apply better_irrefl].
      destruct (better d c) eqn:E; [|done]. specialize (H3 j d Hj Hd).
      rewrite (better_trans d c b) in H3; done.
    + split_and!; [by apply lookup_app_l_Some|done|].
      intros j d [[? Hj]|[-> ->]]%Hsplit Hd; eauto.
    + split_and!; [by rewrite list_lookup_middle|done|].
      intros j d [[? Hj]|[-> ->]]%Hsplit Hd; [|by apply better_irrefl].
      specialize (H j d Hj). congruence.
  - destruct best as [[k b]|]; [destruct H as (H1&H2&H3)|].
    + split_and!; [by apply lookup_app_l_Some|done|].
      intros j d [[? Hj]|[-> ->]]%Hsplit Hd; [eauto|congruence].
    + intros j d [[? Hj]|[-> ->]]%Hsplit; eauto.
Qed.

Lemma scan_from_inv l pre best :
  scan_inv pre best -> scan_inv (pre ++ l) (scan_from (length pre) l best).
Proof using better_irrefl better_trans.
  revert pre best. induction l as [|c l IH]; intros pre best H; simpl.
  - by rewrite app_nil_r.
  - rewrite cons_middle, app_assoc.
    replace (S (length pre)) with (length (pre ++ [c])) by (rewrite length_app; simpl; lia).
    apply IH. by apply scan_inv_step.
Qed.

Lemma scan_best_inv l : scan_inv l (scan_best l).
Proof using better_irrefl better_trans. by apply (scan_from_inv l [] None). Qed.
End scan.
