(* ===== verification/GoFloat.v ===== *)
(** * Go's float64: IEEE-754 binary64 with correctly rounded operations

    A finite [f64] carries its exact rational value.  Every operation computes
    the exact result and rounds it once with [rnd]: round to nearest, ties to
    even, 53-bit significands, exponents down to 2^-1074, overflow to infinity.
    Signed zeros are identified (the program never observes the sign of a zero).
    The lemmas give what the schedulers need: [rnd] is monotone and fixes the
    values it produces, hence rounded sums, products and quotients are monotone. *)

From Stdlib Require Import QArith Qabs Qpower Qround Lqa.
From Stdlib Require Qcanon.
From S2P Require Import Prelude.

Local Open Scope Q_scope.

(** ** Powers of two and the binary exponent of a positive rational *)

Definition p2 (e : Z) : Q := (2 # 1) ^ e.

Definition qlog2 (a : Q) : Z :=
  let k := (Z.log2 (Qnum a) - Z.log2 (Zpos (Qden a)))%Z in
  if Qle_bool (p2 k) a then k else (k - 1)%Z.

(** Round to the nearest integer, ties to even. *)
Definition rne (x : Q) : Z :=
  let f := Qfloor x in
  match Qcompare (x - inject_Z f) (1 # 2) with
  | Lt => f
  | Gt => (f + 1)%Z
  | Eq => if Z.even f then f else (f + 1)%Z
  end.

(** Exponent of the last significand bit of the format around [a > 0]. *)
Definition lsb (a : Q) : Z := Z.max (qlog2 a - 52) (-1074).

(** Rounding of a positive magnitude, with unbounded exponent range above. *)
Definition rnd_mag (a : Q) : Q := inject_Z (rne (a / p2 (lsb a))) * p2 (lsb a).

Inductive f64 : Type :=
| F_fin (q : Q)
| F_inf (neg : bool)
| F_nan.

Definition f_overflow : Q := inject_Z (2 ^ 1024).

Definition rnd (q : Q) : f64 :=
  match Qcompare q 0 with
  | Eq => F_fin 0
  | Gt => let v := rnd_mag q in
          if Qle_bool f_overflow v then F_inf false else F_fin (Qred v)
  | Lt => let v := rnd_mag (- q) in
          if Qle_bool f_overflow v then F_inf true else F_fin (Qred (- v))
  end.

Lemma p2_pos e : 0 < p2 e.
Proof. apply Qpower_0_lt. reflexivity. Qed.

Lemma p2_nz e : ~ p2 e == 0.
Proof. pose proof (p2_pos e). lra. Qed.

Lemma p2_plus a b : p2 (a + b) == p2 a * p2 b.
Proof. apply Qpower_plus. discriminate. Qed.

Lemma p2_le a b : (a <= b)%Z -> p2 a <= p2 b.
Proof. intros. apply Qpower_le_compat_l; [done | discriminate]. Qed.

Lemma p2_lt_inv a b : p2 a < p2 b -> (a < b)%Z.
Proof. intros. eapply Qpower_lt_compat_l_inv; [done | reflexivity]. Qed.

Lemma p2_nonneg_Z e : (0 <= e)%Z -> p2 e == inject_Z (2 ^ e).
Proof.
  intros. unfold p2. destruct e as [|p|p]; [reflexivity| |lia].
  rewrite Qpower_decomp_pos. unfold Qeq, inject_Z; simpl.
  rewrite Pos2Z.inj_pow. simpl Z.of_N. rewrite Z.pow_1_l by lia. lia.
Qed.

Lemma inject_le a b : (a <= b)%Z -> inject_Z a <= inject_Z b.
Proof. intros. by rewrite <- Zle_Qle. Qed.

Lemma p2_step e : p2 (e + 1) == 2 * p2 e.
Proof. rewrite p2_plus. change (p2 1) with (2 # 1). lra. Qed.

Lemma Qmake_p2_bounds (n : Z) (d : positive) :
  (0 < n)%Z ->
  let k := (Z.log2 n - Z.log2 (Zpos d))%Z in
  p2 (k - 1) <= n # d /\ n # d < p2 (k + 1).
Proof.
  intros Hn k.
  pose proof (Z.log2_spec n Hn) as [Hn1 Hn2].
  pose proof (Z.log2_spec (Zpos d) eq_refl) as [Hd1 Hd2].
  set (a := Z.log2 n) in *. set (b := Z.log2 (Zpos d)) in *.
  pose proof (Z.log2_nonneg n). pose proof (Z.log2_nonneg (Zpos d)).
  fold a in H. fold b in H0.
  assert (Hnd : inject_Z n == (n # d) * inject_Z (Zpos d)).
  { unfold Qeq, inject_Z; simpl. lia. }
  assert (Hdpos : 0 < inject_Z (Zpos d)) by reflexivity.
  assert (N1 : p2 a <= inject_Z n) by (rewrite p2_nonneg_Z by lia; by apply inject_le).
  assert (N2 : inject_Z n < p2 (a + 1)).
  { rewrite p2_nonneg_Z by lia. rewrite <- Zlt_Qlt. by replace (a + 1)%Z with (Z.succ a) by lia. }
  assert (D1 : p2 b <= inject_Z (Zpos d)) by (rewrite p2_nonneg_Z by lia; by apply inject_le).
  assert (D2 : inject_Z (Zpos d) < p2 (b + 1)).
  { rewrite p2_nonneg_Z by lia. rewrite <- Zlt_Qlt. by replace (b + 1)%Z with (Z.succ b) by lia. }
  split.
  - apply Qmult_lt_0_le_reg_r with (inject_Z (Zpos d)); [done|]. rewrite <- Hnd.
    apply Qle_trans with (p2 a); [|done].
    apply Qle_trans with (p2 (k - 1) * p2 (b + 1)).
    + apply Qmult_le_l; [apply p2_pos | lra].
    + rewrite <- p2_plus. apply p2_le. lia.
  - apply Qmult_lt_r with (inject_Z (Zpos d)); [done|]. rewrite <- Hnd.
    apply Qlt_le_trans with (p2 (a + 1)); [done|].
    apply Qle_trans with (p2 (k + 1) * p2 b).
    + rewrite <- p2_plus. apply p2_le. lia.
    + apply Qmult_le_l; [apply p2_pos | done].
Qed.

Lemma qlog2_spec a : 0 < a -> p2 (qlog2 a) <= a /\ a < p2 (qlog2 a + 1).
Proof.
  intros Ha. destruct a as [n d].
  assert (Hn : (0 < n)%Z) by (unfold Qlt in Ha; simpl in Ha; lia).
  pose proof (Qmake_p2_bounds n d Hn) as [B1 B2]. cbv zeta in B1, B2.
  unfold qlog2. simpl Qnum; simpl Qden.
  destruct (Qle_bool (p2 (Z.log2 n - Z.log2 (Zpos d))) (n # d)) eqn:E.
  - apply Qle_bool_iff in E. done.
  - split; [done|]. replace (_ - 1 + 1)%Z with (Z.log2 n - Z.log2 (Zpos d))%Z by lia.
    destruct (Qlt_le_dec (n # d) (p2 (Z.log2 n - Z.log2 (Zpos d)))) as [L|L]; [done|].
    apply Qle_bool_iff in L. congruence.
Qed.

Lemma qlog2_mono a b : 0 < a -> a <= b -> (qlog2 a <= qlog2 b)%Z.
Proof.
  intros Ha Hab. pose proof (qlog2_spec a Ha) as [A1 A2].
  assert (Hb : 0 < b) by lra. pose proof (qlog2_spec b Hb) as [B1 B2].
  assert (qlog2 a < qlog2 b + 1)%Z; [|lia]. apply p2_lt_inv. lra.
Qed.

(** ** Rounding to an integer *)

(** Turns [Qcompare] equations into rational (in)equalities. *)
Ltac qcmp :=
  repeat match goal with
  | H : Qcompare _ _ = Eq |- _ => apply Qeq_alt in H
  | H : Qcompare _ _ = Lt |- _ => apply Qlt_alt in H
  | H : Qcompare _ _ = Gt |- _ => apply Qgt_alt in H
  end.

Lemma rne_bounds x : (Qfloor x <= rne x <= Qfloor x + 1)%Z.
Proof. unfold rne. destruct (Qcompare _ _); [case_match| |]; lia. Qed.

Lemma rne_mono x y : x <= y -> (rne x <= rne y)%Z.
Proof.
  intros H. pose proof (Qfloor_resp_le x y H) as Hf.
  pose proof (rne_bounds x). pose proof (rne_bounds y).
  destruct (Z.eq_dec (Qfloor x) (Qfloor y)) as [E|N]; [|lia].
  unfold rne. rewrite <- E.
  destruct (Qcompare (x - _) _) eqn:C1; destruct (Qcompare (y - _) _) eqn:C2;
    try (destruct (Z.even _)); try lia; qcmp; exfalso; lra.
Qed.

Lemma rne_Z z : rne (inject_Z z) = z.
Proof.
  unfold rne. rewrite Qfloor_Z.
  assert (E : inject_Z z - inject_Z z == 0) by lra.
  by rewrite E.
Qed.

#[export] Instance rne_proper : Proper (Qeq ==> eq) rne.
Proof.
  intros x y E. apply Z.le_antisymm; apply rne_mono; rewrite E; apply Qle_refl.
Qed.

(** ** Rounding of magnitudes: monotone, idempotent *)

Lemma lsb_mono a b : 0 < a -> a <= b -> (lsb a <= lsb b)%Z.
Proof. intros Ha Hab. unfold lsb. pose proof (qlog2_mono a b Ha Hab). lia. Qed.

Lemma scaled_upper a : 0 < a -> a / p2 (lsb a) <= inject_Z (2 ^ 53).
Proof.
  intros Ha. pose proof (qlog2_spec a Ha) as [_ A2].
  apply Qle_shift_div_r; [apply p2_pos|].
  rewrite <- (p2_nonneg_Z 53) by lia. rewrite <- p2_plus.
  apply Qlt_le_weak, Qlt_le_trans with (p2 (qlog2 a + 1)); [done|].
  apply p2_le. unfold lsb. lia.
Qed.

Lemma rnd_mag_upper a : 0 < a -> rnd_mag a <= p2 (lsb a + 53).
Proof.
  intros Ha. unfold rnd_mag. rewrite Z.add_comm, p2_plus, (p2_nonneg_Z 53) by lia.
  apply Qmult_le_r; [apply p2_pos|]. apply inject_le.
  rewrite <- (rne_Z (2 ^ 53)). apply rne_mono, scaled_upper, Ha.
Qed.

Lemma rnd_mag_lower a : 0 < a -> (-1074 < lsb a)%Z -> p2 (lsb a + 52) <= rnd_mag a.
Proof.
  intros Ha Hl. pose proof (qlog2_spec a Ha) as [A1 _].
  unfold rnd_mag. rewrite Z.add_comm, p2_plus, (p2_nonneg_Z 52) by lia.
  apply Qmult_le_r; [apply p2_pos|]. apply inject_le.
  rewrite <- (rne_Z (2 ^ 52)). apply rne_mono.
  apply Qle_shift_div_l; [apply p2_pos|].
  rewrite <- (p2_nonneg_Z 52) by lia. rewrite <- p2_plus.
  apply Qle_trans with (p2 (qlog2 a)); [|done].
  apply p2_le. unfold lsb in *. lia.
Qed.

Lemma rnd_mag_mono a b : 0 < a -> a <= b -> rnd_mag a <= rnd_mag b.
Proof.
  intros Ha Hab. assert (Hb : 0 < b) by lra.
  pose proof (lsb_mono a b Ha Hab).
  destruct (Z.eq_dec (lsb a) (lsb b)) as [E|N].
  - unfold rnd_mag. rewrite E. apply Qmult_le_r; [apply p2_pos|].
    apply inject_le, rne_mono.
    unfold Qdiv. apply Qmult_le_compat_r; [done|].
    apply Qlt_le_weak, Qinv_lt_0_compat, p2_pos.
  - apply Qle_trans with (p2 (lsb a + 53)); [by apply rnd_mag_upper|].
    apply Qle_trans with (p2 (lsb b + 52)); [apply p2_le; lia|].
    apply rnd_mag_lower; [done|]. unfold lsb in *. lia.
Qed.

Lemma rnd_mag_multiple a n :
  a == inject_Z n * p2 (lsb a) -> rnd_mag a == a.
Proof.
  intros Hv. assert (Hx : a / p2 (lsb a) == inject_Z n).
  { rewrite Hv at 1. apply Qdiv_mult_l, p2_nz. }
  unfold rnd_mag. rewrite Hx, rne_Z. symmetry. exact Hv.
Qed.

(** A magnitude is representable when rounding leaves it in place. *)
Lemma rnd_mag_exact m e :
  (0 < m <= 2 ^ 53)%Z -> (-1074 <= e)%Z -> rnd_mag (inject_Z m * p2 e) == inject_Z m * p2 e.
Proof.
  intros [Hm1 Hm2] He. set (a := inject_Z m * p2 e).
  assert (Hmpos : 0 < inject_Z m) by (rewrite (Zlt_Qlt 0 m) in Hm1; exact Hm1).
  assert (Ha : 0 < a) by (apply Qmult_lt_0_compat; [done | apply p2_pos]).
  pose proof (qlog2_spec a Ha) as [A1 A2].
  destruct (Z_le_gt_dec (lsb a) e) as [L|G].
  - apply rnd_mag_multiple with (m * 2 ^ (e - lsb a))%Z.
    rewrite inject_Z_mult, <- (p2_nonneg_Z (e - lsb a)) by lia.
    rewrite <- Qmult_assoc, <- p2_plus. unfold a at 1.
    by replace (e - lsb a + lsb a)%Z with e by lia.
  - (* only the carry case m = 2^53 remains, one binade up *)
    assert (Hu : a <= p2 (e + 53)).
    { rewrite Z.add_comm, p2_plus, (p2_nonneg_Z 53) by lia.
      apply Qmult_le_r; [apply p2_pos|]. by apply inject_le. }
    assert (Hl : (lsb a = e + 1)%Z).
    { assert (qlog2 a < e + 54)%Z by (apply p2_lt_inv; apply Qle_lt_trans with a; [done|];
        apply Qle_lt_trans with (p2 (e + 53)); [done|]; apply Qpower_lt_compat_l; [lia|reflexivity]).
      unfold lsb in *. lia. }
    assert (Hm : m = (2 ^ 53)%Z).
    { apply Z.le_antisymm; [done|]. rewrite (Zle_Qle (2 ^ 53) m), <- (p2_nonneg_Z 53) by lia.
      apply Qmult_lt_0_le_reg_r with (p2 e); [apply p2_pos|]. rewrite <- p2_plus. fold a.
      apply Qle_trans with (p2 (qlog2 a)); [|done]. apply p2_le. unfold lsb in *. lia. }
    apply rnd_mag_multiple with (2 ^ 52)%Z. rewrite Hl. unfold a.
    rewrite Hm, <- (p2_nonneg_Z 53), <- (p2_nonneg_Z 52), <- !p2_plus by lia.
    by replace (52 + (e + 1))%Z with (53 + e)%Z by lia.
Qed.

Lemma qlog2_eq a b : 0 < a -> a == b -> qlog2 a = qlog2 b.
Proof.
  intros Ha E. apply Z.le_antisymm; apply qlog2_mono; rewrite <- ?E; try done; apply Qle_refl.
Qed.

Lemma rnd_mag_eq a b : 0 < a -> a == b -> rnd_mag a == rnd_mag b.
Proof.
  intros Ha E. unfold rnd_mag, lsb. by rewrite <- (qlog2_eq a b Ha E), <- E.
Qed.

Lemma rnd_mag_nonneg a : 0 < a -> 0 <= rnd_mag a.
Proof.
  intros Ha. unfold rnd_mag. apply Qmult_le_0_compat; [|apply Qlt_le_weak, p2_pos].
  change 0 with (inject_Z 0). apply inject_le. rewrite <- (rne_Z 0). apply rne_mono.
  apply Qle_shift_div_l; [apply p2_pos|]. change (inject_Z 0) with 0. lra.
Qed.

Lemma rnd_mag_idem a : 0 < a -> 0 < rnd_mag a -> rnd_mag (rnd_mag a) == rnd_mag a.
Proof.
  intros Ha Hr. apply rnd_mag_exact; [|unfold lsb; lia]. split.
  - rewrite Zlt_Qlt. apply Qmult_lt_r with (p2 (lsb a)); [apply p2_pos|].
    rewrite Qmult_0_l. exact Hr.
  - rewrite <- (rne_Z (2 ^ 53)). by apply rne_mono, scaled_upper.
Qed.

(** ** Comparison *)

Definition fle (x y : f64) : bool :=
  match x, y with
  | F_nan, _ | _, F_nan => false
  | F_inf true, _ | _, F_inf false => true
  | F_inf false, _ | _, F_inf true => false
  | F_fin a, F_fin b => Qle_bool a b
  end.

Definition is_nan (x : f64) : bool := match x with F_nan => true | _ => false end.
Definition is_inf (x : f64) : bool := match x with F_inf _ => true | _ => false end.
Definition is_fin (x : f64) : bool := match x with F_fin _ => true | _ => false end.

(** Go's [<], [==], and their mirror images; every comparison with NaN is false. *)
Definition flt (x y : f64) : bool := fle x y && negb (fle y x).
Definition feq (x y : f64) : bool := fle x y && fle y x.
Definition fge (x y : f64) : bool := fle y x.
Definition fgt (x y : f64) : bool := flt y x.

(** Values a float64 variable can hold. *)
Definition valid (x : f64) : Prop :=
  match x with F_fin q => rnd q = F_fin q | _ => True end.

(** ** Arithmetic *)

Definition fneg (x : f64) : f64 :=
  match x with F_fin q => F_fin (Qred (- q)) | F_inf s => F_inf (negb s) | F_nan => F_nan end.

Definition fadd (x y : f64) : f64 :=
  match x, y with
  | F_fin a, F_fin b => rnd (a + b)
  | F_nan, _ | _, F_nan => F_nan
  | F_inf s, F_inf t => if Bool.eqb s t then F_inf s else F_nan
  | F_inf s, _ | _, F_inf s => F_inf s
  end.

Definition fsub (x y : f64) : f64 := fadd x (fneg y).

Definition q_neg (q : Q) : bool := negb (Qle_bool 0 q).

Definition fmul (x y : f64) : f64 :=
  match x, y with
  | F_fin a, F_fin b => rnd (a * b)
  | F_nan, _ | _, F_nan => F_nan
  | F_inf s, F_inf t => F_inf (xorb s t)
  | F_inf s, F_fin a | F_fin a, F_inf s =>
      if Qeq_bool a 0 then F_nan else F_inf (xorb s (q_neg a))
  end.

Definition fdiv (x y : f64) : f64 :=
  match x, y with
  | F_fin a, F_fin b =>
      if Qeq_bool b 0 then (if Qeq_bool a 0 then F_nan else F_inf (q_neg a)) else rnd (a / b)
  | F_nan, _ | _, F_nan => F_nan
  | F_inf s, F_inf t => F_nan
  | F_inf s, F_fin a => F_inf (xorb s (q_neg a))
  | F_fin _, F_inf _ => F_fin 0
  end.

(** [float64(n)] for an integer [n], and a decimal literal [n / 10^k]. *)
Definition f_of_Z (n : Z) : f64 := rnd (inject_Z n).
Definition f_dec (n : Z) (k : positive) : f64 := rnd (n # (10 ^ k)).

(** [math.Max]: NaN if either argument is NaN, otherwise the larger. *)
Definition fmax (x y : f64) : f64 :=
  if is_nan x || is_nan y then F_nan else if fle x y then y else x.

(** [math.Ceil], and [math.Round]: half away from zero. *)
Definition fceil (x : f64) : f64 :=
  match x with F_fin q => rnd (inject_Z (Qceiling q)) | _ => x end.
Definition round_half_away (q : Q) : Z :=
  if Qle_bool 0 q then Qfloor (q + (1 # 2)) else (- Qfloor (- q + (1 # 2)))%Z.
Definition fround (x : f64) : f64 :=
  match x with F_fin q => rnd (inject_Z (round_half_away q)) | _ => x end.

(** [int(x)]: truncation; values int64 cannot hold give the minimum (amd64). *)
Definition f_to_int (x : f64) : Z :=
  match x with
  | F_fin q => let z := if Qle_bool 0 q then Qfloor q else (- Qfloor (- q))%Z in
               if ((- 2 ^ 63 <=? z) && (z <? 2 ^ 63))%Z then z else (- 2 ^ 63)%Z
  | _ => (- 2 ^ 63)%Z
  end.

(** ** The order on float64 *)

Lemma Qle_bool_false a b : Qle_bool a b = false <-> b < a.
Proof.
  split; intros H.
  - apply Qnot_le_lt. intros L. apply Qle_bool_iff in L. congruence.
  - destruct (Qle_bool a b) eqn:E; [|done]. apply Qle_bool_iff in E. lra.
Qed.

Lemma fle_fin a b : fle (F_fin a) (F_fin b) = true <-> a <= b.
Proof. apply Qle_bool_iff. Qed.

Lemma fle_refl x : is_nan x = false -> fle x x = true.
Proof. destruct x as [q|[]|]; simpl; try done. intros _. apply Qle_bool_iff, Qle_refl. Qed.

Lemma fle_trans x y z : fle x y = true -> fle y z = true -> fle x z = true.
Proof.
  destruct x as [a|[]|], y as [b|[]|], z as [c|[]|]; simpl; try done.
  rewrite !Qle_bool_iff. lra.
Qed.

Lemma fle_total x y : is_nan x = false -> is_nan y = false -> fle x y = true \/ fle y x = true.
Proof.
  destruct x as [a|[]|], y as [b|[]|]; simpl; try (auto; done).
  intros _ _. destruct (Qlt_le_dec b a); rewrite !Qle_bool_iff; [right|left]; lra.
Qed.

Lemma fle_not_nan x y : fle x y = true -> is_nan x = false /\ is_nan y = false.
Proof. by destruct x as [a|[]|], y as [b|[]|]. Qed.

Lemma flt_spec x y : flt x y = true <-> fle x y = true /\ fle y x = false.
Proof. unfold flt. rewrite andb_true_iff, negb_true_iff. done. Qed.

Lemma flt_fle x y : flt x y = true -> fle x y = true.
Proof. rewrite flt_spec. tauto. Qed.

Lemma flt_false_fle x y :
  is_nan x = false -> is_nan y = false -> flt x y = false -> fle y x = true.
Proof.
  intros Hx Hy H. destruct (fle y x) eqn:E; [done|].
  destruct (fle_total x y Hx Hy) as [L|L]; [|congruence].
  unfold flt in H. rewrite L, E in H. done.
Qed.

(** ** Properties of rounding *)

Lemma rnd_not_nan q : is_nan (rnd q) = false.
Proof. unfold rnd. by repeat case_match. Qed.

Lemma rnd_0 q : q == 0 -> rnd q = F_fin 0.
Proof. intros E. unfold rnd. apply Qeq_alt in E. by rewrite E. Qed.

(** Sign analysis for [rnd] on the two arguments of a comparison. *)
Ltac rnd_cases :=
  unfold rnd; repeat case_match; qcmp; simpl; rewrite ?Qle_bool_iff, ?Qle_bool_false in *;
  rewrite ?Qred_correct in *.

Lemma rnd_mono q r : q <= r -> fle (rnd q) (rnd r) = true.
Proof.
  intros H. pose proof (rnd_mag_mono q r) as M1. pose proof (rnd_mag_mono (- r) (- q)) as M2.
  pose proof (rnd_mag_nonneg q) as N1. pose proof (rnd_mag_nonneg (- r)) as N2.
  pose proof (rnd_mag_nonneg r) as N3. pose proof (rnd_mag_nonneg (- q)) as N4.
  assert (0 < f_overflow) by reflexivity.
  rnd_cases; try done; try lra.
Qed.

Lemma rnd_proper_fin q r : q == r -> rnd q = rnd r.
Proof.
  intros E. pose proof (rnd_mag_eq q r) as M1. pose proof (rnd_mag_eq (- q) (- r)) as M2.
  rnd_cases; try done; try lra; f_equal; apply Qred_complete;
    try (apply M1; lra); apply Qopp_comp, M2; lra.
Qed.

#[export] Instance rnd_proper : Proper (Qeq ==> eq) rnd.
Proof. intros q r. apply rnd_proper_fin. Qed.

(** A representable magnitude, positive or negated, is left in place. *)
Lemma rnd_representable w :
  0 <= w -> (w == 0 \/ rnd_mag w == w) -> w < f_overflow ->
  rnd w = F_fin (Qred w) /\ rnd (- w) = F_fin (Qred (- w)).
Proof.
  intros H0 [E|E] Ho.
  { rewrite !rnd_0 by lra. change (F_fin 0) with (F_fin (Qred 0)).
    split; f_equal; apply Qred_complete; lra. }
  assert (Hp : w == 0 \/ 0 < w) by lra. destruct Hp as [Z0|Hp].
  { rewrite !rnd_0 by lra. change (F_fin 0) with (F_fin (Qred 0)).
    split; f_equal; apply Qred_complete; lra. }
  assert (E2 : rnd_mag (- - w) == w) by (rewrite <- (rnd_mag_eq w (- - w)); lra).
  split; unfold rnd.
  - destruct (Qcompare w 0) eqn:C; qcmp; try lra.
    rewrite (proj2 (Qle_bool_false f_overflow (rnd_mag w))) by lra.
    f_equal. by apply Qred_complete.
  - destruct (Qcompare (- w) 0) eqn:C; qcmp; try lra.
    rewrite (proj2 (Qle_bool_false f_overflow (rnd_mag (- - w)))) by lra.
    f_equal. apply Qred_complete. lra.
Qed.

(** Rounding is idempotent: what it returns is a float64. *)
Lemma rnd_fin_valid q v : rnd q = F_fin v -> rnd v = F_fin v.
Proof.
  assert (K : forall a, 0 < a -> rnd_mag a == 0 \/ rnd_mag (rnd_mag a) == rnd_mag a).
  { intros a Ha. pose proof (rnd_mag_nonneg a Ha). pose proof (rnd_mag_idem a Ha).
    assert (rnd_mag a == 0 \/ 0 < rnd_mag a) as [?|?] by lra; auto. }
  unfold rnd at 1. destruct (Qcompare q 0) eqn:C; qcmp; [by intros [= <-]| |];
    (case_match eqn:O; [done|]); intros [= <-]; apply Qle_bool_false in O;
    rewrite (rnd_proper_fin _ _ (Qred_correct _)).
  - apply rnd_representable; [apply rnd_mag_nonneg; lra | apply K; lra | done].
  - apply rnd_representable; [apply rnd_mag_nonneg; lra | apply K; lra | done].
Qed.

Lemma rnd_valid q : valid (rnd q).
Proof. unfold valid. destruct (rnd q) eqn:E; [|done|done]. by apply rnd_fin_valid in E. Qed.

Lemma Qred_inject n : Qred (inject_Z n) = inject_Z n.
Proof. apply Qcanon.Qred_identity. simpl. apply Z.gcd_1_r. Qed.

(** An integer of at most 53 bits is a float64. *)
Lemma rnd_int n : (Z.abs n <= 2 ^ 53)%Z -> rnd (inject_Z n) = F_fin (inject_Z n).
Proof.
  intros Hn. rewrite <- (Qred_inject n) at 2.
  assert (W : forall m, (0 <= m <= 2 ^ 53)%Z ->
    rnd (inject_Z m) = F_fin (Qred (inject_Z m)) /\ rnd (- inject_Z m) = F_fin (Qred (- inject_Z m))).
  { intros m Hm. apply rnd_representable.
    - apply (inject_le 0); lia.
    - destruct (Z.eq_dec m 0) as [->|]; [by left|right].
      assert (E : inject_Z m == inject_Z m * p2 0) by (change (p2 0) with 1; lra).
      assert (0 < inject_Z m) by (change 0 with (inject_Z 0); rewrite <- Zlt_Qlt; lia).
      rewrite (rnd_mag_eq _ _ H E). rewrite E at 2. apply rnd_mag_exact; lia.
    - apply Qle_lt_trans with (inject_Z (2 ^ 53)); [apply inject_le; lia | reflexivity]. }
  destruct (Z_le_gt_dec 0 n).
  - apply W. lia.
  - destruct (W (- n)%Z) as [_ E]; [lia|].
    rewrite inject_Z_opp in E. rewrite (rnd_proper_fin _ _ (Qopp_involutive (inject_Z n))) in E.
    rewrite E. f_equal. apply Qred_complete. lra.
Qed.

(** ** Monotonicity of the operations on non-negative values

    [fbetween lo x hi] is the closed-interval test the bounds are stated with;
    it excludes NaN. *)

Definition f0 : f64 := F_fin 0.
Definition f1 : f64 := F_fin 1.
Definition fbetween (lo x hi : f64) : Prop := fle lo x = true /\ fle x hi = true.

Lemma rnd_1 q : q == 1 -> rnd q = f1.
Proof. intros E. rewrite (rnd_proper_fin _ _ E). exact (rnd_int 1 ltac:(lia)). Qed.

Lemma fle0_fin q : fle f0 (F_fin q) = true <-> 0 <= q.
Proof. apply fle_fin. Qed.

Lemma fadd_nonneg x y : fle f0 x = true -> fle f0 y = true -> fle f0 (fadd x y) = true.
Proof.
  destruct x as [a|[]|], y as [b|[]|]; try done. rewrite !fle0_fin. intros. simpl fadd.
  unfold f0. rewrite <- (rnd_0 0) by lra. apply rnd_mono. lra.
Qed.

Lemma fmul_nonneg_fin x y :
  is_fin x = true -> is_fin y = true -> fle f0 x = true -> fle f0 y = true -> fle f0 (fmul x y) = true.
Proof.
  destruct x as [a|[]|], y as [b|[]|]; try done. rewrite !fle0_fin. intros _ _ Ha Hb. simpl fmul.
  unfold f0. rewrite <- (rnd_0 0) by lra. apply rnd_mono. by apply Qmult_le_0_compat.
Qed.

(** [x + y] is monotone in both arguments (both sums exist: no opposite infinities
    below the comparison). *)
Lemma fadd_mono x y x' y' :
  fle f0 x = true -> fle f0 y = true -> fle x x' = true -> fle y y' = true ->
  fle (fadd x y) (fadd x' y') = true.
Proof.
  destruct x as [a|[]|], x' as [a'|[]|], y as [b|[]|], y' as [b'|[]|]; try done;
    rewrite ?fle0_fin, ?fle_fin; intros; simpl fadd; try done.
  - apply rnd_mono. lra.
  - pose proof (rnd_not_nan (a + b)). by destruct (rnd (a + b)) as [|[]|].
  - pose proof (rnd_not_nan (a + b)). by destruct (rnd (a + b)) as [|[]|].
  - pose proof (rnd_not_nan (a + b)). by destruct (rnd (a + b)) as [|[]|].
Qed.

(** Scaling a non-negative float64 by a factor in [0,1] does not increase it. *)
Lemma fmul_le_l x t :
  valid x -> is_fin x = true -> fle f0 x = true -> fbetween f0 t f1 -> fle (fmul x t) x = true.
Proof.
  intros V Hf Hx [H1 H2]. destruct x as [a|[]|], t as [b|[]|]; try done.
  rewrite fle0_fin in Hx, H1. apply fle_fin in H2. simpl in V. simpl fmul.
  rewrite <- V. apply rnd_mono. nra.
Qed.

(** A quotient of ordered non-negative finite values lies in [0,1]. *)
Lemma fdiv_unit x y :
  is_fin y = true -> fle f0 x = true -> flt f0 y = true -> fle x y = true ->
  fbetween f0 (fdiv x y) f1.
Proof.
  destruct y as [b|[]|]; try done. destruct x as [a|[]|]; try done.
  intros _. rewrite fle0_fin, flt_spec, fle_fin. intros Ha [_ Hb] Hab.
  assert (Hb' : 0 < b) by (apply Qle_bool_false in Hb; exact Hb).
  assert (Hz : Qeq_bool b 0 = false).
  { destruct (Qeq_bool b 0) eqn:E; [|done]. apply Qeq_bool_iff in E. lra. }
  simpl fdiv. rewrite Hz. split.
  - unfold f0. rewrite <- (rnd_0 0) by lra. apply rnd_mono. apply Qle_shift_div_l; lra.
  - rewrite <- (rnd_1 1) by lra. apply rnd_mono. apply Qle_shift_div_r; lra.
Qed.

Lemma fbetween_fin x : fbetween f0 x f1 -> is_fin x = true.
Proof. intros [H1 H2]. by destruct x as [|[]|]. Qed.

(** [1 - x] stays in the unit interval. *)
Lemma fsub_unit x : fbetween f0 x f1 -> fbetween f0 (fsub f1 x) f1.
Proof.
  intros H. pose proof (fbetween_fin x H) as F. destruct x as [q| |]; try done.
  destruct H as [H1 H2]. rewrite fle0_fin in H1. apply fle_fin in H2.
  unfold fsub, fneg, f1, fadd. assert (E : 1 + Qred (- q) == 1 - q) by (rewrite Qred_correct; lra).
  rewrite (rnd_proper_fin _ _ E). split.
  - unfold f0. rewrite <- (rnd_0 0) by lra. apply rnd_mono. lra.
  - change (F_fin 1) with f1. rewrite <- (rnd_1 1) by lra. apply rnd_mono. lra.
Qed.

Lemma fmul_unit x t : fbetween f0 x f1 -> fbetween f0 t f1 -> fbetween f0 (fmul x t) f1.
Proof.
  intros Hx Ht. pose proof (fbetween_fin x Hx). pose proof (fbetween_fin t Ht).
  destruct x as [a| |], t as [b| |]; try done.
  destruct Hx as [Hx1 Hx2], Ht as [Ht1 Ht2]. rewrite fle0_fin in Hx1, Ht1.
  apply fle_fin in Hx2, Ht2. simpl fmul. split.
  - unfold f0. rewrite <- (rnd_0 0) by lra. apply rnd_mono. nra.
  - rewrite <- (rnd_1 1) by lra. apply rnd_mono. nra.
Qed.

(** Between two finite bounds there is only finite. *)
Lemma fle_fin_between a x b : fle (F_fin a) x = true -> fle x (F_fin b) = true -> is_fin x = true.
Proof. by destruct x as [|[]|]. Qed.

Lemma valid_antisym x y : valid x -> valid y -> is_fin x = true -> fle x y = true -> fle y x = true -> x = y.
Proof.
  destruct x as [a| |], y as [b|[]|]; try done. simpl valid. intros Va Vb _ H1%fle_fin H2%fle_fin.
  rewrite <- Va, <- Vb. apply rnd_proper_fin. lra.
Qed.

Lemma fadd_0_r x : valid x -> is_fin x = true -> fadd x f0 = x.
Proof. destruct x as [a| |]; try done. simpl. intros V _. rewrite <- V. apply rnd_proper_fin. lra. Qed.

(** ** Integers as float64 *)

Lemma f_of_Z_mono a b : (a <= b)%Z -> fle (f_of_Z a) (f_of_Z b) = true.
Proof. intros. by apply rnd_mono, inject_le. Qed.

Lemma f_of_Z_fin n : in_i64 n -> is_fin (f_of_Z n) = true.
Proof.
  intros [H1 H2]. assert (L : fle (f_of_Z (- 2 ^ 63)) (f_of_Z n) = true) by by apply f_of_Z_mono.
  assert (U : fle (f_of_Z n) (f_of_Z (2 ^ 63)) = true) by (apply f_of_Z_mono; lia).
  change (f_of_Z (- 2 ^ 63)) with (F_fin (-9223372036854775808)) in L.
  change (f_of_Z (2 ^ 63)) with (F_fin 9223372036854775808) in U.
  exact (fle_fin_between _ _ _ L U).
Qed.

Lemma f_of_Z_nonneg n : (0 <= n)%Z -> fle f0 (f_of_Z n) = true.
Proof. intros. change f0 with (f_of_Z 0). by apply f_of_Z_mono. Qed.

Lemma f_of_Z_pos n : (0 < n)%Z -> fle f1 (f_of_Z n) = true.
Proof. intros. change f1 with (f_of_Z 1). apply f_of_Z_mono. lia. Qed.

Lemma flt_0_1 x : fle f1 x = true -> flt f0 x = true.
Proof.
  intros H. destruct x as [q|[]|]; try done. apply fle_fin in H.
  apply flt_spec. split; [apply fle0_fin; lra|]. apply Qle_bool_false. lra.
Qed.

Lemma fdiv_not_nan x y : is_fin x = true -> is_fin y = true -> flt f0 y = true -> is_nan (fdiv x y) = false.
Proof.
  destruct x as [a| |], y as [b| |]; try done. intros _ _ [_ H]%flt_spec.
  apply Qle_bool_false in H. simpl. destruct (Qeq_bool b 0) eqn:E; [|apply rnd_not_nan].
  apply Qeq_bool_iff in E. lra.
Qed.

(** Rounding up and truncating stays below an integer bound. *)
Lemma ceil_int_le x n : (0 <= n <= 2 ^ 53)%Z -> fle x (f_of_Z n) = true -> (f_to_int (fceil x) <= n)%Z.
Proof.
  intros Hn H. unfold f_of_Z in H. rewrite rnd_int in H by lia. destruct x as [q|[]|]; try done; [|simpl; lia].
  apply fle_fin in H. assert (C : (Qceiling q <= n)%Z).
  { rewrite <- (Qceiling_Z n). by apply Qceiling_resp_le. }
  assert (M : fle (fceil (F_fin q)) (F_fin (inject_Z n)) = true).
  { simpl. rewrite <- rnd_int by lia. by apply rnd_mono, inject_le. }
  destruct (fceil (F_fin q)) as [c|[]|]; try done; [|simpl; lia]. apply fle_fin in M. unfold f_to_int.
  assert (F : (Qfloor c <= n)%Z) by (rewrite <- (Qfloor_Z n); by apply Qfloor_resp_le).
  destruct (Qle_bool 0 c) eqn:E; [case_match; lia|].
  apply Qle_bool_false in E. assert (G : (0 <= Qfloor (- c))%Z); [|case_match; lia].
  rewrite <- (Qfloor_Z 0). apply Qfloor_resp_le. unfold inject_Z. lra.
Qed.

(** A success rate smoothed with 3.5 successes in 5 stays in the unit interval. *)
Lemma smoothed_rate_unit ok n :
  (0 <= ok <= n)%Z -> (n <= 2 ^ 52)%Z -> fbetween f0 (fdiv (fadd (f_of_Z ok) (f_dec 35 1)) (f_of_Z (n + 5))) f1.
Proof.
  intros H Hn. assert (E : f_of_Z ok = F_fin (inject_Z ok)) by (apply rnd_int; lia).
  assert (E2 : f_of_Z (n + 5) = F_fin (inject_Z (n + 5))) by (apply rnd_int; lia).
  apply fdiv_unit.
  - by rewrite E2.
  - apply fadd_nonneg; [apply f_of_Z_nonneg; lia|vm_compute; reflexivity].
  - apply flt_0_1, f_of_Z_pos. lia.
  - rewrite E. change (f_dec 35 1) with (F_fin (7 # 2)). unfold f_of_Z. apply rnd_mono.
    unfold Qle, inject_Z. simpl. lia.
Qed.
