(* ===== verification/GoString.v ===== *)
(** * Go strings and the standard-library functions the program uses on them

    A Go string is a sequence of bytes.  [TrimSpace] trims every white-space
    rune of [unicode.IsSpace] in its UTF-8 encoding; [ToLower] maps ASCII
    letters and leaves other bytes alone, so it is exact on ASCII text.  The
    file also has decimal and hexadecimal formatting, the JSON string encoder
    of [encoding/json], SHA-256 and FNV-1a, all executable. *)

From Stdlib Require Import Ascii Wf_nat.
From stdpp Require Import pretty.
From S2P Require Import Prelude.

(** ** Bytes *)

Definition byte_of (a : ascii) : Z := Z.of_N (N_of_ascii a).
Definition ascii_of (b : Z) : ascii := ascii_of_N (Z.to_N b).

Fixpoint bytes (s : string) : list Z :=
  match s with EmptyString => [] | String a s' => byte_of a :: bytes s' end.
Fixpoint of_bytes (l : list Z) : string :=
  match l with [] => EmptyString | b :: l' => String (ascii_of b) (of_bytes l') end.

Lemma ascii_of_byte_of a : ascii_of (byte_of a) = a.
Proof. unfold ascii_of, byte_of. by rewrite N2Z.id, ascii_N_embedding. Qed.

Lemma of_bytes_bytes s : of_bytes (bytes s) = s.
Proof. induction s; simpl; [done|]. by rewrite ascii_of_byte_of, IHs. Qed.

#[export] Instance bytes_inj : Inj (=) (=) bytes.
Proof. intros s t E. by rewrite <- (of_bytes_bytes s), E, of_bytes_bytes. Qed.

(** ** strings.TrimSpace *)

Definition space1 (a : Z) : bool := (a =? 32) || ((9 <=? a) && (a <=? 13)).
Definition space2 (a b : Z) : bool := (a =? 0xC2) && ((b =? 0x85) || (b =? 0xA0)).
Definition space3 (a b c : Z) : bool :=
  ((a =? 0xE1) && (b =? 0x9A) && (c =? 0x80)) ||
  ((a =? 0xE2) && (b =? 0x80) &&
     (((0x80 <=? c) && (c <=? 0x8A)) || (c =? 0xA8) || (c =? 0xA9) || (c =? 0xAF))) ||
  ((a =? 0xE2) && (b =? 0x81) && (c =? 0x9F)) ||
  ((a =? 0xE3) && (b =? 0x80) && (c =? 0x80)).

(** Drops leading white space, for the given tests on one, two and three bytes. *)
Fixpoint drop_space (s2 : Z -> Z -> bool) (s3 : Z -> Z -> Z -> bool) (l : list Z) : list Z :=
  match l with
  | [] => []
  | a :: l1 =>
      if space1 a then drop_space s2 s3 l1 else
      match l1 with
      | [] => l
      | b :: l2 =>
          if s2 a b then drop_space s2 s3 l2 else
          match l2 with
          | [] => l
          | c :: l3 => if s3 a b c then drop_space s2 s3 l3 else l
          end
      end
  end.

Definition trim_left (l : list Z) : list Z := drop_space space2 space3 l.
Definition trim_right (l : list Z) : list Z :=
  reverse (drop_space (fun a b => space2 b a) (fun a b c => space3 c b a) (reverse l)).

Definition TrimSpace (s : string) : string := of_bytes (trim_right (trim_left (bytes s))).

(** ** Case folding, prefixes, searching, splitting *)

Definition lower_byte (a : Z) : Z := if (65 <=? a) && (a <=? 90) then a + 32 else a.
Definition ToLower (s : string) : string := of_bytes (lower_byte <$> bytes s).
Definition EqualFold (s t : string) : bool := bool_decide (ToLower s = ToLower t).
Definition HasPrefix (s pre : string) : bool := String.prefix pre s.
Definition Contains (s sub : string) : bool :=
  match String.index 0 sub s with Some _ => true | None => false end.
Definition TrimPrefix (s pre : string) : string :=
  if String.prefix pre s then String.substring (String.length pre) (String.length s) s else s.

(** [strings.Split(s, sep)] for a one-byte separator. *)
Fixpoint split_bytes (sep : Z) (l : list Z) : list (list Z) :=
  match l with
  | [] => [[]]
  | b :: l' =>
      if b =? sep then [] :: split_bytes sep l'
      else match split_bytes sep l' with
           | [] => [[b]]
           | w :: ws => (b :: w) :: ws
           end
  end.
Definition Split (s : string) (sep : Z) : list string := of_bytes <$> split_bytes sep (bytes s).

(** ** Formatting *)

(** [fmt.Sprintf("%d", n)] for an unsigned integer. *)
Definition fmt_uint (n : Z) : string := pretty (Z.to_N n).

Definition hex_digit (d : Z) : Z := if d <? 10 then 48 + d else 87 + d.
Definition hex_bytes (l : list Z) : list Z := l ≫= fun b => [hex_digit (b / 16); hex_digit (b mod 16)].
Definition hex (l : list Z) : string := of_bytes (hex_bytes l).

(** ** encoding/json: string literals *)

Definition cont (b : Z) : bool := (0x80 <=? b) && (b <=? 0xBF).

(** Length of the valid UTF-8 sequence at the head of a list, or 0. *)
Definition rune_len (l : list Z) : nat :=
  match l with
  | [] => 0%nat
  | a :: l1 =>
      if a <? 0x80 then 1%nat else
      match l1 with
      | [] => 0%nat
      | b :: l2 =>
          if (0xC2 <=? a) && (a <=? 0xDF) then (if cont b then 2%nat else 0%nat) else
          match l2 with
          | [] => 0%nat
          | c :: l3 =>
              if (0xE0 <=? a) && (a <=? 0xEF) then
                if cont b && cont c && negb ((a =? 0xE0) && (b <? 0xA0)) && negb ((a =? 0xED) && (0x9F <? b))
                then 3%nat else 0%nat
              else
              match l3 with
              | [] => 0%nat
              | d :: _ =>
                  if (0xF0 <=? a) && (a <=? 0xF4) && cont b && cont c && cont d
                     && negb ((a =? 0xF0) && (b <? 0x90)) && negb ((a =? 0xF4) && (0x8F <? b))
                  then 4%nat else 0%nat
              end
          end
      end
  end.

Definition json_u00 (a : Z) : list Z := [92; 117; 48; 48; hex_digit (a / 16); hex_digit (a mod 16)].

Definition json_ascii (a : Z) : list Z :=
  if a =? 34 then [92; 34] else if a =? 92 then [92; 92]
  else if a =? 8 then [92; 98] else if a =? 12 then [92; 102] else if a =? 10 then [92; 110]
  else if a =? 13 then [92; 114] else if a =? 9 then [92; 116]
  else if (a <? 32) || (a =? 60) || (a =? 62) || (a =? 38) then json_u00 a
  else [a].

(** One escaped unit per head sequence; U+2028 and U+2029 are escaped and an
    invalid byte becomes the replacement escape. *)
Fixpoint json_body (skip : nat) (l : list Z) : list Z :=
  match l with
  | [] => []
  | a :: l' =>
      match skip with
      | S k => json_body k l'
      | O =>
          match rune_len l with
          | O => [92; 117; 102; 102; 102; 100] ++ json_body 0 l'
          | 1%nat => json_ascii a ++ json_body 0 l'
          | S k => (if bool_decide (take 3 l = [0xE2; 0x80; 0xA8]) then [92; 117; 50; 48; 50; 56]
                    else if bool_decide (take 3 l = [0xE2; 0x80; 0xA9]) then [92; 117; 50; 48; 50; 57]
                    else take (S k) l) ++ json_body k l'
          end
      end
  end.

Definition json_string (s : string) : list Z := [34] ++ json_body 0 (bytes s) ++ [34].

(** ** SHA-256 *)

Module SHA256.
Definition w32 (z : Z) : Z := z mod 2 ^ 32.
Definition rotr (n x : Z) : Z := Z.lor (Z.shiftr x n) (w32 (Z.shiftl x (32 - n))).
Definition notw (x : Z) : Z := 2 ^ 32 - 1 - x.

(** The constants are the first 32 bits of the fractional parts of the cube
    roots (round constants) and square roots (initial state) of the first primes. *)
Definition is_prime (p : Z) : bool :=
  forallb (fun d => negb (p mod Z.of_nat d =? 0)) (seq 2 (Z.to_nat (Z.sqrt p) - 1)).
Definition primes : list Z := List.filter is_prime (Z.of_nat <$> seq 2 310).

(** Floor of the cube root, one bit at a time from bit [n] down. *)
Fixpoint cbrt_bits (n : nat) (acc x : Z) : Z :=
  match n with
  | O => acc
  | S n' => let t := acc + 2 ^ Z.of_nat n' in cbrt_bits n' (if t ^ 3 <=? x then t else acc) x
  end.

Definition K : list Z := Eval vm_compute in (fun p => w32 (cbrt_bits 36 0 (p * 2 ^ 96))) <$> primes.
Definition H0 : list Z := Eval vm_compute in (fun p => w32 (Z.sqrt (p * 2 ^ 64))) <$> take 8 primes.

Definition be_bytes (n : nat) (z : Z) : list Z :=
  reverse ((fun i => (z / 2 ^ (8 * Z.of_nat i)) mod 256) <$> seq 0 n).

Definition pad (m : list Z) : list Z :=
  let n := Z.of_nat (length m) in
  m ++ [0x80] ++ replicate (Z.to_nat ((55 - n) mod 64)) 0 ++ be_bytes 8 (8 * n).

Fixpoint words (l : list Z) : list Z :=
  match l with
  | a :: b :: c :: d :: l' => (a * 2 ^ 24 + b * 2 ^ 16 + c * 2 ^ 8 + d) :: words l'
  | _ => []
  end.

(** Message schedule, kept most recent word first. *)
Definition sched_step (w : list Z) : list Z :=
  let g i := w !!! i in
  let x := g 14%nat in let y := g 1%nat in
  let s0 := Z.lxor (Z.lxor (rotr 7 x) (rotr 18 x)) (Z.shiftr x 3) in
  let s1 := Z.lxor (Z.lxor (rotr 17 y) (rotr 19 y)) (Z.shiftr y 10) in
  w32 (g 15%nat + s0 + g 6%nat + s1) :: w.

Definition schedule (block : list Z) : list Z := reverse (Nat.iter 48 sched_step (reverse block)).

Definition round (st : list Z) (kw : Z * Z) : list Z :=
  match st with
  | [a; b; c; d; e; f; g; h] =>
      let S1 := Z.lxor (Z.lxor (rotr 6 e) (rotr 11 e)) (rotr 25 e) in
      let ch := Z.lxor (Z.land e f) (Z.land (notw e) g) in
      let t1 := w32 (h + S1 + ch + kw.1 + kw.2) in
      let S0 := Z.lxor (Z.lxor (rotr 2 a) (rotr 13 a)) (rotr 22 a) in
      let maj := Z.lxor (Z.lxor (Z.land a b) (Z.land a c)) (Z.land b c) in
      let t2 := w32 (S0 + maj) in
      [w32 (t1 + t2); a; b; c; w32 (d + t1); e; f; g]
  | _ => st
  end.

Definition compress (h : list Z) (block : list Z) : list Z :=
  zip_with (fun x y => w32 (x + y)) h (foldl round h (zip K (schedule block))).

Fixpoint blocks (fuel : nat) (w : list Z) (h : list Z) : list Z :=
  match fuel, w with
  | S fuel', _ :: _ => blocks fuel' (drop 16 w) (compress h (take 16 w))
  | _, _ => h
  end.

Definition sum (m : list Z) : list Z :=
  let w := words (pad m) in
  blocks (length w) w H0 ≫= be_bytes 4.
End SHA256.

(** Hex digest of a byte string, as [hex.EncodeToString(sha256.Sum256(b)[:])]. *)
Definition sha256_hex (b : list Z) : string := hex (SHA256.sum b).

Example sha256_abc :
  sha256_hex (bytes "abc") = "ba7816bf8f01cfea414140de5dae2223b00361a396177a9cb410ff61f20015ad".
Proof. vm_compute. reflexivity. Qed.

(** ** FNV-1a, 64 bit (hash/fnv) *)

Definition fnv64a (l : list Z) : Z :=
  foldl (fun h b => wrap_u64 (Z.lxor h b * 1099511628211)) 14695981039346656037 l.

Example fnv64a_a : fnv64a (bytes "a") = 0xaf63dc4c8601ec8c.
Proof. vm_compute. reflexivity. Qed.

(** ** Trimming is idempotent *)

Definition is_byte (b : Z) : Prop := 0 <= b < 256.

Lemma byte_of_range a : is_byte (byte_of a).
Proof. unfold is_byte, byte_of. pose proof (N_ascii_bounded a). lia. Qed.

Lemma bytes_Forall s : Forall is_byte (bytes s).
Proof. induction s; simpl; constructor; [apply byte_of_range|done]. Qed.

Lemma bytes_of_bytes l : Forall is_byte l -> bytes (of_bytes l) = l.
Proof.
  induction 1 as [|b l Hb _ IH]; simpl; [done|]. rewrite IH. f_equal.
  unfold byte_of, ascii_of. rewrite N_ascii_embedding by (unfold is_byte in Hb; lia).
  unfold is_byte in Hb. lia.
Qed.

Section drop_space.
Context (s2 : Z -> Z -> bool) (s3 : Z -> Z -> Z -> bool).

(** One unfolding of [drop_space], in the shape of its head tests. *)
Lemma drop_space_cases l :
  drop_space s2 s3 l = l \/ exists k, k `suffix_of` l /\ (length k < length l)%nat /\ drop_space s2 s3 l = drop_space s2 s3 k.
Proof.
  destruct l as [|a l1]; [by left|]. destruct (space1 a) eqn:E1.
  { right. exists l1. split_and!; [by apply suffix_cons_r | simpl; lia |].
    cbn [drop_space]. by rewrite E1. }
  destruct l1 as [|b l2]; [left; cbn [drop_space]; by rewrite E1|]. destruct (s2 a b) eqn:E2.
  { right. exists l2. split_and!; [by do 2 apply suffix_cons_r | simpl; lia |].
    cbn [drop_space]. by rewrite E1, E2. }
  destruct l2 as [|c l3]; [left; cbn [drop_space]; by rewrite E1, E2|]. destruct (s3 a b c) eqn:E3.
  { right. exists l3. split_and!; [by do 3 apply suffix_cons_r | simpl; lia |].
    cbn [drop_space]. by rewrite E1, E2, E3. }
  left. cbn [drop_space]. by rewrite E1, E2, E3.
Qed.

Lemma drop_space_suffix l : drop_space s2 s3 l `suffix_of` l.
Proof.
  induction l as [l IH] using (induction_ltof1 _ length).
  destruct (drop_space_cases l) as [E|(k & Hk & Hl & E)]; rewrite E; [reflexivity|].
  transitivity k; [by apply IH | done].
Qed.

Lemma drop_space_idem l : drop_space s2 s3 (drop_space s2 s3 l) = drop_space s2 s3 l.
Proof.
  induction l as [l IH] using (induction_ltof1 _ length).
  destruct (drop_space_cases l) as [E|(k & Hk & Hl & E)]; rewrite E; [done|]. by apply IH.
Qed.

(** The head tests of a list: no leading white space. *)
Definition no_space_head (l : list Z) : bool :=
  match l with
  | [] => true
  | a :: l1 => negb (space1 a) &&
      match l1 with
      | [] => true
      | b :: l2 => negb (s2 a b) && match l2 with [] => true | c :: _ => negb (s3 a b c) end
      end
  end.

Lemma drop_space_fix l : drop_space s2 s3 l = l <-> no_space_head l = true.
Proof.
  assert (K : forall k, (length k < length l)%nat -> drop_space s2 s3 k <> l).
  { intros k Hk E. pose proof (suffix_length _ _ (drop_space_suffix k)) as M. rewrite E in M. lia. }
  destruct l as [|a l1]; [done|]. destruct (space1 a) eqn:E1.
  { simpl. rewrite E1. simpl. split; [|done]. intros E. exfalso. apply (K l1); [simpl; lia|done]. }
  destruct l1 as [|b l2]; [simpl; by rewrite E1|]. destruct (s2 a b) eqn:E2.
  { cbn [drop_space no_space_head]. rewrite E1, E2. split; [|done].
    intros E. exfalso. apply (K l2); [simpl; lia|done]. }
  destruct l2 as [|c l3]; [simpl; by rewrite E1, E2|].
  cbn [drop_space no_space_head]. rewrite E1, E2. destruct (s3 a b c); [|done]. split; [|done].
  intros E. exfalso. apply (K l3); [simpl; lia|done].
Qed.

(** No leading white space: then none on any prefix either. *)
Lemma drop_space_prefix l k : drop_space s2 s3 l = l -> k `prefix_of` l -> drop_space s2 s3 k = k.
Proof.
  rewrite !drop_space_fix. intros Hl [r ->].
  destruct k as [|a [|b [|c k]]]; simpl in *; bools; rewrite ?andb_true_iff, ?negb_true_iff; auto.
Qed.
End drop_space.

Lemma trim_left_idem l : trim_left (trim_left l) = trim_left l.
Proof. apply drop_space_idem. Qed.

Lemma trim_right_prefix l : trim_right l `prefix_of` l.
Proof.
  unfold trim_right.
  destruct (drop_space_suffix (fun a b => space2 b a) (fun a b c => space3 c b a) (reverse l)) as [k E].
  exists (reverse k). rewrite <- reverse_app, <- E. by rewrite reverse_involutive.
Qed.

Lemma trim_right_idem l : trim_right (trim_right l) = trim_right l.
Proof. unfold trim_right. by rewrite reverse_involutive, drop_space_idem. Qed.

Lemma trim_is_byte l : Forall is_byte l -> Forall is_byte (trim_right (trim_left l)).
Proof.
  intros H. destruct (trim_right_prefix (trim_left l)) as [r E].
  destruct (drop_space_suffix space2 space3 l) as [k E2].
  change (drop_space space2 space3 l) with (trim_left l) in E2.
  rewrite E2 in H. apply Forall_app in H as [_ H]. rewrite E in H.
  by apply Forall_app in H as [? _].
Qed.

Lemma TrimSpace_idem s : TrimSpace (TrimSpace s) = TrimSpace s.
Proof.
  unfold TrimSpace. rewrite bytes_of_bytes by apply trim_is_byte, bytes_Forall.
  f_equal. assert (E : trim_left (trim_right (trim_left (bytes s))) = trim_right (trim_left (bytes s))).
  { eapply drop_space_prefix; [apply trim_left_idem | apply trim_right_prefix]. }
  by rewrite E, trim_right_idem.
Qed.


(** ** A hex digest never starts with a letter beyond [f] *)

Lemma be_bytes_range n z : Forall is_byte (SHA256.be_bytes n z).
Proof.
  unfold SHA256.be_bytes. apply Forall_reverse, Forall_fmap, Forall_forall.
  intros i _. apply Z.mod_pos_bound. lia.
Qed.

Lemma sha256_sum_range m : Forall is_byte (SHA256.sum m).
Proof.
  unfold SHA256.sum. apply Forall_bind, Forall_true. intros x. apply be_bytes_range.
Qed.

Lemma sha256_hex_head m a s : sha256_hex m = String a s -> byte_of a <= 102.
Proof.
  unfold sha256_hex, hex, hex_bytes. pose proof (sha256_sum_range m) as H.
  destruct (SHA256.sum m) as [|b l]; simpl; [done|]. intros [= <- _].
  pose proof (Forall_inv H) as Hb. unfold is_byte in Hb. unfold byte_of, ascii_of.
  assert (0 <= b / 16 < 16) by (split; [apply Z.div_pos; lia | apply Z.div_lt_upper_bound; lia]).
  assert (48 <= hex_digit (b / 16) <= 102) by (unfold hex_digit; case_match; lia).
  rewrite N_ascii_embedding by lia. lia.
Qed.

(** A digest has 32 bytes: it is never empty. *)
Lemma sha256_blocks_length fuel w h : length h = 8%nat -> length (SHA256.blocks fuel w h) = 8%nat.
Proof.
  assert (R : forall l st, length st = 8%nat -> length (foldl SHA256.round st l) = 8%nat).
  { induction l as [|x l IH]; intros st H; simpl; [done|]. apply IH. unfold SHA256.round. by repeat case_match. }
  revert w h. induction fuel as [|fuel IH]; intros [|x w] h H; simpl; try done.
  apply IH. unfold SHA256.compress. rewrite length_zip_with, R, H; done.
Qed.

Lemma sha256_hex_nonempty m : sha256_hex m <> "".
Proof.
  unfold sha256_hex, hex, hex_bytes, SHA256.sum.
  pose proof (sha256_blocks_length (length (SHA256.words (SHA256.pad m))) (SHA256.words (SHA256.pad m)) SHA256.H0 eq_refl) as L.
  by destruct (SHA256.blocks _ _ _).
Qed.

(** ** Decimal ids in keys *)

Lemma bytes_app s t : bytes (s +:+ t) = bytes s ++ bytes t.
Proof. induction s as [|a s IH]; [done|]. simpl. f_equal. exact IH. Qed.

Lemma pretty_go_digits n s :
  Forall (fun b => b <> 58) (bytes s) -> Forall (fun b => b <> 58) (bytes (pretty_N_go n s)).
Proof.
  revert s. induction (N.lt_wf_0 n) as [n _ IH]; intros s F.
  destruct (N.eq_dec n 0) as [->|N]; [done|]. rewrite pretty_N_go_step by lia. apply IH; [apply N.div_lt; lia|].
  simpl. constructor; [|done]. unfold pretty_N_char, byte_of. repeat case_match; vm_compute; congruence.
Qed.

(** The decimal form of an id holds no colon. *)
Lemma fmt_uint_no_colon n : Forall (fun b => b <> 58) (bytes (fmt_uint n)).
Proof.
  unfold fmt_uint, pretty, pretty_N. case_decide; [repeat constructor; vm_compute; congruence|].
  by apply pretty_go_digits.
Qed.

Lemma fmt_uint_inj m n : 0 <= m -> 0 <= n -> fmt_uint m = fmt_uint n -> m = n.
Proof. intros Hm Hn E. unfold fmt_uint in E. apply (pretty_N_inj (Z.to_N m) (Z.to_N n)) in E. lia. Qed.

(** A text before the first colon is determined. *)
Lemma colon_split (a b x y : list Z) :
  Forall (fun c => c <> 58) a -> Forall (fun c => c <> 58) b -> a ++ 58 :: x = b ++ 58 :: y -> a = b /\ x = y.
Proof.
  intros Fa. revert b. induction Fa as [|c a Hc Fa IH]; intros [|c' b] Fb E; simplify_eq/=.
  - done.
  - inversion Fb; congruence.
  - inversion Fb; subst. destruct (IH b) as [-> ->]; done.
Qed.
