(* ===== verification/Json.v ===== *)
(** * JSON values (encoding/json)

    The decoder the program uses on request bodies, upstream events and list
    columns: a value, or [None] where [json.Unmarshal] reports a syntax error.
    Numbers keep their literal.  Strings are decoded as Go does: escapes,
    surrogate pairs, and U+FFFD for invalid UTF-8 or an unpaired surrogate. *)

From S2P Require Import Prelude GoString.

Inductive json : Type :=
| JNull
| JBool (b : bool)
| JNum (literal : list Z)
| JStr (s : string)
| JArr (l : list json)
| JObj (members : list (string * json)).

Definition replacement : list Z := [0xEF; 0xBF; 0xBD].

Definition is_ws (b : Z) : bool := (b =? 32) || (b =? 9) || (b =? 10) || (b =? 13).

Fixpoint skip_ws (l : list Z) : list Z :=
  match l with
  | b :: l' => if is_ws b then skip_ws l' else l
  | [] => []
  end.

Definition is_digit (b : Z) : bool := (48 <=? b) && (b <=? 57).

Definition hex_value (b : Z) : option Z :=
  if is_digit b then Some (b - 48)
  else if (97 <=? b) && (b <=? 102) then Some (b - 87)
  else if (65 <=? b) && (b <=? 70) then Some (b - 55) else None.

(** Four hexadecimal digits. *)
Definition hex4 (l : list Z) : option (Z * list Z) :=
  match l with
  | a :: b :: c :: d :: rest =>
      match hex_value a, hex_value b, hex_value c, hex_value d with
      | Some a, Some b, Some c, Some d => Some (((a * 16 + b) * 16 + c) * 16 + d, rest)
      | _, _, _, _ => None
      end
  | _ => None
  end.

(** [utf8.EncodeRune]; surrogates become U+FFFD. *)
Definition encode_rune (r : Z) : list Z :=
  if r <? 0x80 then [r]
  else if r <? 0x800 then [0xC0 + r / 64; 0x80 + r mod 64]
  else if (0xD800 <=? r) && (r <=? 0xDFFF) then replacement
  else if r <? 0x10000 then [0xE0 + r / 4096; 0x80 + r / 64 mod 64; 0x80 + r mod 64]
  else [0xF0 + r / 262144; 0x80 + r / 4096 mod 64; 0x80 + r / 64 mod 64; 0x80 + r mod 64].

(** A [\u] escape whose digits start [l]: the rune, with a surrogate pair joined. *)
Definition u_escape (l : list Z) : option (list Z * list Z) :=
  match hex4 l with
  | None => None
  | Some (r, rest) =>
      if (0xD800 <=? r) && (r <=? 0xDBFF) then
        match rest with
        | 92 :: 117 :: rest2 =>
            match hex4 rest2 with
            | Some (lo, rest3) =>
                if (0xDC00 <=? lo) && (lo <=? 0xDFFF)
                then Some (encode_rune (0x10000 + (r - 0xD800) * 1024 + (lo - 0xDC00)), rest3)
                else Some (replacement, rest)
            | None => Some (replacement, rest)
            end
        | _ => Some (replacement, rest)
        end
      else Some (encode_rune r, rest)
  end.

Definition simple_escape (b : Z) : option Z :=
  if (b =? 34) || (b =? 92) || (b =? 47) then Some b
  else if b =? 98 then Some 8 else if b =? 102 then Some 12 else if b =? 110 then Some 10
  else if b =? 114 then Some 13 else if b =? 116 then Some 9 else None.

(** The body of a string literal up to its closing quote. *)
Fixpoint string_body (fuel : nat) (l : list Z) : option (list Z * list Z) :=
  match fuel with
  | O => None
  | S fuel' =>
      match l with
      | [] => None
      | b :: l' =>
          if b =? 34 then Some ([], l')
          else if b <? 32 then None
          else if b =? 92 then
            match l' with
            | 117 :: l2 => match u_escape l2 with
                           | Some (s, rest) => prod_map (app s) id <$> string_body fuel' rest
                           | None => None
                           end
            | e :: l2 => match simple_escape e with
                         | Some c => prod_map (cons c) id <$> string_body fuel' l2
                         | None => None
                         end
            | [] => None
            end
          else match rune_len l with
               | O => prod_map (app replacement) id <$> string_body fuel' l'
               | n => prod_map (app (take n l)) id <$> string_body fuel' (drop n l)
               end
      end
  end.

(** The longest run of digits. *)
Fixpoint digits (l : list Z) : list Z * list Z :=
  match l with
  | b :: l' => if is_digit b then prod_map (cons b) id (digits l') else ([], l)
  | [] => ([], [])
  end.

(** An integer part: 0, or a digit 1-9 followed by digits. *)
Definition int_part (l : list Z) : option (list Z * list Z) :=
  match l with
  | 48 :: rest => Some ([48], rest)
  | b :: _ => if is_digit b then Some (digits l) else None
  | [] => None
  end.

Definition frac_part (l : list Z) : option (list Z * list Z) :=
  match l with
  | 46 :: rest => match digits rest with ([], _) => None | (ds, rest2) => Some (46 :: ds, rest2) end
  | _ => Some ([], l)
  end.

Definition exp_part (l : list Z) : option (list Z * list Z) :=
  match l with
  | e :: rest =>
      if (e =? 101) || (e =? 69) then
        let '(sign, rest) := match rest with
                             | s :: r => if (s =? 43) || (s =? 45) then ([s], r) else ([], rest)
                             | [] => ([], [])
                             end in
        match digits rest with ([], _) => None | (ds, rest2) => Some (e :: sign ++ ds, rest2) end
      else Some ([], l)
  | [] => Some ([], [])
  end.

Definition number (l : list Z) : option (list Z * list Z) :=
  let '(sign, l) := match l with 45 :: r => ([45], r) | _ => ([], l) end in
  '(i, l) ← int_part l;
  '(f, l) ← frac_part l;
  '(e, l) ← exp_part l;
  Some (sign ++ i ++ f ++ e, l).

Definition strip (pre l : list Z) : option (list Z) :=
  if bool_decide (take (length pre) l = pre) then Some (drop (length pre) l) else None.

Definition maxNestingDepth : nat := 10000.

(** Values, array elements and object members after the opening bracket. *)
Fixpoint value (fuel depth : nat) (l : list Z) : option (json * list Z) :=
  match fuel with
  | O => None
  | S fuel' =>
      match skip_ws l with
      | 34 :: rest => '(s, rest) ← string_body (S (length rest)) rest; Some (JStr (of_bytes s), rest)
      | 91 :: rest =>
          if bool_decide (maxNestingDepth < S depth)%nat then None
          else match skip_ws rest with
               | 93 :: rest => Some (JArr [], rest)
               | _ => prod_map JArr id <$> elements fuel' (S depth) rest
               end
      | 123 :: rest =>
          if bool_decide (maxNestingDepth < S depth)%nat then None
          else match skip_ws rest with
               | 125 :: rest => Some (JObj [], rest)
               | _ => prod_map JObj id <$> members fuel' (S depth) rest
               end
      | 110 :: rest => pair JNull <$> strip [117; 108; 108] rest
      | 116 :: rest => pair (JBool true) <$> strip [114; 117; 101] rest
      | 102 :: rest => pair (JBool false) <$> strip [97; 108; 115; 101] rest
      | l => prod_map JNum id <$> number l
      end
  end
with elements (fuel depth : nat) (l : list Z) : option (list json * list Z) :=
  match fuel with
  | O => None
  | S fuel' =>
      '(v, rest) ← value fuel' depth l;
      match skip_ws rest with
      | 44 :: rest => prod_map (cons v) id <$> elements fuel' depth rest
      | 93 :: rest => Some ([v], rest)
      | _ => None
      end
  end
with members (fuel depth : nat) (l : list Z) : option (list (string * json) * list Z) :=
  match fuel with
  | O => None
  | S fuel' =>
      match skip_ws l with
      | 34 :: rest =>
          '(k, rest) ← string_body (S (length rest)) rest;
          match skip_ws rest with
          | 58 :: rest =>
              '(v, rest) ← value fuel' depth rest;
              match skip_ws rest with
              | 44 :: rest => prod_map (cons (of_bytes k, v)) id <$> members fuel' depth rest
              | 125 :: rest => Some ([(of_bytes k, v)], rest)
              | _ => None
              end
          | _ => None
          end
      | _ => None
      end
  end.

(** [json.Unmarshal]'s syntax: one value, then white space only.  Every two
    levels of recursion consume a byte, so the fuel is never used up. *)
Definition parse (l : list Z) : option json :=
  '(v, rest) ← value (2 * length l + 2) 0 l;
  match skip_ws rest with [] => Some v | _ => None end.

(** [json.Unmarshal(s, &[]string)]: an array of strings; a null element leaves
    the zero value, any other element is an error. *)
Definition as_string (v : json) : option string :=
  match v with JStr s => Some s | JNull => Some EmptyString | _ => None end.

Definition unmarshal_strings (s : string) : option (list string) :=
  match parse (bytes s) with
  | Some (JArr l) => mapM as_string l
  | Some JNull => Some []
  | _ => None
  end.

(** The last member of that name, as a struct field or map entry is filled. *)
Fixpoint member (k : string) (l : list (string * json)) : option json :=
  match l with
  | [] => None
  | (k', v) :: rest => match member k rest with
                       | Some v' => Some v'
                       | None => if String.eqb k' k then Some v else None
                       end
  end.

(** ** Examples *)

Definition quote (s : string) : string := of_bytes ([34] ++ bytes s ++ [34]).

Example parse_nested :
  parse (bytes ("{" +:+ quote "a" +:+ " : [1, -2.5e3, true, null, " +:+ quote "x\u00e9\n" +:+ "]}"))
  = Some (JObj [("a", JArr [JNum [49]; JNum [45; 50; 46; 53; 101; 51]; JBool true; JNull;
                            JStr (of_bytes [120; 0xC3; 0xA9; 10])])]).
Proof. vm_compute. reflexivity. Qed.

Example parse_rejects :
  map (fun s => parse (bytes s)) ["[1,]"; "01"; "tru"; "{}x"; ""] = [None; None; None; None; None].
Proof. vm_compute. reflexivity. Qed.
