(* ===== verification/Settings.v ===== *)
(** * Scheduler settings (internal/domain/scheduler.go)

    The settings record with the source's field names, its defaults and
    [Normalize], the function every load and every update of the settings goes
    through.  [Normalize] establishes [settings_wf], the ranges the scheduler
    and the circuit breaker rely on, and is idempotent. *)

From S2P Require Import Prelude GoFloat GoString.

(** ** The settings row *)

Record SchedulerSettings : Type := mkSettings {
  CircuitWindowSec : Z;
  CircuitFailureThreshold : Z;
  CircuitCooldownSec : Z;
  CircuitMaxCooldownSec : Z;
  CircuitRateFactor : f64;
  FTTFailureWeight : Z;
  RecoveryBudgetPerMin : Z;
  RecoveryCheckTimeoutSec : Z;
  FailoverFirstTokenWaitSec : Z;
  SwitchImprovementRatio : f64;
  SwitchImprovementMs : Z;
  SwitchConfirmSec : Z;
  ExplorationRatio : f64;
  ProbeTimeoutSec : Z;
  WeightSuccess : f64;
  WeightCache : f64;
  WeightTTFT : f64;
  Epsilon : f64;
  WindowMinutes : Z;
  WindowMaxSamples : Z;
  MinSamples : Z;
  PriorSuccess : f64;
  TTFTCapMs : Z;
  StickyAnthropic : bool;
  StickyOpenAI : bool;
  StickyTTLSec : Z;
  FailoverMax : Z;
  FailoverExhaustPool : bool;
  StreamHoldUntilToken : bool;
  RetryMax : Z;
  CooldownSec : Z;
  FailureWindowSec : Z;
  FailureThreshold : Z;
  RankingMode : string;
  ProbeOpenAIModel : string;
  ProbeAnthropicModel : string;
  ProbeGrokModel : string;
  ProbeZhipuModel : string;
  ProbeMoonshotModel : string;
  ProbeDeepseekModel : string;
  FilterByModels : option bool
}.

(** The zero value of the struct, as in [routinghealth.Store{DB: p.db}]. *)
Definition ZeroSettings : SchedulerSettings := {|
  CircuitWindowSec := 0; CircuitFailureThreshold := 0; CircuitCooldownSec := 0;
  CircuitMaxCooldownSec := 0; CircuitRateFactor := f0; FTTFailureWeight := 0;
  RecoveryBudgetPerMin := 0; RecoveryCheckTimeoutSec := 0; FailoverFirstTokenWaitSec := 0;
  SwitchImprovementRatio := f0; SwitchImprovementMs := 0; SwitchConfirmSec := 0;
  ExplorationRatio := f0; ProbeTimeoutSec := 0; WeightSuccess := f0; WeightCache := f0;
  WeightTTFT := f0; Epsilon := f0; WindowMinutes := 0; WindowMaxSamples := 0; MinSamples := 0;
  PriorSuccess := f0; TTFTCapMs := 0; StickyAnthropic := false; StickyOpenAI := false;
  StickyTTLSec := 0; FailoverMax := 0; FailoverExhaustPool := false;
  StreamHoldUntilToken := false; RetryMax := 0; CooldownSec := 0; FailureWindowSec := 0;
  FailureThreshold := 0; RankingMode := ""; ProbeOpenAIModel := ""; ProbeAnthropicModel := "";
  ProbeGrokModel := ""; ProbeZhipuModel := ""; ProbeMoonshotModel := "";
  ProbeDeepseekModel := ""; FilterByModels := None
|}.

Definition ModelFilterEnabled (s : SchedulerSettings) : bool :=
  match FilterByModels s with None => true | Some b => b end.

Definition DefaultSchedulerSettings : SchedulerSettings := {|
  CircuitWindowSec := 60; CircuitFailureThreshold := 3; CircuitCooldownSec := 30;
  CircuitMaxCooldownSec := 300;
  CircuitRateFactor := f_dec 15 2;
  FTTFailureWeight := 2;
  RecoveryBudgetPerMin := 3;
  RecoveryCheckTimeoutSec := 60;
  FailoverFirstTokenWaitSec := 10;
  SwitchImprovementRatio := f_dec 20 2;
  SwitchImprovementMs := 2000;
  SwitchConfirmSec := 60;
  ExplorationRatio := f_dec 5 2;
  ProbeTimeoutSec := 30;
  WeightSuccess := f_dec 45 2;
  WeightCache := f_dec 30 2;
  WeightTTFT := f_dec 25 2;
  Epsilon := f_dec 8 2;
  WindowMinutes := 15;
  WindowMaxSamples := 50;
  MinSamples := 5;
  PriorSuccess := f_dec 70 2;
  TTFTCapMs := 8000;
  StickyAnthropic := true;
  StickyOpenAI := false;
  StickyTTLSec := 3600;
  FailoverMax := 2;
  FailoverExhaustPool := false;
  StreamHoldUntilToken := false;
  RetryMax := 1;
  CooldownSec := 30;
  FailureWindowSec := 60;
  FailureThreshold := 8;
  RankingMode := "adaptive";
  ProbeOpenAIModel := "gpt-4o-mini";
  ProbeAnthropicModel := "claude-3-haiku-20240307";
  ProbeGrokModel := "grok-3-mini";
  ProbeZhipuModel := "glm-4.5-flash";
  ProbeMoonshotModel := "kimi-k2-turbo-preview";
  ProbeDeepseekModel := "deepseek-chat";
  FilterByModels := Some true
|}.

(** ** Probe models (one slot per vendor) *)

Definition VendorOpenAI : string := "openai".
Definition VendorAnthropic : string := "anthropic".
Definition VendorGrok : string := "grok".
Definition VendorZhipu : string := "zhipu".
Definition VendorMoonshot : string := "moonshot".
Definition VendorDeepseek : string := "deepseek".

Definition ProtocolOpenAI : string := "openai".
Definition ProtocolAnthropic : string := "anthropic".

(** The ids and protocols of the probe vendors, in display order. *)
Definition ProbeVendors : list (string * string) :=
  [(VendorOpenAI, ProtocolOpenAI); (VendorAnthropic, ProtocolAnthropic); (VendorGrok, ProtocolOpenAI);
   (VendorZhipu, ProtocolOpenAI); (VendorMoonshot, ProtocolOpenAI); (VendorDeepseek, ProtocolOpenAI)].

Definition ProbeModel (s : SchedulerSettings) (vendor : string) : string :=
  if String.eqb vendor VendorOpenAI then TrimSpace (ProbeOpenAIModel s)
  else if String.eqb vendor VendorAnthropic then TrimSpace (ProbeAnthropicModel s)
  else if String.eqb vendor VendorGrok then TrimSpace (ProbeGrokModel s)
  else if String.eqb vendor VendorZhipu then TrimSpace (ProbeZhipuModel s)
  else if String.eqb vendor VendorMoonshot then TrimSpace (ProbeMoonshotModel s)
  else if String.eqb vendor VendorDeepseek then TrimSpace (ProbeDeepseekModel s)
  else "".

(** The settings with the six probe models replaced. *)
Definition set_probe_models (s : SchedulerSettings) (m1 m2 m3 m4 m5 m6 : string) : SchedulerSettings := {|
  CircuitWindowSec := CircuitWindowSec s; CircuitFailureThreshold := CircuitFailureThreshold s;
  CircuitCooldownSec := CircuitCooldownSec s; CircuitMaxCooldownSec := CircuitMaxCooldownSec s;
  CircuitRateFactor := CircuitRateFactor s; FTTFailureWeight := FTTFailureWeight s;
  RecoveryBudgetPerMin := RecoveryBudgetPerMin s; RecoveryCheckTimeoutSec := RecoveryCheckTimeoutSec s;
  FailoverFirstTokenWaitSec := FailoverFirstTokenWaitSec s;
  SwitchImprovementRatio := SwitchImprovementRatio s; SwitchImprovementMs := SwitchImprovementMs s;
  SwitchConfirmSec := SwitchConfirmSec s; ExplorationRatio := ExplorationRatio s;
  ProbeTimeoutSec := ProbeTimeoutSec s; WeightSuccess := WeightSuccess s; WeightCache := WeightCache s;
  WeightTTFT := WeightTTFT s; Epsilon := Epsilon s; WindowMinutes := WindowMinutes s;
  WindowMaxSamples := WindowMaxSamples s; MinSamples := MinSamples s; PriorSuccess := PriorSuccess s;
  TTFTCapMs := TTFTCapMs s; StickyAnthropic := StickyAnthropic s; StickyOpenAI := StickyOpenAI s;
  StickyTTLSec := StickyTTLSec s; FailoverMax := FailoverMax s;
  FailoverExhaustPool := FailoverExhaustPool s; StreamHoldUntilToken := StreamHoldUntilToken s;
  RetryMax := RetryMax s; CooldownSec := CooldownSec s; FailureWindowSec := FailureWindowSec s;
  FailureThreshold := FailureThreshold s; RankingMode := RankingMode s; ProbeOpenAIModel := m1;
  ProbeAnthropicModel := m2; ProbeGrokModel := m3; ProbeZhipuModel := m4; ProbeMoonshotModel := m5;
  ProbeDeepseekModel := m6; FilterByModels := FilterByModels s
|}.

Definition SetProbeModel (s : SchedulerSettings) (vendor model : string) : SchedulerSettings :=
  let model := TrimSpace model in
  let set v old := if String.eqb vendor v then model else old in
  set_probe_models s (set VendorOpenAI (ProbeOpenAIModel s)) (set VendorAnthropic (ProbeAnthropicModel s))
    (set VendorGrok (ProbeGrokModel s)) (set VendorZhipu (ProbeZhipuModel s))
    (set VendorMoonshot (ProbeMoonshotModel s)) (set VendorDeepseek (ProbeDeepseekModel s)).

Definition ConfiguredProbeModels (s : SchedulerSettings) : gmap string string :=
  foldl (fun out v => let m := ProbeModel s v.1 in
                      if String.eqb m "" then out else <[v.1 := m]> out) ∅ ProbeVendors.

(** ** Normalize *)

(** The ranking modes the [switch] accepts. *)
Definition ranking_modes : list string :=
  ["adaptive"; "fixed_order"; "cache_affinity"; "load_balance"; "stable_latency"].

Definition norm_string (s d : string) : string :=
  let s := TrimSpace s in if String.eqb s "" then d else s.

Definition Normalize (s : SchedulerSettings) : SchedulerSettings :=
  let d := DefaultSchedulerSettings in
  let cooldown := if (CircuitCooldownSec s <=? 0) || (600 <? CircuitCooldownSec s) then 30
                  else CircuitCooldownSec s in
  let wS := if flt (WeightSuccess s) f0 then f0 else WeightSuccess s in
  let wC := if flt (WeightCache s) f0 then f0 else WeightCache s in
  let wT := if flt (WeightTTFT s) f0 then f0 else WeightTTFT s in
  let zero_sum := fle (fadd (fadd wS wC) wT) f0 in
  let maxSamples := if WindowMaxSamples s <=? 0 then WindowMaxSamples d else WindowMaxSamples s in
  let minSamples := if MinSamples s <=? 0 then MinSamples d else MinSamples s in
  let trimmed := TrimSpace (RankingMode s) in
  let mode := if bool_decide (trimmed ∈ ranking_modes) then trimmed else RankingMode d in
  let stable := String.eqb mode "stable_latency" in
  let minSamples' := if stable then Z.max minSamples 5 else minSamples in
  {| CircuitWindowSec := if (CircuitWindowSec s <=? 0) || (3600 <? CircuitWindowSec s) then 60
                         else CircuitWindowSec s;
     CircuitFailureThreshold :=
       if (CircuitFailureThreshold s <=? 0) || (100 <? CircuitFailureThreshold s) then 3
       else CircuitFailureThreshold s;
     CircuitCooldownSec := cooldown;
     CircuitMaxCooldownSec :=
       if (CircuitMaxCooldownSec s <? cooldown) || (3600 <? CircuitMaxCooldownSec s)
       then Z.max 300 cooldown else CircuitMaxCooldownSec s;
     CircuitRateFactor := let f := if flt (CircuitRateFactor s) f0 then f0 else CircuitRateFactor s in
                          if fgt f f1 then f1 else f;
     FTTFailureWeight := let w := if FTTFailureWeight s <=? 0 then 1 else FTTFailureWeight s in
                         if 10 <? w then 10 else w;
     RecoveryBudgetPerMin := let b := if RecoveryBudgetPerMin s <=? 0 then 3 else RecoveryBudgetPerMin s in
                             if 10 <? b then 10 else b;
     RecoveryCheckTimeoutSec :=
       if (RecoveryCheckTimeoutSec s <=? 0) || (300 <? RecoveryCheckTimeoutSec s) then 60
       else RecoveryCheckTimeoutSec s;
     FailoverFirstTokenWaitSec :=
       let w := if FailoverFirstTokenWaitSec s <=? 0 then 10 else FailoverFirstTokenWaitSec s in
       if 30 <? w then 30 else w;
     SwitchImprovementRatio :=
       if fle (SwitchImprovementRatio s) f0 || fgt (SwitchImprovementRatio s) f1 then f_dec 20 2
       else SwitchImprovementRatio s;
     SwitchImprovementMs := if SwitchImprovementMs s <=? 0 then 2000 else SwitchImprovementMs s;
     SwitchConfirmSec := if SwitchConfirmSec s <=? 0 then 60 else SwitchConfirmSec s;
     ExplorationRatio :=
       if flt (ExplorationRatio s) f0 || fgt (ExplorationRatio s) (f_dec 5 2) then f_dec 5 2
       else ExplorationRatio s;
     ProbeTimeoutSec := let p := if ProbeTimeoutSec s <=? 0 then 30 else ProbeTimeoutSec s in
                        if 300 <? p then 300 else p;
     WeightSuccess := if zero_sum then WeightSuccess d else wS;
     WeightCache := if zero_sum then WeightCache d else wC;
     WeightTTFT := if zero_sum then WeightTTFT d else wT;
     Epsilon := if fle (Epsilon s) f0 || fgt (Epsilon s) (f_dec 5 1) then Epsilon d else Epsilon s;
     WindowMinutes := if WindowMinutes s <=? 0 then WindowMinutes d else WindowMinutes s;
     WindowMaxSamples := if stable then Z.max maxSamples minSamples' else maxSamples;
     MinSamples := minSamples';
     PriorSuccess := if fle (PriorSuccess s) f0 || fgt (PriorSuccess s) f1 then PriorSuccess d
                     else PriorSuccess s;
     TTFTCapMs := if TTFTCapMs s <=? 0 then TTFTCapMs d else TTFTCapMs s;
     StickyAnthropic := StickyAnthropic s;
     StickyOpenAI := StickyOpenAI s;
     StickyTTLSec := if StickyTTLSec s <=? 0 then StickyTTLSec d else StickyTTLSec s;
     FailoverMax := let n := if FailoverMax s <? 1 then 1 else FailoverMax s in if 5 <? n then 5 else n;
     FailoverExhaustPool := FailoverExhaustPool s;
     StreamHoldUntilToken := StreamHoldUntilToken s;
     RetryMax := let n := if RetryMax s <? 0 then 0 else RetryMax s in if 5 <? n then 5 else n;
     CooldownSec := if CooldownSec s <=? 0 then CooldownSec d else CooldownSec s;
     FailureWindowSec := let n := if FailureWindowSec s <=? 0 then FailureWindowSec d else FailureWindowSec s in
                         if 3600 <? n then 3600 else n;
     FailureThreshold := let n := if FailureThreshold s <=? 0 then FailureThreshold d else FailureThreshold s in
                         if 100 <? n then 100 else n;
     RankingMode := mode;
     ProbeOpenAIModel := norm_string (ProbeOpenAIModel s) (ProbeOpenAIModel d);
     ProbeAnthropicModel := norm_string (ProbeAnthropicModel s) (ProbeAnthropicModel d);
     ProbeGrokModel := norm_string (ProbeGrokModel s) (ProbeGrokModel d);
     ProbeZhipuModel := norm_string (ProbeZhipuModel s) (ProbeZhipuModel d);
     ProbeMoonshotModel := norm_string (ProbeMoonshotModel s) (ProbeMoonshotModel d);
     ProbeDeepseekModel := norm_string (ProbeDeepseekModel s) (ProbeDeepseekModel d);
     FilterByModels := match FilterByModels s with None => Some true | Some b => Some b end
  |}.

(** ** What [Normalize] establishes *)

(** The integer ranges and the ranking mode, as the rest of the program uses them. *)
Record settings_wf (s : SchedulerSettings) : Prop := {
  wf_window : 1 <= CircuitWindowSec s <= 3600;
  wf_threshold : 1 <= CircuitFailureThreshold s <= 100;
  wf_cooldown : 1 <= CircuitCooldownSec s <= 600;
  wf_max_cooldown : CircuitCooldownSec s <= CircuitMaxCooldownSec s <= 3600;
  wf_ftt : 1 <= FTTFailureWeight s <= 10;
  wf_budget : 1 <= RecoveryBudgetPerMin s <= 10;
  wf_check_timeout : 1 <= RecoveryCheckTimeoutSec s <= 300;
  wf_first_token : 1 <= FailoverFirstTokenWaitSec s <= 30;
  wf_samples : 1 <= MinSamples s;
  wf_max_samples : 1 <= WindowMaxSamples s;
  wf_minutes : 1 <= WindowMinutes s;
  wf_sticky : 1 <= StickyTTLSec s;
  wf_failover : 1 <= FailoverMax s <= 5;
  wf_retry : 0 <= RetryMax s <= 5;
  wf_mode : RankingMode s ∈ ranking_modes;
  wf_stable : RankingMode s = "stable_latency" -> 5 <= MinSamples s <= WindowMaxSamples s;
  wf_filter : FilterByModels s <> None
}.

Lemma Normalize_settings_wf s : settings_wf (Normalize s).
Proof.
  split; simpl.
  all: try (repeat case_match; bools; lia).
  - case_bool_decide; [done|]. unfold ranking_modes. simpl. set_solver.
  - intros Hm. rewrite Hm. simpl. repeat case_match; lia.
  - by case_match.
Qed.

(** The float ranges, for settings that hold no NaN (they come from JSON or from
    a decimal column). *)
Record settings_floats (s : SchedulerSettings) : Prop := {
  wf_weights : fle f0 (WeightSuccess s) = true /\ fle f0 (WeightCache s) = true /\ fle f0 (WeightTTFT s) = true;
  wf_weight_sum : flt f0 (fadd (fadd (WeightSuccess s) (WeightCache s)) (WeightTTFT s)) = true;
  wf_epsilon : flt f0 (Epsilon s) = true /\ fle (Epsilon s) (f_dec 5 1) = true;
  wf_prior : flt f0 (PriorSuccess s) = true /\ fle (PriorSuccess s) f1 = true;
  wf_rate : fbetween f0 (CircuitRateFactor s) f1;
  wf_explore : fbetween f0 (ExplorationRatio s) (f_dec 5 2)
}.

Lemma settings_ext (s t : SchedulerSettings) :
  CircuitWindowSec s = CircuitWindowSec t -> CircuitFailureThreshold s = CircuitFailureThreshold t ->
  CircuitCooldownSec s = CircuitCooldownSec t -> CircuitMaxCooldownSec s = CircuitMaxCooldownSec t ->
  CircuitRateFactor s = CircuitRateFactor t -> FTTFailureWeight s = FTTFailureWeight t ->
  RecoveryBudgetPerMin s = RecoveryBudgetPerMin t -> RecoveryCheckTimeoutSec s = RecoveryCheckTimeoutSec t ->
  FailoverFirstTokenWaitSec s = FailoverFirstTokenWaitSec t ->
  SwitchImprovementRatio s = SwitchImprovementRatio t -> SwitchImprovementMs s = SwitchImprovementMs t ->
  SwitchConfirmSec s = SwitchConfirmSec t -> ExplorationRatio s = ExplorationRatio t ->
  ProbeTimeoutSec s = ProbeTimeoutSec t ->
  (WeightSuccess s, WeightCache s, WeightTTFT s) = (WeightSuccess t, WeightCache t, WeightTTFT t) ->
  Epsilon s = Epsilon t -> WindowMinutes s = WindowMinutes t -> WindowMaxSamples s = WindowMaxSamples t ->
  MinSamples s = MinSamples t -> PriorSuccess s = PriorSuccess t -> TTFTCapMs s = TTFTCapMs t ->
  (StickyAnthropic s, StickyOpenAI s, FailoverExhaustPool s, StreamHoldUntilToken s, FilterByModels s) =
  (StickyAnthropic t, StickyOpenAI t, FailoverExhaustPool t, StreamHoldUntilToken t, FilterByModels t) ->
  StickyTTLSec s = StickyTTLSec t -> FailoverMax s = FailoverMax t -> RetryMax s = RetryMax t ->
  CooldownSec s = CooldownSec t -> FailureWindowSec s = FailureWindowSec t ->
  FailureThreshold s = FailureThreshold t -> RankingMode s = RankingMode t ->
  ProbeOpenAIModel s = ProbeOpenAIModel t -> ProbeAnthropicModel s = ProbeAnthropicModel t ->
  ProbeGrokModel s = ProbeGrokModel t -> ProbeZhipuModel s = ProbeZhipuModel t ->
  ProbeMoonshotModel s = ProbeMoonshotModel t -> ProbeDeepseekModel s = ProbeDeepseekModel t -> s = t.
Proof. destruct s, t; simpl; intros; simplify_eq. reflexivity. Qed.

Lemma norm_string_idem s d : TrimSpace d = d -> norm_string (norm_string s d) d = norm_string s d.
Proof.
  intros Hd. unfold norm_string. destruct (String.eqb (TrimSpace s) "") eqn:E.
  - rewrite Hd. by destruct (String.eqb d "").
  - by rewrite TrimSpace_idem, E.
Qed.

(** The accepted modes are already trimmed. *)
Lemma ranking_modes_trimmed m : m ∈ ranking_modes -> TrimSpace m = m.
Proof.
  unfold ranking_modes. intros H. repeat (apply elem_of_cons in H as [->|H]; [vm_compute; done|]).
  by apply elem_of_nil in H.
Qed.

Definition norm_mode (m : string) : string :=
  let t := TrimSpace m in if bool_decide (t ∈ ranking_modes) then t else "adaptive".

Lemma norm_mode_idem m : norm_mode (norm_mode m) = norm_mode m.
Proof.
  assert (H : norm_mode m ∈ ranking_modes).
  { unfold norm_mode. case_bool_decide; [done|]. unfold ranking_modes. set_solver. }
  unfold norm_mode at 1. rewrite (ranking_modes_trimmed _ H). by rewrite bool_decide_eq_true_2.
Qed.

(** The three weights after [Normalize]. *)
Definition norm_weights (a b c : f64) : f64 * f64 * f64 :=
  let p x := if flt x f0 then f0 else x in
  if fle (fadd (fadd (p a) (p b)) (p c)) f0 then (f_dec 45 2, f_dec 30 2, f_dec 25 2)
  else (p a, p b, p c).

Lemma norm_weights_idem a b c :
  let w := norm_weights a b c in norm_weights w.1.1 w.1.2 w.2 = w.
Proof.
  assert (C : forall x, (if flt (if flt x f0 then f0 else x) f0 then f0 else if flt x f0 then f0 else x)
                        = if flt x f0 then f0 else x).
  { intros x. destruct (flt x f0) eqn:E; [done|]. by rewrite E. }
  cbv zeta. unfold norm_weights at 2 3 4 5. destruct (fle _ f0) eqn:E.
  - vm_compute. done.
  - cbn [fst snd]. unfold norm_weights. cbv zeta. rewrite !C, E. done.
Qed.

Lemma Normalize_weights s :
  (WeightSuccess (Normalize s), WeightCache (Normalize s), WeightTTFT (Normalize s)) =
  norm_weights (WeightSuccess s) (WeightCache s) (WeightTTFT s).
Proof. unfold norm_weights. cbn [Normalize WeightSuccess WeightCache WeightTTFT]. by destruct (fle _ f0). Qed.

(** Clamped floats are stable under the clamp. *)
Lemma clamp_default_idem (bad : f64 -> bool) (x d : f64) :
  bad d = false ->
  (if bad (if bad x then d else x) then d else if bad x then d else x) = if bad x then d else x.
Proof. intros Hd. destruct (bad x) eqn:E; [by rewrite Hd | by rewrite E]. Qed.

Lemma Normalize_idem_lemma s : Normalize (Normalize s) = Normalize s.
Proof.
  assert (M : RankingMode (Normalize (Normalize s)) = RankingMode (Normalize s))
    by exact (norm_mode_idem (RankingMode s)).
  apply settings_ext; try exact M; try (simpl; repeat case_match; bools; lia);
    try (apply norm_string_idem; vm_compute; done).
  - cbn [Normalize CircuitRateFactor]. destruct (flt (CircuitRateFactor s) f0) eqn:E1; [done|].
    destruct (fgt (CircuitRateFactor s) f1) eqn:E2; [done|]. by rewrite E1, E2.
  - exact (clamp_default_idem (fun x => fle x f0 || fgt x f1) _ (f_dec 20 2) eq_refl).
  - exact (clamp_default_idem (fun x => flt x f0 || fgt x (f_dec 5 2)) _ (f_dec 5 2) eq_refl).
  - rewrite Normalize_weights. pose proof (norm_weights_idem (WeightSuccess s) (WeightCache s) (WeightTTFT s)) as W.
    rewrite <- Normalize_weights in W. cbn [fst snd] in W. exact W.
  - exact (clamp_default_idem (fun x => fle x f0 || fgt x (f_dec 5 1)) _ (f_dec 8 2) eq_refl).
  - assert (M' : String.eqb (RankingMode (Normalize (Normalize s))) "stable_latency"
                 = String.eqb (RankingMode (Normalize s)) "stable_latency") by by rewrite M.
    clear M. simpl in M' |- *. rewrite M'. destruct (String.eqb _ "stable_latency"); repeat case_match; lia.
  - assert (M' : String.eqb (RankingMode (Normalize (Normalize s))) "stable_latency"
                 = String.eqb (RankingMode (Normalize s)) "stable_latency") by by rewrite M.
    clear M. simpl in M' |- *. rewrite M'. destruct (String.eqb _ "stable_latency"); repeat case_match; lia.
  - exact (clamp_default_idem (fun x => fle x f0 || fgt x f1) _ (f_dec 70 2) eq_refl).
  - simpl. by destruct (FilterByModels s).
Qed.

(** ** Float ranges of normalised settings *)

(** No NaN among the float settings. *)
Definition no_nan (s : SchedulerSettings) : Prop :=
  is_nan (WeightSuccess s) = false /\ is_nan (WeightCache s) = false /\ is_nan (WeightTTFT s) = false
  /\ is_nan (Epsilon s) = false /\ is_nan (PriorSuccess s) = false /\ is_nan (CircuitRateFactor s) = false
  /\ is_nan (ExplorationRatio s) = false.

Lemma gt_of_not_le x y : is_nan x = false -> is_nan y = false -> fle x y = false -> flt y x = true.
Proof.
  intros Nx Ny H. apply flt_spec. destruct (fle_total x y Nx Ny) as [H'|H']; [congruence|done].
Qed.

(** A value that fails neither range test is in range. *)
Lemma kept_range x lo hi :
  is_nan x = false -> is_nan lo = false -> is_nan hi = false -> fle x lo || fgt x hi = false ->
  flt lo x = true /\ fle x hi = true.
Proof.
  intros Nx Nl Nh H. apply orb_false_iff in H as [H1 H2]. split; [by apply gt_of_not_le|by apply flt_false_fle].
Qed.

Lemma norm_weights_ok a b c :
  is_nan a = false -> is_nan b = false -> is_nan c = false ->
  let w := norm_weights a b c in
  (fle f0 w.1.1 = true /\ fle f0 w.1.2 = true /\ fle f0 w.2 = true) /\ flt f0 (fadd (fadd w.1.1 w.1.2) w.2) = true.
Proof.
  intros Na Nb Nc. assert (P : forall x, is_nan x = false -> fle f0 (if flt x f0 then f0 else x) = true).
  { intros x Nx. destruct (flt x f0) eqn:E; [done|]. by apply flt_false_fle. }
  unfold norm_weights. destruct (fle (fadd _ _) f0) eqn:E; cbn [fst snd].
  - split_and!; vm_compute; reflexivity.
  - split; [auto|]. apply flt_spec. split; [|done]. apply fadd_nonneg; [apply fadd_nonneg|]; auto.
Qed.

(** A float setting that falls back to a default outside (lo, hi]. *)
Lemma default_range x lo hi d :
  is_nan x = false -> is_nan lo = false -> is_nan hi = false -> flt lo d = true -> fle d hi = true ->
  let y := if fle x lo || fgt x hi then d else x in flt lo y = true /\ fle y hi = true.
Proof. intros Nx Nl Nh D1 D2. cbv zeta. destruct (fle x lo || fgt x hi) eqn:E; [done|by apply kept_range]. Qed.

Lemma Normalize_floats s : no_nan s -> settings_floats (Normalize s).
Proof.
  intros (N1 & N2 & N3 & N4 & N5 & N6 & N7).
  pose proof (norm_weights_ok _ _ _ N1 N2 N3) as W. rewrite <- Normalize_weights in W. cbn [fst snd] in W.
  split.
  - apply W.
  - apply W.
  - exact (default_range (Epsilon s) f0 (f_dec 5 1) (f_dec 8 2) N4 eq_refl eq_refl eq_refl eq_refl).
  - exact (default_range (PriorSuccess s) f0 f1 (f_dec 70 2) N5 eq_refl eq_refl eq_refl eq_refl).
  - cbn [Normalize CircuitRateFactor]. destruct (flt (CircuitRateFactor s) f0) eqn:E1; [by split|].
    destruct (fgt (CircuitRateFactor s) f1) eqn:E2; [by split|]. split; by apply flt_false_fle.
  - cbn [Normalize ExplorationRatio].
    destruct (flt (ExplorationRatio s) f0 || fgt (ExplorationRatio s) (f_dec 5 2)) eqn:E; [by split|].
    apply orb_false_iff in E as [E1 E2]. split; by apply flt_false_fle.
Qed.

(** ** The properties *)

(** Normalize puts every setting into the range the scheduler and the
    circuit breaker rely on: integer settings for any input, float settings
    (weights non-negative with a positive sum, epsilon, prior, rate factor,
    exploration ratio) for any input without NaN. *)
Theorem normalize_ranges s : settings_wf (Normalize s) /\ (no_nan s -> settings_floats (Normalize s)).
Proof. split; [apply Normalize_settings_wf|apply Normalize_floats]. Qed.

Lemma normalize_ranges_witness : settings_floats (Normalize ZeroSettings).
Proof. apply (normalize_ranges ZeroSettings). by split_and!. Defined.

(** Normalize is idempotent: settings that were stored normalised are read
    back unchanged by every later Normalize. *)
Theorem normalize_idempotent s : Normalize (Normalize s) = Normalize s.
Proof. apply Normalize_idem_lemma. Qed.

(** SetProbeModel and ProbeModel round trip: the model set for a known
    vendor is read back trimmed, and the other vendors keep theirs. *)
Theorem set_probe_model_roundtrip s v model v' :
  v ∈ map fst ProbeVendors ->
  ProbeModel (SetProbeModel s v model) v' = if String.eqb v' v then TrimSpace model else ProbeModel s v'.
Proof.
  intros H. unfold ProbeModel, SetProbeModel.
  unfold ProbeVendors, VendorOpenAI, VendorAnthropic, VendorGrok, VendorZhipu, VendorMoonshot, VendorDeepseek in *.
  simpl in H.
  repeat (apply elem_of_cons in H as [->|H];
    [simpl; repeat match goal with |- context [String.eqb v' ?x] => destruct (String.eqb_spec v' x); [subst v'; simpl|] end;
     rewrite ?TrimSpace_idem; done|]).
  by apply elem_of_nil in H.
Qed.

Lemma set_probe_model_roundtrip_witness :
  ProbeModel (SetProbeModel DefaultSchedulerSettings VendorGrok " grok-4 ") VendorGrok
  = if String.eqb VendorGrok VendorGrok then TrimSpace " grok-4 " else ProbeModel DefaultSchedulerSettings VendorGrok.
Proof. apply set_probe_model_roundtrip. vm_compute. right. right. left. Defined.
