(* ===== verification/Domain.v ===== *)
(** * Providers, keys and route groups (internal/domain/models.go, catalog.go)

    The records the scheduler works on, with the fields it reads, and the
    functions that derive protocols, models and names from them. *)

From S2P Require Import Prelude GoFloat GoString Json Settings.

(** ** Constants *)

Definition KindSub2API : string := "sub2api".
Definition KindNewAPI : string := "new_api".
Definition KindOpenAICompat : string := "openai_compat".
Definition KindAnthropicCompat : string := "anthropic_compat".
Definition StatusEnabled : string := "enabled".
Definition StatusDisabled : string := "disabled".
Definition HealthHealthy : string := "healthy".
Definition HealthDegraded : string := "degraded".
Definition HealthDown : string := "down".
Definition HealthCooldown : string := "cooldown".
Definition HealthLowBalance : string := "low_balance".
Definition HealthDisabled : string := "disabled".
Definition SourceBusiness : string := "business".
Definition SourceAdminTest : string := "admin_test".

Definition ValidKind (kind : string) : bool :=
  bool_decide (kind ∈ [KindSub2API; KindNewAPI; KindOpenAICompat; KindAnthropicCompat]).
Definition KindHasBilling (kind : string) : bool := String.eqb kind KindSub2API || String.eqb kind KindNewAPI.
Definition ValidStatus (status : string) : bool := String.eqb status StatusEnabled || String.eqb status StatusDisabled.
Definition ValidProtocol (p : string) : bool := String.eqb p ProtocolOpenAI || String.eqb p ProtocolAnthropic.
Definition ValidHealth (h : string) : bool :=
  bool_decide (h ∈ [HealthHealthy; HealthDegraded; HealthDown; HealthCooldown; HealthLowBalance; HealthDisabled]).

(** ** Records *)

Record Upstream : Type := mkUpstream {
  up_ID : Z;
  up_Name : string;
  up_BaseURL : string;
  up_Kind : string;
  up_Protocols : string;
  up_Status : string;
  up_NewAPIUserID : Z;
  up_Concurrency : Z;
  up_HealthStatus : string;
  up_CooldownUntil : option time;
  up_LastError : string;
  up_LastBalance : option f64;
  up_LastBalanceAt : option time
}.

Record PlatformKey : Type := mkKey {
  pk_Protocols : string;
  pk_ID : Z;
  pk_UpstreamID : Z;
  pk_Name : string;
  pk_NameTag : string;
  pk_KeyPreview : string;
  pk_RateMultiplier : f64;
  pk_BillingGroup : string;
  pk_Status : string;
  pk_RPMLimit : Z;
  pk_MaxConcurrency : Z;
  pk_LastBalance : option f64;
  pk_LastError : string;
  pk_CooldownUntil : option time;
  pk_HealthStatus : string;
  pk_ProbeIntervalSec : Z;
  pk_ProbeEnabled : option bool;
  pk_LastModels : list string;
  pk_Upstream : option Upstream
}.

Record RouteGroup : Type := mkGroup {
  rg_ID : Z;
  rg_Name : string;
  rg_Protocol : string;
  rg_Models : list string;
  rg_RateMin : option f64;
  rg_RateMax : option f64;
  rg_SaleMultiplier : option f64;
  rg_Status : string
}.

Definition MatchesProtocol (g : RouteGroup) (protocol : string) : bool :=
  String.eqb (rg_Protocol g) "" || String.eqb (rg_Protocol g) protocol.

(** ** Lists kept in one column *)

(** The loop of [NormalizeStrings]: trimmed, lower case, no blanks, no repeats. *)
Fixpoint normalize_loop (seen : gset string) (items : list string) : list string :=
  match items with
  | [] => []
  | it :: rest =>
      let it := ToLower (TrimSpace it) in
      if String.eqb it "" || bool_decide (it ∈ seen) then normalize_loop seen rest
      else it :: normalize_loop ({[it]} ∪ seen) rest
  end.

Definition NormalizeStrings (items : list string) : list string := normalize_loop ∅ items.

Definition comma : Z := 44.

Definition SplitCSV (s : string) : list string :=
  let s := TrimSpace s in
  if String.eqb s "" then [] else
  match (if HasPrefix s "[" then unmarshal_strings s else None) with
  | Some arr => NormalizeStrings arr
  | None => NormalizeStrings (Split s comma)
  end.

(** [strings.Join(items, ",")]. *)
Fixpoint join_comma (items : list string) : string :=
  match items with
  | [] => ""
  | [x] => x
  | x :: rest => x +:+ "," +:+ join_comma rest
  end.

Definition JoinCSV (items : list string) : string := join_comma (NormalizeStrings items).

(** ** Protocols and models of a key *)

Definition ProtocolList (u : Upstream) : list string := SplitCSV (up_Protocols u).

Definition Supports (u : Upstream) (protocol : string) : bool :=
  existsb (fun p => String.eqb p protocol) (ProtocolList u).

Definition EffectiveProtocols (k : PlatformKey) : list string :=
  match pk_Upstream k with
  | None => []
  | Some u =>
      let configured := SplitCSV (pk_Protocols k) in
      let configured := if bool_decide (configured = []) then ProtocolList u else configured in
      List.filter (fun p => ValidProtocol p && Supports u p) configured
  end.

Definition SupportsProtocol (k : PlatformKey) (protocol : string) : bool :=
  existsb (fun p => String.eqb p protocol) (EffectiveProtocols k).

Definition SupportsModel (k : PlatformKey) (model : string) : bool :=
  let model := ToLower (TrimSpace model) in
  if String.eqb model "" || bool_decide (pk_LastModels k = []) then true
  else existsb (fun id => String.eqb (ToLower (TrimSpace id)) model) (pk_LastModels k).

Definition EffectiveBillingGroup (k : PlatformKey) : string :=
  let g := TrimSpace (pk_BillingGroup k) in if String.eqb g "" then "default" else g.

(** [k] may be nil. *)
Definition ProbeEvery (k : option PlatformKey) (fallback : duration) : duration :=
  match k with
  | Some k => if 0 <? pk_ProbeIntervalSec k then pk_ProbeIntervalSec k * Second else fallback
  | None => fallback
  end.

Definition AllowsProbe (k : option PlatformKey) : bool :=
  match k with Some k => default true (pk_ProbeEnabled k) | None => true end.

(** ** Probe vendors *)

Definition ValidProbeVendor (id : string) : bool := existsb (fun v => String.eqb v.1 id) ProbeVendors.
Definition VendorProtocol (vendor : string) : string :=
  if String.eqb vendor VendorAnthropic then ProtocolAnthropic else ProtocolOpenAI.
Definition ProbeVendorIDs : list string := map fst ProbeVendors.

(** ** Failure actions (internal/domain/routing.go) *)

Definition ActionKeyQuotaExhausted : string := "key_quota_exhausted".
Definition ActionCredentialDisabled : string := "credential_disabled".
Definition ActionQuotaRateLimited : string := "quota_rate_limited".

Definition AvailabilityFailureActions : list string :=
  [ActionKeyQuotaExhausted; ActionCredentialDisabled; ActionQuotaRateLimited].
Definition IsAvailabilityFailureAction (action : string) : bool :=
  String.eqb action ActionKeyQuotaExhausted || String.eqb action ActionCredentialDisabled
  || String.eqb action ActionQuotaRateLimited.

(** ** Intelligence test plans *)

Record IntelTestPlan : Type := mkPlan {
  ip_QuarantineMinSamples : Z;
  ip_QuarantineThreshold : f64
}.

Definition QuarantineRule (p : IntelTestPlan) : Z * f64 :=
  (if (ip_QuarantineMinSamples p <? 1) || (10 <? ip_QuarantineMinSamples p) then 3 else ip_QuarantineMinSamples p,
   if fle (ip_QuarantineThreshold p) f0 || fgt (ip_QuarantineThreshold p) (f_of_Z 100)
   then f_of_Z 50 else ip_QuarantineThreshold p).

(** ** Lemmas *)

Definition normal_item (s : string) : Prop := s <> "" /\ ToLower (TrimSpace s) = s.

Lemma normalize_loop_spec seen items :
  let out := normalize_loop seen items in
  NoDup out /\ (forall x, x ∈ out <-> (x ∉ seen) /\ x <> "" /\ (exists it, it ∈ items /\ ToLower (TrimSpace it) = x)).
Proof.
  revert seen. induction items as [|it rest IH]; intros seen; simpl.
  - split; [constructor|]. intros x. split; [by intros ?%elem_of_nil|]. intros (_ & _ & it & H & _). by apply elem_of_nil in H.
  - set (y := ToLower (TrimSpace it)). destruct (String.eqb y "" || bool_decide (y ∈ seen)) eqn:E.
    + destruct (IH seen) as [N H]. split; [done|]. intros x. rewrite H. split.
      * intros (? & ? & it' & ? & ?). split_and!; try done. exists it'. split; [by right|done].
      * intros (Hs & Hn & it' & [->|Hi]%elem_of_cons & Ex); [|eauto 10]. exfalso. fold y in Ex.
        apply orb_true_iff in E as [E|E]; [apply String.eqb_eq in E; congruence|]. apply bool_decide_eq_true in E. by subst.
    + apply orb_false_iff in E as [E1 E2]. apply String.eqb_neq in E1. apply bool_decide_eq_false in E2.
      destruct (IH ({[y]} ∪ seen)) as [N H]. split.
      * constructor; [|done]. rewrite H. set_solver.
      * intros x. rewrite elem_of_cons, H. split.
        -- intros [->|(Hs & Hn & it' & Hi & Ex)].
           ++ split_and!; try done. exists it. split; [left|done].
           ++ split_and!; [set_solver|done|]. exists it'. split; [by right|done].
        -- intros (Hs & Hn & it' & [->|Hi]%elem_of_cons & Ex); [left; done|].
           destruct (decide (x = y)) as [->|Nx]; [by left|right]. split_and!; [set_solver|done|eauto].
Qed.

Lemma existsb_eqb (x : string) l : existsb (fun p => String.eqb p x) l = true <-> x ∈ l.
Proof.
  rewrite existsb_exists. split.
  - intros (y & Hy & E). apply String.eqb_eq in E. subst. by apply list_elem_of_In.
  - intros H. exists x. split; [by apply list_elem_of_In|apply String.eqb_refl].
Qed.

Lemma SupportsProtocol_spec k p :
  SupportsProtocol k p = true <->
  exists u, pk_Upstream k = Some u /\ ValidProtocol p = true /\ Supports u p = true
            /\ (SplitCSV (pk_Protocols k) = [] \/ p ∈ SplitCSV (pk_Protocols k)).
Proof.
  unfold SupportsProtocol, EffectiveProtocols. rewrite existsb_eqb.
  destruct (pk_Upstream k) as [u|]; [|split; [by intros ?%elem_of_nil|by intros (u & ? & _)]].
  rewrite list_elem_of_In, filter_In, <- list_elem_of_In, andb_true_iff. case_bool_decide as E.
  - split; [intros (_ & ? & ?); eauto 10|]. intros (u' & [= <-] & V & Su & _). split_and!; try done.
    unfold Supports in Su. by apply existsb_eqb in Su.
  - split; [intros (? & ? & ?); eauto 10|]. intros (u' & [= <-] & V & Su & [H|H]); [done|]. done.
Qed.
