(* ===== verification/Capacity.v ===== *)
(** * Per-process capacity of keys and providers (internal/picker/band.go)

    [runtimeState] counts the requests in flight per key and per provider and
    keeps the send times of the last minute per key.  A Go slice is seen through
    its header: filtering [window[:0]] writes into the array the old header
    still covers, which the model keeps where the code does not store the new
    header. *)

From S2P Require Import Prelude GoFloat GoString Settings Domain.

Record runtimeState : Type := mkRuntime {
  keyInflight : gmap Z Z;
  providerInflight : gmap Z Z;
  rpm : gmap Z (list time)
}.

Definition new_runtime : runtimeState := mkRuntime ∅ ∅ ∅.

(** Reading a Go map of ints or slices: the zero value when absent. *)
Definition geti (m : gmap Z Z) (k : Z) : Z := default 0 (m !! k).
Definition gets (m : gmap Z (list time)) (k : Z) : list time := default [] (m !! k).

(** [keep := window[:0]; for ... append(keep, at)]: the entries of the last minute. *)
Definition recent (now : time) (window : list time) : list time := filter (fun at_ => now - Minute < at_) window.

(** The array seen through the old header once [keep] was written into it. *)
Definition overwritten (keep window : list time) : list time := keep ++ drop (length keep) window.

(** The filter's writes when the new header is not stored. *)
Definition overwrite_rpm (st : runtimeState) (k : Z) (now : time) : runtimeState :=
  mkRuntime (keyInflight st) (providerInflight st) (alter (fun w => overwritten (recent now w) w) k (rpm st)).

Definition set_rpm (st : runtimeState) (k : Z) (w : list time) : runtimeState :=
  mkRuntime (keyInflight st) (providerInflight st) (<[k := w]> (rpm st)).

Definition resourceSnapshot (keyID providerID : Z) (now : time) (st : runtimeState) : Z * Z * Z * runtimeState :=
  let keep := recent now (gets (rpm st) keyID) in
  (Z.of_nat (length keep), geti (keyInflight st) keyID, geti (providerInflight st) providerID, set_rpm st keyID keep).

Definition acquired (k p : Z) (w : list time) (st : runtimeState) : runtimeState :=
  mkRuntime (<[k := geti (keyInflight st) k + 1]> (keyInflight st))
    (<[p := geti (providerInflight st) p + 1]> (providerInflight st)) (<[k := w]> (rpm st)).

Definition tryAcquire (key : option PlatformKey) (up : option Upstream) (now : time) (st : runtimeState)
  : time * bool * string * runtimeState :=
  match key, up with
  | Some key, Some up =>
      let window := gets (rpm st) (pk_ID key) in
      let keep := recent now window in
      if (0 <? pk_RPMLimit key) && (pk_RPMLimit key <=? Z.of_nat (length keep)) then
        (time_zero, false, "key", set_rpm st (pk_ID key) keep)
      else if (0 <? pk_MaxConcurrency key) && (pk_MaxConcurrency key <=? geti (keyInflight st) (pk_ID key)) then
        (time_zero, false, "key", overwrite_rpm st (pk_ID key) now)
      else if (0 <? up_Concurrency up) && (up_Concurrency up <=? geti (providerInflight st) (up_ID up)) then
        (time_zero, false, "provider", overwrite_rpm st (pk_ID key) now)
      else (now, true, "", acquired (pk_ID key) (up_ID up) (keep ++ [now]) st)
  | _, _ => (time_zero, false, "key", st)
  end.

Definition TryAcquire (key : option PlatformKey) (up : option Upstream) (now : time) (st : runtimeState)
  : bool * string * runtimeState :=
  let '(_, ok, scope, st) := tryAcquire key up now st in (ok, scope, st).

(** One counter of [Release]: dropped when it reaches 0. *)
Definition decrement (k : Z) (m : gmap Z Z) : gmap Z Z :=
  let n := geti m k - 1 in if 0 <? n then <[k := n]> m else delete k m.

Definition Release (key : option PlatformKey) (up : option Upstream) (st : runtimeState) : runtimeState :=
  match key, up with
  | Some key, Some up =>
      mkRuntime (decrement (pk_ID key) (keyInflight st)) (decrement (up_ID up) (providerInflight st)) (rpm st)
  | _, _ => st
  end.

(** The first entry equal to [x] dropped: [append(window[:i], window[i+1:]...)]. *)
Fixpoint remove_first {A} `{EqDecision A} (x : A) (l : list A) : list A :=
  match l with
  | [] => []
  | y :: l' => if decide (y = x) then l' else y :: remove_first x l'
  end.

(** The reservation a granted [TryAcquireAttempt] closes over. *)
Record attempt : Type := mkAttempt { at_key : PlatformKey; at_up : Upstream; at_time : time }.

Definition TryAcquireAttempt (key : option PlatformKey) (up : option Upstream) (now : time) (st : runtimeState)
  : option attempt * string * runtimeState :=
  match tryAcquire key up now st, key, up with
  | (at_, true, _, st'), Some key, Some up => (Some (mkAttempt key up at_), "", st')
  | (_, _, scope, st'), _, _ => (None, scope, st')
  end.

(** The body of the release function, run once per reservation. *)
Definition finish_attempt (a : attempt) (sent : bool) (st : runtimeState) : runtimeState :=
  let k := pk_ID (at_key a) in
  let st := if sent then st
            else match rpm st !! k with
                 | Some w => if bool_decide (at_time a ∈ w) then set_rpm st k (remove_first (at_time a) w) else st
                 | None => st
                 end in
  Release (Some (at_key a)) (Some (at_up a)) st.

(** ** The component as a transition system *)

(** The runtime with the reservations still open, and the sends granted and not
    refunded, per key. *)
Record cap_state : Type := mkCap {
  cap_rt : runtimeState;
  cap_open : list attempt;
  cap_log : list (Z * time)
}.

Inductive cap_op : Type :=
| CapAcquire (key : PlatformKey) (up : Upstream)
| CapFinish (i : nat) (sent : bool)
| CapSnapshot (keyID providerID : Z).

Definition exec_cap (now : time) (o : cap_op) (c : cap_state) : cap_state :=
  match o with
  | CapAcquire key up =>
      match TryAcquireAttempt (Some key) (Some up) now (cap_rt c) with
      | (Some a, _, st) => mkCap st (cap_open c ++ [a]) (cap_log c ++ [(pk_ID key, at_time a)])
      | (None, _, st) => mkCap st (cap_open c) (cap_log c)
      end
  | CapFinish i sent =>
      match cap_open c !! i with
      | Some a => mkCap (finish_attempt a sent (cap_rt c)) (delete i (cap_open c))
                    (if sent then cap_log c else remove_first (pk_ID (at_key a), at_time a) (cap_log c))
      | None => c
      end
  | CapSnapshot k p => mkCap (resourceSnapshot k p now (cap_rt c)).2 (cap_open c) (cap_log c)
  end.

(** Keys and providers keep their limits: [kmax], [klim] and [pmax] by id. *)
Definition limits (kmax klim pmax : Z -> Z) (o : cap_op) : Prop :=
  match o with
  | CapAcquire key up => pk_MaxConcurrency key = kmax (pk_ID key) /\ pk_RPMLimit key = klim (pk_ID key)
                         /\ up_Concurrency up = pmax (up_ID up)
  | _ => True
  end.

Inductive cap_reachable (ok : cap_op -> Prop) : time -> cap_state -> Prop :=
| cap_init t : cap_reachable ok t (mkCap new_runtime [] [])
| cap_step now now' o c : cap_reachable ok now c -> now <= now' -> ok o -> cap_reachable ok now' (exec_cap now' o c).

(** Open reservations of a key, of a provider; sends of a key in the last minute. *)
Definition on_key (k : Z) (c : cap_state) : Z :=
  Z.of_nat (length (filter (fun a => pk_ID (at_key a) = k) (cap_open c))).
Definition on_provider (p : Z) (c : cap_state) : Z :=
  Z.of_nat (length (filter (fun a => up_ID (at_up a) = p) (cap_open c))).
Definition sent_recently (now : time) (k : Z) (c : cap_state) : list time :=
  recent now ((filter (fun kt => kt.1 = k) (cap_log c)).*2).

Record cap_inv (kmax klim pmax : Z -> Z) (now : time) (c : cap_state) : Prop := {
  ci_key : forall k, geti (keyInflight (cap_rt c)) k = on_key k c;
  ci_provider : forall p, geti (providerInflight (cap_rt c)) p = on_provider p c;
  ci_rpm : forall k, sent_recently now k c ⊆+ gets (rpm (cap_rt c)) k;
  ci_kmax : forall k, 0 < kmax k -> on_key k c <= kmax k;
  ci_pmax : forall p, 0 < pmax p -> on_provider p c <= pmax p;
  ci_klim : forall k, 0 < klim k -> Z.of_nat (length (sent_recently now k c)) <= klim k
}.

(** ** Lemmas on the counters *)

Lemma geti_insert m k v k' : geti (<[k := v]> m) k' = if decide (k' = k) then v else geti m k'.
Proof. unfold geti. rewrite lookup_insert. repeat case_decide; simpl; congruence. Qed.

Lemma gets_insert m k v k' : gets (<[k := v]> m) k' = if decide (k' = k) then v else gets m k'.
Proof. unfold gets. rewrite lookup_insert. repeat case_decide; simpl; congruence. Qed.

Lemma gets_alter f m k k' : f [] = [] -> gets (alter f k m) k' = if decide (k' = k) then f (gets m k') else gets m k'.
Proof.
  intros F. unfold gets. rewrite lookup_alter. case_decide as E; case_decide; try congruence.
  subst. by destruct (m !! k').
Qed.

Lemma decrement_spec m k k' : 0 <= geti m k -> geti (decrement k m) k' = if decide (k' = k) then Z.max 0 (geti m k - 1) else geti m k'.
Proof.
  intros H. unfold decrement. destruct (Z.ltb_spec 0 (geti m k - 1)).
  - rewrite geti_insert. case_decide; [lia|done].
  - unfold geti at 1. rewrite lookup_delete. case_decide as E; case_decide; try congruence; [simpl; lia|done].
Qed.

(** Counting after removing one element. *)
Lemma filter_length_delete {A} (P : A -> Prop) `{!forall x, Decision (P x)} (l : list A) i x :
  l !! i = Some x ->
  length (filter P l) = ((if decide (P x) then 1 else 0) + length (filter P (delete i l)))%nat.
Proof.
  revert i. induction l as [|y l IH]; intros [|i] Hi; simplify_eq/=; rewrite filter_cons.
  - by case_decide.
  - rewrite (filter_cons P y). specialize (IH i Hi). repeat case_decide; simpl; lia.
Qed.

(** ** Lemmas on the send times *)

Section remove.
Context {A : Type} `{EqDecision A}.
Implicit Types (x : A) (l : list A).

Lemma remove_first_perm x l : x ∈ l -> l ≡ₚ x :: remove_first x l.
Proof.
  induction l as [|y l IH]; [by intros ?%elem_of_nil|]. simpl. case_decide as E; [by subst|].
  intros [->|H]%elem_of_cons; [done|]. rewrite IH at 1 by done. constructor.
Qed.

Lemma remove_first_notin x l : x ∉ l -> remove_first x l = l.
Proof. induction l as [|y l IH]; [done|]. rewrite not_elem_of_cons. intros [N1 N2]. simpl. rewrite decide_False by congruence. by rewrite IH. Qed.

(** Removing one occurrence from both sides keeps the inclusion. *)
Lemma submseteq_remove x l k : l ⊆+ k -> remove_first x l ⊆+ remove_first x k.
Proof.
  intros H. destruct (decide (x ∈ l)) as [Hx|Hx].
  - pose proof (elem_of_submseteq _ _ _ Hx H) as Hk.
    rewrite (remove_first_perm x l Hx), (remove_first_perm x k Hk) in H. by apply (submseteq_app_inv_l _ _ [x]).
  - rewrite (remove_first_notin x l) by done. destruct (decide (x ∈ k)) as [Hk|Hk]; [|by rewrite remove_first_notin].
    rewrite (remove_first_perm x k Hk) in H. apply submseteq_cons_r in H as [H|(l' & E & _)]; [done|].
    exfalso. apply Hx. rewrite E. left.
Qed.

Lemma submseteq_filter (P : A -> Prop) `{!forall x, Decision (P x)} l k : l ⊆+ k -> filter P l ⊆+ filter P k.
Proof. intros (r & E)%submseteq_Permutation. rewrite E, list.filter_app. by apply submseteq_inserts_r. Qed.

Lemma filter_remove_first (P : A -> Prop) `{!forall x, Decision (P x)} x l :
  filter P (remove_first x l) = if decide (P x) then remove_first x (filter P l) else filter P l.
Proof.
  induction l as [|y l IH]; simpl; [by case_decide|]. destruct (decide (y = x)) as [->|N].
  - rewrite filter_cons. case_decide; [|done]. simpl. by rewrite decide_True.
  - rewrite !filter_cons, IH. repeat case_decide; simpl; try done. by rewrite decide_False.
Qed.

Lemma remove_first_submseteq x l : remove_first x l ⊆+ l.
Proof. induction l as [|y l IH]; simpl; [done|]. case_decide; [by apply submseteq_cons|by apply submseteq_skip]. Qed.
End remove.

(** Removing a pair, seen on the second components. *)
Lemma fmap_remove_first (k : Z) (t : time) l :
  Forall (fun kt : Z * time => kt.1 = k) l -> (remove_first (k, t) l).*2 = remove_first t l.*2.
Proof.
  induction 1 as [|[k' t'] l E _ IH]; simpl in *; [done|]. subst k'. case_decide as D.
  - injection D as ->. by rewrite decide_True.
  - rewrite decide_False by congruence. csimpl. f_equal. exact IH.
Qed.

Lemma recent_submseteq now l k : l ⊆+ k -> recent now l ⊆+ recent now k.
Proof. by apply submseteq_filter. Qed.

Lemma recent_later now now' l : now <= now' -> recent now' (recent now l) = recent now' l.
Proof.
  intros H. unfold recent. rewrite list_filter_filter. apply list_filter_iff. intros x. unfold Minute. lia.
Qed.

Lemma recent_sublist now l : recent now l ⊆+ l.
Proof.
  unfold recent. induction l as [|x l IH]; [done|]. rewrite filter_cons. case_decide; [by apply submseteq_skip|by apply submseteq_cons].
Qed.

Lemma sent_later now now' k c : now <= now' -> sent_recently now' k c ⊆+ sent_recently now k c.
Proof. intros H. unfold sent_recently. rewrite <- (recent_later now now') by done. apply recent_sublist. Qed.

(** ** Every operation preserves the invariant *)

Section preservation.
Context (kmax klim pmax : Z -> Z).

Lemma cap_inv_later now now' c : cap_inv kmax klim pmax now c -> now <= now' -> cap_inv kmax klim pmax now' c.
Proof.
  intros [] Hn. split; try done.
  - intros k. etransitivity; [by apply sent_later|done].
  - intros k Hk. etransitivity; [|by apply ci_klim0]. apply inj_le, submseteq_length. by apply sent_later.
Qed.

(** The live sends survive the filter, stored or only written. *)
Lemma sent_in_recent now k c :
  sent_recently now k c ⊆+ gets (rpm (cap_rt c)) k -> sent_recently now k c ⊆+ recent now (gets (rpm (cap_rt c)) k).
Proof.
  intros H. unfold sent_recently at 1. rewrite <- (recent_later now now) by lia. by apply recent_submseteq.
Qed.

Lemma sent_in_overwritten now k c :
  sent_recently now k c ⊆+ gets (rpm (cap_rt c)) k ->
  sent_recently now k c ⊆+ overwritten (recent now (gets (rpm (cap_rt c)) k)) (gets (rpm (cap_rt c)) k).
Proof. intros H. by apply submseteq_inserts_r, sent_in_recent. Qed.

(** Only the send times changed, and they still cover the live sends. *)
Lemma cap_inv_rpm now c rt' :
  cap_inv kmax klim pmax now c -> keyInflight rt' = keyInflight (cap_rt c) ->
  providerInflight rt' = providerInflight (cap_rt c) -> (forall k, sent_recently now k c ⊆+ gets (rpm rt') k) ->
  cap_inv kmax klim pmax now (mkCap rt' (cap_open c) (cap_log c)).
Proof. intros [] E1 E2 H. split; simpl; rewrite ?E1, ?E2; done. Qed.

Lemma cap_inv_snapshot now c k p : cap_inv kmax klim pmax now c -> cap_inv kmax klim pmax now (exec_cap now (CapSnapshot k p) c).
Proof.
  intros I. apply cap_inv_rpm; try done. intros k'. simpl. rewrite gets_insert. case_decide; [subst; by apply sent_in_recent, I|apply I].
Qed.

Lemma on_key_snoc k rt a c log :
  on_key k (mkCap rt (cap_open c ++ [a]) log) = on_key k c + (if decide (k = pk_ID (at_key a)) then 1 else 0).
Proof.
  unfold on_key. simpl. rewrite list.filter_app, length_app, filter_cons, filter_nil. repeat case_decide; simpl; try congruence; lia.
Qed.

Lemma on_provider_snoc p rt a c log :
  on_provider p (mkCap rt (cap_open c ++ [a]) log) = on_provider p c + (if decide (p = up_ID (at_up a)) then 1 else 0).
Proof.
  unfold on_provider. simpl. rewrite list.filter_app, length_app, filter_cons, filter_nil. repeat case_decide; simpl; try congruence; lia.
Qed.

Lemma sent_snoc now k rt op c k0 :
  sent_recently now k (mkCap rt op (cap_log c ++ [(k0, now)])) =
  sent_recently now k c ++ (if decide (k = k0) then [now] else []).
Proof.
  unfold sent_recently, recent. simpl. rewrite list.filter_app, fmap_app, list.filter_app, filter_cons, filter_nil. f_equal.
  simpl. repeat case_decide; simpl; try congruence; [|done].
  rewrite filter_cons, decide_True by (unfold Minute, Second; lia). done.
Qed.

Lemma cap_inv_acquire now c key up :
  limits kmax klim pmax (CapAcquire key up) -> cap_inv kmax klim pmax now c ->
  cap_inv kmax klim pmax now (exec_cap now (CapAcquire key up) c).
Proof.
  intros (Lk & Lr & Lp) I. unfold exec_cap, TryAcquireAttempt, tryAcquire.
  set (k := pk_ID key) in *. set (p := up_ID up) in *. set (w := gets (rpm (cap_rt c)) k).
  destruct ((0 <? pk_RPMLimit key) && _) eqn:B1.
  { apply cap_inv_rpm; try done. intros k'. simpl. rewrite gets_insert. case_decide; [subst; by apply sent_in_recent, I|apply I]. }
  assert (Ov : forall k', sent_recently now k' c ⊆+ gets (rpm (overwrite_rpm (cap_rt c) k now)) k').
  { intros k'. simpl. rewrite gets_alter by done. case_decide; [subst; by apply sent_in_overwritten, I|apply I]. }
  destruct ((0 <? pk_MaxConcurrency key) && _) eqn:B2; [by apply cap_inv_rpm|].
  destruct ((0 <? up_Concurrency up) && _) eqn:B3; [by apply cap_inv_rpm|].
  assert (Len : forall k', Z.of_nat (length (sent_recently now k' c)) <= Z.of_nat (length (recent now (gets (rpm (cap_rt c)) k')))).
  { intros k'. apply inj_le, submseteq_length, sent_in_recent, I. }
  assert (C1 := ci_key _ _ _ _ _ I). assert (C2 := ci_provider _ _ _ _ _ I).
  split; simpl.
  - intros k'. rewrite geti_insert, on_key_snoc, !C1. simpl. fold k. case_decide; subst; lia.
  - intros p'. rewrite geti_insert, on_provider_snoc, !C2. simpl. fold p. case_decide; subst; lia.
  - intros k'. rewrite sent_snoc, gets_insert. fold k. case_decide; subst; [|rewrite app_nil_r; apply I].
    apply submseteq_skips_r, sent_in_recent, I.
  - intros k' Hk. rewrite on_key_snoc. simpl. fold k. pose proof (ci_kmax _ _ _ _ _ I k' Hk).
    case_decide; subst; [|lia]. rewrite <- C1. rewrite Lk in B2. lia.
  - intros p' Hp. rewrite on_provider_snoc. simpl. fold p. pose proof (ci_pmax _ _ _ _ _ I p' Hp).
    case_decide; subst; [|lia]. rewrite <- C2. rewrite Lp in B3. lia.
  - intros k' Hk. rewrite sent_snoc, length_app. fold k. pose proof (ci_klim _ _ _ _ _ I k' Hk). specialize (Len k').
    case_decide; subst; simpl; [|lia]. rewrite Lr in B1. unfold w in B1. lia.
Qed.

Lemma sent_refund now k rt op c k0 t :
  sent_recently now k (mkCap rt op (remove_first (k0, t) (cap_log c))) =
  if decide (k = k0) then remove_first t (sent_recently now k c) else sent_recently now k c.
Proof.
  unfold sent_recently. simpl. rewrite filter_remove_first. simpl. destruct (decide (k = k0)) as [->|N].
  - rewrite decide_True by done. rewrite fmap_remove_first.
    + unfold recent. rewrite filter_remove_first. case_decide as D; [done|].
      rewrite remove_first_notin; [done|]. rewrite list_elem_of_filter. tauto.
    + apply Forall_forall. intros x Hx%list_elem_of_In. by apply list_elem_of_filter in Hx as [? _].
  - by rewrite decide_False by congruence.
Qed.

(** The send times after a reservation is settled. *)
Lemma finish_rpm a sent st k :
  gets (rpm (finish_attempt a sent st)) k =
  if sent then gets (rpm st) k
  else if decide (k = pk_ID (at_key a)) then remove_first (at_time a) (gets (rpm st) k) else gets (rpm st) k.
Proof.
  unfold finish_attempt. destruct sent; [done|]. simpl.
  destruct (rpm st !! pk_ID (at_key a)) as [w|] eqn:E.
  - case_bool_decide as D; simpl.
    + rewrite gets_insert. case_decide; [subst; unfold gets; by rewrite E|done].
    + case_decide; [|done]. subst. rewrite remove_first_notin; [done|]. unfold gets. by rewrite E.
  - case_decide; [|done]. subst. unfold gets. by rewrite E.
Qed.

Lemma finish_counters a sent st :
  keyInflight (finish_attempt a sent st) = decrement (pk_ID (at_key a)) (keyInflight st)
  /\ providerInflight (finish_attempt a sent st) = decrement (up_ID (at_up a)) (providerInflight st).
Proof. unfold finish_attempt. destruct sent; [done|]. simpl. destruct (rpm st !! _); [case_bool_decide|]; done. Qed.

Lemma cap_inv_finish now c i sent : cap_inv kmax klim pmax now c -> cap_inv kmax klim pmax now (exec_cap now (CapFinish i sent) c).
Proof.
  intros I. unfold exec_cap. destruct (cap_open c !! i) as [a|] eqn:Ha; [|done].
  destruct (finish_counters a sent (cap_rt c)) as [F1 F2].
  assert (C1 := ci_key _ _ _ _ _ I). assert (C2 := ci_provider _ _ _ _ _ I).
  assert (D1 : forall k, on_key k c = (if decide (pk_ID (at_key a) = k) then 1 else 0) + Z.of_nat (length (filter (fun a => pk_ID (at_key a) = k) (delete i (cap_open c))))).
  { intros k. unfold on_key. rewrite (filter_length_delete _ _ i a Ha). case_decide; simpl; lia. }
  assert (D2 : forall p, on_provider p c = (if decide (up_ID (at_up a) = p) then 1 else 0) + Z.of_nat (length (filter (fun a => up_ID (at_up a) = p) (delete i (cap_open c))))).
  { intros p. unfold on_provider. rewrite (filter_length_delete _ _ i a Ha). case_decide; simpl; lia. }
  assert (S : forall k, sent_recently now k (mkCap (finish_attempt a sent (cap_rt c)) (delete i (cap_open c))
      (if sent then cap_log c else remove_first (pk_ID (at_key a), at_time a) (cap_log c))) =
    if sent then sent_recently now k c else if decide (k = pk_ID (at_key a)) then remove_first (at_time a) (sent_recently now k c) else sent_recently now k c).
  { intros k. destruct sent; [done|apply sent_refund]. }
  split; cbn [cap_rt].
  - intros k. rewrite F1, decrement_spec, !C1 by (rewrite C1; unfold on_key; lia). unfold on_key at 3. simpl. rewrite !D1. repeat case_decide; subst; try congruence; lia.
  - intros p. rewrite F2, decrement_spec, !C2 by (rewrite C2; unfold on_provider; lia). unfold on_provider at 3. simpl. rewrite !D2. repeat case_decide; subst; try congruence; lia.
  - intros k. rewrite S, finish_rpm. destruct sent; [apply I|]. case_decide; [|apply I]. apply submseteq_remove, I.
  - intros k Hk. pose proof (ci_kmax _ _ _ _ _ I k Hk) as H. rewrite D1 in H. unfold on_key. simpl. case_decide; lia.
  - intros p Hp. pose proof (ci_pmax _ _ _ _ _ I p Hp) as H. rewrite D2 in H. unfold on_provider. simpl. case_decide; lia.
  - intros k Hk. etransitivity; [|by apply I]. apply inj_le, submseteq_length. rewrite S.
    destruct sent; [done|]. case_decide; [apply remove_first_submseteq|done].
Qed.

Lemma cap_reachable_inv now c : cap_reachable (limits kmax klim pmax) now c -> cap_inv kmax klim pmax now c.
Proof.
  induction 1 as [t|now now' o c R IH Hn L].
  - split; try done; intros; unfold on_key, on_provider, sent_recently; simpl; lia.
  - eapply cap_inv_later in IH; [|exact Hn]. destruct o; [by apply cap_inv_acquire|by apply cap_inv_finish|by apply cap_inv_snapshot].
Qed.
End preservation.

(** ** Exact refusals *)

(** Why a reservation may be refused: the counters against the limits. *)
Definition refusal (key : PlatformKey) (up : Upstream) (now : time) (st : runtimeState) : option string :=
  if (0 <? pk_RPMLimit key) && (pk_RPMLimit key <=? Z.of_nat (length (recent now (gets (rpm st) (pk_ID key))))) then Some "key"
  else if (0 <? pk_MaxConcurrency key) && (pk_MaxConcurrency key <=? geti (keyInflight st) (pk_ID key)) then Some "key"
  else if (0 <? up_Concurrency up) && (up_Concurrency up <=? geti (providerInflight st) (up_ID up)) then Some "provider"
  else None.

Lemma try_acquire_cases key up now st :
  match TryAcquireAttempt (Some key) (Some up) now st with
  | (Some a, scope, _) => refusal key up now st = None /\ a = mkAttempt key up now /\ scope = ""
  | (None, scope, st') => refusal key up now st = Some scope
                          /\ keyInflight st' = keyInflight st /\ providerInflight st' = providerInflight st
  end.
Proof.
  unfold TryAcquireAttempt, tryAcquire, refusal. destruct (_ && _); [done|]. destruct (_ && _); [done|].
  by destruct (_ && _).
Qed.

(** ** A concrete key and provider *)

Definition demo_up : Upstream :=
  mkUpstream 3 "p" "https://p" KindNewAPI "openai" StatusEnabled 0 4 HealthHealthy None "" None None.
Definition demo_key : PlatformKey :=
  mkKey "" 1 3 "p-main-1" "main" "sk-1" f1 "" StatusEnabled 2 1 None "" None HealthHealthy 0 None [] (Some demo_up).

Definition run_cap (l : list (time * cap_op)) (c : cap_state) : cap_state :=
  fold_left (fun c to => exec_cap to.1 to.2 c) l c.

Definition demo_limits : cap_op -> Prop := limits (fun _ => 1) (fun _ => 2) (fun _ => 4).

Definition demo_run : list (time * cap_op) :=
  [(0, CapAcquire demo_key demo_up); (1 * Second, CapFinish 0 true); (30 * Second, CapAcquire demo_key demo_up);
   (61 * Second, CapAcquire demo_key demo_up); (61 * Second, CapFinish 0 true)].

Definition demo_start : cap_state := mkCap new_runtime [] [].

Lemma demo_run3 : cap_reachable demo_limits (30 * Second) (run_cap (take 3 demo_run) demo_start).
Proof.
  apply (cap_step _ (1 * Second) (30 * Second) (CapAcquire demo_key demo_up)); [|done|done].
  apply (cap_step _ 0 (1 * Second) (CapFinish 0 true)); [|done|done].
  apply (cap_step _ 0 0 (CapAcquire demo_key demo_up)); [apply cap_init|done|done].
Qed.

Lemma demo_run5 : cap_reachable demo_limits (61 * Second) (run_cap demo_run demo_start).
Proof.
  apply (cap_step _ (61 * Second) (61 * Second) (CapFinish 0 true)); [|done|done].
  apply (cap_step _ (30 * Second) (61 * Second) (CapAcquire demo_key demo_up)); [exact demo_run3|done|done].
Qed.

(** ** The properties *)

(** C29: Capacity is never exceeded: under any interleaving of reservations,
    settlements (sent or refunded) and snapshots, the in-flight counters equal
    the open reservations of each key and provider, a key never has more than
    MaxConcurrency, a provider never more than Concurrency, and no key sends more
    than RPMLimit requests within any minute (0 means unlimited). *)
Theorem capacity_limits kmax klim pmax now c :
  cap_reachable (limits kmax klim pmax) now c ->
  (forall k, geti (keyInflight (cap_rt c)) k = on_key k c /\ (0 < kmax k -> on_key k c <= kmax k))
  /\ (forall p, geti (providerInflight (cap_rt c)) p = on_provider p c /\ (0 < pmax p -> on_provider p c <= pmax p))
  /\ (forall k, 0 < klim k -> Z.of_nat (length (sent_recently now k c)) <= klim k).
Proof.
  intros R. destruct (cap_reachable_inv _ _ _ _ _ R). split_and!; [intros; split; auto..|done].
Qed.

Lemma capacity_limits_witness :
  let c := run_cap demo_run demo_start in
  (forall k, geti (keyInflight (cap_rt c)) k = on_key k c /\ (0 < 1 -> on_key k c <= 1))
  /\ (forall p, geti (providerInflight (cap_rt c)) p = on_provider p c /\ (0 < 4 -> on_provider p c <= 4))
  /\ (forall k : Z, 0 < 2 -> Z.of_nat (length (sent_recently (61 * Second) k c)) <= 2).
Proof. exact (capacity_limits _ _ _ _ _ demo_run5). Defined.

(** A reservation is granted exactly when no limit is reached: in every
    reachable state it is refused for the provider only if the provider's open
    reservations have reached its Concurrency, for the key only if the key's have
    reached MaxConcurrency or its recorded sends RPMLimit, and otherwise granted;
    a refusal changes no counter. *)
Theorem acquire_decides kmax klim pmax now0 now c key up :
  cap_reachable (limits kmax klim pmax) now0 c ->
  match TryAcquireAttempt (Some key) (Some up) now (cap_rt c) with
  | (Some a, _, _) => a = mkAttempt key up now
      /\ (0 < pk_MaxConcurrency key -> on_key (pk_ID key) c < pk_MaxConcurrency key)
      /\ (0 < up_Concurrency up -> on_provider (up_ID up) c < up_Concurrency up)
      /\ (0 < pk_RPMLimit key -> Z.of_nat (length (recent now (gets (rpm (cap_rt c)) (pk_ID key)))) < pk_RPMLimit key)
  | (None, scope, st') =>
      keyInflight st' = keyInflight (cap_rt c) /\ providerInflight st' = providerInflight (cap_rt c)
      /\ (scope = "provider" /\ 0 < up_Concurrency up <= on_provider (up_ID up) c
          \/ scope = "key" /\ (0 < pk_MaxConcurrency key <= on_key (pk_ID key) c
               \/ 0 < pk_RPMLimit key <= Z.of_nat (length (recent now (gets (rpm (cap_rt c)) (pk_ID key))))))
  end.
Proof.
  intros R. pose proof (cap_reachable_inv _ _ _ _ _ R) as I. pose proof (try_acquire_cases key up now (cap_rt c)) as T.
  destruct (TryAcquireAttempt _ _ _ _) as [[[a|] scope] st'].
  - destruct T as (T & -> & _). unfold refusal in T. rewrite (ci_key _ _ _ _ _ I), (ci_provider _ _ _ _ _ I) in T.
    split; [done|]. repeat case_match; try done. split_and!; lia.
  - destruct T as (T & E1 & E2). split; [done|]. split; [done|]. unfold refusal in T.
    rewrite (ci_key _ _ _ _ _ I), (ci_provider _ _ _ _ _ I) in T.
    repeat case_match; simplify_eq; [right|right|left]; (split; [done|]); [right|left|]; lia.
Qed.

Lemma acquire_decides_witness :
  let c := run_cap (take 3 demo_run) demo_start in
  (TryAcquireAttempt (Some demo_key) (Some demo_up) (61 * Second) (cap_rt c)).1 = (None, "key")
  /\ match TryAcquireAttempt (Some demo_key) (Some demo_up) (61 * Second) (cap_rt c) with
     | (Some a, _, _) => a = mkAttempt demo_key demo_up (61 * Second)
         /\ (0 < pk_MaxConcurrency demo_key -> on_key (pk_ID demo_key) c < pk_MaxConcurrency demo_key)
         /\ (0 < up_Concurrency demo_up -> on_provider (up_ID demo_up) c < up_Concurrency demo_up)
         /\ (0 < pk_RPMLimit demo_key ->
             Z.of_nat (length (recent (61 * Second) (gets (rpm (cap_rt c)) (pk_ID demo_key)))) < pk_RPMLimit demo_key)
     | (None, scope, st') =>
         keyInflight st' = keyInflight (cap_rt c) /\ providerInflight st' = providerInflight (cap_rt c)
         /\ (scope = "provider" /\ 0 < up_Concurrency demo_up <= on_provider (up_ID demo_up) c
             \/ scope = "key" /\ (0 < pk_MaxConcurrency demo_key <= on_key (pk_ID demo_key) c
                  \/ 0 < pk_RPMLimit demo_key
                       <= Z.of_nat (length (recent (61 * Second) (gets (rpm (cap_rt c)) (pk_ID demo_key))))))
     end.
Proof.
  split; [by vm_compute|].
  exact (acquire_decides _ _ _ _ (61 * Second) _ demo_key demo_up demo_run3).
Defined.

(** A refusal for concurrency corrupts the send window: tryAcquire filters
    the window in place but stores the filtered slice only when it refuses for
    RPM, so that a live entry is seen twice afterwards.  There is a reachable
    state in which a key with RPMLimit 2 has sent one request in the last minute,
    has none in flight, and is refused for its RPM. *)
Theorem refused_acquire_overcounts :
  exists now c, cap_reachable demo_limits now c
    /\ pk_RPMLimit demo_key = 2 /\ length (sent_recently now 1 c) = 1%nat /\ on_key 1 c = 0 /\ on_provider 3 c = 0
    /\ (TryAcquireAttempt (Some demo_key) (Some demo_up) now (cap_rt c)).1 = (None, "key").
Proof.
  exists (61 * Second), (run_cap demo_run demo_start).
  split; [exact demo_run5|]. by vm_compute.
Qed.
