(* ===== verification/Window.v ===== *)
(** * Rolling metrics windows (internal/metrics/window.go)

    The store keeps recent observations per key and per key and model, in
    memory and, when configured, in Redis.  [summarize] turns a list of
    observations into the success rate, cache rate and median latency that the
    scheduler scores.  Redis is a parameter: pushing to a list with a length and
    an expiry, and reading the head of a list. *)

From stdpp Require Import sorting.
From S2P Require Import Prelude GoFloat GoString Settings.

Record Observation : Type := mkObs {
  ob_KeyID : Z;
  ob_Model : string;
  ob_Success : bool;
  ob_InputTokens : Z;
  ob_CacheReadTokens : Z;
  ob_CacheCreationTokens : Z;
  ob_TTFTMs : Z;
  ob_At : time
}.

Record Window : Type := mkWindow {
  wn_SuccessRate : f64;
  wn_CacheRate : f64;
  wn_HasCache : bool;
  wn_TTFTp50 : Z;
  wn_HasLatency : bool;
  wn_Samples : Z
}.

Definition empty_window : Window := mkWindow f0 f0 false 0 false 0.

(** ** Summarising observations *)

(** Newest first. *)
Definition newer (a b : Observation) : Prop := ob_At b <= ob_At a.
#[export] Instance newer_dec a b : Decision (newer a b).
Proof. unfold newer. apply _. Defined.

Definition in_window (now : time) (window : duration) (o : Observation) : Prop :=
  ob_At o = time_zero \/ now - window < ob_At o.
#[export] Instance in_window_dec now window o : Decision (in_window now window o).
Proof. unfold in_window. apply _. Defined.

(** The sums of the loop: successes, input, cache reads, cache writes. *)
Record sums : Type := mkSums { s_ok : Z; s_in : Z; s_cr : Z; s_cc : Z }.

Definition add_obs (s : sums) (o : Observation) : sums :=
  mkSums (if ob_Success o then s_ok s + 1 else s_ok s) (wrap_i64 (s_in s + ob_InputTokens o))
    (wrap_i64 (s_cr s + ob_CacheReadTokens o)) (wrap_i64 (s_cc s + ob_CacheCreationTokens o)).

Definition ttfts (l : list Observation) : list Z :=
  ob_TTFTMs <$> filter (fun o => ob_Success o = true /\ 0 < ob_TTFTMs o) l.

(** [sort.Slice] leaves the order of equal times open; this order is one of them. *)
Definition summarize (now : time) (items : list Observation) (window : duration) (maxSamples : nat) : Window :=
  let filtered := filter (in_window now window) items in
  let filtered := merge_sort newer filtered in
  let filtered := take maxSamples filtered in
  if bool_decide (filtered = []) then empty_window else
  let s := fold_left add_obs filtered (mkSums 0 0 0 0) in
  let n := Z.of_nat (length filtered) in
  let den := f_of_Z (wrap_i64 (wrap_i64 (s_in s + s_cr s) + s_cc s)) in
  let sorted := merge_sort Z.le (ttfts filtered) in
  let has_cache := fgt den f0 in
  let has_latency := negb (bool_decide (sorted = [])) in
  mkWindow (fdiv (f_of_Z (s_ok s)) (f_of_Z n)) (if has_cache then fdiv (f_of_Z (s_cr s)) den else f0) has_cache
    (if has_latency then sorted !!! ((length sorted - 1) / 2)%nat else 0) has_latency n.

(** ** The store *)

(** What the store does with Redis: [LPUSH; LTRIM 0 n-1; EXPIRE], and [LRANGE 0 n-1],
    each entry decoded or [None] if it is not an observation; [None] on error. *)
Class Redis (R : Type) : Type := {
  lpush_trim : R -> string -> Observation -> Z -> duration -> R;
  lrange : R -> string -> Z -> option (list (option Observation))
}.

Section store.
Context {R : Type} `{Redis R}.

Record Store : Type := mkStore {
  st_rdb : option R;
  st_mem : gmap string (list Observation);
  st_maxSamples : Z;
  st_window : duration
}.

Definition NewStore (rdb : option R) (window : duration) (maxSamples : Z) : Store :=
  mkStore rdb ∅ (if maxSamples <=? 0 then 50 else maxSamples) (if window <=? 0 then 15 * Minute else window).

Definition Configure (s : Store) (window : duration) (maxSamples : Z) : Store :=
  mkStore (st_rdb s) (st_mem s) (if 0 <? maxSamples then maxSamples else st_maxSamples s)
    (if 0 <? window then window else st_window s).

Definition bucket (keyID : Z) (model : string) : string :=
  if String.eqb model "" then fmt_uint keyID +:+ ":_" else fmt_uint keyID +:+ ":" +:+ model.

Definition redisKey (keyID : Z) (model : string) : string := "sum:w:" +:+ bucket keyID model.

Definition memCopy (s : Store) (key : string) : list Observation := default [] (st_mem s !! key).

(** [mem[len(mem)-maxSamples:]] once the list is longer than twice that. *)
Definition push (maxSamples : nat) (l : list Observation) (o : Observation) : list Observation :=
  let l := l ++ [o] in if (2 * maxSamples <? length l)%nat then lastn maxSamples l else l.

Definition pushMem (s : Store) (key : string) (o : Observation) : Store :=
  mkStore (st_rdb s) (<[key := push (Z.to_nat (st_maxSamples s)) (memCopy s key) o]> (st_mem s))
    (st_maxSamples s) (st_window s).

Definition set_at (o : Observation) (now : time) : Observation :=
  if IsZero (ob_At o) then
    mkObs (ob_KeyID o) (ob_Model o) (ob_Success o) (ob_InputTokens o) (ob_CacheReadTokens o)
      (ob_CacheCreationTokens o) (ob_TTFTMs o) now
  else o.

Definition Observe (s : Store) (o : Observation) (now : time) : Store :=
  let o := set_at o now in
  let s1 := pushMem s (bucket (ob_KeyID o) (ob_Model o)) o in
  let s2 := if String.eqb (ob_Model o) "" then s1 else pushMem s1 (bucket (ob_KeyID o) "") o in
  match st_rdb s with
  | None => s2
  | Some r =>
      let put r k := lpush_trim r k o (st_maxSamples s) (st_window s * 4) in
      let r1 := put r (redisKey (ob_KeyID o) (ob_Model o)) in
      let r2 := if String.eqb (ob_Model o) "" then r1 else put r1 (redisKey (ob_KeyID o) "") in
      mkStore (Some r2) (st_mem s2) (st_maxSamples s2) (st_window s2)
  end.

Definition Backfill (s : Store) (items : list Observation) (now : time) : Store :=
  fold_left (fun s o => Observe s o now) items s.

Definition snapshotRedis (s : Store) (r : R) (keyID : Z) (model : string) (now : time) : option Window :=
  match lrange r (redisKey keyID model) (st_maxSamples s) with
  | Some ((_ :: _) as raws) => Some (summarize now (omap id raws) (st_window s) (Z.to_nat (st_maxSamples s)))
  | _ => None
  end.

Definition Snapshot (s : Store) (keyID : Z) (model : string) (now : time) : Window :=
  match (match st_rdb s with Some r => snapshotRedis s r keyID model now | None => None end) with
  | Some w => w
  | None => summarize now (memCopy s (bucket keyID model)) (st_window s) (Z.to_nat (st_maxSamples s))
  end.
End store.
Arguments Store R : clear implicits.

(** ** Bounds of a summary *)

#[export] Instance newer_total : Total newer.
Proof. intros a b. unfold newer. lia. Qed.
#[export] Instance newer_trans : Transitive newer.
Proof. intros a b c. unfold newer. lia. Qed.

(** The observations a summary is made of. *)
Definition used (now : time) (items : list Observation) (window : duration) (maxSamples : nat) : list Observation :=
  take maxSamples (merge_sort newer (filter (in_window now window) items)).

Lemma used_subset now items window m o : o ∈ used now items window m -> o ∈ items /\ in_window now window o.
Proof.
  intros H. apply (elem_of_submseteq _ (merge_sort newer (filter (in_window now window) items))) in H;
    [|apply sublist_submseteq, sublist_take].
  rewrite merge_sort_Permutation in H. by apply list_elem_of_filter in H as [? ?].
Qed.

(** Token counts that are non-negative and whose total fits int64. *)
Definition tokens (o : Observation) : Z := ob_InputTokens o + ob_CacheReadTokens o + ob_CacheCreationTokens o.
Definition tokens_ok (o : Observation) : Prop :=
  0 <= ob_InputTokens o /\ 0 <= ob_CacheReadTokens o /\ 0 <= ob_CacheCreationTokens o.
Definition total (l : list Observation) : Z := fold_right (fun o n => tokens o + n) 0 l.

Lemma total_nonneg l : Forall tokens_ok l -> 0 <= total l.
Proof. induction 1 as [|o l (?&?&?) _ IH]; simpl; [lia|]. unfold tokens. lia. Qed.

Lemma fold_sums l s :
  Forall tokens_ok l -> 0 <= s_in s -> 0 <= s_cr s -> 0 <= s_cc s -> s_in s + s_cr s + s_cc s + total l < 2 ^ 63 ->
  let r := fold_left add_obs l s in
  0 <= s_in r /\ 0 <= s_cr r /\ 0 <= s_cc r /\ s_in r + s_cr r + s_cc r = s_in s + s_cr s + s_cc s + total l.
Proof.
  intros F. revert s. induction F as [|o l (T1&T2&T3) F IH]; intros s P1 P2 P3 Hb; simpl; [lia|].
  pose proof (total_nonneg l F). simpl in Hb. unfold tokens in *.
  assert (W : forall x, 0 <= x < 2 ^ 63 -> wrap_i64 x = x) by (intros; apply wrap_i64_id; unfold in_i64; lia).
  destruct (IH (add_obs s o)) as (I1 & I2 & I3 & I4); simpl; rewrite ?W by lia; try lia.
  simpl in I4. rewrite !W in I4 by lia. split_and!; try done. lia.
Qed.

Lemma fold_ok l s : s_ok s <= s_ok (fold_left add_obs l s) <= s_ok s + Z.of_nat (length l).
Proof.
  revert s. induction l as [|o l IH]; intros s; simpl; [lia|]. specialize (IH (add_obs s o)). simpl in IH.
  destruct (ob_Success o); lia.
Qed.

Lemma ratio_unit a b : 0 <= a <= b -> 0 < b < 2 ^ 63 -> fbetween f0 (fdiv (f_of_Z a) (f_of_Z b)) f1.
Proof.
  intros Ha Hb. apply fdiv_unit.
  - apply f_of_Z_fin. unfold in_i64. lia.
  - apply f_of_Z_nonneg. lia.
  - apply flt_0_1, f_of_Z_pos. lia.
  - apply f_of_Z_mono. lia.
Qed.

(** The lower median of a non-empty list. *)
Definition is_median (l : list Z) (x : Z) : Prop :=
  x ∈ l /\ (2 * length (filter (fun y => (y < x)%Z) l) < length l)%nat /\ (2 * length (filter (fun y => (x < y)%Z) l) <= length l)%nat.

(** In a sorted list, what precedes is not larger and what follows not smaller. *)
Lemma sorted_split (l : list Z) i x :
  StronglySorted Z.le l -> l !! i = Some x ->
  (length (filter (fun y => (y < x)%Z) l) <= i)%nat /\ (length (filter (fun y => (x < y)%Z) l) <= length l - S i)%nat.
Proof.
  intros S H. rewrite <- (take_drop_middle l i x H) in S |- *. pose proof (lookup_lt_Some _ _ _ H) as Hl.
  assert (A : Forall (fun y => y <= x) (take i l)).
  { apply Forall_forall. intros y Hy%list_elem_of_In. eapply StronglySorted_app_1_elem_of; [exact S|done|left]. }
  assert (B : Forall (fun y => x <= y) (drop (Datatypes.S i) l)).
  { apply StronglySorted_app_1_r, StronglySorted_cons in S as [S _]. done. }
  assert (Z0 : forall (P : Z -> Prop) `{!forall y, Decision (P y)} (k : list Z), Forall (fun y => ~ P y) k -> filter P k = []).
  { intros P ? k. induction 1 as [|y k Hy _ IH]; [done|]. by rewrite filter_cons_False. }
  rewrite !list.filter_app, !filter_cons, !decide_False by lia. rewrite !length_app, length_cons, length_take, length_drop.
  rewrite (Z0 (fun y => y < x) _ (drop (Datatypes.S i) l)) by (eapply Forall_impl; [|exact B]; intros; simpl in *; lia).
  rewrite (Z0 (fun y => x < y) _ (take i l)) by (eapply Forall_impl; [|exact A]; intros; simpl in *; lia).
  pose proof (filter_length_le (fun y => y < x) (take i l)) as L1. rewrite length_take in L1.
  pose proof (filter_length_le (fun y => x < y) (drop (Datatypes.S i) l)) as L2. rewrite length_drop in L2.
  simpl. lia.
Qed.

Lemma median_sorted l : l <> [] ->
  is_median l (merge_sort Z.le l !!! ((length (merge_sort Z.le l) - 1) / 2)%nat).
Proof.
  intros N. pose proof (merge_sort_Permutation Z.le l) as P. pose proof (StronglySorted_merge_sort Z.le l) as S.
  set (k := merge_sort Z.le l) in *. assert (L : length k = length l) by by rewrite P.
  set (i := ((length k - 1) / 2)%nat). assert (Hi : (i < length k)%nat).
  { unfold i. apply Nat.Div0.div_lt_upper_bound. destruct l; [done|]. simpl in L. lia. }
  destruct (lookup_lt_is_Some_2 k i Hi) as [x Hx]. rewrite (list_lookup_total_correct _ _ _ Hx).
  destruct (sorted_split k i x S Hx) as [H1 H2].
  assert (Q : forall (P0 : Z -> Prop) `{!forall y, Decision (P0 y)}, length (filter P0 l) = length (filter P0 k)) by (intros; by rewrite P).
  split; [rewrite <- P; by eapply list_elem_of_lookup_2|]. rewrite !Q, <- L.
  assert (D : (2 * i <= length k - 1 < 2 * i + 2)%nat).
  { unfold i. pose proof (Nat.div_mod (length k - 1) 2 ltac:(lia)). pose proof (Nat.mod_upper_bound (length k - 1) 2 ltac:(lia)). lia. }
  lia.
Qed.

(** ** Nothing is lost by trimming the memory *)

Definition later (a b : Observation) : Prop := ob_At a < ob_At b.

Lemma merge_sort_later l : StronglySorted later l -> merge_sort newer l = reverse l.
Proof.
  intros S. apply (StronglySorted_unique_strong newer).
  - intros x y Hx Hy A B. rewrite merge_sort_Permutation in Hx. rewrite reverse_Permutation in Hy.
    apply list_elem_of_lookup in Hx as [i Hx]. apply list_elem_of_lookup in Hy as [j Hy].
    unfold newer in *.
    assert (T : forall a b i j, l !! i = Some a -> l !! j = Some b -> (i < j)%nat -> ob_At a < ob_At b).
    { intros a b i' j' Ha Hb Hij. rewrite <- (take_drop_middle l j' b Hb) in S.
      eapply (StronglySorted_app_1_elem_of later); [exact S| |left].
      apply list_elem_of_lookup. exists i'. by rewrite lookup_take_lt. }
    destruct (Nat.lt_total i j) as [L|[->|L]]; [pose proof (T _ _ _ _ Hx Hy L)|congruence|pose proof (T _ _ _ _ Hy Hx L)]; lia.
  - apply StronglySorted_merge_sort; apply _.
  - clear -S. induction S as [|x l S IH F]; [constructor|]. rewrite reverse_cons. apply StronglySorted_app_2; [|done|repeat constructor].
    intros a b Ha ->%list_elem_of_singleton. rewrite reverse_Permutation in Ha. unfold newer.
    rewrite Forall_forall in F. specialize (F a (proj1 (list_elem_of_In _ _) Ha)). unfold later in F. lia.
  - by rewrite merge_sort_Permutation, reverse_Permutation.
Qed.

(** The memory of one bucket after a history. *)
Definition remembered (m : nat) (h : list Observation) : list Observation := fold_left (push m) h [].

Lemma remembered_suffix m h :
  (0 < m)%nat ->
  exists p, h = p ++ remembered m h
            /\ (p = [] \/ m <= length (remembered m h))%nat /\ (length (remembered m h) <= 2 * m)%nat.
Proof.
  intros Hm. induction h as [|o h IH] using rev_ind; [exists []; split_and!; simpl; auto; lia|].
  destruct IH as (p & E & L1 & L2). unfold remembered in *. rewrite fold_left_app.
  set (l := fold_left (push m) h []) in *. cbn [fold_left]. unfold push. cbv zeta. rewrite length_app. cbn [length].
  destruct (Nat.ltb_spec (2 * m) (length l + 1)).
  - exists (p ++ take (length (l ++ [o]) - m) (l ++ [o])). split_and!.
    + unfold lastn. rewrite <- app_assoc, take_drop, app_assoc, <- E. done.
    + right. rewrite lastn_length, length_app. simpl. lia.
    + rewrite lastn_length, length_app. simpl. lia.
  - exists p. rewrite length_app. simpl. split_and!; [by rewrite app_assoc, <- E|destruct L1; [auto|right; lia]|lia].
Qed.

Lemma sorted_filter (P : Observation -> Prop) `{!forall o, Decision (P o)} l :
  StronglySorted later l -> StronglySorted later (filter P l).
Proof.
  induction 1 as [|x l S IH F]; [constructor|]. rewrite filter_cons. case_decide; [|done]. constructor; [done|].
  rewrite Forall_forall in F |- *. intros y Hy%list_elem_of_In. apply F, list_elem_of_In.
  by apply list_elem_of_filter in Hy as [_ ?].
Qed.

Lemma used_trim now window m p l :
  StronglySorted later (p ++ l) -> Forall (fun o => time_zero < ob_At o) (p ++ l) ->
  (p = [] \/ m <= length l)%nat -> used now (p ++ l) window m = used now l window m.
Proof.
  intros S Z [->|L]; [done|]. unfold used.
  rewrite !merge_sort_later by (apply sorted_filter; eauto using StronglySorted_app_1_r). rewrite list.filter_app, reverse_app.
  destruct (filter (in_window now window) p) as [|q qs] eqn:Ep; [by rewrite reverse_nil, app_nil_r|].
  assert (Hq : in_window now window q /\ q ∈ p).
  { assert (H : q ∈ filter (in_window now window) p) by (rewrite Ep; left). by apply list_elem_of_filter in H. }
  destruct Hq as [Wq Hq]. assert (Al : filter (in_window now window) l = l).
  { apply filter_true, Forall_forall. intros x Hx%list_elem_of_In. right.
    assert (later q x) by (eapply StronglySorted_app_1_elem_of; eauto).
    assert (time_zero < ob_At q). { rewrite Forall_forall in Z. apply Z, list_elem_of_In, elem_of_app. by left. }
    unfold later in *. destruct Wq; lia. }
  rewrite Al. rewrite !take_app_le by (rewrite length_reverse; lia). done.
Qed.

Lemma summarize_used now items items' window m :
  used now items window m = used now items' window m -> summarize now items window m = summarize now items' window m.
Proof. intros E. unfold summarize. fold (used now items window m). fold (used now items' window m). by rewrite E. Qed.

(** ** Buckets *)

Section buckets.
Context {R : Type} `{Redis R}.

Lemma bucket_inj k k' m m' :
  0 <= k -> 0 <= k' -> m <> "_" -> m' <> "_" -> bucket k m = bucket k' m' -> k = k' /\ m = m'.
Proof.
  intros Hk Hk' N N' E.
  assert (B : forall k m, bytes (bucket k m) = bytes (fmt_uint k) ++ 58 :: bytes (if String.eqb m "" then "_" else m)).
  { intros k0 m0. unfold bucket. destruct (String.eqb m0 ""); rewrite ?bytes_app; done. }
  apply (f_equal bytes) in E. rewrite !B in E. apply colon_split in E as [E1 E2]; [|apply fmt_uint_no_colon..].
  apply (inj bytes) in E1, E2. split; [by apply fmt_uint_inj|].
  destruct (String.eqb_spec m ""), (String.eqb_spec m' ""); congruence.
Qed.

(** The part of a history a bucket sees. *)
Definition relevant (k : Z) (m : string) (h : list Observation) : list Observation :=
  filter (fun o => ob_KeyID o = k /\ (m = "" \/ ob_Model o = m)) h.

Definition obs_ok (o : Observation) : Prop := 0 <= ob_KeyID o /\ ob_Model o <> "_" /\ time_zero < ob_At o.

Lemma memCopy_pushMem (s : Store R) key o key' :
  memCopy (pushMem s key o) key' = if decide (key' = key) then push (Z.to_nat (st_maxSamples s)) (memCopy s key) o else memCopy s key'.
Proof. unfold memCopy, pushMem. simpl. rewrite lookup_insert. repeat case_decide; subst; try congruence; done. Qed.

Lemma Observe_mem (s : Store R) o now k m :
  obs_ok o -> 0 <= k -> m <> "_" -> st_rdb s = None ->
  memCopy (Observe s o now) (bucket k m) =
  if decide (ob_KeyID o = k /\ (m = "" \/ ob_Model o = m))
  then push (Z.to_nat (st_maxSamples s)) (memCopy s (bucket k m)) o else memCopy s (bucket k m).
Proof.
  intros (Ok1 & Ok2 & Ok3) Hk Hm Rn. unfold Observe. rewrite Rn.
  assert (St : set_at o now = o). { unfold set_at, IsZero. by rewrite (proj2 (Z.eqb_neq _ _)) by lia. }
  rewrite St. assert (Bi : forall m', m' <> "_" -> bucket k m = bucket (ob_KeyID o) m' <-> k = ob_KeyID o /\ m = m').
  { intros m' Hm'. split; [by apply bucket_inj|by intros [-> ->]]. }
  destruct (String.eqb_spec (ob_Model o) "") as [E|N].
  - rewrite memCopy_pushMem. pose proof (Bi (ob_Model o) Ok2) as B1. rewrite E in *.
    repeat case_decide; try done; [congruence|naive_solver..].
  - rewrite !memCopy_pushMem. pose proof (Bi (ob_Model o) Ok2) as B1. pose proof (Bi "" ltac:(done)) as B2. simpl.
    destruct (decide (bucket k m = bucket (ob_KeyID o) "")) as [D1|D1].
    + apply B2 in D1 as D1'. destruct D1' as [-> ->]. rewrite !decide_False by (rewrite B1; intros [_ ?]; congruence).
      rewrite decide_True by auto. done.
    + destruct (decide (bucket k m = bucket (ob_KeyID o) (ob_Model o))) as [D2|D2].
      * apply B1 in D2 as D2'. destruct D2' as [-> ->]. by rewrite decide_True by auto.
      * rewrite decide_False; [done|]. intros [<- [->| <-]]; [apply D1|apply D2]; done.
Qed.
End buckets.

Section history.
Context {R : Type} `{Redis R}.

Lemma Observe_config (s : Store R) o now :
  st_rdb s = None ->
  st_rdb (Observe s o now) = None /\ st_maxSamples (Observe s o now) = st_maxSamples s /\ st_window (Observe s o now) = st_window s.
Proof. intros E. unfold Observe. rewrite E. by destruct (String.eqb _ _). Qed.

Lemma Backfill_config (s : Store R) h now :
  st_rdb s = None ->
  st_rdb (Backfill s h now) = None /\ st_maxSamples (Backfill s h now) = st_maxSamples s /\ st_window (Backfill s h now) = st_window s.
Proof.
  unfold Backfill. revert s. induction h as [|o h IH]; intros s E; [done|]. simpl.
  destruct (Observe_config s o now E) as (E1 & E2 & E3). destruct (IH _ E1) as (F1 & F2 & F3). split_and!; congruence.
Qed.

Lemma Backfill_mem (s : Store R) h now k m :
  Forall obs_ok h -> 0 <= k -> m <> "_" -> st_rdb s = None -> st_mem s = ∅ ->
  memCopy (Backfill s h now) (bucket k m) = remembered (Z.to_nat (st_maxSamples s)) (relevant k m h).
Proof.
  intros F Hk Hm Er Em. revert F. induction h as [|o h IH] using rev_ind; intros F.
  - unfold Backfill, memCopy. simpl. by rewrite Em, lookup_empty.
  - apply Forall_app in F as [F Fo]. inversion Fo as [|? ? Ho _]; subst. specialize (IH F).
    destruct (Backfill_config s h now Er) as (E1 & E2 & _). unfold Backfill in *. rewrite fold_left_app. cbn [fold_left].
    rewrite Observe_mem by done. rewrite IH, E2. unfold relevant, remembered.
    rewrite list.filter_app, filter_cons, filter_nil, fold_left_app. by case_decide.
Qed.
End history.

Lemma ttfts_pos l x : x ∈ ttfts l -> 0 < x.
Proof. unfold ttfts. intros (o & -> & Ho)%list_elem_of_fmap. by apply list_elem_of_filter in Ho as [[_ ?] _]. Qed.

(** ** The properties *)

(** A summary stays in range: at most maxSamples observations count, the
    success rate is in [0, 1], the cache rate is in [0, 1] when token counts are
    non-negative and their total fits int64, and the reported latency is the
    lower median of the first-token times of the successful observations. *)
Theorem summarize_bounds now items window m :
  (Z.of_nat (length items) < 2 ^ 63) ->
  let w := summarize now items window m in
  let l := used now items window m in
  wn_Samples w = Z.of_nat (length l) /\ (length l <= m)%nat
  /\ fbetween f0 (wn_SuccessRate w) f1
  /\ (Forall tokens_ok l -> total l < 2 ^ 63 -> fbetween f0 (wn_CacheRate w) f1)
  /\ (wn_HasLatency w = true -> is_median (ttfts l) (wn_TTFTp50 w) /\ 0 < wn_TTFTp50 w).
Proof.
  intros Hlen w l. unfold w, summarize. fold (used now items window m). fold l.
  assert (Ll : (length l <= length items)%nat).
  { unfold l, used. rewrite length_take, merge_sort_Permutation.
    pose proof (filter_length_le (in_window now window) items). lia. }
  assert (Lm : (length l <= m)%nat) by (unfold l, used; rewrite length_take; lia).
  case_bool_decide as E; [rewrite E; split_and!; try done; simpl; lia|].
  assert (Nl : (0 < length l)%nat) by (destruct l; [done|simpl; lia]).
  cbn [wn_Samples wn_SuccessRate wn_CacheRate wn_HasLatency wn_TTFTp50]. split_and!; [done|done| | |].
  - apply ratio_unit; [|lia]. pose proof (fold_ok l (mkSums 0 0 0 0)). simpl in *. lia.
  - intros F T. destruct (fgt _ f0) eqn:G; [|by split].
    destruct (fold_sums l (mkSums 0 0 0 0) F) as (S1 & S2 & S3 & S4); simpl in *; try lia.
    set (s := fold_left add_obs l (mkSums 0 0 0 0)) in *.
    assert (W : wrap_i64 (wrap_i64 (s_in s + s_cr s) + s_cc s) = total l).
    { rewrite (wrap_i64_id (s_in s + s_cr s)) by (unfold in_i64; lia). rewrite wrap_i64_id by (unfold in_i64; lia). lia. }
    rewrite W in *. assert (0 < total l).
    { destruct (Z.lt_total 0 (total l)) as [?|[E0|?]]; [done| |lia]. rewrite <- E0 in G. vm_compute in G. done. }
    apply ratio_unit; lia.
  - intros Hl. apply negb_true_iff in Hl. rewrite Hl. cbn [negb].
    apply bool_decide_eq_false in Hl. assert (Nt : ttfts l <> []).
    { intros Et. apply Hl. rewrite Et. done. }
    pose proof (median_sorted (ttfts l) Nt) as M. split; [exact M|]. destruct M as [Me _]. by apply ttfts_pos in Me.
Qed.

Definition demo_obs (n : Z) (ok : bool) : Observation := mkObs 1 "gpt-4o" ok 100 50 0 (100 * n) (n * Second).

Lemma summarize_bounds_witness :
  let w := summarize (10 * Second) [demo_obs 1 true; demo_obs 2 false; demo_obs 3 true] (5 * Minute) 50 in
  let l := used (10 * Second) [demo_obs 1 true; demo_obs 2 false; demo_obs 3 true] (5 * Minute) 50 in
  wn_Samples w = Z.of_nat (length l) /\ (length l <= 50)%nat
  /\ fbetween f0 (wn_SuccessRate w) f1
  /\ (Forall tokens_ok l -> total l < 2 ^ 63 -> fbetween f0 (wn_CacheRate w) f1)
  /\ (wn_HasLatency w = true -> is_median (ttfts l) (wn_TTFTp50 w) /\ 0 < wn_TTFTp50 w).
Proof. apply summarize_bounds. vm_compute. reflexivity. Defined.

(** C32: Trimming the in-memory lists loses nothing: after any history of
    observations with increasing times, the snapshot of a key (and model) equals
    the summary of the whole history of that key (and model), although the store
    keeps at most twice maxSamples observations per bucket. *)
Theorem snapshot_of_history {R : Type} `{Redis R} window maxSamples h now now' k m :
  Forall obs_ok h -> StronglySorted later h -> 0 <= k -> m <> "_" ->
  let s := Backfill (NewStore (R := R) None window maxSamples) h now in
  Snapshot s k m now' = summarize now' (relevant k m h) (st_window s) (Z.to_nat (st_maxSamples s))
  /\ (length (memCopy s (bucket k m)) <= 2 * Z.to_nat (st_maxSamples s))%nat.
Proof.
  intros F S Hk Hm s. set (s0 := NewStore (R := R) None window maxSamples).
  destruct (Backfill_config s0 h now eq_refl) as (E1 & E2 & E3). fold s0 in s. fold s in E1, E2, E3.
  assert (Mem : memCopy s (bucket k m) = remembered (Z.to_nat (st_maxSamples s0)) (relevant k m h)) by by apply Backfill_mem.
  assert (Pm : (0 < Z.to_nat (st_maxSamples s0))%nat) by (unfold s0, NewStore; simpl; case_match; lia).
  destruct (remembered_suffix (Z.to_nat (st_maxSamples s0)) (relevant k m h) Pm) as (p & Ep & L1 & L2).
  rewrite E2, E3. split; [|by rewrite Mem]. unfold Snapshot. rewrite E1, Mem, E2, E3.
  apply summarize_used. set (l := remembered _ _) in *.
  assert (Fr : Forall obs_ok (p ++ l) /\ StronglySorted later (p ++ l)).
  { rewrite <- Ep. split; [|by apply sorted_filter]. rewrite Forall_forall in F |- *. intros o Ho%list_elem_of_In.
    apply F, list_elem_of_In. by apply list_elem_of_filter in Ho as [_ ?]. }
  destruct Fr as [Fr Sr]. rewrite Ep. symmetry. apply used_trim; [done| |done].
  eapply Forall_impl; [|exact Fr]. by intros o (_ & _ & ?).
Qed.

(** Redis that holds nothing. *)
#[export] Instance no_redis : Redis unit := {| lpush_trim r _ _ _ _ := r; lrange _ _ _ := None |}.

Lemma snapshot_of_history_witness :
  let s := Backfill (NewStore (R := unit) None (5 * Minute) 1) [demo_obs 1 true; demo_obs 2 false; demo_obs 3 true] 0 in
  Snapshot s 1 "" (10 * Second)
  = summarize (10 * Second) (relevant 1 "" [demo_obs 1 true; demo_obs 2 false; demo_obs 3 true]) (st_window s) (Z.to_nat (st_maxSamples s))
  /\ (length (memCopy s (bucket 1 "")) <= 2 * Z.to_nat (st_maxSamples s))%nat.
Proof.
  apply snapshot_of_history; [|repeat constructor; vm_compute; reflexivity|lia|done].
  repeat constructor; simpl; try lia; try congruence; vm_compute; reflexivity.
Defined.
