(* ===== verification/Score.v ===== *)
(** * Scheduler quality score (internal/picker/score.go)

    The quality of a candidate is a renormalised weighted mean of its success
    rate, latency and cache rate; the effective cost discounts the rate
    multiplier by cached traffic. *)

From S2P Require Import Prelude GoFloat GoString Settings.

Definition clamp01 (v : f64) : f64 :=
  if flt v f0 then f0 else if fgt v f1 then f1 else v.

Record ScoreInputs : Type := mkScoreInputs {
  si_Success : f64;
  si_Samples : Z;
  si_Cache : f64;
  si_HasCache : bool;
  si_LatencyP50 : Z;
  si_HasLatency : bool
}.

(** The latency term: 1 at 0 ms, 0 at the cap. *)
Definition latency_term (p50 cap : Z) : f64 :=
  if 0 <? cap then fsub f1 (clamp01 (fdiv (f_of_Z p50) (f_of_Z cap))) else f1.

(** [num += w * term; den += w] under a guard. *)
Definition accumulate (on : bool) (w term : f64) (nd : f64 * f64) : f64 * f64 :=
  if on then (fadd nd.1 (fmul w term), fadd nd.2 w) else nd.

Definition Quality (inp : ScoreInputs) (cfg : SchedulerSettings) : f64 :=
  let success := if si_Samples inp <? MinSamples cfg then PriorSuccess cfg else si_Success inp in
  let nd := accumulate (fgt (WeightSuccess cfg) f0) (WeightSuccess cfg) (clamp01 success) (f0, f0) in
  let nd := accumulate (si_HasLatency inp && fgt (WeightTTFT cfg) f0) (WeightTTFT cfg)
              (latency_term (si_LatencyP50 inp) (TTFTCapMs cfg)) nd in
  let nd := accumulate (si_HasCache inp && fgt (WeightCache cfg) f0) (WeightCache cfg)
              (clamp01 (si_Cache inp)) nd in
  if fle nd.2 f0 then f0 else fdiv nd.1 nd.2.

Definition qualityScore (success cache : f64) (ttftP50 samples : Z) (cfg : SchedulerSettings) : f64 :=
  Quality (mkScoreInputs success samples cache true ttftP50 true) cfg.

Definition effectiveCost (rate cacheRate : f64) : f64 :=
  let rate := if flt rate f0 then f0 else rate in
  fmul rate (fsub f1 (fmul (f_dec 5 1) (clamp01 cacheRate))).

(** ** Bounds *)

Lemma clamp01_unit v : is_nan v = false -> fbetween f0 (clamp01 v) f1.
Proof.
  intros Hn. unfold clamp01, fgt. destruct (flt v f0) eqn:E; [by split|].
  destruct (flt f1 v) eqn:E2; [by split|].
  split; apply flt_false_fle; done.
Qed.

Lemma latency_term_unit p50 cap : in_i64 p50 -> in_i64 cap -> fbetween f0 (latency_term p50 cap) f1.
Proof.
  intros Hp Hc. unfold latency_term. destruct (0 <? cap) eqn:E; [|by split].
  apply fsub_unit, clamp01_unit, fdiv_not_nan; [by apply f_of_Z_fin..|].
  apply flt_0_1, f_of_Z_pos. lia.
Qed.

(** The largest weight a decimal(8,4) column holds is below 10^4. *)
Definition weight_ok (w : f64) : Prop := valid w /\ fbetween f0 w (f_of_Z 10000).

Lemma weight_ok_fin w : weight_ok w -> is_fin w = true.
Proof. intros (_ & H1 & H2). exact (fle_fin_between _ w _ H1 H2). Qed.

(** The accumulator invariant: [0 <= num <= den <= bound]. *)
Definition acc_inv (bound : Z) (nd : f64 * f64) : Prop :=
  fle f0 nd.1 = true /\ fle nd.1 nd.2 = true /\ fle nd.2 (f_of_Z bound) = true.

Lemma accumulate_inv on w term nd bound :
  fadd (f_of_Z bound) (f_of_Z 10000) = f_of_Z (bound + 10000) -> 0 <= bound ->
  weight_ok w -> (on = true -> fbetween f0 term f1) -> acc_inv bound nd ->
  acc_inv (bound + 10000) (accumulate on w term nd).
Proof.
  intros Hb Hb0 Hw Ht (H1 & H2 & H3). pose proof (weight_ok_fin w Hw) as Hf.
  destruct Hw as (Hv & Hw0 & Hw1). unfold accumulate. destruct on; simpl.
  - specialize (Ht eq_refl). pose proof (fmul_nonneg_fin w term Hf (fbetween_fin _ Ht) Hw0 (proj1 Ht)) as Hm.
    split_and!; simpl.
    + by apply fadd_nonneg.
    + apply fadd_mono; try done. by apply fmul_le_l.
    + rewrite <- Hb. apply fadd_mono; try done. eapply fle_trans; [exact H1|exact H2].
  - split_and!; try done. eapply fle_trans; [exact H3|]. apply f_of_Z_mono. lia.
Qed.

Lemma acc_inv_quotient bound nd :
  is_fin (f_of_Z bound) = true -> acc_inv bound nd ->
  fbetween f0 (if fle nd.2 f0 then f0 else fdiv nd.1 nd.2) f1.
Proof.
  intros Hb (H1 & H2 & H3). assert (H0 : fle f0 nd.2 = true) by (eapply fle_trans; eauto).
  destruct (fle nd.2 f0) eqn:E; [by split|]. apply fdiv_unit; try done.
  - destruct (f_of_Z bound) as [b| |]; try done. exact (fle_fin_between _ _ b H0 H3).
  - apply flt_spec. done.
Qed.

Lemma Quality_unit_lemma inp cfg :
  weight_ok (WeightSuccess cfg) -> weight_ok (WeightTTFT cfg) -> weight_ok (WeightCache cfg) ->
  is_nan (si_Success inp) = false -> is_nan (si_Cache inp) = false -> is_nan (PriorSuccess cfg) = false ->
  in_i64 (si_LatencyP50 inp) -> in_i64 (TTFTCapMs cfg) ->
  fbetween f0 (Quality inp cfg) f1.
Proof.
  intros W1 W2 W3 N1 N2 N3 I1 I2. unfold Quality. apply (acc_inv_quotient 30000); [reflexivity|].
  apply (accumulate_inv _ _ _ _ 20000); [reflexivity|lia|done|intros; by apply clamp01_unit|].
  apply (accumulate_inv _ _ _ _ 10000); [reflexivity|lia|done|intros; by apply latency_term_unit|].
  apply (accumulate_inv _ _ _ _ 0); [reflexivity|lia|done| |by split_and!].
  intros _. apply clamp01_unit. by case_match.
Qed.

Lemma effectiveCost_bounds_lemma rate cache :
  valid rate -> is_fin rate = true -> is_nan cache = false ->
  fle f0 (effectiveCost rate cache) = true /\ fle (effectiveCost rate cache) (if flt rate f0 then f0 else rate) = true.
Proof.
  intros V F N. unfold effectiveCost. set (r := if flt rate f0 then f0 else rate).
  assert (Vr : valid r) by (unfold r; case_match; [reflexivity|done]).
  assert (Fr : is_fin r = true) by (unfold r; by case_match).
  assert (Pr : fle f0 r = true).
  { unfold r. destruct (flt rate f0) eqn:E; [done|]. apply flt_false_fle; try done. by destruct rate. }
  assert (T : fbetween f0 (fsub f1 (fmul (f_dec 5 1) (clamp01 cache))) f1).
  { apply fsub_unit, fmul_unit; [by split; vm_compute|by apply clamp01_unit]. }
  split; [|by apply fmul_le_l]. apply fmul_nonneg_fin; try done; [by apply fbetween_fin|apply T].
Qed.

(** ** Evaluation *)

Example quality_default :
  Quality (mkScoreInputs (f_dec 9 1) 10 (f_dec 5 1) true 2000 true) DefaultSchedulerSettings
  = f_dec 7425 4.
Proof. vm_compute. reflexivity. Qed.

(** ** The properties *)

(** The quality of a candidate always lies in [0, 1], for any observed
    success rate, cache rate and latency, provided the weights are values of their
    decimal(8,4) columns: terms without observations are dropped and the
    remaining weights renormalised, in float64 arithmetic with rounding. *)
Theorem quality_unit_interval inp cfg :
  weight_ok (WeightSuccess cfg) -> weight_ok (WeightTTFT cfg) -> weight_ok (WeightCache cfg) ->
  is_nan (si_Success inp) = false -> is_nan (si_Cache inp) = false -> is_nan (PriorSuccess cfg) = false ->
  in_i64 (si_LatencyP50 inp) -> in_i64 (TTFTCapMs cfg) ->
  fbetween f0 (Quality inp cfg) f1.
Proof. apply Quality_unit_lemma. Qed.

Lemma quality_unit_interval_witness :
  fbetween f0 (Quality (mkScoreInputs (f_dec 9 1) 10 (f_dec 5 1) true 2000 true) DefaultSchedulerSettings) f1.
Proof.
  apply quality_unit_interval; try (vm_compute; reflexivity); try (split; [vm_compute; reflexivity|split; vm_compute; reflexivity]);
    split; vm_compute; congruence.
Defined.

(** The effective cost discounts the rate by cached traffic and never
    leaves [0, rate]; a negative rate counts as 0. *)
Theorem effective_cost_bounds rate cache :
  valid rate -> is_fin rate = true -> is_nan cache = false ->
  fle f0 (effectiveCost rate cache) = true /\ fle (effectiveCost rate cache) (if flt rate f0 then f0 else rate) = true.
Proof. apply effectiveCost_bounds_lemma. Qed.

Lemma effective_cost_bounds_witness :
  fle f0 (effectiveCost (f_dec 12 1) (f_dec 9 1)) = true
  /\ fle (effectiveCost (f_dec 12 1) (f_dec 9 1)) (if flt (f_dec 12 1) f0 then f0 else f_dec 12 1) = true.
Proof. apply effective_cost_bounds; vm_compute; reflexivity. Defined.
