(* ===== verification/Database.v ===== *)
(** * The routing tables and the SQL statements the program sends

    [routinghealth] keeps its state in three SQL tables through gorm.  The
    statements are a syntax, [stmt]; [denote] is their documented meaning on
    [Tables], the relational contents.  A transaction body is a [prog]: a tree
    of statements with the Go control flow in between, which may end in an
    error.  The database itself is a parameter: any type [T] with an [exec]
    that may fail, and that on success acts on its contents as [denote] says
    ([SQLStoreLaws]).  [transaction_refines] transfers every result proved on
    [Tables] to such a database, with rollback on error. *)

From S2P Require Import Prelude GoFloat GoString.

(** ** Rows (internal/domain/routing.go) *)

Record RoutingCircuit : Type := mkCircuit {
  rc_Generation : Z;           (* uint64 *)
  rc_Scope : string;           (* primary key *)
  rc_PlatformKeyID : Z;
  rc_Open : bool;
  rc_Failures : Z;
  rc_FailureTimes : list Z;    (* Unix milliseconds *)
  rc_AttemptTimes : list Z;
  rc_OpenedAt : time;
  rc_Until : time;
  rc_BackoffSec : Z;
  rc_Reason : string;
  rc_Lease : string;
  rc_LeaseUntil : time;
  rc_Protocol : string;
  rc_Model : string;
  rc_Path : string;
  rc_Stream : bool;
  rc_RecoveryAt : option time;
  rc_CheckLease : string;
  rc_CheckUntil : option time;
  rc_CheckAt : option time;
  rc_CheckOK : bool;
  rc_CheckError : string;
  rc_NextCheckAt : option time;
  rc_CheckBackoff : Z
}.

Record RoutingBudget : Type := mkBudget {
  rb_Scope : string;
  rb_Counter : Z;
  rb_RecoveryAfter : option time
}.

(** The three tables, by primary key. *)
Record Tables : Type := mkTables {
  circuits : gmap string RoutingCircuit;
  observations : gset (string * string);
  budgets : gmap string RoutingBudget
}.

(** ** Errors *)

Inductive rherr : Type :=
| ErrUnavailable
| ErrCheckCapacity
| ErrRecordNotFound
| ErrDB (msg : string).

(** ** Statements and their meaning *)

Inductive stmt : Type -> Type :=
| InsertCircuit (r : RoutingCircuit) : stmt unit          (* ON CONFLICT DO NOTHING *)
| TouchCircuit (scope : string) : stmt unit               (* UPDATE .. SET scope = scope: takes the row lock *)
| FirstCircuit (scope : string) : stmt (option RoutingCircuit)
| FindCircuits (p : RoutingCircuit -> bool) : stmt (gmap string RoutingCircuit)
| CountCircuits (p : RoutingCircuit -> bool) : stmt Z
| SaveCircuit (r : RoutingCircuit) : stmt unit            (* every column, by primary key *)
| InsertObservation (scope req : string) : stmt Z         (* ON CONFLICT DO NOTHING; rows affected *)
| InsertBudget (b : RoutingBudget) : stmt unit            (* ON CONFLICT DO NOTHING *)
| UpdateBudget (scope : string) (f : RoutingBudget -> RoutingBudget) : stmt unit
| FirstBudget (scope : string) : stmt (option RoutingBudget).

Definition set_circuits (tb : Tables) (m : gmap string RoutingCircuit) : Tables :=
  mkTables m (observations tb) (budgets tb).
Definition set_budgets (tb : Tables) (m : gmap string RoutingBudget) : Tables :=
  mkTables (circuits tb) (observations tb) m.

(** Rows of [m] that satisfy [p]; a result set without ORDER BY is a set of rows. *)
Definition select (p : RoutingCircuit -> bool) (m : gmap string RoutingCircuit) : gmap string RoutingCircuit :=
  filter (fun kv => p kv.2 = true) m.

Definition denote {A} (s : stmt A) (tb : Tables) : A * Tables :=
  match s in stmt A return A * Tables with
  | InsertCircuit r =>
      (tt, match circuits tb !! rc_Scope r with
           | Some _ => tb
           | None => set_circuits tb (<[rc_Scope r := r]> (circuits tb))
           end)
  | TouchCircuit _ => (tt, tb)
  | FirstCircuit scope => (circuits tb !! scope, tb)
  | FindCircuits p => (select p (circuits tb), tb)
  | CountCircuits p => (Z.of_nat (size (select p (circuits tb))), tb)
  | SaveCircuit r => (tt, set_circuits tb (<[rc_Scope r := r]> (circuits tb)))
  | InsertObservation scope req =>
      if bool_decide ((scope, req) ∈ observations tb) then (0, tb)
      else (1, mkTables (circuits tb) ({[(scope, req)]} ∪ observations tb) (budgets tb))
  | InsertBudget b =>
      (tt, match budgets tb !! rb_Scope b with
           | Some _ => tb
           | None => set_budgets tb (<[rb_Scope b := b]> (budgets tb))
           end)
  | UpdateBudget scope f => (tt, set_budgets tb (alter f scope (budgets tb)))
  | FirstBudget scope => (budgets tb !! scope, tb)
  end.

(** ** Transaction bodies *)

Inductive prog (A : Type) : Type :=
| Ret (a : A)
| Throw (e : rherr)
| Do {B : Type} (s : stmt B) (k : B -> prog A).
Arguments Ret {A} a.
Arguments Throw {A} e.
Arguments Do {A B} s k.

Fixpoint prog_bind {A B} (f : A -> prog B) (p : prog A) : prog B :=
  match p with
  | Ret a => f a
  | Throw e => Throw e
  | Do s k => Do s (fun b => prog_bind f (k b))
  end.

#[export] Instance prog_mbind : MBind prog := @prog_bind.
#[export] Instance prog_mret : MRet prog := @Ret.

(** A statement on its own, as a program. *)
Definition sql {A} (s : stmt A) : prog A := Do s Ret.

(** Running a body on the relational contents. *)
Fixpoint run {A} (p : prog A) (tb : Tables) : result rherr (A * Tables) :=
  match p with
  | Ret a => Ok (a, tb)
  | Throw e => Err e
  | Do s k => let '(b, tb') := denote s tb in run (k b) tb'
  end.

(** gorm's [Transaction]: an error rolls every statement back. *)
Definition transaction {A} (p : prog A) (tb : Tables) : result rherr A * Tables :=
  match run p tb with
  | Ok (a, tb') => (Ok a, tb')
  | Err e => (Err e, tb)
  end.

Lemma run_bind {A B} (f : A -> prog B) (p : prog A) tb :
  run (prog_bind f p) tb =
  match run p tb with Ok (a, tb') => run (f a) tb' | Err e => Err e end.
Proof.
  revert tb. induction p as [a|e|C s k IH]; intros tb; simpl; [done..|].
  destruct (denote s tb) as [c tb']. apply IH.
Qed.

Lemma run_mbind {A B} (f : A -> prog B) (p : prog A) tb :
  run (p ≫= f) tb = match run p tb with Ok (a, tb') => run (f a) tb' | Err e => Err e end.
Proof. apply run_bind. Qed.

(** ** Databases *)

Class SQLStore (T : Type) : Type := {
  exec : forall {A}, stmt A -> T -> result string (A * T)
}.

(** What the program relies on: a statement that succeeds acts on the contents
    as [denote] says. *)
Class SQLStoreLaws (T : Type) `{SQLStore T} : Type := {
  contents : T -> Tables;
  exec_sound : forall {A} (s : stmt A) t a t', exec s t = Ok (a, t') -> denote s (contents t) = (a, contents t')
}.

Section store.
Context {T : Type} `{SQLStoreLaws T}.

Fixpoint run_store {A} (p : prog A) (t : T) : result rherr (A * T) :=
  match p with
  | Ret a => Ok (a, t)
  | Throw e => Err e
  | Do s k => match exec s t with
              | Ok (b, t') => run_store (k b) t'
              | Err msg => Err (ErrDB msg)
              end
  end.

Definition transaction_store {A} (p : prog A) (t : T) : result rherr A * T :=
  match run_store p t with
  | Ok (a, t') => (Ok a, t')
  | Err e => (Err e, t)
  end.

Lemma run_store_sound {A} (p : prog A) t :
  (exists msg, run_store p t = Err (ErrDB msg)) \/
  match run_store p t with
  | Ok (a, t') => run p (contents t) = Ok (a, contents t')
  | Err e => run p (contents t) = Err e
  end.
Proof.
  revert t. induction p as [a|e|B s k IH]; intros t; simpl; [by right..|].
  destruct (exec s t) as [[b t']|msg] eqn:E; [|eauto].
  rewrite (exec_sound _ _ _ _ E). apply IH.
Qed.
End store.

(** The tables themselves are such a database: the one that never fails. *)
#[export] Instance tables_store : SQLStore Tables := {| exec A s tb := Ok (denote s tb) |}.
#[export] Program Instance tables_store_laws : SQLStoreLaws Tables := {| contents tb := tb |}.
Next Obligation. simpl. intros A s t a t' [= E]. by rewrite <- E. Qed.

(** ** The lookups of [denote], by statement *)

Lemma select_lookup p m k r : select p m !! k = Some r <-> m !! k = Some r /\ p r = true.
Proof. unfold select. by rewrite map_lookup_filter_Some. Qed.

Lemma select_empty p m : size (select p m) = 0%nat <-> forall k r, m !! k = Some r -> p r = false.
Proof.
  rewrite map_size_empty_iff. split.
  - intros E k r Hk. destruct (p r) eqn:Hp; [|done].
    assert (H : select p m !! k = Some r) by by apply select_lookup. by rewrite E in H.
  - intros Hall. apply map_empty. intros k. destruct (select p m !! k) as [r|] eqn:E; [|done].
    apply select_lookup in E as [H1 H2]. rewrite (Hall k r H1) in H2. done.
Qed.

(** ** Refinement *)

(** Refinement of the relational model by any SQL database: on a database
    whose successful statements act on its contents as documented, a transaction
    body either fails with a database error, and is rolled back, or returns
    exactly the result, error or value, that it returns on the tables, and leaves
    exactly those contents. *)
Lemma transaction_refines {T : Type} `{SQLStoreLaws T} {A} (p : prog A) (t : T) :
  (exists msg, transaction_store p t = (Err (ErrDB msg), t)) \/
  transaction p (contents t) = ((transaction_store p t).1, contents (transaction_store p t).2).
Proof.
  unfold transaction_store, transaction. destruct (run_store_sound p t) as [[msg ->]|E]; [by left; exists msg|].
  right. destruct (run_store p t) as [[a t']|e]; by rewrite E.
Qed.

(** A database that loses its connection after [n] statements. *)
Definition flaky : Type := Tables * nat.

#[export] Instance flaky_store : SQLStore flaky := {|
  exec A s t := match t.2 with
                | O => Err "connection lost"
                | S n => Ok (let '(a, tb) := denote s t.1 in (a, (tb, n)))
                end
|}.

#[export] Program Instance flaky_store_laws : SQLStoreLaws flaky := {| contents t := t.1 |}.
Next Obligation.
  intros A s [tb n] a [tb' n']. simpl. destruct n as [|n]; [done|]. destruct (denote s tb) as [b tb2].
  by intros [= <- <- <-].
Qed.

Lemma transaction_refines_witness :
  let p := (_ ← sql (InsertBudget (mkBudget "b" 0 None)); sql (FirstBudget "b")) in
  let t : flaky := (mkTables ∅ ∅ ∅, 1%nat) in
  (exists msg, transaction_store p t = (Err (ErrDB msg), t)) \/
  transaction p (contents t) = ((transaction_store p t).1, contents (transaction_store p t).2).
Proof. apply transaction_refines. Defined.
