(* ===== verification/Circuit.v ===== *)
(** * Routing circuits (internal/routinghealth/store.go, recovery.go)

    Two gates guard every request: the key gate [key:<id>] and the gate of the
    request's dimension.  A gate opens on failures, cools down, then admits one
    recovery request (a lease) or one synthetic check (a check lease) at a time;
    a success closes it.  Every open and close bumps the gate's generation, so
    that results of requests admitted before do not count any more. *)

From S2P Require Import Prelude GoFloat GoString Settings Database.

(** ** Dimensions and scopes *)

Record Dimension : Type := mkDim {
  dm_KeyID : Z;
  dm_Protocol : string;
  dm_Model : string;
  dm_Path : string;
  dm_Stream : bool
}.

Definition json_field (name : string) (value : list Z) : list Z := [34] ++ bytes name ++ [34; 58] ++ value.

(** [json.Marshal(d)]. *)
Definition dim_json (d : Dimension) : list Z :=
  [123] ++ json_field "KeyID" (bytes (fmt_uint (dm_KeyID d))) ++ [44]
  ++ json_field "Protocol" (json_string (dm_Protocol d)) ++ [44]
  ++ json_field "Model" (json_string (dm_Model d)) ++ [44]
  ++ json_field "Path" (json_string (dm_Path d)) ++ [44]
  ++ json_field "Stream" (bytes (if dm_Stream d then "true" else "false")) ++ [125].

Definition Scope (d : Dimension) : string := sha256_hex (dim_json d).
Definition KeyScope (id : Z) : string := "key:" +:+ fmt_uint id.

Record Admission : Type := mkAdmission {
  ad_Token : string;
  ad_Generations : gmap string Z
}.

Record Outcome : Type := mkOutcome {
  oc_Admission : option Admission;
  oc_RequestID : string;
  oc_StartedAt : time;
  oc_Success : bool;
  oc_Neutral : bool;
  oc_AuthFailure : bool;
  oc_Limited : bool;
  oc_Immediate : bool;
  oc_RetryAfter : duration;
  oc_Reason : string
}.

Definition FailureFirstTokenTimeout : string := "first_token_timeout".

(** ** Locking a gate row *)

Definition fresh_circuit (d : Dimension) (scope : string) : RoutingCircuit := {|
  rc_Generation := 0; rc_Scope := scope; rc_PlatformKeyID := dm_KeyID d; rc_Open := false;
  rc_Failures := 0; rc_FailureTimes := []; rc_AttemptTimes := []; rc_OpenedAt := time_zero;
  rc_Until := time_zero; rc_BackoffSec := 0; rc_Reason := ""; rc_Lease := "";
  rc_LeaseUntil := time_zero; rc_Protocol := dm_Protocol d; rc_Model := dm_Model d;
  rc_Path := dm_Path d; rc_Stream := dm_Stream d; rc_RecoveryAt := None; rc_CheckLease := "";
  rc_CheckUntil := None; rc_CheckAt := None; rc_CheckOK := false; rc_CheckError := "";
  rc_NextCheckAt := None; rc_CheckBackoff := 0
|}.

Definition lock (d : Dimension) (scope : string) : prog RoutingCircuit :=
  _ ← sql (InsertCircuit (fresh_circuit d scope));
  _ ← sql (TouchCircuit scope);
  r ← sql (FirstCircuit scope);
  match r with Some r => mret r | None => Throw ErrRecordNotFound end.

Definition Snapshot (dims : list Dimension) : prog (gmap string RoutingCircuit) :=
  let ids := dims ≫= fun d => [Scope d; KeyScope (dm_KeyID d)] in
  if bool_decide (ids = []) then mret ∅
  else sql (FindCircuits (fun r => bool_decide (rc_Scope r ∈ ids) && rc_Open r)).

(** ** Failure accounting *)

Definition maxTrackedAttempts : nat := 120.
Definition maxTrackedFailures : nat := 64.
Definition circuitMaxFailureThreshold : Z := 8.
Definition sustainedMinAttempts : Z := 8.

Definition trackTimestamp (times : list Z) (at_ cut : Z) (cap : nat) : list Z :=
  let kept := filter (fun t => cut < t) times in
  let kept := if at_ =? 0 then kept else kept ++ [at_] in
  lastn cap kept.

Definition circuitThreshold (r : RoutingCircuit) (cfg : SchedulerSettings) : Z :=
  let threshold := CircuitFailureThreshold cfg in
  let n := Z.of_nat (length (rc_AttemptTimes r)) in
  if fgt (CircuitRateFactor cfg) f0 && (0 <? n) then
    let dynamic := f_to_int (fceil (fmul (f_of_Z n) (CircuitRateFactor cfg))) in
    let dynamic := if dynamic <? threshold then threshold else dynamic in
    if circuitMaxFailureThreshold <? dynamic then circuitMaxFailureThreshold else dynamic
  else threshold.

(** The constant [1 - sustainedSuccessFloor] is 0.4. *)
Definition sustainedFailure (r : RoutingCircuit) : bool :=
  let attempts := Z.of_nat (length (rc_AttemptTimes r)) in
  if attempts <? sustainedMinAttempts then false
  else fge (f_of_Z (rc_Failures r)) (fmul (f_of_Z attempts) (f_dec 4 1)).

(** ** Closing and opening a gate *)

Definition closeCircuit (r : RoutingCircuit) (now : time) : RoutingCircuit := {|
  rc_Generation := wrap_u64 (rc_Generation r + 1); rc_Scope := rc_Scope r;
  rc_PlatformKeyID := rc_PlatformKeyID r; rc_Open := false; rc_Failures := 0;
  rc_FailureTimes := []; rc_AttemptTimes := []; rc_OpenedAt := now; rc_Until := time_zero;
  rc_BackoffSec := 0; rc_Reason := ""; rc_Lease := ""; rc_LeaseUntil := time_zero;
  rc_Protocol := rc_Protocol r; rc_Model := rc_Model r; rc_Path := rc_Path r;
  rc_Stream := rc_Stream r; rc_RecoveryAt := rc_RecoveryAt r; rc_CheckLease := "";
  rc_CheckUntil := None; rc_CheckAt := rc_CheckAt r; rc_CheckOK := rc_CheckOK r;
  rc_CheckError := rc_CheckError r; rc_NextCheckAt := None; rc_CheckBackoff := 0
|}.

(** [d.Seconds()] of a duration. *)
Definition Seconds (d : duration) : f64 :=
  fadd (f_of_Z (Z.quot d Second)) (fdiv (f_of_Z (Z.rem d Second)) (f_of_Z Second)).

Definition open_seconds (r : RoutingCircuit) (retry : duration) (cfg : SchedulerSettings) : Z :=
  let seconds := CircuitCooldownSec cfg in
  let seconds :=
    if rc_Open r && (0 <? rc_BackoffSec r) then
      let s := Z.min (Z.max (rc_BackoffSec r) (CircuitCooldownSec cfg) * 2) (CircuitMaxCooldownSec cfg) in
      if Z.quot (CircuitMaxCooldownSec cfg) 2 <? s then CircuitMaxCooldownSec cfg else s
    else seconds in
  if 0 <? retry then Z.max 1 (f_to_int (fadd (Seconds retry) (f_dec 999 3))) else seconds.

Definition open (r : RoutingCircuit) (now : time) (reason : string) (retry : duration)
    (cfg : SchedulerSettings) : RoutingCircuit :=
  let seconds := open_seconds r retry cfg in {|
  rc_Generation := wrap_u64 (rc_Generation r + 1); rc_Scope := rc_Scope r;
  rc_PlatformKeyID := rc_PlatformKeyID r; rc_Open := true; rc_Failures := rc_Failures r;
  rc_FailureTimes := rc_FailureTimes r; rc_AttemptTimes := rc_AttemptTimes r; rc_OpenedAt := now;
  rc_Until := now + wrap_i64 (seconds * Second); rc_BackoffSec := Z.min seconds (CircuitMaxCooldownSec cfg);
  rc_Reason := reason; rc_Lease := ""; rc_LeaseUntil := time_zero;
  rc_Protocol := rc_Protocol r; rc_Model := rc_Model r; rc_Path := rc_Path r;
  rc_Stream := rc_Stream r; rc_RecoveryAt := rc_RecoveryAt r; rc_CheckLease := "";
  rc_CheckUntil := None; rc_CheckAt := rc_CheckAt r; rc_CheckOK := false;
  rc_CheckError := rc_CheckError r; rc_NextCheckAt := None; rc_CheckBackoff := 0
|}.

(** ** Admission *)

Definition busy_on_key (d : Dimension) (scope : string) (now : time) (r : RoutingCircuit) : bool :=
  (rc_PlatformKeyID r =? dm_KeyID d) && negb (String.eqb (rc_Scope r) scope)
  && (after_opt (rc_CheckUntil r) now || After (rc_LeaseUntil r) now).

(** [r.Lease = token; r.LeaseUntil = now + 330s; r.RecoveryAt = &now]. *)
Definition with_lease (r : RoutingCircuit) (token : string) (now : time) : RoutingCircuit := {|
  rc_Generation := rc_Generation r; rc_Scope := rc_Scope r; rc_PlatformKeyID := rc_PlatformKeyID r;
  rc_Open := rc_Open r; rc_Failures := rc_Failures r; rc_FailureTimes := rc_FailureTimes r;
  rc_AttemptTimes := rc_AttemptTimes r; rc_OpenedAt := rc_OpenedAt r; rc_Until := rc_Until r;
  rc_BackoffSec := rc_BackoffSec r; rc_Reason := rc_Reason r; rc_Lease := token;
  rc_LeaseUntil := now + 330 * Second; rc_Protocol := rc_Protocol r; rc_Model := rc_Model r;
  rc_Path := rc_Path r; rc_Stream := rc_Stream r; rc_RecoveryAt := Some now;
  rc_CheckLease := rc_CheckLease r; rc_CheckUntil := rc_CheckUntil r; rc_CheckAt := rc_CheckAt r;
  rc_CheckOK := rc_CheckOK r; rc_CheckError := rc_CheckError r; rc_NextCheckAt := rc_NextCheckAt r;
  rc_CheckBackoff := rc_CheckBackoff r
|}.

(** One iteration of the loop over the two gates. *)
Definition admit_gate (d : Dimension) (recovery : bool) (token : string) (now : time)
    (gens : gmap string Z) (scope : string) : prog (gmap string Z) :=
  r ← lock d scope;
  let gens := <[scope := rc_Generation r]> gens in
  if negb (rc_Open r) then mret gens else
  if negb recovery || After (rc_Until r) now || After (rc_LeaseUntil r) now
     || after_opt (rc_CheckUntil r) now then Throw ErrUnavailable else
  busy ← (if String.eqb scope (KeyScope (dm_KeyID d))
          then sql (CountCircuits (busy_on_key d scope now)) else mret 0);
  if 0 <? busy then Throw ErrUnavailable else
  _ ← sql (SaveCircuit (with_lease r token now));
  mret gens.

(** [token] is the fresh UUID, [now] the clock reading of the transaction. *)
Definition AdmitRequest (d : Dimension) (recovery : bool) (token : string) (now : time) : prog Admission :=
  g1 ← admit_gate d recovery token now ∅ (KeyScope (dm_KeyID d));
  g2 ← admit_gate d recovery token now g1 (Scope d);
  mret (mkAdmission token g2).

Definition Admit (d : Dimension) (recovery : bool) (token : string) (now : time) : prog string :=
  a ← AdmitRequest d recovery token now;
  mret (ad_Token a).

(** ** Releasing a recovery lease on the first output *)

(** One gate of [ReleaseOnOutput]; returns the updated generation map. *)
Definition release_gate (d : Dimension) (a : Admission) (now : time)
    (changed : gmap string Z) (scope : string) : prog (gmap string Z) :=
  r ← lock d scope;
  if bool_decide (ad_Generations a !! scope = Some (rc_Generation r)) && rc_Open r
     && String.eqb (rc_Lease r) (ad_Token a) && After (rc_LeaseUntil r) now
  then
    let r' := closeCircuit r now in
    _ ← sql (SaveCircuit r');
    mret (<[scope := rc_Generation r']> changed)
  else mret changed.

(** Returns the admission with the new generations, and whether a gate closed. *)
Definition ReleaseOnOutput (d : Dimension) (a : option Admission) (now : time) : prog (option Admission * bool) :=
  match a with
  | None => mret (None, false)
  | Some a =>
      if String.eqb (ad_Token a) "" then mret (Some a, false) else
      c1 ← release_gate d a now ∅ (KeyScope (dm_KeyID d));
      c2 ← release_gate d a now c1 (Scope d);
      mret (Some (mkAdmission (ad_Token a) (c2 ∪ ad_Generations a)), negb (bool_decide (c2 = ∅)))
  end.

(** ** Observing an outcome *)

(** Field updates of [Observe], on a row that keeps everything else. *)
Definition set_times (r : RoutingCircuit) (attempts failures : list Z) (n : Z) : RoutingCircuit := {|
  rc_Generation := rc_Generation r; rc_Scope := rc_Scope r; rc_PlatformKeyID := rc_PlatformKeyID r;
  rc_Open := rc_Open r; rc_Failures := n; rc_FailureTimes := failures; rc_AttemptTimes := attempts;
  rc_OpenedAt := rc_OpenedAt r; rc_Until := rc_Until r; rc_BackoffSec := rc_BackoffSec r;
  rc_Reason := rc_Reason r; rc_Lease := rc_Lease r; rc_LeaseUntil := rc_LeaseUntil r;
  rc_Protocol := rc_Protocol r; rc_Model := rc_Model r; rc_Path := rc_Path r; rc_Stream := rc_Stream r;
  rc_RecoveryAt := rc_RecoveryAt r; rc_CheckLease := rc_CheckLease r; rc_CheckUntil := rc_CheckUntil r;
  rc_CheckAt := rc_CheckAt r; rc_CheckOK := rc_CheckOK r; rc_CheckError := rc_CheckError r;
  rc_NextCheckAt := rc_NextCheckAt r; rc_CheckBackoff := rc_CheckBackoff r
|}.

(** [Lease, LeaseUntil, CheckLease, CheckUntil] cleared. *)
Definition clear_leases (r : RoutingCircuit) : RoutingCircuit := {|
  rc_Generation := rc_Generation r; rc_Scope := rc_Scope r; rc_PlatformKeyID := rc_PlatformKeyID r;
  rc_Open := rc_Open r; rc_Failures := rc_Failures r; rc_FailureTimes := rc_FailureTimes r;
  rc_AttemptTimes := rc_AttemptTimes r; rc_OpenedAt := rc_OpenedAt r; rc_Until := rc_Until r;
  rc_BackoffSec := rc_BackoffSec r; rc_Reason := rc_Reason r; rc_Lease := ""; rc_LeaseUntil := time_zero;
  rc_Protocol := rc_Protocol r; rc_Model := rc_Model r; rc_Path := rc_Path r; rc_Stream := rc_Stream r;
  rc_RecoveryAt := rc_RecoveryAt r; rc_CheckLease := ""; rc_CheckUntil := None;
  rc_CheckAt := rc_CheckAt r; rc_CheckOK := rc_CheckOK r; rc_CheckError := rc_CheckError r;
  rc_NextCheckAt := rc_NextCheckAt r; rc_CheckBackoff := rc_CheckBackoff r
|}.

(** [BackoffSec = 0; Reason = ""]. *)
Definition clear_backoff (r : RoutingCircuit) : RoutingCircuit := {|
  rc_Generation := rc_Generation r; rc_Scope := rc_Scope r; rc_PlatformKeyID := rc_PlatformKeyID r;
  rc_Open := rc_Open r; rc_Failures := rc_Failures r; rc_FailureTimes := rc_FailureTimes r;
  rc_AttemptTimes := rc_AttemptTimes r; rc_OpenedAt := rc_OpenedAt r; rc_Until := rc_Until r;
  rc_BackoffSec := 0; rc_Reason := ""; rc_Lease := rc_Lease r; rc_LeaseUntil := rc_LeaseUntil r;
  rc_Protocol := rc_Protocol r; rc_Model := rc_Model r; rc_Path := rc_Path r; rc_Stream := rc_Stream r;
  rc_RecoveryAt := rc_RecoveryAt r; rc_CheckLease := rc_CheckLease r; rc_CheckUntil := rc_CheckUntil r;
  rc_CheckAt := rc_CheckAt r; rc_CheckOK := rc_CheckOK r; rc_CheckError := rc_CheckError r;
  rc_NextCheckAt := rc_NextCheckAt r; rc_CheckBackoff := rc_CheckBackoff r
|}.

(** The request's dimension copied into the key gate. *)
Definition set_dimension (r : RoutingCircuit) (d : Dimension) : RoutingCircuit := {|
  rc_Generation := rc_Generation r; rc_Scope := rc_Scope r; rc_PlatformKeyID := rc_PlatformKeyID r;
  rc_Open := rc_Open r; rc_Failures := rc_Failures r; rc_FailureTimes := rc_FailureTimes r;
  rc_AttemptTimes := rc_AttemptTimes r; rc_OpenedAt := rc_OpenedAt r; rc_Until := rc_Until r;
  rc_BackoffSec := rc_BackoffSec r; rc_Reason := rc_Reason r; rc_Lease := rc_Lease r;
  rc_LeaseUntil := rc_LeaseUntil r; rc_Protocol := dm_Protocol d; rc_Model := dm_Model d;
  rc_Path := dm_Path d; rc_Stream := dm_Stream d; rc_RecoveryAt := rc_RecoveryAt r;
  rc_CheckLease := rc_CheckLease r; rc_CheckUntil := rc_CheckUntil r; rc_CheckAt := rc_CheckAt r;
  rc_CheckOK := rc_CheckOK r; rc_CheckError := rc_CheckError r; rc_NextCheckAt := rc_NextCheckAt r;
  rc_CheckBackoff := rc_CheckBackoff r
|}.

Definition owned (token : string) (now : time) (r : RoutingCircuit) : bool :=
  negb (String.eqb (rc_Lease r) "") && String.eqb (rc_Lease r) token && After (rc_LeaseUntil r) now.

(** The guards that make [Observe] leave a row alone. *)
Definition observe_skips (token : string) (o : Outcome) (now : time) (row : RoutingCircuit) : bool :=
  let own := owned token now row in
  match oc_Admission o with
  | Some a => negb (bool_decide (ad_Generations a !! rc_Scope row = Some (rc_Generation row)))
              || (rc_Open row && negb own)
  | None => negb own && Before (oc_StartedAt o) (rc_OpenedAt row)
  end || (rc_Open row && negb own && negb (String.eqb (rc_Lease row) "")).

Definition window_cut (cfg : SchedulerSettings) (now : time) : Z :=
  UnixMilli (now - CircuitWindowSec cfg * Second).

(** A success resets the failure counters of a gate that is closed or owned. *)
Definition observe_success (cfg : SchedulerSettings) (own key_row : bool) (now : time) (row : RoutingCircuit) : RoutingCircuit :=
  let row := if key_row then row
             else set_times row (trackTimestamp (rc_AttemptTimes row) (UnixMilli now) (window_cut cfg now) maxTrackedAttempts)
                    (rc_FailureTimes row) (rc_Failures row) in
  if negb (rc_Open row) || own then
    let row := if rc_Open row then closeCircuit row now else row in
    clear_leases (clear_backoff (set_times row (rc_AttemptTimes row) [] 0))
  else row.

Definition failure_weight (cfg : SchedulerSettings) (reason : string) : nat :=
  if String.eqb reason FailureFirstTokenTimeout && (1 <? FTTFailureWeight cfg)
  then Z.to_nat (FTTFailureWeight cfg) else 1.

(** The dimension row with this failure counted. *)
Definition count_failure (cfg : SchedulerSettings) (reason : string) (now : time) (row : RoutingCircuit) : RoutingCircuit :=
  let cut := window_cut cfg now in
  let attempts := trackTimestamp (rc_AttemptTimes row) (UnixMilli now) cut maxTrackedAttempts in
  let kept := filter (fun t => cut < t) (rc_FailureTimes row)
              ++ replicate (failure_weight cfg reason) (UnixMilli now) in
  let failures := trackTimestamp kept 0 cut maxTrackedFailures in
  set_times row attempts failures (Z.of_nat (length failures)).

Definition observe_failure (cfg : SchedulerSettings) (own : bool) (o : Outcome) (now : time) (row : RoutingCircuit) : RoutingCircuit :=
  let row := count_failure cfg (oc_Reason o) now row in
  if own || oc_Limited o || oc_Immediate o || (circuitThreshold row cfg <=? rc_Failures row)
     || sustainedFailure row
  then open row now (oc_Reason o) (oc_RetryAfter o) cfg else row.

(** The body of the loop for a row that is not skipped. *)
Definition observe_update (cfg : SchedulerSettings) (d : Dimension) (token : string) (o : Outcome)
    (now : time) (key_row : bool) (row : RoutingCircuit) : RoutingCircuit :=
  let own := owned token now row in
  if oc_Neutral o then (if own then clear_leases row else row)
  else if oc_Success o then observe_success cfg own key_row now row
  else if key_row then
    if oc_AuthFailure o || own
    then open (set_dimension row d) now (oc_Reason o) (oc_RetryAfter o) cfg else row
  else if own || negb (oc_AuthFailure o) then observe_failure cfg own o now row
  else row.

(** [continue], or update and save. *)
Definition observe_row (cfg : SchedulerSettings) (d : Dimension) (token : string) (o : Outcome)
    (now : time) (key_row : bool) (row : RoutingCircuit) : prog unit :=
  if observe_skips token o now row then mret tt
  else sql (SaveCircuit (observe_update cfg d token o now key_row row)).

Definition Observe (settings : SchedulerSettings) (d : Dimension) (token : string) (o : Outcome) (now : time) : prog unit :=
  let cfg := Normalize settings in
  key ← lock d (KeyScope (dm_KeyID d));
  r ← lock d (Scope d);
  n ← (if String.eqb (oc_RequestID o) "" then mret 1 else sql (InsertObservation (rc_Scope r) (oc_RequestID o)));
  if n =? 0 then mret tt else
  _ ← observe_row cfg d token o now (String.eqb (rc_Scope key) (rc_Scope key)) key;
  observe_row cfg d token o now (String.eqb (rc_Scope r) (rc_Scope key)) r.

(** ** Budgets *)

(** One exploration slot every [interval] mutating calls. *)
Definition Slot (scope : string) (interval : Z) (mutate : bool) : prog bool :=
  if interval <=? 0 then mret false else
  _ ← (if mutate then
         _ ← sql (InsertBudget (mkBudget scope 0 None));
         sql (UpdateBudget scope (fun b => mkBudget (rb_Scope b) (Z.rem (rb_Counter b + 1) interval) (rb_RecoveryAfter b)))
       else mret tt);
  r ← sql (FirstBudget scope);
  match r with
  | None => if mutate then Throw ErrRecordNotFound else mret false
  | Some r => let count := if mutate then rb_Counter r else rb_Counter r + 1 in
              mret (Z.rem count interval =? 0)
  end.

Definition recoverySpacing (settings : SchedulerSettings) : duration :=
  let cfg := Normalize settings in
  let budget := if RecoveryBudgetPerMin cfg <? 1 then 1 else RecoveryBudgetPerMin cfg in
  Z.quot 60 budget * Second.

Definition RecoverySlot (settings : SchedulerSettings) (scope : string) (mutate : bool) (now : time) : prog bool :=
  let scope := "recovery:" +:+ scope in
  _ ← (if mutate then
         _ ← sql (InsertBudget (mkBudget scope 0 None));
         sql (UpdateBudget scope (fun b => b))
       else mret tt);
  r ← sql (FirstBudget scope);
  match r with
  | None => if mutate then Throw ErrRecordNotFound else mret true
  | Some r =>
      let allowed := negb (after_opt (rb_RecoveryAfter r) now) in
      if allowed && mutate then
        _ ← sql (UpdateBudget scope (fun b => mkBudget (rb_Scope b) (rb_Counter b) (Some (now + recoverySpacing settings))));
        mret allowed
      else mret allowed
  end.

(** ** Synthetic recovery checks *)

Definition CheckLeaseDuration : duration := 45 * Second.
Definition DefaultCheckConcurrency : Z := 8.
Definition checkBackoffBaseSec : Z := 30.
Definition checkBackoffMaxSec : Z := 90.

Definition SupportsCheck (path : string) : bool :=
  String.eqb path "/v1/responses" || String.eqb path "/v1/chat/completions" || String.eqb path "/v1/messages".

Definition checkLimit (concurrency : Z) : Z :=
  if (1 <=? concurrency) && (concurrency <=? 64) then concurrency else DefaultCheckConcurrency.

Definition check_active (now : time) (r : RoutingCircuit) : bool := after_opt (rc_CheckUntil r) now.

(** [!r.CheckOK && r.NextCheckAt != nil && r.NextCheckAt.After(now)]. *)
Definition check_backoff (now : time) (r : RoutingCircuit) : bool :=
  negb (rc_CheckOK r) && after_opt (rc_NextCheckAt r) now.

Definition check_conflict (d : Dimension) (scope : string) (now : time) (r : RoutingCircuit) : bool :=
  (rc_PlatformKeyID r =? dm_KeyID d) && (After (rc_LeaseUntil r) now || check_active now r)
  && (String.eqb scope (KeyScope (dm_KeyID d))
      || String.eqb (rc_Scope r) scope || String.eqb (rc_Scope r) (KeyScope (dm_KeyID d))).

(** The columns [ClaimCheck] updates. *)
Definition with_check (r : RoutingCircuit) (d : Dimension) (token : string) (until : time) : RoutingCircuit := {|
  rc_Generation := rc_Generation r; rc_Scope := rc_Scope r; rc_PlatformKeyID := rc_PlatformKeyID r;
  rc_Open := rc_Open r; rc_Failures := rc_Failures r; rc_FailureTimes := rc_FailureTimes r;
  rc_AttemptTimes := rc_AttemptTimes r; rc_OpenedAt := rc_OpenedAt r; rc_Until := rc_Until r;
  rc_BackoffSec := rc_BackoffSec r; rc_Reason := rc_Reason r; rc_Lease := rc_Lease r;
  rc_LeaseUntil := rc_LeaseUntil r; rc_Protocol := dm_Protocol d; rc_Model := dm_Model d;
  rc_Path := dm_Path d; rc_Stream := dm_Stream d; rc_RecoveryAt := rc_RecoveryAt r;
  rc_CheckLease := token; rc_CheckUntil := Some until; rc_CheckAt := rc_CheckAt r;
  rc_CheckOK := false; rc_CheckError := rc_CheckError r; rc_NextCheckAt := rc_NextCheckAt r;
  rc_CheckBackoff := rc_CheckBackoff r
|}.

Definition workers_scope : string := "recovery-check-workers".

Definition first_circuit (scope : string) : prog RoutingCircuit :=
  _ ← sql (TouchCircuit scope);
  r ← sql (FirstCircuit scope);
  match r with Some r => mret r | None => Throw ErrRecordNotFound end.

Definition ClaimCheck (concurrency : Z) (scope : string) (d : Dimension) (expected : option Z)
    (token : string) (now : time) : prog string :=
  _ ← sql (InsertBudget (mkBudget workers_scope 0 None));
  _ ← sql (UpdateBudget workers_scope (fun b => b));
  active ← sql (CountCircuits (check_active now));
  if checkLimit concurrency <=? active then Throw ErrCheckCapacity else
  keyGate ← lock d (KeyScope (dm_KeyID d));
  if negb (String.eqb scope (KeyScope (dm_KeyID d))) && rc_Open keyGate
     && (After (rc_Until keyGate) now || check_backoff now keyGate) then Throw ErrUnavailable else
  conflicting ← sql (CountCircuits (check_conflict d scope now));
  if 0 <? conflicting then Throw ErrUnavailable else
  r ← first_circuit scope;
  if match expected with Some g => negb (rc_Generation r =? g) | None => false end then Throw ErrUnavailable else
  if negb (rc_Open r) || After (rc_Until r) now || After (rc_LeaseUntil r) now
     || check_active now r || check_backoff now r then Throw ErrUnavailable else
  _ ← sql (SaveCircuit (with_check r d token (now + CheckLeaseDuration)));
  mret token.

(** The next check backoff, in seconds, after a failed probe. *)
Definition next_check_backoff (b : Z) : Z :=
  if b =? 0 then 1 else if b <? checkBackoffBaseSec then checkBackoffBaseSec
  else Z.min (b * 2) checkBackoffMaxSec.

(** The row with the check settled: lease cleared, result recorded. *)
Definition with_check_result (r : RoutingCircuit) (ok : bool) (msg : string) (now : time)
    (next : option time) (backoff : Z) : RoutingCircuit := {|
  rc_Generation := rc_Generation r; rc_Scope := rc_Scope r; rc_PlatformKeyID := rc_PlatformKeyID r;
  rc_Open := rc_Open r; rc_Failures := rc_Failures r; rc_FailureTimes := rc_FailureTimes r;
  rc_AttemptTimes := rc_AttemptTimes r; rc_OpenedAt := rc_OpenedAt r; rc_Until := rc_Until r;
  rc_BackoffSec := rc_BackoffSec r; rc_Reason := rc_Reason r; rc_Lease := rc_Lease r;
  rc_LeaseUntil := rc_LeaseUntil r; rc_Protocol := rc_Protocol r; rc_Model := rc_Model r;
  rc_Path := rc_Path r; rc_Stream := rc_Stream r; rc_RecoveryAt := rc_RecoveryAt r;
  rc_CheckLease := ""; rc_CheckUntil := None; rc_CheckAt := Some now;
  rc_CheckOK := ok; rc_CheckError := msg; rc_NextCheckAt := next; rc_CheckBackoff := backoff
|}.

Definition FinishCheck (scope token : string) (success neutral : bool) (message : string)
    (retryAfter : duration) (now : time) : prog unit :=
  r ← first_circuit scope;
  if negb (rc_Open r) || negb (String.eqb (rc_CheckLease r) token) || String.eqb token "" then mret tt else
  if negb (check_active now r) then mret tt else
  let success := success && negb neutral in
  if success then
    sql (SaveCircuit (closeCircuit (with_check_result r true message now (rc_NextCheckAt r) (rc_CheckBackoff r)) now))
  else
    let backoff := if neutral then rc_CheckBackoff r else next_check_backoff (rc_CheckBackoff r) in
    let delay := if neutral then Minute else backoff * Second in
    sql (SaveCircuit (with_check_result r false message now (Some (now + Z.max delay retryAfter)) backoff)).

(** [rows]: the key's distinct (protocol, model, path, stream) combinations of
    recorded attempts, most recent first. *)
Fixpoint resolve_rows (r : RoutingCircuit) (d : Dimension) (rows : list Dimension) : Dimension * bool :=
  match rows with
  | [] => (d, false)
  | a :: rest =>
      let d := mkDim (rc_PlatformKeyID r) (dm_Protocol a) (dm_Model a) (dm_Path a) (dm_Stream a) in
      if String.eqb (rc_Scope r) (KeyScope (rc_PlatformKeyID r)) || String.eqb (Scope d) (rc_Scope r)
      then (d, true) else resolve_rows r d rest
  end.

Definition ResolveDimension (r : RoutingCircuit) (rows : list Dimension) : Dimension * bool :=
  let d := mkDim (rc_PlatformKeyID r) (rc_Protocol r) (rc_Model r) (rc_Path r) (rc_Stream r) in
  if negb (String.eqb (dm_Path d) "") then (d, true) else resolve_rows r d rows.
