(* ===== verification/CircuitProps.v ===== *)
(** * Correctness of the routing circuits

    First the effect of each transaction on the gate rows, then the safety of
    the whole protocol as a state machine: leases and checks exclude each
    other, an unexpired lease is never taken over, stale results do not count,
    and a successful recovery closes the gates again. *)

From S2P Require Import Prelude GoFloat GoString Settings Database Circuit.

(** ** Scopes of the two gates differ *)

Lemma Scope_nonempty d : Scope d <> "".
Proof. apply sha256_hex_nonempty. Qed.

Lemma KeyScope_nonempty id : KeyScope id <> "".
Proof. done. Qed.
#[export] Hint Resolve Scope_nonempty KeyScope_nonempty : core.

Lemma KeyScope_neq_Scope id d : KeyScope id <> Scope d.
Proof.
  unfold KeyScope, Scope. simpl. intros E. symmetry in E. apply sha256_hex_head in E.
  vm_compute in E. congruence.
Qed.

(** ** Rows before and after [lock] *)

(** The gate row a transaction works on: the stored one, or a fresh one. *)
Definition gate (tb : Tables) (d : Dimension) (scope : string) : RoutingCircuit :=
  default (fresh_circuit d scope) (circuits tb !! scope).

Definition locked (tb : Tables) (d : Dimension) (scope : string) : Tables :=
  match circuits tb !! scope with
  | Some _ => tb
  | None => set_circuits tb (<[scope := fresh_circuit d scope]> (circuits tb))
  end.

Definition save (r : RoutingCircuit) (tb : Tables) : Tables :=
  set_circuits tb (<[rc_Scope r := r]> (circuits tb)).

(** Rows are stored under their primary key. *)
Definition tables_wf (tb : Tables) : Prop := forall s r, circuits tb !! s = Some r -> rc_Scope r = s.

Lemma run_lock d scope tb : run (lock d scope) tb = Ok (gate tb d scope, locked tb d scope).
Proof.
  unfold lock, gate, locked. simpl. destruct (circuits tb !! scope) as [r|] eqn:E; simpl.
  - by rewrite E.
  - by rewrite lookup_insert_eq.
Qed.

Lemma gate_locked_same tb d d' s : gate (locked tb d s) d' s = gate tb d s.
Proof.
  unfold gate, locked. destruct (circuits tb !! s) as [r|] eqn:E; simpl; [by rewrite E|].
  by rewrite lookup_insert_eq.
Qed.

Lemma locked_lookup_ne tb d s s' : s <> s' -> circuits (locked tb d s) !! s' = circuits tb !! s'.
Proof.
  intros. unfold locked. destruct (circuits tb !! s); simpl; [done|]. by rewrite lookup_insert_ne.
Qed.

Lemma locked_lookup_eq tb d s : circuits (locked tb d s) !! s = Some (gate tb d s).
Proof.
  unfold locked, gate. destruct (circuits tb !! s) as [r|] eqn:E; simpl; [by rewrite E|].
  by rewrite lookup_insert_eq.
Qed.

Lemma gate_wf tb d s : tables_wf tb -> rc_Scope (gate tb d s) = s.
Proof. intros H. unfold gate. destruct (circuits tb !! s) eqn:E; simpl; [by apply H|done]. Qed.

Lemma locked_wf tb d s : tables_wf tb -> tables_wf (locked tb d s).
Proof.
  intros H s' r. unfold locked. destruct (circuits tb !! s) eqn:E; simpl; [by apply H|].
  rewrite lookup_insert. case_decide; [|by apply H]. by intros [= <-].
Qed.

Lemma save_wf tb r : tables_wf tb -> tables_wf (save r tb).
Proof.
  intros H s' r'. unfold save. simpl. rewrite lookup_insert. case_decide; [|by apply H].
  by intros [= <-].
Qed.

Lemma gate_locked_ne tb d d' s s' : s <> s' -> gate (locked tb d s) d' s' = gate tb d' s'.
Proof. intros. unfold gate. by rewrite locked_lookup_ne. Qed.

Lemma save_lookup_ne tb r s : rc_Scope r <> s -> circuits (save r tb) !! s = circuits tb !! s.
Proof. intros. simpl. by rewrite lookup_insert_ne. Qed.

Lemma save_lookup_eq tb r : circuits (save r tb) !! rc_Scope r = Some r.
Proof. simpl. by rewrite lookup_insert_eq. Qed.

#[export] Hint Resolve locked_wf save_wf : go.
#[export] Hint Rewrite @run_mbind run_lock : go.

(** ** The effect of one gate of an admission *)

(** An open gate that may not be entered at [now]. *)
Definition gate_blocked (now : time) (r : RoutingCircuit) : bool :=
  After (rc_Until r) now || After (rc_LeaseUntil r) now || after_opt (rc_CheckUntil r) now.

Definition key_busy (tb : Tables) (d : Dimension) (scope : string) (now : time) : bool :=
  String.eqb scope (KeyScope (dm_KeyID d))
  && (0 <? Z.of_nat (size (select (busy_on_key d scope now) (circuits tb)))).

Lemma run_admit_gate d recovery token now g scope tb :
  run (admit_gate d recovery token now g scope) tb =
  let r := gate tb d scope in
  let tb1 := locked tb d scope in
  let g' := <[scope := rc_Generation r]> g in
  if negb (rc_Open r) then Ok (g', tb1)
  else if negb recovery || gate_blocked now r || key_busy tb1 d scope now then Err ErrUnavailable
  else Ok (g', save (with_lease r token now) tb1).
Proof.
  unfold admit_gate, gate_blocked, key_busy. rewrite run_mbind, run_lock. cbv zeta.
  destruct (rc_Open (gate tb d scope)); [|done]. cbn [negb].
  rewrite !orb_assoc.
  destruct (negb recovery || After (rc_Until (gate tb d scope)) now
            || After (rc_LeaseUntil (gate tb d scope)) now
            || after_opt (rc_CheckUntil (gate tb d scope)) now); [done|].
  rewrite run_mbind. cbn [orb].
  destruct (String.eqb scope (KeyScope (dm_KeyID d))); simpl; [|done].
  by destruct (0 <? Z.of_nat _).
Qed.

(** ** Operations as one transition system *)

(** The transactions of [routinghealth] that write, with their arguments. *)
Inductive op : Type :=
| OpAdmit (d : Dimension) (recovery : bool) (token : string)
| OpObserve (settings : SchedulerSettings) (d : Dimension) (token : string) (o : Outcome)
| OpRelease (d : Dimension) (a : option Admission)
| OpClaim (concurrency : Z) (scope : string) (d : Dimension) (expected : option Z) (token : string)
| OpFinish (scope token : string) (success neutral : bool) (message : string) (retryAfter : duration)
| OpSlot (scope : string) (interval : Z) (mutate : bool)
| OpRecoverySlot (settings : SchedulerSettings) (scope : string) (mutate : bool).

Definition exec_op (now : time) (o : op) (tb : Tables) : Tables :=
  match o with
  | OpAdmit d rec tok => (transaction (AdmitRequest d rec tok now) tb).2
  | OpObserve st d tok oc => (transaction (Observe st d tok oc now) tb).2
  | OpRelease d a => (transaction (ReleaseOnOutput d a now) tb).2
  | OpClaim c s d e tok => (transaction (ClaimCheck c s d e tok now) tb).2
  | OpFinish s tok ok neu msg ra => (transaction (FinishCheck s tok ok neu msg ra now) tb).2
  | OpSlot s i m => (transaction (Slot s i m) tb).2
  | OpRecoverySlot st s m => (transaction (RecoverySlot st s m now) tb).2
  end.

(** The token an operation acts under. *)
Definition op_token (o : op) : string :=
  match o with
  | OpAdmit _ _ tok | OpObserve _ _ tok _ | OpClaim _ _ _ _ tok | OpFinish _ tok _ _ _ _ => tok
  | OpRelease _ (Some a) => ad_Token a
  | _ => ""
  end.

(** Which transaction a row moves in. *)
Inductive kind : Type := KAdmit | KObserve | KRelease | KClaim | KFinish | KBudget.

#[export] Instance kind_eq_dec : EqDecision kind.
Proof. solve_decision. Defined.

Definition op_kind (o : op) : kind :=
  match o with
  | OpAdmit _ _ _ => KAdmit
  | OpObserve _ _ _ _ => KObserve
  | OpRelease _ _ => KRelease
  | OpClaim _ _ _ _ _ => KClaim
  | OpFinish _ _ _ _ _ _ => KFinish
  | OpSlot _ _ _ | OpRecoverySlot _ _ _ => KBudget
  end.

(** What may happen to one gate row, under token [tok] at time [now]. *)
Inductive row_tr (now : time) (tok : string) : kind -> RoutingCircuit -> RoutingCircuit -> Prop :=
| tr_lease r : rc_Open r = true -> gate_blocked now r = false -> row_tr now tok KAdmit r (with_lease r tok now)
| tr_observe st d o key_row r : observe_skips tok o now r = false ->
    row_tr now tok KObserve r (observe_update (Normalize st) d tok o now key_row r)
| tr_release r : rc_Open r = true -> rc_Lease r = tok -> tok <> "" -> now < rc_LeaseUntil r ->
    row_tr now tok KRelease r (closeCircuit r now)
| tr_claim r d : rc_Open r = true -> gate_blocked now r = false -> check_backoff now r = false ->
    row_tr now tok KClaim r (with_check r d tok (now + CheckLeaseDuration))
| tr_check_ok r msg nx b : rc_Open r = true -> rc_CheckLease r = tok -> tok <> "" -> check_active now r = true ->
    row_tr now tok KFinish r (closeCircuit (with_check_result r true msg now nx b) now)
| tr_check_fail r msg nx b : rc_Open r = true -> rc_CheckLease r = tok -> tok <> "" -> check_active now r = true ->
    (b = rc_CheckBackoff r \/ b = next_check_backoff (rc_CheckBackoff r)) ->
    row_tr now tok KFinish r (with_check_result r false msg now nx b).

(** [tb'] has the rows of [tb] and fresh ones, each moved at most once. *)
Record rows_move (now : time) (tok : string) (k : kind) (tb tb' : Tables) : Prop := mkMove {
  move_back : forall s r', circuits tb' !! s = Some r' ->
    exists r, (circuits tb !! s = Some r \/ circuits tb !! s = None /\ s <> "" /\ exists d, r = fresh_circuit d s)
              /\ (r' = r \/ row_tr now tok k r r');
  move_keeps : forall s, is_Some (circuits tb !! s) -> is_Some (circuits tb' !! s)
}.

Lemma rows_move_refl now tok k tb : rows_move now tok k tb tb.
Proof. split; [|done]. intros s r' H. exists r'. auto. Qed.

Lemma rows_move_same_circuits now tok k tb0 tb tb' :
  circuits tb' = circuits tb -> rows_move now tok k tb0 tb -> rows_move now tok k tb0 tb'.
Proof. intros E [H1 H2]. split; intros s; rewrite E; auto. Qed.

Lemma rows_move_circuits now tok k tb tb' : circuits tb' = circuits tb -> rows_move now tok k tb tb'.
Proof. intros E. by eapply rows_move_same_circuits, rows_move_refl. Qed.

(** Locking adds fresh rows only. *)
Lemma rows_move_lock now tok k tb tb' d s :
  s <> "" -> rows_move now tok k tb tb' -> circuits tb' !! s = circuits tb !! s -> rows_move now tok k tb (locked tb' d s).
Proof.
  intros Ne [H1 H2] E. split.
  - intros s' r'. destruct (decide (s = s')) as [<-|N].
    + rewrite locked_lookup_eq. intros [= <-]. unfold gate. rewrite E.
      destruct (circuits tb !! s) as [r|] eqn:Er; simpl; eauto 10.
    + rewrite locked_lookup_ne by done. apply H1.
  - intros s' Hs. destruct (decide (s = s')) as [<-|N]; [rewrite locked_lookup_eq; eauto|].
    rewrite locked_lookup_ne by done. auto.
Qed.

(** Saving the move of a row that had not moved yet. *)
Lemma rows_move_save now tok k tb tb' d r' :
  (circuits tb !! rc_Scope r' = None -> rc_Scope r' <> "") -> rows_move now tok k tb tb' -> row_tr now tok k (gate tb d (rc_Scope r')) r' ->
  rows_move now tok k tb (save r' tb').
Proof.
  intros Ne [H1 H2] T. split; intros s; simpl; rewrite lookup_insert; case_decide as E; eauto.
  intros q [= <-]. subst s. exists (gate tb d (rc_Scope r')). split; [|by right].
  unfold gate. destruct (circuits tb !! rc_Scope r') eqn:Er; simpl; eauto 8.
Qed.

Lemma transaction_rows {A} now tok k (p : prog A) tb :
  match run p tb with Ok (_, tb') => rows_move now tok k tb tb' | Err _ => True end ->
  rows_move now tok k tb (transaction p tb).2.
Proof. unfold transaction. destruct (run p tb) as [[a tb']|e]; simpl; [done|]. intros _. apply rows_move_refl. Qed.

(** ** Every operation moves each row at most once *)

(** A transaction step that locks gate [s] and possibly saves one move of it. *)
Definition gate_effect (now : time) (tok : string) (k : kind) (d : Dimension) (s : string) (tb tb' : Tables) : Prop :=
  tb' = locked tb d s \/
  exists r', rc_Scope r' = s /\ row_tr now tok k (gate tb d s) r' /\ tb' = save r' (locked tb d s).

Lemma gate_effect_frame now tok k d s tb tb' s' :
  gate_effect now tok k d s tb tb' -> s <> s' -> circuits tb' !! s' = circuits tb !! s'.
Proof.
  intros [->|(r' & <- & _ & ->)] N; [by rewrite locked_lookup_ne|].
  rewrite save_lookup_ne by done. by rewrite locked_lookup_ne.
Qed.

Lemma gate_effect_wf now tok k d s tb tb' : gate_effect now tok k d s tb tb' -> tables_wf tb -> tables_wf tb'.
Proof. intros [->|(r' & _ & _ & ->)]; auto with go. Qed.

Lemma gate_effect_rows now tok k d s tb0 tb tb' :
  s <> "" -> gate_effect now tok k d s tb tb' -> circuits tb !! s = circuits tb0 !! s ->
  rows_move now tok k tb0 tb -> rows_move now tok k tb0 tb'.
Proof.
  intros Ne [->|(r' & Hs & T & ->)] E H; [by apply rows_move_lock|].
  apply (rows_move_save _ _ _ _ _ d); [by rewrite Hs|by apply rows_move_lock|].
  rewrite Hs. unfold gate in *. by rewrite <- E.
Qed.

(** The two gates of a dimension in a row. *)
Lemma two_gates_rows now tok k d tb tb1 tb2 :
  gate_effect now tok k d (KeyScope (dm_KeyID d)) tb tb1 -> gate_effect now tok k d (Scope d) tb1 tb2 -> rows_move now tok k tb tb2.
Proof.
  intros G1 G2. eapply gate_effect_rows; [apply Scope_nonempty|exact G2| |].
  - eapply gate_effect_frame; [exact G1|apply KeyScope_neq_Scope].
  - eapply gate_effect_rows; [apply KeyScope_nonempty|exact G1|done|apply rows_move_refl].
Qed.

Lemma admit_gate_effect d recovery token now g s tb g' tb' :
  tables_wf tb -> run (admit_gate d recovery token now g s) tb = Ok (g', tb') ->
  gate_effect now token KAdmit d s tb tb'.
Proof.
  intros W. rewrite run_admit_gate. cbv zeta.
  destruct (rc_Open (gate tb d s)) eqn:O; cbn [negb]; [|intros [= _ <-]; by left].
  destruct (negb recovery || gate_blocked now (gate tb d s) || key_busy _ d s now) eqn:B; [done|].
  intros [= _ <-]. bools.
  right. exists (with_lease (gate tb d s) token now). split; [by apply gate_wf|]. split; [|done].
  by apply tr_lease.
Qed.

Lemma release_gate_effect d a now c s tb c' tb' :
  ad_Token a <> "" -> tables_wf tb -> run (release_gate d a now c s) tb = Ok (c', tb') ->
  gate_effect now (ad_Token a) KRelease d s tb tb'.
Proof.
  intros Ht W. unfold release_gate. rewrite run_mbind, run_lock.
  destruct (_ && _) eqn:B; [|intros [= _ <-]; by left].
  rewrite run_mbind. simpl. intros [= _ <-]. bools.
  right. exists (closeCircuit (gate tb d s) now). split; [by apply gate_wf|]. split; [|done].
  apply tr_release; auto. by apply String.eqb_eq.
Qed.

(** Everything [observe_update] builds keeps the primary key. *)
Lemma observe_update_scope cfg d tok o now k r : rc_Scope (observe_update cfg d tok o now k r) = rc_Scope r.
Proof.
  unfold observe_update, observe_success, observe_failure.
  repeat match goal with |- context [if ?c then _ else _] => destruct c end; reflexivity.
Qed.

Lemma observe_row_rows st d tok o now k tb0 tb s tb' :
  s <> "" -> tables_wf tb0 -> rows_move now tok KObserve tb0 tb ->
  run (observe_row (Normalize st) d tok o now k (gate tb0 d s)) tb = Ok (tt, tb') ->
  rows_move now tok KObserve tb0 tb'.
Proof.
  intros Ne W H. unfold observe_row. destruct (observe_skips _ _ _ _) eqn:E; simpl; intros [= <-]; [done|].
  apply (rows_move_save _ _ _ _ _ d); [by rewrite observe_update_scope, gate_wf|done|].
  rewrite observe_update_scope, gate_wf by done. by apply tr_observe.
Qed.

(** Recording the request id leaves the circuits alone. *)
Lemma run_record_observation s req tb :
  exists n tb', run (if String.eqb req "" then mret 1 else sql (InsertObservation s req)) tb = Ok (n, tb')
                /\ circuits tb' = circuits tb.
Proof. destruct (String.eqb req ""); simpl; [by eauto|]. case_bool_decide; eauto. Qed.

Lemma Observe_rows st d tok o now tb : tables_wf tb -> rows_move now tok KObserve tb (transaction (Observe st d tok o now) tb).2.
Proof.
  intros W. apply transaction_rows. unfold Observe. rewrite run_mbind, run_lock, run_mbind, run_lock.
  rewrite gate_locked_ne by apply KeyScope_neq_Scope.
  set (tb1 := locked (locked tb d _) d _).
  assert (H1 : rows_move now tok KObserve tb tb1).
  { apply rows_move_lock; [done|apply rows_move_lock; [done|apply rows_move_refl|done]|].
    apply locked_lookup_ne, KeyScope_neq_Scope. }
  rewrite run_mbind.
  destruct (run_record_observation (rc_Scope (gate tb d (Scope d))) (oc_RequestID o) tb1) as (n & tb2 & -> & E2).
  assert (H3 : rows_move now tok KObserve tb tb2) by (by eapply rows_move_same_circuits).
  destruct (n =? 0); [by apply H3|]. rewrite run_mbind.
  destruct (run (observe_row _ _ _ _ _ _ (gate tb d (KeyScope _))) tb2) as [[[] tb3]|e] eqn:E3; [|done].
  apply observe_row_rows in E3; [|done..|done].
  destruct (run (observe_row _ _ _ _ _ _ (gate tb d (Scope d))) tb3) as [[[] tb4]|e] eqn:E4; [|done].
  by apply observe_row_rows in E4.
Qed.

Lemma AdmitRequest_rows d rec tok now tb :
  tables_wf tb -> rows_move now tok KAdmit tb (transaction (AdmitRequest d rec tok now) tb).2.
Proof.
  intros W. apply transaction_rows. unfold AdmitRequest. rewrite run_mbind.
  destruct (run _ tb) as [[g1 tb1]|e] eqn:E1; [|done]. apply admit_gate_effect in E1; [|done].
  rewrite run_mbind. destruct (run _ tb1) as [[g2 tb2]|e] eqn:E2; [|done].
  apply admit_gate_effect in E2; [|by eapply gate_effect_wf].
  by eapply two_gates_rows.
Qed.

Lemma ReleaseOnOutput_rows d a now tb :
  tables_wf tb -> rows_move now (op_token (OpRelease d a)) KRelease tb (transaction (ReleaseOnOutput d a now) tb).2.
Proof.
  intros W. apply transaction_rows. destruct a as [a|]; [|apply rows_move_refl]. unfold ReleaseOnOutput.
  destruct (String.eqb_spec (ad_Token a) "") as [E|N]; [apply rows_move_refl|].
  rewrite run_mbind. destruct (run _ tb) as [[c1 tb1]|e] eqn:E1; [|done].
  apply release_gate_effect in E1; [|done..]. rewrite run_mbind.
  destruct (run _ tb1) as [[c2 tb2]|e] eqn:E2; [|done].
  apply release_gate_effect in E2; [|done|by eapply gate_effect_wf].
  by eapply two_gates_rows.
Qed.

(** [first_circuit] reads a row that must exist. *)
Lemma run_first_circuit s tb :
  run (first_circuit s) tb = match circuits tb !! s with Some r => Ok (r, tb) | None => Err ErrRecordNotFound end.
Proof. unfold first_circuit. simpl. by destruct (circuits tb !! s). Qed.

Lemma FinishCheck_rows s tok ok neu msg ra now tb :
  tables_wf tb -> rows_move now tok KFinish tb (transaction (FinishCheck s tok ok neu msg ra now) tb).2.
Proof.
  intros W. apply transaction_rows. unfold FinishCheck. rewrite run_mbind, run_first_circuit.
  destruct (circuits tb !! s) as [r|] eqn:Er; [|done].
  destruct (negb (rc_Open r) || _ || _) eqn:B1; [apply rows_move_refl|].
  destruct (negb (check_active now r)) eqn:B2; [apply rows_move_refl|].
  assert (G : gate tb (mkDim 0 "" "" "" false) (rc_Scope r) = r) by (unfold gate; by rewrite (W _ _ Er), Er).
  assert (L : rc_CheckLease r = tok) by (bools; by apply String.eqb_eq).
  assert (N : tok <> "") by (bools; by apply String.eqb_neq). bools.
  destruct (ok && negb neu); cbn [run sql denote];
    (apply (rows_move_save _ _ _ _ _ (mkDim 0 "" "" "" false)); [simpl; by rewrite (W _ _ Er), Er|apply rows_move_refl|]); simpl; rewrite G.
  - by apply tr_check_ok.
  - apply tr_check_fail; try done. destruct neu; auto.
Qed.

(** ** Claiming a check, in closed form *)

Definition active_checks (now : time) (tb : Tables) : Z := Z.of_nat (size (select (check_active now) (circuits tb))).

Definition touch_workers (tb : Tables) : Tables :=
  match budgets tb !! workers_scope with
  | Some _ => tb
  | None => set_budgets tb (<[workers_scope := mkBudget workers_scope 0 None]> (budgets tb))
  end.

(** The tables after the claim's locks. *)
Definition claim_tables (tb : Tables) (d : Dimension) : Tables :=
  locked (touch_workers tb) d (KeyScope (dm_KeyID d)).

Definition key_gate_holds (d : Dimension) (s : string) (now : time) (key : RoutingCircuit) : bool :=
  negb (String.eqb s (KeyScope (dm_KeyID d))) && rc_Open key && (After (rc_Until key) now || check_backoff now key).

Definition claim_rejects (expected : option Z) (now : time) (r : RoutingCircuit) : bool :=
  match expected with Some g => negb (rc_Generation r =? g) | None => false end
  || (negb (rc_Open r) || After (rc_Until r) now || After (rc_LeaseUntil r) now || check_active now r || check_backoff now r).

Lemma touch_workers_circuits tb : circuits (touch_workers tb) = circuits tb.
Proof. unfold touch_workers. by destruct (budgets tb !! workers_scope). Qed.

Lemma run_touch_workers {A} (k : prog A) tb :
  run (sql (InsertBudget (mkBudget workers_scope 0 None)) ≫= fun _ =>
       sql (UpdateBudget workers_scope (fun b => b)) ≫= fun _ => k) tb = run k (touch_workers tb).
Proof.
  unfold touch_workers. simpl. f_equal. destruct tb as [cs os bs]. simpl.
  destruct (bs !! workers_scope) eqn:E; unfold set_budgets; simpl; f_equal; by apply alter_id.
Qed.

Lemma run_ClaimCheck c s d e tok now tb :
  run (ClaimCheck c s d e tok now) tb =
  if checkLimit c <=? active_checks now tb then Err ErrCheckCapacity
  else if key_gate_holds d s now (gate tb d (KeyScope (dm_KeyID d))) then Err ErrUnavailable
  else if 0 <? Z.of_nat (size (select (check_conflict d s now) (circuits (claim_tables tb d)))) then Err ErrUnavailable
  else match circuits (claim_tables tb d) !! s with
       | None => Err ErrRecordNotFound
       | Some r => if claim_rejects e now r then Err ErrUnavailable
                   else Ok (tok, save (with_check r d tok (now + CheckLeaseDuration)) (claim_tables tb d))
       end.
Proof.
  unfold ClaimCheck. rewrite run_touch_workers. rewrite run_mbind. cbn [run sql denote].
  rewrite touch_workers_circuits. fold (active_checks now tb). destruct (_ <=? _); [done|].
  rewrite run_mbind, run_lock. fold (claim_tables tb d).
  assert (G : gate (touch_workers tb) d (KeyScope (dm_KeyID d)) = gate tb d (KeyScope (dm_KeyID d)))
    by (unfold gate; by rewrite touch_workers_circuits).
  rewrite G. fold (key_gate_holds d s now (gate tb d (KeyScope (dm_KeyID d)))).
  destruct (key_gate_holds _ _ _ _); [done|]. rewrite run_mbind. cbn [run sql denote].
  destruct (0 <? _); [done|]. rewrite run_mbind, run_first_circuit. unfold claim_rejects.
  destruct (circuits (claim_tables tb d) !! s) as [r|]; [|done].
  destruct (match e with Some g => _ | None => _ end); [done|]. cbn [orb].
  by destruct (_ || check_backoff now r).
Qed.

Lemma claim_tables_gate tb d s r : circuits (claim_tables tb d) !! s = Some r -> gate tb d s = r.
Proof.
  unfold claim_tables. destruct (decide (KeyScope (dm_KeyID d) = s)) as [<-|N].
  - rewrite locked_lookup_eq. intros [= <-]. unfold gate. by rewrite touch_workers_circuits.
  - rewrite locked_lookup_ne, touch_workers_circuits by done. unfold gate. by intros ->.
Qed.

Lemma claim_tables_new tb d s r :
  circuits (claim_tables tb d) !! s = Some r -> circuits tb !! s = None -> s = KeyScope (dm_KeyID d).
Proof.
  unfold claim_tables. destruct (decide (KeyScope (dm_KeyID d) = s)) as [<-|N]; [done|].
  rewrite locked_lookup_ne, touch_workers_circuits by done. congruence.
Qed.

Lemma claim_tables_wf tb d : tables_wf tb -> tables_wf (claim_tables tb d).
Proof. intros W. apply locked_wf. intros s r. rewrite touch_workers_circuits. apply W. Qed.

Lemma claim_tables_rows now tok tb d : rows_move now tok KClaim tb (claim_tables tb d).
Proof.
  apply rows_move_lock; [done|apply rows_move_circuits|]; by rewrite touch_workers_circuits.
Qed.

Lemma ClaimCheck_rows c s d e tok now tb :
  tables_wf tb -> rows_move now tok KClaim tb (transaction (ClaimCheck c s d e tok now) tb).2.
Proof.
  intros W. apply transaction_rows. rewrite run_ClaimCheck.
  destruct (_ <=? _); [done|]. destruct (key_gate_holds _ _ _ _); [done|]. destruct (0 <? _); [done|].
  destruct (circuits (claim_tables tb d) !! s) as [r|] eqn:Er; [|done].
  destruct (claim_rejects e now r) eqn:C; [done|]. unfold claim_rejects in C. bools.
  apply (rows_move_save _ _ _ _ _ d); [|apply claim_tables_rows|]; simpl.
  { rewrite (claim_tables_wf _ _ W _ _ Er). intros N. by rewrite (claim_tables_new _ _ _ _ Er N). }
  rewrite (claim_tables_wf _ _ W _ _ Er), (claim_tables_gate _ _ _ _ Er).
  apply tr_claim; [done| |done]. unfold gate_blocked, check_active in *.
  apply orb_false_iff; split; [apply orb_false_iff; split; by apply After_false|done].
Qed.

Lemma Slot_circuits s i m tb : circuits (transaction (Slot s i m) tb).2 = circuits tb.
Proof.
  unfold transaction, Slot. destruct (i <=? 0); [done|]. destruct m; simpl; repeat case_match; by simplify_eq/=.
Qed.

Lemma RecoverySlot_circuits st s m now tb : circuits (transaction (RecoverySlot st s m now) tb).2 = circuits tb.
Proof. unfold transaction, RecoverySlot. destruct m; simpl; repeat (case_match; simplify_eq/=); done. Qed.

(** Every operation moves every gate row at most once. *)
Lemma op_rows now o tb : tables_wf tb -> rows_move now (op_token o) (op_kind o) tb (exec_op now o tb).
Proof.
  intros W. destruct o; simpl.
  - by apply AdmitRequest_rows.
  - by apply Observe_rows.
  - by apply ReleaseOnOutput_rows.
  - by apply ClaimCheck_rows.
  - by apply FinishCheck_rows.
  - apply rows_move_circuits, Slot_circuits.
  - apply rows_move_circuits, RecoverySlot_circuits.
Qed.

Lemma row_tr_scope now tok k r r' : row_tr now tok k r r' -> rc_Scope r' = rc_Scope r.
Proof. destruct 1; try done. apply observe_update_scope. Qed.

Lemma op_wf now o tb : tables_wf tb -> tables_wf (exec_op now o tb).
Proof.
  intros W s r' H. destruct (move_back _ _ _ _ _ (op_rows now o tb W) s r' H) as (r & [Hr|(_ & _ & d & ->)] & [->|T]); try by eauto.
  - rewrite (row_tr_scope _ _ _ _ _ T). by apply W.
  - by rewrite (row_tr_scope _ _ _ _ _ T).
Qed.

(** ** Admission and observation in closed form *)

(** May a request enter gate [r]?  [busy]: another route of the key is being recovered. *)
Definition enter_ok (recovery : bool) (now : time) (busy : bool) (r : RoutingCircuit) : bool :=
  negb (rc_Open r) || (recovery && negb (gate_blocked now r) && negb busy).

Definition entered (token : string) (now : time) (r : RoutingCircuit) : RoutingCircuit :=
  if rc_Open r then with_lease r token now else r.

(** Some other gate of the key holds a lease or a check. *)
Definition key_in_use (tb : Tables) (d : Dimension) (now : time) : bool :=
  0 <? Z.of_nat (size (select (busy_on_key d (KeyScope (dm_KeyID d)) now) (circuits tb))).

Definition enter_gate (d : Dimension) (token : string) (now : time) (s : string) (tb : Tables) : Tables :=
  if rc_Open (gate tb d s) then save (with_lease (gate tb d s) token now) (locked tb d s) else locked tb d s.

Lemma key_in_use_spec tb d now :
  key_in_use tb d now = true <->
  exists s r, circuits tb !! s = Some r /\ busy_on_key d (KeyScope (dm_KeyID d)) now r = true.
Proof.
  unfold key_in_use. rewrite Z.ltb_lt. split.
  - intros H. destruct (map_choose (select (busy_on_key d (KeyScope (dm_KeyID d)) now) (circuits tb))) as (s & r & E).
    + intros E. rewrite E, map_size_empty in H. lia.
    + apply select_lookup in E. eauto.
  - intros (s & r & H1 & H2). destruct (size _) eqn:E; [|lia].
    rewrite select_empty in E. by rewrite (E s r H1) in H2.
Qed.

(** The locked key gate itself does not count as busy. *)
Lemma key_busy_locked tb d now :
  key_busy (locked tb d (KeyScope (dm_KeyID d))) d (KeyScope (dm_KeyID d)) now = key_in_use tb d now.
Proof.
  unfold key_busy. rewrite String.eqb_refl. cbn [andb]. fold (key_in_use (locked tb d (KeyScope (dm_KeyID d))) d now).
  apply eq_true_iff_eq. rewrite !key_in_use_spec. split; intros (s & r & H1 & H2); exists s, r.
  - destruct (decide (KeyScope (dm_KeyID d) = s)) as [<-|N]; [|by rewrite locked_lookup_ne in H1].
    rewrite locked_lookup_eq in H1. injection H1 as <-. unfold gate in H2 |- *.
    destruct (circuits tb !! KeyScope (dm_KeyID d)) eqn:E; [done|].
    unfold busy_on_key in H2. simpl in H2. rewrite String.eqb_refl, andb_false_r in H2. done.
  - destruct (decide (KeyScope (dm_KeyID d) = s)) as [<-|N]; [|by rewrite locked_lookup_ne].
    rewrite locked_lookup_eq. unfold gate. by rewrite H1.
Qed.

Lemma enter_gate_lookup d tok now s tb :
  tables_wf tb -> circuits (enter_gate d tok now s tb) !! s = Some (entered tok now (gate tb d s)).
Proof.
  intros W. unfold enter_gate, entered. destruct (rc_Open _); [|apply locked_lookup_eq].
  unfold save. simpl. rewrite gate_wf by done. by rewrite lookup_insert_eq.
Qed.

Lemma enter_gate_lookup_ne d tok now s s' tb :
  tables_wf tb -> s <> s' -> circuits (enter_gate d tok now s tb) !! s' = circuits tb !! s'.
Proof.
  intros W N. unfold enter_gate. destruct (rc_Open _); [|by rewrite locked_lookup_ne].
  rewrite save_lookup_ne; [by rewrite locked_lookup_ne|]. simpl. by rewrite gate_wf.
Qed.

Lemma gate_lookup_same tb tb' d s : circuits tb' !! s = circuits tb !! s -> gate tb' d s = gate tb d s.
Proof. unfold gate. by intros ->. Qed.

Lemma key_busy_scope tb d now : key_busy tb d (Scope d) now = false.
Proof.
  unfold key_busy. destruct (String.eqb_spec (Scope d) (KeyScope (dm_KeyID d))) as [E|]; [|done].
  symmetry in E. by apply KeyScope_neq_Scope in E.
Qed.

Definition admit_ok (tb : Tables) (d : Dimension) (recovery : bool) (now : time) : bool :=
  enter_ok recovery now (key_in_use tb d now) (gate tb d (KeyScope (dm_KeyID d)))
  && enter_ok recovery now false (gate tb d (Scope d)).

Definition admit_tables (tb : Tables) (d : Dimension) (token : string) (now : time) : Tables :=
  enter_gate d token now (Scope d) (enter_gate d token now (KeyScope (dm_KeyID d)) tb).

Lemma transaction_AdmitRequest d recovery token now tb :
  tables_wf tb ->
  transaction (AdmitRequest d recovery token now) tb =
  if admit_ok tb d recovery now then
    (Ok (mkAdmission token (<[Scope d := rc_Generation (gate tb d (Scope d))]>
          {[KeyScope (dm_KeyID d) := rc_Generation (gate tb d (KeyScope (dm_KeyID d)))]})),
     admit_tables tb d token now)
  else (Err ErrUnavailable, tb).
Proof.
  intros W. unfold transaction, AdmitRequest, admit_ok, admit_tables, enter_ok.
  set (ks := KeyScope (dm_KeyID d)). rewrite run_mbind, run_admit_gate. cbv zeta. fold ks.
  unfold ks at 5. rewrite key_busy_locked. fold ks.
  assert (S : gate (enter_gate d token now ks tb) d (Scope d) = gate tb d (Scope d)).
  { apply gate_lookup_same, enter_gate_lookup_ne; [done|apply KeyScope_neq_Scope]. }
  unfold enter_gate in S at 1. unfold enter_gate at 2.
  destruct (rc_Open (gate tb d ks)) eqn:Ok1; cbn [negb orb] in *.
  - destruct recovery; cbn [negb orb andb]; [|done].
    destruct (gate_blocked now (gate tb d ks) || key_in_use tb d now) eqn:B.
    + apply orb_true_iff in B as [-> | ->]; [done|]. by rewrite andb_false_r.
    + apply orb_false_iff in B as [-> ->]. cbn [negb andb].
      rewrite run_mbind, run_admit_gate. cbv zeta. rewrite S, key_busy_scope.
      unfold enter_gate. rewrite S.
      destruct (rc_Open (gate tb d (Scope d))); [|done]. simpl.
      by destruct (gate_blocked now (gate tb d (Scope d))).
  - rewrite run_mbind, run_admit_gate. cbv zeta. rewrite S, key_busy_scope. unfold enter_gate. rewrite S.
    destruct (rc_Open (gate tb d (Scope d))); [|done]. cbn [negb orb andb].
    destruct recovery; [|done]. simpl. by destruct (gate_blocked now (gate tb d (Scope d))).
Qed.

(** What [Observe] does to one gate. *)
Definition observed (cfg : SchedulerSettings) (d : Dimension) (tok : string) (o : Outcome) (now : time)
    (key_row : bool) (r : RoutingCircuit) : RoutingCircuit :=
  if observe_skips tok o now r then r else observe_update cfg d tok o now key_row r.

(** The request was already counted for this dimension. *)
Definition recorded (tb : Tables) (d : Dimension) (o : Outcome) : bool :=
  negb (String.eqb (oc_RequestID o) "") && bool_decide ((Scope d, oc_RequestID o) ∈ observations tb).

Definition record_observation (d : Dimension) (o : Outcome) (tb : Tables) : Tables :=
  if String.eqb (oc_RequestID o) "" then tb
  else mkTables (circuits tb) ({[(Scope d, oc_RequestID o)]} ∪ observations tb) (budgets tb).

Definition lock_both (tb : Tables) (d : Dimension) : Tables :=
  locked (locked tb d (KeyScope (dm_KeyID d))) d (Scope d).

(** A row saved unless skipped. *)
Definition save_observed (cfg : SchedulerSettings) (d : Dimension) (tok : string) (o : Outcome) (now : time)
    (key_row : bool) (r : RoutingCircuit) (tb : Tables) : Tables :=
  if observe_skips tok o now r then tb else save (observe_update cfg d tok o now key_row r) tb.

Lemma locked_observations tb d s : observations (locked tb d s) = observations tb.
Proof. unfold locked. by destruct (circuits tb !! s). Qed.

Lemma run_observe_row cfg d tok o now k r tb :
  run (observe_row cfg d tok o now k r) tb = Ok (tt, save_observed cfg d tok o now k r tb).
Proof. unfold observe_row, save_observed. by destruct (observe_skips tok o now r). Qed.

Lemma transaction_Observe st d tok o now tb :
  tables_wf tb ->
  transaction (Observe st d tok o now) tb =
  (Ok tt,
   if recorded tb d o then lock_both tb d
   else save_observed (Normalize st) d tok o now false (gate tb d (Scope d))
          (save_observed (Normalize st) d tok o now true (gate tb d (KeyScope (dm_KeyID d)))
             (record_observation d o (lock_both tb d)))).
Proof.
  intros W. unfold transaction, Observe. rewrite run_mbind, run_lock, run_mbind, run_lock.
  rewrite gate_locked_ne by apply KeyScope_neq_Scope. fold (lock_both tb d).
  set (tb1 := lock_both tb d). set (key := gate tb d (KeyScope _)). set (r := gate tb d (Scope d)).
  assert (Hk : rc_Scope key = KeyScope (dm_KeyID d)) by by apply gate_wf.
  assert (Hr : rc_Scope r = Scope d) by by apply gate_wf.
  assert (Ho : observations tb1 = observations tb) by (unfold tb1, lock_both; by rewrite !locked_observations).
  rewrite run_mbind, Hk, Hr, String.eqb_refl.
  assert (Hne : String.eqb (Scope d) (KeyScope (dm_KeyID d)) = false).
  { apply String.eqb_neq. intros E. symmetry in E. by apply KeyScope_neq_Scope in E. }
  rewrite Hne. unfold recorded, record_observation. rewrite <- Ho.
  assert (E2 : forall tb2, run (if 1 =? 0 then mret tt else
      observe_row (Normalize st) d tok o now true key ≫= fun _ => observe_row (Normalize st) d tok o now false r) tb2 =
    Ok (tt, save_observed (Normalize st) d tok o now false r (save_observed (Normalize st) d tok o now true key tb2))).
  { intros tb2. simpl. by rewrite run_bind, !run_observe_row. }
  destruct (String.eqb (oc_RequestID o) ""); cbn [run mret prog_mret negb andb]; [by rewrite E2|].
  cbn [run sql denote]. case_bool_decide; [done|]. by rewrite E2.
Qed.

Lemma lock_both_lookup tb d s :
  circuits (lock_both tb d) !! s =
  if decide (s = KeyScope (dm_KeyID d) \/ s = Scope d) then Some (gate tb d s) else circuits tb !! s.
Proof.
  unfold lock_both. pose proof (KeyScope_neq_Scope (dm_KeyID d) d) as N. case_decide as D.
  - destruct D as [->| ->].
    + by rewrite locked_lookup_ne, locked_lookup_eq by done.
    + by rewrite locked_lookup_eq, gate_locked_ne by done.
  - rewrite !locked_lookup_ne; naive_solver.
Qed.

Lemma save_observed_lookup cfg d tok o now k r tb s :
  circuits tb !! rc_Scope r = Some r ->
  circuits (save_observed cfg d tok o now k r tb) !! s =
  if decide (s = rc_Scope r) then Some (observed cfg d tok o now k r) else circuits tb !! s.
Proof.
  intros H. unfold save_observed, observed. destruct (observe_skips tok o now r).
  - case_decide; by subst.
  - simpl. rewrite observe_update_scope, lookup_insert. do 2 case_decide; congruence.
Qed.

Lemma record_observation_circuits d o tb : circuits (record_observation d o tb) = circuits tb.
Proof. unfold record_observation. by destruct (String.eqb _ _). Qed.

(** The rows after a first observation of a request. *)
Lemma Observe_lookup st d tok o now tb s :
  tables_wf tb -> recorded tb d o = false ->
  circuits (transaction (Observe st d tok o now) tb).2 !! s =
  if decide (s = KeyScope (dm_KeyID d)) then Some (observed (Normalize st) d tok o now true (gate tb d s))
  else if decide (s = Scope d) then Some (observed (Normalize st) d tok o now false (gate tb d s))
  else circuits tb !! s.
Proof.
  intros W R. rewrite transaction_Observe, R by done. simpl. pose proof (KeyScope_neq_Scope (dm_KeyID d) d) as N.
  assert (Hk : rc_Scope (gate tb d (KeyScope (dm_KeyID d))) = KeyScope (dm_KeyID d)) by by apply gate_wf.
  assert (Hr : rc_Scope (gate tb d (Scope d)) = Scope d) by by apply gate_wf.
  assert (Lk : circuits (record_observation d o (lock_both tb d)) !! KeyScope (dm_KeyID d) = Some (gate tb d (KeyScope (dm_KeyID d)))).
  { rewrite record_observation_circuits, lock_both_lookup. by rewrite decide_True by auto. }
  rewrite !save_observed_lookup; rewrite ?Hk, ?Hr; try done.
  - rewrite record_observation_circuits, lock_both_lookup. repeat case_decide; subst; naive_solver.
  - rewrite save_observed_lookup, Hk by (by rewrite Hk). rewrite decide_False by congruence.
    rewrite record_observation_circuits, lock_both_lookup. by rewrite decide_True by auto.
Qed.
