(* ===== verification/CircuitSafety.v ===== *)
(** * Safety of the routing circuits as a state machine

    Any interleaving of the store's transactions, from empty tables and with a
    clock that does not run backwards, keeps every gate row well formed, gives a
    recovery lease to one token at a time and never lets a recovery request and
    a synthetic check overlap.  Results of requests admitted before a gate
    opened or closed do not count. *)

From S2P Require Import Prelude GoFloat GoString Settings Database Circuit CircuitProps.

(** ** The invariant of a gate row *)

Record row_inv (r : RoutingCircuit) : Prop := {
  inv_gen : in_u64 (rc_Generation r);
  inv_lease_open : rc_Lease r <> "" -> rc_Open r = true;
  inv_lease_until : rc_Open r = false -> rc_LeaseUntil r = time_zero /\ rc_CheckUntil r = None;
  inv_check_open : rc_CheckLease r <> "" -> rc_Open r = true;
  inv_failures : rc_Failures r = Z.of_nat (length (rc_FailureTimes r));
  inv_failures_len : (length (rc_FailureTimes r) <= maxTrackedFailures)%nat;
  inv_attempts_len : (length (rc_AttemptTimes r) <= maxTrackedAttempts)%nat;
  inv_backoff : rc_CheckBackoff r ∈ [0; 1; 30; 60; 90]
}.

(** A recovery request and a check do not hold the same gate at the same time. *)
Definition exclusive (now : time) (r : RoutingCircuit) : Prop :=
  After (rc_LeaseUntil r) now = true -> check_active now r = false.

Lemma fresh_inv d s : row_inv (fresh_circuit d s).
Proof. split; simpl; try done; unfold in_u64, maxTrackedFailures, maxTrackedAttempts; try lia. left. Qed.

Lemma trackTimestamp_length l t cut cap : (length (trackTimestamp l t cut cap) <= cap)%nat.
Proof. unfold trackTimestamp. rewrite lastn_length. lia. Qed.

Lemma next_check_backoff_range b : b ∈ [0; 1; 30; 60; 90] -> next_check_backoff b ∈ [0; 1; 30; 60; 90].
Proof. intros H. repeat (apply elem_of_cons in H as [->|H]; [vm_compute; set_solver|]). by apply elem_of_nil in H. Qed.

Lemma close_inv r now : row_inv r -> row_inv (closeCircuit r now).
Proof.
  intros H. split; simpl; try done; unfold maxTrackedFailures, maxTrackedAttempts; try lia.
  - apply wrap_u64_range.
  - left.
Qed.

Lemma open_inv r now reason retry cfg :
  row_inv r -> row_inv (open r now reason retry cfg).
Proof.
  intros []. split; simpl; try done.
  - apply wrap_u64_range.
  - left.
Qed.

Lemma set_times_inv r a f :
  row_inv r -> (length a <= maxTrackedAttempts)%nat -> (length f <= maxTrackedFailures)%nat ->
  row_inv (set_times r a f (Z.of_nat (length f))).
Proof. intros []. by split. Qed.

Lemma set_attempts_inv r l t cut :
  row_inv r -> row_inv (set_times r (trackTimestamp l t cut maxTrackedAttempts) (rc_FailureTimes r) (rc_Failures r)).
Proof.
  intros H. rewrite (inv_failures _ H). apply set_times_inv; [done|apply trackTimestamp_length|apply H].
Qed.

Lemma count_failure_inv cfg reason now r : row_inv r -> row_inv (count_failure cfg reason now r).
Proof. intros H. by apply set_times_inv; [|apply trackTimestamp_length..]. Qed.

Lemma set_dimension_inv r d : row_inv r -> row_inv (set_dimension r d).
Proof. intros []. by split. Qed.

Lemma clear_leases_inv r : row_inv r -> row_inv (clear_leases r).
Proof. intros []. by split. Qed.

Lemma clear_backoff_inv r : row_inv r -> row_inv (clear_backoff r).
Proof. intros []. by split. Qed.

#[export] Hint Resolve fresh_inv close_inv open_inv set_attempts_inv count_failure_inv set_dimension_inv
  clear_leases_inv clear_backoff_inv : go.

Lemma observe_success_inv cfg own k now r : row_inv r -> row_inv (observe_success cfg own k now r).
Proof.
  intros H. unfold observe_success. cbv zeta. set (r1 := if k then r else _).
  assert (H1 : row_inv r1) by (unfold r1; destruct k; auto with go).
  destruct (negb (rc_Open r1) || own); [|done].
  set (r2 := if rc_Open r1 then _ else r1). assert (H2 : row_inv r2) by (unfold r2; case_match; auto with go).
  apply clear_leases_inv, clear_backoff_inv, (set_times_inv _ _ []); [done|apply H2|simpl; lia].
Qed.

Lemma observe_update_inv cfg d tok o now k r : row_inv r -> row_inv (observe_update cfg d tok o now k r).
Proof.
  intros H. unfold observe_update, observe_failure.
  repeat match goal with |- context [if ?c then _ else _] => destruct c end;
    auto using observe_success_inv with go.
Qed.

Lemma row_tr_inv now tok k r r' : row_tr now tok k r r' -> row_inv r -> row_inv r'.
Proof.
  destruct 1 as [r O B|st d o key r S|r O|r d O B N|r msg nx b O|r msg nx b O L T A B]; intros Hi.
  - destruct Hi. split; simpl; try done; intros; congruence.
  - by apply observe_update_inv.
  - auto with go.
  - destruct Hi. split; simpl; try done; intros; congruence.
  - split; simpl; try done; unfold maxTrackedFailures, maxTrackedAttempts; try lia; [apply wrap_u64_range|left].
  - destruct Hi. split; simpl; try done; [congruence|].
    destruct B as [->| ->]; [done|by apply next_check_backoff_range].
Qed.

(** ** Leases and checks exclude each other *)

(** A row that keeps or clears its leases. *)
Definition leases_shrink (r r' : RoutingCircuit) : Prop :=
  rc_Lease r' = rc_Lease r /\ rc_LeaseUntil r' = rc_LeaseUntil r
    /\ (rc_CheckLease r' = rc_CheckLease r /\ rc_CheckUntil r' = rc_CheckUntil r \/ rc_CheckUntil r' = None)
  \/ rc_Lease r' = "" /\ rc_LeaseUntil r' = time_zero /\ rc_CheckUntil r' = None.

Lemma observe_update_leases cfg d tok o now k r : leases_shrink r (observe_update cfg d tok o now k r).
Proof.
  unfold observe_update, observe_success, observe_failure, leases_shrink.
  repeat match goal with |- context [if ?c then _ else _] => destruct c end; simpl; auto 10.
Qed.

(** Only an admission adds a lease and only a claim adds a check. *)
Lemma row_tr_leases now tok k r r' :
  row_tr now tok k r r' ->
  leases_shrink r r'
  \/ k = KAdmit /\ r' = with_lease r tok now /\ gate_blocked now r = false
  \/ k = KClaim /\ gate_blocked now r = false /\ rc_Lease r' = rc_Lease r /\ rc_LeaseUntil r' = rc_LeaseUntil r.
Proof.
  destruct 1; try (by right; left); try (by right; right); left; try (apply observe_update_leases);
    unfold leases_shrink; simpl; auto 10.
Qed.

Lemma exclusive_later now now' r : exclusive now r -> now <= now' -> exclusive now' r.
Proof.
  unfold exclusive, check_active, after_opt, After. intros H ?. destruct (rc_CheckUntil r); [|done].
  intros ?. apply Z.ltb_ge. enough (~ now < t) by lia. intros ?. specialize (H ltac:(lia)). lia.
Qed.

Lemma row_tr_exclusive now tok k r r' : row_tr now tok k r r' -> exclusive now r -> exclusive now r'.
Proof.
  intros T H. unfold exclusive, check_active in *.
  destruct (row_tr_leases _ _ _ _ _ T) as [[(_ & L & [[_ C]|C])|(_ & _ & C)]|[(_ & -> & B)|(_ & B & _ & L)]].
  - rewrite L, C. done.
  - by rewrite C.
  - by rewrite C.
  - unfold gate_blocked in B. bools. done.
  - rewrite L. unfold gate_blocked in B. bools. intros A. apply After_spec in A. lia.
Qed.

(** ** Reachable tables *)

Definition no_tables : Tables := mkTables ∅ ∅ ∅.

(** States of the store: any interleaving of operations that satisfy [ok],
    under a clock that does not run backwards and reads later than year 1. *)
Inductive reachable (ok : Tables -> op -> Prop) : time -> Tables -> Prop :=
| reach_init t : time_zero <= t -> reachable ok t no_tables
| reach_op now now' o tb : reachable ok now tb -> now <= now' -> ok tb o ->
    reachable ok now' (exec_op now' o tb).

Definition any_op : Tables -> op -> Prop := fun _ _ => True.

Record tables_inv (now : time) (tb : Tables) : Prop := {
  ti_wf : tables_wf tb;
  ti_rows : forall s r, circuits tb !! s = Some r -> row_inv r;
  ti_excl : forall s r, circuits tb !! s = Some r -> exclusive now r
}.

Lemma no_tables_inv t : tables_inv t no_tables.
Proof. split; intros s r; simpl; by rewrite lookup_empty. Qed.

Lemma op_inv now now' o tb : tables_inv now tb -> now <= now' -> tables_inv now' (exec_op now' o tb).
Proof.
  intros [W R E] Hn. split; [by apply op_wf| |]; intros s r' H;
    destruct (move_back _ _ _ _ _ (op_rows now' o tb W) s r' H) as (r & [Hr|(_ & _ & d & ->)] & [->|T]);
    eauto using row_tr_inv, fresh_inv, exclusive_later, row_tr_exclusive; try done.
  eapply row_tr_exclusive; [exact T|]. done.
Qed.

Lemma reachable_inv ok now tb : reachable ok now tb -> tables_inv now tb.
Proof. induction 1; [apply no_tables_inv|by eapply op_inv]. Qed.

(** ** A lease belongs to one token until it expires *)

(** The gate is leased to [tok] at [now]. *)
Definition leased (now : time) (tok : string) (r : RoutingCircuit) : Prop :=
  rc_Lease r = tok /\ tok <> "" /\ now < rc_LeaseUntil r.

Lemma row_tr_lease_other now tok k r r' lease :
  row_inv r -> exclusive now r -> leased now lease r -> tok <> lease ->
  row_tr now tok k r r' -> r' = r.
Proof.
  intros I X (<- & N & A) Nt T.
  assert (O : rc_Open r = true) by by apply I. assert (A' : After (rc_LeaseUntil r) now = true) by by apply After_spec.
  specialize (X A'). destruct T as [r _ B|st d o key r S|r _ L|r d _ B _|r msg nx b _ L T C|r msg nx b _ L T C _];
    try (unfold gate_blocked in B; bools; lia); try (by rewrite X in C); try done.
  unfold observe_skips, owned in S. rewrite O in S. apply String.eqb_neq in N. rewrite N in S.
  assert (E : String.eqb (rc_Lease r) tok = false) by (apply String.eqb_neq; congruence).
  rewrite E in S. cbn in S. bools. congruence.
Qed.

Lemma lease_kept now o tb s r lease :
  tables_inv now tb -> circuits tb !! s = Some r -> leased now lease r -> op_token o <> lease ->
  circuits (exec_op now o tb) !! s = Some r.
Proof.
  intros [W R E] Hs L N. destruct (op_rows now o tb W) as [B K].
  destruct (K s ltac:(eauto)) as [r' Hr']. rewrite Hr'. f_equal.
  destruct (B s r' Hr') as (q & [Hq|[Hq _]] & T); [|congruence]. rewrite Hs in Hq. injection Hq as <-.
  destruct T as [->|T]; [done|]. by eapply row_tr_lease_other; eauto.
Qed.

(** ** Traces *)

Fixpoint run_trace (l : list (time * op)) (tb : Tables) : Tables :=
  match l with
  | [] => tb
  | (t, o) :: rest => run_trace rest (exec_op t o tb)
  end.

(** The clock readings of a trace do not run backwards from [now]. *)
Fixpoint clocked (now : time) (l : list (time * op)) : Prop :=
  match l with
  | [] => True
  | (t, _) :: rest => now <= t /\ clocked t rest
  end.

Lemma tables_inv_later now now' tb : tables_inv now tb -> now <= now' -> tables_inv now' tb.
Proof. intros [W R E] H. split; eauto using exclusive_later. Qed.

Lemma trace_lease_kept l now tb s r lease :
  tables_inv now tb -> circuits tb !! s = Some r -> rc_Lease r = lease -> lease <> "" -> clocked now l ->
  Forall (fun to : time * op => to.1 < rc_LeaseUntil r /\ op_token to.2 <> lease) l ->
  circuits (run_trace l tb) !! s = Some r /\ tables_wf (run_trace l tb).
Proof.
  revert now tb. induction l as [|[t o] l IH]; intros now tb I Hs L N C F; simpl; [split; [done|apply I]|].
  destruct C as [C1 C2]. destruct (Forall_cons_1 _ _ _ F) as [[F1 F2] F3]. simpl in F1, F2.
  assert (It : tables_inv t tb) by by eapply tables_inv_later.
  eapply IH; [eapply op_inv; [exact I|exact C1]| | | |exact C2|exact F3]; try done.
  eapply lease_kept; [exact It|exact Hs| |exact F2]. by split.
Qed.

(** ** Generations fence stale results *)

Lemma observe_update_generation cfg d tok o now k r :
  let r' := observe_update cfg d tok o now k r in
  rc_Generation r' = rc_Generation r /\ rc_Open r' = rc_Open r \/ rc_Generation r' = wrap_u64 (rc_Generation r + 1).
Proof.
  unfold observe_update, observe_success, observe_failure. cbv zeta.
  repeat match goal with |- context [if ?c then _ else _] => destruct c end; simpl; auto.
Qed.

(** A move keeps the generation only if it keeps the gate's position. *)
Lemma row_tr_generation now tok k r r' :
  row_tr now tok k r r' ->
  rc_Generation r' = rc_Generation r /\ rc_Open r' = rc_Open r \/ rc_Generation r' = wrap_u64 (rc_Generation r + 1).
Proof. destruct 1; simpl; auto. apply observe_update_generation. Qed.

Lemma op_generation now o tb s r :
  tables_wf tb -> circuits tb !! s = Some r ->
  exists r', circuits (exec_op now o tb) !! s = Some r' /\
    (rc_Generation r' = rc_Generation r /\ rc_Open r' = rc_Open r \/ rc_Generation r' = wrap_u64 (rc_Generation r + 1)).
Proof.
  intros W Hs. destruct (op_rows now o tb W) as [B K]. destruct (K s ltac:(eauto)) as [r' Hr'].
  exists r'. split; [done|]. destruct (B s r' Hr') as (q & [Hq|[Hq _]] & T); [|congruence].
  rewrite Hs in Hq. injection Hq as <-. destruct T as [->|T]; [by left|by eapply row_tr_generation].
Qed.

(** Over [n] operations the generation advances by at most [n], and it does
    advance if the gate ends in another position. *)
Lemma trace_generation l tb s r :
  tables_wf tb -> circuits tb !! s = Some r -> in_u64 (rc_Generation r) ->
  exists r' k, circuits (run_trace l tb) !! s = Some r' /\ 0 <= k <= Z.of_nat (length l)
    /\ rc_Generation r' = wrap_u64 (rc_Generation r + k) /\ (k = 0 -> rc_Open r' = rc_Open r).
Proof.
  revert tb r. induction l as [|[t o] l IH]; intros tb r W Hs G; simpl.
  - exists r, 0. rewrite Z.add_0_r, wrap_u64_id by done. split_and!; [done|lia..|done|done].
  - destruct (op_generation t o tb s r W Hs) as (r1 & H1 & T).
    assert (G1 : in_u64 (rc_Generation r1)).
    { destruct T as [[-> _]| ->]; [done|apply wrap_u64_range]. }
    destruct (IH (exec_op t o tb) r1 (op_wf _ _ _ W) H1 G1) as (r' & k & H' & K & E & O).
    destruct T as [[Eg Eo]|Eg].
    + exists r', k. rewrite E, Eg. split_and!; [done|lia..|done|]. intros ->. rewrite O by done. done.
    + exists r', (k + 1). rewrite E, Eg. split_and!; [done|lia..| |lia].
      unfold wrap_u64. rewrite Zplus_mod_idemp_l. f_equal. lia.
Qed.

Lemma run_trace_app l1 l2 tb : run_trace (l1 ++ l2) tb = run_trace l2 (run_trace l1 tb).
Proof. revert tb. induction l1 as [|[t o] l1 IH]; intros tb; simpl; [done|apply IH]. Qed.

Lemma run_trace_wf l tb : tables_wf tb -> tables_wf (run_trace l tb).
Proof. revert tb. induction l as [|[t o] l IH]; intros tb W; simpl; [done|]. by apply IH, op_wf. Qed.

(** A gate that changed position on the way has another generation at the end. *)
Lemma trace_flip_generation l1 l2 tb s r r1 :
  tables_wf tb -> circuits tb !! s = Some r -> in_u64 (rc_Generation r) ->
  Z.of_nat (length (l1 ++ l2)) < 2 ^ 64 ->
  circuits (run_trace l1 tb) !! s = Some r1 -> rc_Open r1 <> rc_Open r ->
  exists r2, circuits (run_trace (l1 ++ l2) tb) !! s = Some r2 /\ rc_Generation r2 <> rc_Generation r.
Proof.
  intros W Hs G Len H1 O. rewrite run_trace_app. rewrite length_app in Len.
  destruct (trace_generation l1 tb s r W Hs G) as (r1' & k1 & H1' & K1 & E1 & O1).
  rewrite H1 in H1'. injection H1' as <-.
  destruct (trace_generation l2 (run_trace l1 tb) s r1) as (r2 & k2 & H2 & K2 & E2 & _);
    [by apply run_trace_wf|done|rewrite E1; apply wrap_u64_range|].
  exists r2. split; [done|]. rewrite E2, E1. unfold wrap_u64, in_u64 in *. rewrite Zplus_mod_idemp_l.
  assert (k1 <> 0) by auto. intros E.
  assert (M : (rc_Generation r + k1 + k2 - rc_Generation r) mod 2 ^ 64 = 0).
  { rewrite Zminus_mod, E. rewrite (Z.mod_small (rc_Generation r)) by lia. rewrite Z.sub_diag. done. }
  replace (rc_Generation r + k1 + k2 - rc_Generation r) with (k1 + k2) in M by lia.
  rewrite Z.mod_small in M by lia. lia.
Qed.

(** An outcome whose admission recorded another generation leaves the gate alone. *)
Lemma observe_stale st d tok o a now tb s r :
  tables_wf tb -> circuits tb !! s = Some r -> oc_Admission o = Some a ->
  ad_Generations a !! s <> Some (rc_Generation r) ->
  circuits (transaction (Observe st d tok o now) tb).2 !! s = Some r.
Proof.
  intros W Hs A G. assert (Gs : gate tb d s = r) by (unfold gate; by rewrite Hs).
  assert (S : observe_skips tok o now r = true).
  { unfold observe_skips. rewrite A, (W s r Hs), bool_decide_false by done. done. }
  destruct (recorded tb d o) eqn:R.
  - rewrite transaction_Observe, R by done. simpl. rewrite lock_both_lookup. case_decide; by rewrite ?Gs.
  - rewrite Observe_lookup by done. unfold observed. rewrite Gs, S. repeat case_decide; done.
Qed.

(** ** The gates of one key exclude each other *)

(** A gate in use: leased to a recovery request or to a check. *)
Definition in_use (now : time) (r : RoutingCircuit) : bool := After (rc_LeaseUntil r) now || check_active now r.

(** While the key gate is in use, the other gates of the key hold no check, and
    no lease but the one taken by the same request. *)
Definition key_exclusive (now : time) (tb : Tables) : Prop :=
  forall rk s r, circuits tb !! KeyScope (rc_PlatformKeyID rk) = Some rk -> circuits tb !! s = Some r ->
    s <> KeyScope (rc_PlatformKeyID rk) -> rc_PlatformKeyID r = rc_PlatformKeyID rk -> in_use now rk = true ->
    check_active now r = false /\
    (After (rc_LeaseUntil r) now = true -> After (rc_LeaseUntil rk) now = true /\ rc_Lease r = rc_Lease rk).

(** The row of scope [s], if there is one, belongs to the key of [d]. *)
Definition belongs (tb : Tables) (d : Dimension) (s : string) : Prop :=
  forall r, circuits tb !! s = Some r -> rc_PlatformKeyID r = dm_KeyID d.

(** Admissions and claims name scopes of their own key. *)
Definition own_key (tb : Tables) (o : op) : Prop :=
  match o with
  | OpAdmit d _ _ => belongs tb d (KeyScope (dm_KeyID d)) /\ belongs tb d (Scope d)
  | OpClaim _ s d _ _ => belongs tb d (KeyScope (dm_KeyID d)) /\ belongs tb d s
  | _ => True
  end.

Lemma in_use_earlier now now' r : now <= now' -> in_use now' r = true -> in_use now r = true.
Proof.
  unfold in_use, check_active, after_opt, After. rewrite !orb_true_iff. intros ? [H|H]; [left; lia|].
  right. destruct (rc_CheckUntil r); [lia|done].
Qed.

Lemma check_active_later now now' r : now <= now' -> check_active now r = false -> check_active now' r = false.
Proof. unfold check_active, after_opt, After. destruct (rc_CheckUntil r); [lia|done]. Qed.

Lemma key_exclusive_later now now' tb :
  tables_inv now tb -> key_exclusive now tb -> now <= now' -> key_exclusive now' tb.
Proof.
  intros I K Hn rk s r Hk Hs N E U. destruct (K rk s r Hk Hs N E) as [C L]; [by eapply in_use_earlier|].
  split; [by eapply check_active_later|]. intros A. destruct L as [L1 L2]; [unfold After in *; lia|].
  split; [|done]. pose proof (ti_excl _ _ I _ _ Hk L1) as X.
  unfold in_use in U. by rewrite (check_active_later _ _ _ Hn X), orb_false_r in U.
Qed.

Lemma row_tr_key now tok k r r' : row_tr now tok k r r' -> rc_PlatformKeyID r' = rc_PlatformKeyID r.
Proof.
  destruct 1; try done. unfold observe_update, observe_success, observe_failure.
  repeat match goal with |- context [if ?c then _ else _] => destruct c end; reflexivity.
Qed.

Lemma closed_not_in_use now r : time_zero <= now -> row_inv r -> rc_Open r = false -> in_use now r = false.
Proof.
  intros Z I O. destruct (inv_lease_until _ I O) as [L C]. unfold in_use, check_active. rewrite L, C. simpl.
  rewrite orb_false_r. unfold After. lia.
Qed.

(** A row that keeps or clears its leases is in use only as before. *)
Lemma shrink_use now r r' :
  time_zero <= now -> leases_shrink r r' ->
  (After (rc_LeaseUntil r') now = true -> After (rc_LeaseUntil r) now = true /\ rc_Lease r' = rc_Lease r)
  /\ (check_active now r' = true -> check_active now r = true).
Proof.
  unfold check_active. intros Z [(L & U & [[_ C]|C])|(L & U & C)]; rewrite U, C; split; try done.
  unfold After. lia.
Qed.

Lemma not_in_use now r : in_use now r = false -> After (rc_LeaseUntil r) now = false /\ check_active now r = false.
Proof. unfold in_use. apply orb_false_iff. Qed.

Lemma leases_shrink_refl r : leases_shrink r r.
Proof. left. auto. Qed.

(** Where a gate in use comes from, in a transaction that adds no lease. *)
Lemma move_use now tok k tb tb' s r' :
  time_zero <= now -> rows_move now tok k tb tb' -> k <> KAdmit -> k <> KClaim ->
  circuits tb' !! s = Some r' -> in_use now r' = true ->
  exists r, circuits tb !! s = Some r /\ rc_PlatformKeyID r = rc_PlatformKeyID r' /\ leases_shrink r r'.
Proof.
  intros Z M N1 N2 H U. destruct (move_back _ _ _ _ _ M s r' H) as (r & O & T).
  assert (S : rc_PlatformKeyID r = rc_PlatformKeyID r' /\ leases_shrink r r').
  { destruct T as [->|T]; [split; [done|apply leases_shrink_refl]|].
    rewrite (row_tr_key _ _ _ _ _ T). split; [done|].
    destruct (row_tr_leases _ _ _ _ _ T) as [S|[(-> & _)|(-> & _)]]; done. }
  destruct O as [O|(_ & _ & d & ->)]; [eauto|]. exfalso. destruct S as [_ S].
  destruct (shrink_use now _ _ Z S) as [L C].
  pose proof (closed_not_in_use now (fresh_circuit d s) Z (fresh_inv d s) eq_refl) as F.
  apply not_in_use in F as [F1 F2]. unfold in_use in U. apply orb_true_iff in U as [U|U].
  - destruct (L U). congruence.
  - rewrite (C U) in F2. done.
Qed.

Lemma move_key_exclusive now tok k tb tb' :
  time_zero <= now -> rows_move now tok k tb tb' -> k <> KAdmit -> k <> KClaim ->
  tables_inv now tb -> key_exclusive now tb -> key_exclusive now tb'.
Proof.
  intros Z M N1 N2 I K rk' s r' Hk Hs N E U.
  destruct (in_use now r') eqn:Ur; [|apply not_in_use in Ur as [-> ->]; done].
  destruct (move_use _ _ _ _ _ _ _ Z M N1 N2 Hk U) as (rk & Ok & Ek & Sk).
  destruct (move_use _ _ _ _ _ _ _ Z M N1 N2 Hs Ur) as (r & Or & Er & Sr).
  destruct (shrink_use now _ _ Z Sk) as [Lk Ck]. destruct (shrink_use now _ _ Z Sr) as [Lr Cr].
  rewrite <- Ek in Ok, N. destruct (K rk s r Ok Or N) as [C L]; [congruence| |].
  - unfold in_use in *. apply orb_true_iff in U as [U|U]; apply orb_true_iff; [left; by apply Lk|right; auto].
  - split; [destruct (check_active now r'); [by rewrite Cr in C|done]|].
    intros A. destruct (Lr A) as [A' El]. destruct (L A') as [Ak Eq].
    (* the key row keeps its lease: it is in use and its check is not active *)
    assert (X : check_active now rk = false) by exact (ti_excl _ _ I _ _ Ok Ak).
    assert (Uk : After (rc_LeaseUntil rk') now = true).
    { unfold in_use in U. apply orb_true_iff in U as [U|U]; [done|]. by rewrite Ck in X. }
    split; [done|]. destruct (Lk Uk) as [_ ->]. congruence.
Qed.

Lemma busy_in_use d s now r :
  rc_PlatformKeyID r = dm_KeyID d -> rc_Scope r <> s -> busy_on_key d s now r = in_use now r.
Proof.
  intros E N. unfold busy_on_key, in_use, check_active. rewrite E, Z.eqb_refl.
  apply String.eqb_neq in N. rewrite N. simpl. apply orb_comm.
Qed.

Lemma admit_tables_lookup tb d tok now s :
  tables_wf tb ->
  circuits (admit_tables tb d tok now) !! s =
  if decide (s = KeyScope (dm_KeyID d) \/ s = Scope d) then Some (entered tok now (gate tb d s)) else circuits tb !! s.
Proof.
  intros W. pose proof (KeyScope_neq_Scope (dm_KeyID d) d) as N. unfold admit_tables.
  assert (W1 : tables_wf (enter_gate d tok now (KeyScope (dm_KeyID d)) tb)).
  { unfold enter_gate. case_match; auto with go. }
  case_decide as D.
  - destruct D as [->| ->].
    + by rewrite enter_gate_lookup_ne, enter_gate_lookup by done.
    + rewrite enter_gate_lookup by done. do 2 f_equal. by apply gate_lookup_same, enter_gate_lookup_ne.
  - rewrite !enter_gate_lookup_ne; naive_solver.
Qed.

Lemma entered_key tok now r : rc_PlatformKeyID (entered tok now r) = rc_PlatformKeyID r.
Proof. unfold entered. by case_match. Qed.

Lemma gate_belongs tb d s : belongs tb d s -> rc_PlatformKeyID (gate tb d s) = dm_KeyID d.
Proof. intros B. unfold gate. destruct (circuits tb !! s) eqn:E; simpl; auto. Qed.

Lemma gate_inv now tb d s : tables_inv now tb -> row_inv (gate tb d s).
Proof. intros I. unfold gate. destruct (circuits tb !! s) eqn:E; simpl; [by eapply ti_rows|apply fresh_inv]. Qed.

(** No other gate of the key is in use, stored or fresh. *)
Lemma key_free_gate now tb d s :
  time_zero <= now -> tables_wf tb -> key_in_use tb d now = false -> s <> KeyScope (dm_KeyID d) ->
  rc_PlatformKeyID (gate tb d s) = dm_KeyID d -> in_use now (gate tb d s) = false.
Proof.
  intros Z W F N E. rewrite <- (busy_in_use d (KeyScope (dm_KeyID d)) now); [|done|by rewrite gate_wf].
  unfold gate in *. destruct (circuits tb !! s) as [r|] eqn:Hs; simpl in *.
  - apply not_true_is_false. intros B. assert (T : key_in_use tb d now = true); [|congruence].
    apply key_in_use_spec. eauto.
  - unfold busy_on_key. simpl. unfold After. rewrite (proj2 (Z.ltb_ge now time_zero)) by lia. by rewrite andb_false_r.
Qed.

(** A gate entered while its key is free of other requests. *)
Lemma entered_exclusive now tok r :
  time_zero <= now -> row_inv r -> in_use now r = false ->
  check_active now (entered tok now r) = false
  /\ (After (rc_LeaseUntil (entered tok now r)) now = true -> rc_Lease (entered tok now r) = tok).
Proof.
  intros Z I U. apply not_in_use in U as [U1 U2]. unfold entered. destruct (rc_Open r) eqn:O; [done|].
  split; [done|]. by rewrite U1.
Qed.

Lemma admit_key_exclusive now d rec tok tb :
  time_zero <= now -> tables_inv now tb -> key_exclusive now tb -> own_key tb (OpAdmit d rec tok) ->
  key_exclusive now (transaction (AdmitRequest d rec tok now) tb).2.
Proof.
  intros Z I K [Bk Bs]. pose proof (ti_wf _ _ I) as W. rewrite transaction_AdmitRequest by done.
  destruct (admit_ok tb d rec now) eqn:A; [|done]. simpl.
  intros rk s r Hk Hs N E U. rewrite admit_tables_lookup in Hk, Hs by done.
  set (ks := KeyScope (dm_KeyID d)) in *. destruct (decide (KeyScope (rc_PlatformKeyID rk) = ks)) as [Ek|Nk].
  - rewrite Ek in Hk, N. rewrite decide_True in Hk by auto. injection Hk as <-.
    destruct (rc_Open (gate tb d ks)) eqn:O.
    + unfold admit_ok, enter_ok in A. fold ks in A. rewrite O in A. bools. simpl in H. bools.
      assert (Hr : exists q, r = (if decide (s = Scope d) then entered tok now q else q)
                  /\ row_inv q /\ in_use now q = false).
      { exists (gate tb d s). rewrite entered_key, gate_belongs in E by done. case_decide as D1.
        - destruct D1 as [->| ->]; [done|]. rewrite decide_True by done. injection Hs as <-.
          rewrite entered_key in E. split; [done|]. split; [by eapply gate_inv|]. by apply key_free_gate.
        - rewrite decide_False by naive_solver. assert (gate tb d s = r) by (unfold gate; by rewrite Hs).
          split; [done|]. split; [by eapply gate_inv|]. apply key_free_gate; try done. congruence. }
      destruct Hr as (q & -> & Iq & Uq). assert (Ek' : entered tok now (gate tb d ks) = with_lease (gate tb d ks) tok now)
        by (unfold entered; by rewrite O).
      rewrite Ek'. destruct (decide (s = Scope d)).
      * destruct (entered_exclusive now tok q Z Iq Uq) as [C L]. split; [done|]. intros T. split; [|by apply L].
        apply After_spec. simpl. assert (0 < Second) by done. lia.
      * apply not_in_use in Uq as [-> ->]. done.
    + exfalso. unfold entered in U. rewrite O in U. rewrite closed_not_in_use in U; try done. by eapply gate_inv.
  - rewrite decide_False in Hk; [|intros [D|D]; [done|by apply KeyScope_neq_Scope in D]].
    case_decide as D.
    + exfalso. injection Hs as <-. rewrite entered_key in E. apply Nk. unfold ks. f_equal. rewrite <- E.
      apply gate_belongs. by destruct D as [->| ->].
    + by apply (K rk s r).
Qed.

(** The rows after a granted claim. *)
Lemma claim_lookup tb d s0 r0 tok now s :
  tables_wf tb -> circuits (claim_tables tb d) !! s0 = Some r0 ->
  circuits (save (with_check r0 d tok (now + CheckLeaseDuration)) (claim_tables tb d)) !! s =
  if decide (s = s0) then Some (with_check r0 d tok (now + CheckLeaseDuration)) else circuits (claim_tables tb d) !! s.
Proof.
  intros W H. simpl. rewrite (claim_tables_wf _ _ W _ _ H), lookup_insert. repeat case_decide; congruence.
Qed.

Lemma claim_tables_lookup_ne tb d s :
  s <> KeyScope (dm_KeyID d) -> circuits (claim_tables tb d) !! s = circuits tb !! s.
Proof. intros N. unfold claim_tables. by rewrite locked_lookup_ne, touch_workers_circuits. Qed.

Lemma claim_belongs tb d s : belongs tb d s -> belongs (claim_tables tb d) d s.
Proof.
  intros B r H. rewrite <- (claim_tables_gate _ _ _ _ H). by apply gate_belongs.
Qed.

Lemma claim_key_exclusive now c s0 d e tok tb :
  time_zero <= now -> tables_inv now tb -> key_exclusive now tb -> own_key tb (OpClaim c s0 d e tok) ->
  key_exclusive now (transaction (ClaimCheck c s0 d e tok now) tb).2.
Proof.
  intros Z I K [Bk Bs]. pose proof (ti_wf _ _ I) as W. unfold transaction. rewrite run_ClaimCheck.
  destruct (_ <=? _); [done|]. destruct (key_gate_holds _ _ _ _); [done|].
  destruct (0 <? _) eqn:C; [done|]. apply Z.ltb_ge in C.
  destruct (circuits (claim_tables tb d) !! s0) as [r0|] eqn:H0; [|done].
  destruct (claim_rejects e now r0); [done|]. cbn [snd].
  assert (F : forall s r, circuits (claim_tables tb d) !! s = Some r -> rc_PlatformKeyID r = dm_KeyID d ->
              (s0 = KeyScope (dm_KeyID d) \/ s = s0 \/ s = KeyScope (dm_KeyID d)) -> in_use now r = false).
  { intros s r Hs Er D. assert (S : size (select (check_conflict d s0 now) (circuits (claim_tables tb d))) = 0%nat) by lia.
    rewrite select_empty in S. specialize (S s r Hs). unfold check_conflict in S. rewrite Er, Z.eqb_refl in S.
    fold (in_use now r) in S. rewrite (claim_tables_wf _ _ W _ _ Hs) in S. destruct (in_use now r); [|done].
    exfalso. simpl in S. apply orb_false_iff in S as [S1 S3]. apply orb_false_iff in S1 as [S1 S2].
    apply String.eqb_neq in S1, S2, S3. naive_solver. }
  clear C. intros rk s r Hk Hs N E U. rewrite (claim_lookup _ _ s0) in Hk, Hs by done.
  destruct (decide (KeyScope (rc_PlatformKeyID rk) = KeyScope (dm_KeyID d))) as [Ek|Nk].
  - rewrite Ek in Hk, N. destruct (decide (KeyScope (dm_KeyID d) = s0)) as [<-|Ns].
    + injection Hk as <-. rewrite decide_False in Hs by done.
      assert (Er : rc_PlatformKeyID r0 = dm_KeyID d) by (by eapply (claim_belongs _ _ _ Bk)).
      simpl in E. rewrite Er in E. pose proof (F s r Hs E ltac:(auto)) as Fr.
      apply not_in_use in Fr as [-> ->]. done.
    + exfalso. assert (Er : rc_PlatformKeyID rk = dm_KeyID d) by (by eapply (claim_belongs _ _ _ Bk)).
      by rewrite (F _ _ Hk Er ltac:(auto)) in U.
  - assert (Ne : rc_PlatformKeyID rk <> dm_KeyID d) by congruence.
    destruct (decide (KeyScope (rc_PlatformKeyID rk) = s0)) as [<-|Ns].
    + exfalso. apply Ne. injection Hk as <-. simpl. by eapply (claim_belongs _ _ _ Bs).
    + rewrite claim_tables_lookup_ne in Hk by done.
      destruct (decide (s = s0)) as [->|Nss].
      * exfalso. apply Ne. rewrite <- E. injection Hs as <-. simpl. by eapply (claim_belongs _ _ _ Bs).
      * destruct (decide (s = KeyScope (dm_KeyID d))) as [->|Nsk].
        -- exfalso. apply Ne. rewrite <- E. by eapply (claim_belongs _ _ _ Bk).
        -- rewrite claim_tables_lookup_ne in Hs by done. by apply (K rk s r).
Qed.

Lemma op_key_exclusive now o tb :
  time_zero <= now -> tables_inv now tb -> key_exclusive now tb -> own_key tb o -> key_exclusive now (exec_op now o tb).
Proof.
  intros Z I K B. pose proof (op_rows now o tb (ti_wf _ _ I)) as M.
  destruct o; try (by eapply move_key_exclusive; [done|exact M|done..]).
  - by apply admit_key_exclusive.
  - by apply claim_key_exclusive.
Qed.

Lemma reachable_clock ok now tb : reachable ok now tb -> time_zero <= now.
Proof. induction 1; [done|lia]. Qed.

Lemma reachable_key_exclusive now tb : reachable own_key now tb -> key_exclusive now tb.
Proof.
  induction 1 as [t Ht|now now' o tb R IH Hn B].
  - intros rk s r Hk. simpl in Hk. by rewrite lookup_empty in Hk.
  - pose proof (reachable_clock _ _ _ R). pose proof (reachable_inv _ _ _ R) as I.
    apply op_key_exclusive; [lia|by eapply tables_inv_later| |done]. by eapply key_exclusive_later.
Qed.

(** ** The global allowance of checks *)

Lemma row_tr_check now tok k r r' :
  row_tr now tok k r r' -> k <> KClaim -> check_active now r' = true -> check_active now r = true.
Proof.
  intros T N. unfold check_active.
  destruct (row_tr_leases _ _ _ _ _ T) as [[(_ & _ & [[_ C]|C])|(_ & _ & C)]|[(_ & -> & _)|(-> & _)]]; try done;
    by rewrite C.
Qed.

Lemma active_subset now tb tb' s0 :
  (forall s r', circuits tb' !! s = Some r' -> check_active now r' = true ->
     s0 = Some s \/ exists r, circuits tb !! s = Some r /\ check_active now r = true) ->
  active_checks now tb' <= active_checks now tb + (match s0 with Some _ => 1 | None => 0 end).
Proof.
  intros H. unfold active_checks.
  set (m := select (check_active now) (circuits tb)). set (m' := select (check_active now) (circuits tb')).
  assert (D : dom m' ⊆ (match s0 with Some s => {[s]} | None => ∅ end) ∪ dom m).
  { intros s Hs. apply elem_of_dom in Hs as [r' Hr]. apply select_lookup in Hr as [Hr A].
    apply elem_of_union. destruct (H s r' Hr A) as [->|(r & E & Ar)]; [left; set_solver|right].
    apply elem_of_dom. exists r. by apply select_lookup. }
  apply subseteq_size in D. rewrite size_dom in D.
  pose proof (size_union_alt (match s0 with Some s => {[s]} | None => ∅ end : gset string) (dom m)) as U.
  rewrite U in D. pose proof (subseteq_size (dom m ∖ (match s0 with Some s => {[s]} | None => ∅ end)) (dom m) ltac:(set_solver)) as S.
  rewrite size_dom in S. destruct s0; [rewrite size_singleton in D|rewrite size_empty in D]; lia.
Qed.

Lemma op_active_checks now o tb c :
  tables_wf tb -> (forall c' s d e tok, o = OpClaim c' s d e tok -> c' = c) ->
  active_checks now tb <= checkLimit c -> active_checks now (exec_op now o tb) <= checkLimit c.
Proof.
  intros W Hc L. destruct (decide (op_kind o = KClaim)) as [K|K]; [destruct o; try done|].
  - specialize (Hc _ _ _ _ _ eq_refl) as ->. simpl. unfold transaction. rewrite run_ClaimCheck.
    destruct (checkLimit c <=? active_checks now tb) eqn:A; [done|]. apply Z.leb_gt in A.
    do 2 (destruct (_ : bool); [done|]).
    destruct (circuits (claim_tables tb d) !! scope) as [r0|] eqn:H0; [|done].
    destruct (claim_rejects expected now r0); [done|]. cbn [snd].
    etransitivity; [apply (active_subset now tb _ (Some scope))|lia].
    intros s r'. rewrite (claim_lookup _ _ scope) by done. case_decide as E; [subst; auto|].
    intros Hs Ar. right. destruct (decide (s = KeyScope (dm_KeyID d))) as [->|N].
    + pose proof (claim_tables_gate _ _ _ _ Hs) as G. unfold gate in G.
      destruct (circuits tb !! KeyScope (dm_KeyID d)) as [q|]; simpl in G; subst; eauto. done.
    + rewrite claim_tables_lookup_ne in Hs by done. eauto.
  - etransitivity; [apply (active_subset now tb _ None)|lia].
    intros s r' Hs Ar. right.
    destruct (move_back _ _ _ _ _ (op_rows now o tb W) s r' Hs) as (r & [Hr|(_ & _ & d & ->)] & T).
    + exists r. split; [done|]. destruct T as [->|T]; [done|by eapply row_tr_check].
    + exfalso. destruct T as [->|T]; [done|]. by apply (row_tr_check _ _ _ _ _ T K) in Ar.
Qed.

Lemma active_checks_later now now' tb : now <= now' -> active_checks now' tb <= active_checks now tb.
Proof.
  intros Hn. etransitivity; [apply (active_subset now' tb tb None); eauto|]. rewrite Z.add_0_r. unfold active_checks.
  apply inj_le. rewrite <- !size_dom. apply subseteq_size. intros s Hs.
  apply elem_of_dom in Hs as [r Hr]. apply select_lookup in Hr as [Hr A]. apply elem_of_dom. exists r.
  apply select_lookup. split; [done|]. destruct (check_active now r) eqn:E; [done|].
  by rewrite (check_active_later now now') in A.
Qed.

(** Every claim is made with the configured concurrency [c]. *)
Definition claims_with (c : Z) (_ : Tables) (o : op) : Prop := forall c' s d e tok, o = OpClaim c' s d e tok -> c' = c.

Lemma checkLimit_range c : 1 <= checkLimit c <= 64.
Proof. unfold checkLimit, DefaultCheckConcurrency. case_match; bools; lia. Qed.

Lemma reachable_active_checks c now tb : reachable (claims_with c) now tb -> active_checks now tb <= checkLimit c.
Proof.
  induction 1 as [t Ht|now now' o tb R IH Hn B].
  - unfold active_checks, select. simpl. rewrite map_filter_empty, map_size_empty. pose proof (checkLimit_range c). lia.
  - apply op_active_checks; [by eapply ti_wf, reachable_inv|done|].
    pose proof (active_checks_later now now' tb Hn). lia.
Qed.

(** ** A concrete run, for the witnesses *)

Definition demo_dim : Dimension := mkDim 7 "openai" "gpt-4o" "/v1/chat/completions" true.

Definition demo_failure (req : string) : Outcome :=
  mkOutcome None req 0 false false false false true 0 "upstream_5xx".

(** A failure that opens the dimension's gate, then a recovery admission. *)
Definition demo_open : Tables :=
  exec_op (1000 * Second) (OpObserve DefaultSchedulerSettings demo_dim "" (demo_failure "r1")) no_tables.
Definition demo_leased : Tables := exec_op (2000 * Second) (OpAdmit demo_dim true "tok-a") demo_open.

Lemma demo_open_reachable ok :
  ok no_tables (OpObserve DefaultSchedulerSettings demo_dim "" (demo_failure "r1")) ->
  reachable ok (1000 * Second) demo_open.
Proof.
  intros H. apply (reach_op ok 0); [|done|done]. apply reach_init. unfold time_zero. done.
Qed.

Lemma demo_leased_reachable : reachable any_op (2000 * Second) demo_leased.
Proof. apply (reach_op any_op (1000 * Second)); [|done|done]. by apply demo_open_reachable. Qed.

Definition demo_row : RoutingCircuit := gate demo_leased demo_dim (Scope demo_dim).

Lemma demo_row_leased :
  circuits demo_leased !! Scope demo_dim = Some demo_row /\ leased (2000 * Second) "tok-a" demo_row.
Proof.
  split; [vm_compute; reflexivity|]. split; [vm_compute; reflexivity|]. split; [done|]. vm_compute. reflexivity.
Qed.

(** ** The properties *)

(** C18: In every reachable state of the store, under any interleaving of
    admissions, observations, releases, checks and budget calls, each gate row is
    well formed (row_inv: a lease or check lease only on an open gate, the failure
    counter equal to the number of tracked failures, at most 64 failures and 120
    attempts tracked, check backoff one of 0, 1, 30, 60, 90 s, generation a
    uint64), and no gate is held by a recovery lease and a check at once. *)
Theorem circuit_invariant now tb : reachable any_op now tb -> tables_inv now tb.
Proof. apply reachable_inv. Qed.

Lemma circuit_invariant_witness : tables_inv (2000 * Second) demo_leased.
Proof. exact (circuit_invariant _ _ demo_leased_reachable). Defined.

(** C4: A recovery lease is never taken over: while it has not expired, no
    sequence of operations by other tokens (admissions, observations, releases,
    check claims and check results of any dimension) changes the leased row in
    any column. *)
Theorem lease_not_taken_over now tb s r lease l :
  reachable any_op now tb -> circuits tb !! s = Some r -> leased now lease r -> clocked now l ->
  Forall (fun to : time * op => to.1 < rc_LeaseUntil r /\ op_token to.2 <> lease) l ->
  circuits (run_trace l tb) !! s = Some r.
Proof.
  intros R Hs (L & N & _) C F. eapply trace_lease_kept; [by eapply reachable_inv|done..].
Qed.

Lemma lease_not_taken_over_witness :
  circuits (run_trace [(2100 * Second, OpAdmit demo_dim true "tok-b");
                       (2200 * Second, OpObserve DefaultSchedulerSettings demo_dim "tok-b" (demo_failure "r2"))]
             demo_leased) !! Scope demo_dim = Some demo_row.
Proof.
  destruct demo_row_leased as [E L].
  apply (lease_not_taken_over (2000 * Second) _ _ _ "tok-a" _ demo_leased_reachable E L); [vm_compute; intuition congruence|].
  repeat constructor; try (vm_compute; reflexivity); simpl; congruence.
Defined.

(** C19: Generation fencing: if a gate opened or closed after a request was
    admitted (fewer than 2^64 operations in between), the request's outcome,
    which carries the admitted generation, leaves that gate's row unchanged. *)
Theorem stale_outcome_ignored st d tok o a tb s r l1 l2 now r1 t :
  reachable any_op t tb -> circuits tb !! s = Some r ->
  oc_Admission o = Some a -> ad_Generations a !! s = Some (rc_Generation r) ->
  Z.of_nat (length (l1 ++ l2)) < 2 ^ 64 ->
  circuits (run_trace l1 tb) !! s = Some r1 -> rc_Open r1 <> rc_Open r ->
  circuits (transaction (Observe st d tok o now) (run_trace (l1 ++ l2) tb)).2 !! s
  = circuits (run_trace (l1 ++ l2) tb) !! s.
Proof.
  intros R Hs A G Len H1 O. pose proof (reachable_inv _ _ _ R) as I.
  destruct (trace_flip_generation l1 l2 tb s r r1) as (r2 & H2 & N); try done; [apply I|by eapply inv_gen, ti_rows|].
  rewrite H2. eapply observe_stale; [by apply run_trace_wf, I|done|exact A|]. rewrite G. congruence.
Qed.

(** The request "r0" was admitted through the closed gate before it opened. *)
Definition demo_closed : Tables := exec_op 0 (OpAdmit demo_dim false "tok-0") no_tables.
Definition demo_stale : Outcome :=
  mkOutcome (Some (mkAdmission "tok-0" {[Scope demo_dim := 0]})) "r0" 0 true false false false false 0 "".

Lemma stale_outcome_ignored_witness :
  let trip := [(1000 * Second, OpObserve DefaultSchedulerSettings demo_dim "" (demo_failure "r1"))] in
  circuits (transaction (Observe DefaultSchedulerSettings demo_dim "tok-0" demo_stale (2000 * Second))
              (run_trace (trip ++ []) demo_closed)).2 !! Scope demo_dim
  = circuits (run_trace (trip ++ []) demo_closed) !! Scope demo_dim.
Proof.
  intros trip.
  assert (R : reachable any_op 0 demo_closed) by (apply (reach_op any_op 0); [apply reach_init; done|done|done]).
  apply (stale_outcome_ignored _ _ _ _ (mkAdmission "tok-0" {[Scope demo_dim := 0]}) _ _
           (gate demo_closed demo_dim (Scope demo_dim)) trip [] _
           (gate (run_trace trip demo_closed) demo_dim (Scope demo_dim)) 0 R);
    vm_compute; congruence.
Defined.

(** C8: Business validation and synthetic checks of one key do not overlap: in
    every reachable state in which operations name scopes of their own key, while
    a key's own gate is leased or being checked, no other gate of that key is
    being checked, and none is leased except to the very request that holds the
    key gate. *)
Theorem key_gate_exclusive now tb : reachable own_key now tb -> key_exclusive now tb.
Proof. apply reachable_key_exclusive. Qed.

Lemma key_gate_exclusive_witness : key_exclusive (2000 * Second) demo_leased.
Proof.
  apply key_gate_exclusive. apply (reach_op own_key (1000 * Second)); [by apply demo_open_reachable|done|].
  split; intros r H; vm_compute in H; injection H as <-; reflexivity.
Defined.

(** C31: The number of synthetic checks running at any time never exceeds the
    configured allowance (1 to 64, default 8), whatever the interleaving. *)
Theorem check_capacity c now tb :
  reachable (claims_with c) now tb -> active_checks now tb <= checkLimit c /\ 1 <= checkLimit c <= 64.
Proof. intros R. split; [by apply reachable_active_checks|apply checkLimit_range]. Qed.

Lemma check_capacity_witness :
  active_checks (2000 * Second) (exec_op (2000 * Second) (OpClaim 1 (Scope demo_dim) demo_dim None "chk-a") demo_open) <= checkLimit 1
  /\ 1 <= checkLimit 1 <= 64.
Proof.
  apply check_capacity. apply (reach_op (claims_with 1) (1000 * Second)); [by apply demo_open_reachable|done|].
  intros c' s d e tok H. congruence.
Defined.
