(* ===== verification/CircuitRecovery.v ===== *)
(** * Admission, recovery and settling of the routing circuits

    What one admission grants, that a recovery request is the only one of its
    gate until it settles or its lease expires, that its success closes the
    gate and its failure lengthens the cooldown, that a request is counted once,
    and the budgets that space recovery attempts and checks. *)

From S2P Require Import Prelude GoFloat GoString Settings Database Circuit CircuitProps CircuitSafety.

(** ** Lemmas on one recovery *)

Definition gates (d : Dimension) : list string := [KeyScope (dm_KeyID d); Scope d].

Lemma gates_cases d s : s ∈ gates d -> s = KeyScope (dm_KeyID d) \/ s = Scope d.
Proof. intros [->|[->|?%elem_of_nil]%elem_of_cons]%elem_of_cons; auto. done. Qed.

(** The admission a successful [AdmitRequest] returns. *)
Lemma admit_result d rec tok now tb a tb' :
  tables_wf tb -> transaction (AdmitRequest d rec tok now) tb = (Ok a, tb') ->
  admit_ok tb d rec now = true /\ tb' = admit_tables tb d tok now /\ ad_Token a = tok
  /\ forall s, s ∈ gates d -> ad_Generations a !! s = Some (rc_Generation (gate tb d s)).
Proof.
  intros W. rewrite transaction_AdmitRequest by done. destruct (admit_ok tb d rec now); [|done].
  intros [= <- <-]. split_and!; try done. intros s [->| ->]%gates_cases; cbn [ad_Generations].
  - rewrite lookup_insert_ne, lookup_singleton_eq; [done|]. intros E. symmetry in E. by apply KeyScope_neq_Scope in E.
  - by rewrite lookup_insert_eq.
Qed.

(** The row of an open gate after a recovery admission. *)
Lemma admit_leases d rec tok now tb a tb' s :
  tables_wf tb -> transaction (AdmitRequest d rec tok now) tb = (Ok a, tb') ->
  s ∈ gates d -> rc_Open (gate tb d s) = true ->
  circuits tb' !! s = Some (with_lease (gate tb d s) tok now).
Proof.
  intros W H Hs O. destruct (admit_result _ _ _ _ _ _ _ W H) as (_ & -> & _).
  rewrite admit_tables_lookup, decide_True by (done || by apply gates_cases).
  unfold entered. by rewrite O.
Qed.

(** A leased gate refuses every other admission. *)
Lemma leased_refuses now tb d rec tok s r :
  tables_wf tb -> circuits tb !! s = Some r -> s ∈ gates d -> rc_Open r = true -> now < rc_LeaseUntil r ->
  transaction (AdmitRequest d rec tok now) tb = (Err ErrUnavailable, tb).
Proof.
  intros W Hs Hg O L. rewrite transaction_AdmitRequest by done.
  assert (G : gate tb d s = r) by (unfold gate; by rewrite Hs).
  assert (B : gate_blocked now r = true).
  { unfold gate_blocked. apply After_spec in L. by rewrite L, orb_true_r. }
  assert (A : admit_ok tb d rec now = false); [|by rewrite A].
  unfold admit_ok, enter_ok. destruct (gates_cases _ _ Hg) as [->| ->]; rewrite G, O, B; simpl;
    by rewrite ?andb_false_r.
Qed.

(** A recovery admission, then operations of other tokens. *)
Lemma admission_survives d rec tok now tb a tb' s l :
  tables_inv now tb -> tok <> "" -> transaction (AdmitRequest d rec tok now) tb = (Ok a, tb') ->
  s ∈ gates d -> rc_Open (gate tb d s) = true -> clocked now l ->
  Forall (fun to : time * op => to.1 < now + 330 * Second /\ op_token to.2 <> tok) l ->
  circuits (run_trace l tb') !! s = Some (with_lease (gate tb d s) tok now) /\ tables_wf (run_trace l tb').
Proof.
  intros I N H Hs O C F. pose proof (ti_wf _ _ I) as W.
  assert (I' : tables_inv now tb').
  { pose proof (op_inv now now (OpAdmit d rec tok) tb I ltac:(lia)) as X. simpl in X. by rewrite H in X. }
  eapply trace_lease_kept; [exact I'|by eapply admit_leases|done|done|exact C|exact F].
Qed.

(** The outcome is settled on the leased row. *)
Lemma observe_leased st d tok o a now t tb tb' s l :
  tables_inv now tb -> tok <> "" -> transaction (AdmitRequest d true tok now) tb = (Ok a, tb') ->
  s ∈ gates d -> rc_Open (gate tb d s) = true -> clocked now l ->
  Forall (fun to : time * op => to.1 < now + 330 * Second /\ op_token to.2 <> tok) l ->
  t < now + 330 * Second -> oc_Admission o = Some a -> recorded (run_trace l tb') d o = false ->
  circuits (transaction (Observe st d tok o t) (run_trace l tb')).2 !! s =
  Some (observe_update (Normalize st) d tok o t (bool_decide (s = KeyScope (dm_KeyID d))) (with_lease (gate tb d s) tok now))
  /\ owned tok t (with_lease (gate tb d s) tok now) = true.
Proof.
  intros I N H Hs O C F Ht Ao R. destruct (admission_survives _ _ _ _ _ _ _ _ _ I N H Hs O C F) as [Er W'].
  set (r := with_lease (gate tb d s) tok now) in *.
  assert (Ow : owned tok t r = true).
  { unfold owned. simpl. apply String.eqb_neq in N. rewrite N, String.eqb_refl. simpl. by apply After_spec. }
  assert (G : gate (run_trace l tb') d s = r) by (unfold gate; by rewrite Er).
  assert (K : observe_skips tok o t r = false).
  { unfold observe_skips. rewrite Ao, Ow. destruct (admit_result _ _ _ _ _ _ _ (ti_wf _ _ I) H) as (_ & _ & _ & Gs).
    assert (Sc : rc_Scope r = s) by (simpl; apply gate_wf, I). rewrite Sc, bool_decide_true by by apply Gs.
    cbn [negb orb]. by rewrite andb_false_r. }
  split; [|done]. rewrite Observe_lookup by done. unfold observed. rewrite G, K.
  destruct (gates_cases _ _ Hs) as [->| ->].
  - rewrite decide_True by done. by rewrite bool_decide_true.
  - pose proof (KeyScope_neq_Scope (dm_KeyID d) d). by rewrite decide_False, decide_True, bool_decide_false by congruence.
Qed.

(** A closed gate with no failure history. *)
Definition closed_fresh (r : RoutingCircuit) : Prop :=
  rc_Open r = false /\ rc_Failures r = 0 /\ rc_FailureTimes r = [] /\ rc_AttemptTimes r = [] /\ rc_BackoffSec r = 0
  /\ rc_Lease r = "" /\ rc_CheckLease r = "" /\ rc_Reason r = "".

Lemma owner_success_closes cfg d tok o t k r :
  oc_Neutral o = false -> oc_Success o = true -> owned tok t r = true -> rc_Open r = true ->
  closed_fresh (observe_update cfg d tok o t k r)
  /\ rc_Generation (observe_update cfg d tok o t k r) = wrap_u64 (rc_Generation r + 1).
Proof.
  intros Nn Sc Ow O. unfold observe_update. rewrite Nn, Sc, Ow. unfold observe_success.
  destruct k; simpl; rewrite O; simpl; by split_and!.
Qed.

Lemma owner_failure_reopens cfg d tok o t k r :
  oc_Neutral o = false -> oc_Success o = false -> owned tok t r = true -> rc_Open r = true ->
  let r' := observe_update cfg d tok o t k r in
  rc_Open r' = true /\ rc_Lease r' = "" /\ rc_Until r' = t + wrap_i64 (open_seconds r (oc_RetryAfter o) cfg * Second)
  /\ rc_BackoffSec r' = Z.min (open_seconds r (oc_RetryAfter o) cfg) (CircuitMaxCooldownSec cfg)
  /\ rc_Generation r' = wrap_u64 (rc_Generation r + 1).
Proof.
  intros Nn Sc Ow O. unfold observe_update. rewrite Nn, Sc, Ow. destruct k; simpl; by rewrite ?orb_true_r.
Qed.

(** ** Releasing on the first output *)

(** One gate of a release: closed if still owned, and the generation noted. *)
Definition release_ok (a : Admission) (now : time) (s : string) (r : RoutingCircuit) : bool :=
  bool_decide (ad_Generations a !! s = Some (rc_Generation r)) && rc_Open r
  && String.eqb (rc_Lease r) (ad_Token a) && After (rc_LeaseUntil r) now.

Lemma run_release_gate d a now c s tb :
  run (release_gate d a now c s) tb =
  Ok (if release_ok a now s (gate tb d s)
      then (<[s := rc_Generation (closeCircuit (gate tb d s) now)]> c,
            save (closeCircuit (gate tb d s) now) (locked tb d s))
      else (c, locked tb d s)).
Proof.
  unfold release_gate. rewrite run_mbind, run_lock. fold (release_ok a now s (gate tb d s)).
  by destruct (release_ok a now s (gate tb d s)).
Qed.

(** The rows and the admission after a release. *)
Definition released (a : Admission) (now : time) (s : string) (r : RoutingCircuit) : RoutingCircuit :=
  if release_ok a now s r then closeCircuit r now else r.

Lemma release_gate_lookup d a now s tb s' :
  tables_wf tb ->
  circuits (if release_ok a now s (gate tb d s)
            then save (closeCircuit (gate tb d s) now) (locked tb d s) else locked tb d s) !! s' =
  if decide (s' = s) then Some (released a now s (gate tb d s)) else circuits tb !! s'.
Proof.
  intros W. unfold released. destruct (release_ok a now s (gate tb d s)).
  - simpl. rewrite gate_wf, lookup_insert by done. repeat case_decide; try congruence. by rewrite locked_lookup_ne.
  - case_decide as E; [subst; by rewrite locked_lookup_eq|by rewrite locked_lookup_ne].
Qed.

Lemma changed_lookup (c g : gmap string Z) s v (b : bool) :
  c !! s = (if b then Some v else None) ->
  (b = true -> negb (bool_decide (c = ∅)) = true /\ (c ∪ g) !! s = Some v) /\ (b = false -> (c ∪ g) !! s = g !! s).
Proof.
  intros H. split; intros ->.
  - split; [|by apply lookup_union_Some_l]. apply negb_true_iff, bool_decide_eq_false. intros E. by rewrite E, lookup_empty in H.
  - by apply lookup_union_r.
Qed.

Lemma transaction_Release d a now tb :
  tables_wf tb -> ad_Token a <> "" ->
  exists a' ok tb', transaction (ReleaseOnOutput d (Some a) now) tb = (Ok (Some a', ok), tb')
    /\ ad_Token a' = ad_Token a
    /\ forall s, s ∈ gates d ->
         circuits tb' !! s = Some (released a now s (gate tb d s))
         /\ (release_ok a now s (gate tb d s) = true ->
             ok = true /\ ad_Generations a' !! s = Some (rc_Generation (released a now s (gate tb d s))))
         /\ (release_ok a now s (gate tb d s) = false -> ad_Generations a' !! s = ad_Generations a !! s).
Proof.
  intros W N. unfold transaction, ReleaseOnOutput. apply String.eqb_neq in N. rewrite N.
  pose proof (KeyScope_neq_Scope (dm_KeyID d) d) as Nk. set (ks := KeyScope (dm_KeyID d)) in *.
  rewrite run_mbind, run_release_gate. set (b1 := release_ok a now ks (gate tb d ks)).
  set (tb1 := if b1 then save (closeCircuit (gate tb d ks) now) (locked tb d ks) else locked tb d ks).
  assert (L1 : forall s', circuits tb1 !! s' = if decide (s' = ks) then Some (released a now ks (gate tb d ks)) else circuits tb !! s')
    by (intros; by apply release_gate_lookup).
  assert (W1 : tables_wf tb1) by (unfold tb1; destruct b1; auto with go).
  assert (G1 : gate tb1 d (Scope d) = gate tb d (Scope d))
    by (apply gate_lookup_same; rewrite L1, decide_False by congruence; done).
  set (c1 := if b1 then {[ks := rc_Generation (closeCircuit (gate tb d ks) now)]} else ∅ : gmap string Z).
  assert (E1 : (if b1 then (<[ks := rc_Generation (closeCircuit (gate tb d ks) now)]> (∅ : gmap string Z),
                  save (closeCircuit (gate tb d ks) now) (locked tb d ks)) else (∅, locked tb d ks)) = (c1, tb1))
    by (unfold c1, tb1; destruct b1; done).
  rewrite E1. rewrite run_mbind, run_release_gate, G1. set (r2 := gate tb d (Scope d)).
  pose proof (release_gate_lookup d a now (Scope d) tb1) as L2. rewrite G1 in L2. fold r2 in L2.
  set (c2 := if release_ok a now (Scope d) r2 then <[Scope d := rc_Generation (closeCircuit r2 now)]> c1 else c1).
  set (tb2 := if release_ok a now (Scope d) r2 then save (closeCircuit r2 now) (locked tb1 d (Scope d)) else locked tb1 d (Scope d)) in *.
  assert (E2 : (if release_ok a now (Scope d) r2 then (<[Scope d := rc_Generation (closeCircuit r2 now)]> c1,
      save (closeCircuit r2 now) (locked tb1 d (Scope d))) else (c1, locked tb1 d (Scope d))) = (c2, tb2))
    by (unfold c2, tb2; destruct (release_ok a now (Scope d) r2); reflexivity).
  rewrite E2. cbn [run mret prog_mret]. eexists _, _, _. split; [reflexivity|]. split; [reflexivity|].
  cbn [ad_Generations]. intros s [->| ->]%gates_cases; fold ks; rewrite L2 by done.
  - rewrite decide_False, L1, decide_True by done. split; [done|]. apply changed_lookup.
    transitivity (c1 !! ks); [unfold c2; case_match; [by rewrite lookup_insert_ne by congruence|done]|].
    unfold c1, released. fold b1. destruct b1; [by rewrite lookup_singleton_eq|done].
  - rewrite decide_True by done. split; [done|]. apply changed_lookup. fold r2. unfold c2, released.
    destruct (release_ok a now (Scope d) r2); [by rewrite lookup_insert_eq|].
    unfold c1. destruct b1; [by rewrite lookup_singleton_ne|done].
Qed.

(** ** Cooldowns *)

(** The cooldown after [n] reopenings, in seconds. *)
Definition backoff_at (cfg : SchedulerSettings) (n : nat) : Z :=
  match n with
  | O => CircuitCooldownSec cfg
  | S _ => let s := CircuitCooldownSec cfg * 2 ^ Z.of_nat n in
           if s <=? CircuitMaxCooldownSec cfg / 2 then s else CircuitMaxCooldownSec cfg
  end.

Lemma backoff_at_range cfg n :
  settings_wf cfg -> CircuitCooldownSec cfg <= backoff_at cfg n <= CircuitMaxCooldownSec cfg.
Proof.
  intros H. pose proof (wf_cooldown _ H). pose proof (wf_max_cooldown _ H). destruct n; [simpl; lia|].
  unfold backoff_at. pose proof (Z.pow_pos_nonneg 2 (Z.of_nat (S n)) ltac:(lia) ltac:(lia)) as P.
  pose proof (Z.mul_div_le (CircuitMaxCooldownSec cfg) 2 ltac:(lia)). destruct (_ <=? _) eqn:E; [|lia].
  apply Z.leb_le in E. nia.
Qed.

Lemma backoff_step cfg n :
  settings_wf cfg ->
  (let s := Z.min (Z.max (backoff_at cfg n) (CircuitCooldownSec cfg) * 2) (CircuitMaxCooldownSec cfg) in
   if Z.quot (CircuitMaxCooldownSec cfg) 2 <? s then CircuitMaxCooldownSec cfg else s) = backoff_at cfg (S n).
Proof.
  intros H. pose proof (wf_cooldown _ H) as Hc. pose proof (wf_max_cooldown _ H) as Hm.
  pose proof (backoff_at_range cfg n H) as R. rewrite Z.quot_div_nonneg by lia.
  set (mx := CircuitMaxCooldownSec cfg) in *. set (c := CircuitCooldownSec cfg) in *.
  pose proof (Z.div_mod mx 2 ltac:(lia)) as D. pose proof (Z.mod_pos_bound mx 2 ltac:(lia)) as Db.
  set (h := mx / 2) in *. cbv zeta. rewrite Z.max_l by lia. unfold backoff_at at 3. cbv zeta. fold mx c h.
  assert (E : (backoff_at cfg n = c * 2 ^ Z.of_nat n) \/ (backoff_at cfg n = mx /\ h < c * 2 ^ Z.of_nat n)).
  { destruct n as [|n]; [left; simpl; fold c; lia|]. unfold backoff_at. cbv zeta. fold mx c h.
    destruct (Z.leb_spec (c * 2 ^ Z.of_nat (S n)) h); [by left|by right]. }
  assert (P2 : c * 2 ^ Z.of_nat (S n) = 2 * (c * 2 ^ Z.of_nat n)) by (rewrite Nat2Z.inj_succ, Z.pow_succ_r by lia; lia).
  rewrite P2. set (p := c * 2 ^ Z.of_nat n) in *. generalize (mx mod 2) as m, h, p, (backoff_at cfg n), D, Db, E, R, Hm, Hc.
  clear. intros m h p b D Db E R Hm Hc. repeat case_match; lia.
Qed.

(** The row after [n] openings with no [Retry-After], [n > 0]. *)
Definition opened (cfg : SchedulerSettings) (now : time) (reason : string) (n : nat) (r : RoutingCircuit) : RoutingCircuit :=
  Nat.iter n (fun r => open r now reason 0 cfg) r.

Lemma opened_backoff cfg now reason r n :
  settings_wf cfg -> rc_Open r = false ->
  rc_Open (opened cfg now reason (S n) r) = true /\ rc_BackoffSec (opened cfg now reason (S n) r) = backoff_at cfg n
  /\ rc_Until (opened cfg now reason (S n) r) = now + backoff_at cfg n * Second.
Proof.
  intros H O. induction n as [|n (IO & IB & _)].
  - unfold opened. simpl. unfold open_seconds. rewrite O. simpl. pose proof (wf_max_cooldown _ H).
    split; [done|]. split; [lia|by rewrite wrap_i64_id by (unfold in_i64, Second in *; pose proof (wf_cooldown _ H); lia)].
  - change (opened cfg now reason (S (S n)) r) with (open (opened cfg now reason (S n) r) now reason 0 cfg).
    set (q := opened cfg now reason (S n) r) in *. pose proof (backoff_at_range cfg n H) as R.
    pose proof (wf_cooldown _ H). assert (E : open_seconds q 0 cfg = backoff_at cfg (S n)).
    { unfold open_seconds. assert (P : (0 <? backoff_at cfg n) = true) by lia. rewrite IO, IB, P. simpl. by apply backoff_step. }
    unfold open. cbn [rc_Open rc_BackoffSec rc_Until]. rewrite E. pose proof (backoff_at_range cfg (S n) H).
    split; [done|]. split; [lia|]. rewrite wrap_i64_id; [done|]. pose proof (wf_max_cooldown _ H). unfold in_i64, Second in *. lia.
Qed.

(** ** Tripping *)

Definition failure_outcome (reason : string) (started : time) : Outcome :=
  mkOutcome None "" started false false false false false 0 reason.

(** The dimension's gate after failures at times [ts]. *)
Definition fail_at (cfg : SchedulerSettings) (d : Dimension) (reason : string) (r : RoutingCircuit) (ts : list time) : RoutingCircuit :=
  fold_left (fun r t => observed cfg d "" (failure_outcome reason t) t false r) ts r.

(** Every two failures are less than a window apart. *)
Definition within_window (cfg : SchedulerSettings) (ts : list time) : Prop :=
  forall u v, u ∈ ts -> v ∈ ts -> window_cut cfg v < UnixMilli u.

(** The row that has seen failures at [ts] only and is still closed. *)
Definition failing (d : Dimension) (ts : list time) : RoutingCircuit :=
  set_times (fresh_circuit d (Scope d)) (map UnixMilli ts) (map UnixMilli ts) (Z.of_nat (length ts)).

Lemma track_window cut l t cap :
  Forall (fun u => cut < u) l -> (length (if Z.eqb t 0 then l else l ++ [t]) <= cap)%nat ->
  trackTimestamp l t cut cap = if Z.eqb t 0 then l else l ++ [t].
Proof. intros F L. unfold trackTimestamp. rewrite filter_true by done. by apply lastn_all. Qed.

Lemma trips_iff r cfg :
  0 < rc_Failures r <= 8 -> Z.of_nat (length (rc_AttemptTimes r)) = rc_Failures r ->
  fbetween f0 (CircuitRateFactor cfg) f1 ->
  (circuitThreshold r cfg <=? rc_Failures r) || sustainedFailure r = (Z.min (CircuitFailureThreshold cfg) 8 <=? rc_Failures r).
Proof.
  intros Hn Ha Hf. unfold circuitThreshold, sustainedFailure. rewrite Ha. set (n := rc_Failures r) in *.
  destruct (Z.eq_dec n 8) as [->|N8].
  - assert (E : fge (f_of_Z 8) (fmul (f_of_Z 8) (f_dec 4 1)) = true) by (vm_compute; reflexivity).
    rewrite E. change (8 <? sustainedMinAttempts) with false. cbn [orb]. rewrite orb_true_r. symmetry. apply Z.leb_le. lia.
  - assert (S : (n <? sustainedMinAttempts) = true) by (apply Z.ltb_lt; unfold sustainedMinAttempts; lia).
    rewrite S, orb_false_r. set (dyn := f_to_int _).
    assert (D : dyn <= n).
    { apply ceil_int_le; [lia|]. apply fmul_le_l; [apply rnd_valid|apply f_of_Z_fin; unfold in_i64; lia|apply f_of_Z_nonneg; lia|done]. }
    clearbody dyn. unfold circuitMaxFailureThreshold. repeat case_match; lia.
Qed.

Lemma fail_step cfg d reason ts t :
  settings_wf cfg -> fbetween f0 (CircuitRateFactor cfg) f1 -> reason <> FailureFirstTokenTimeout ->
  (length ts < 8)%nat -> within_window cfg (ts ++ [t]) -> 0 < UnixMilli t ->
  let r := failing d (ts ++ [t]) in
  observed cfg d "" (failure_outcome reason t) t false (failing d ts) =
  if Z.min (CircuitFailureThreshold cfg) 8 <=? Z.of_nat (length (ts ++ [t])) then open r t reason 0 cfg else r.
Proof.
  intros H Hf Hr L Ww Ht r.
  assert (Hz : time_zero <= t).
  { unfold UnixMilli in Ht. unfold time_zero, Second. pose proof (Z.div_lt_upper_bound t Millisecond 0). unfold Millisecond in *. lia. }
  assert (C : count_failure cfg reason t (failing d ts) = r).
  { unfold count_failure. simpl. assert (F : Forall (fun u => window_cut cfg t < u) (map UnixMilli ts)).
    { apply Forall_map, Forall_forall. intros u Hu%list_elem_of_In. simpl. apply Ww; apply elem_of_app; [by left|right; left]. }
    assert (Ft : window_cut cfg t < UnixMilli t) by (apply Ww; apply elem_of_app; right; left).
    unfold failure_weight. assert (Er : String.eqb reason FailureFirstTokenTimeout = false) by by apply String.eqb_neq.
    rewrite Er. simpl. rewrite (filter_true _ (map UnixMilli ts)) by done.
    assert (E0 : (UnixMilli t =? 0) = false) by lia.
    rewrite track_window; rewrite ?E0, ?length_app, ?length_map; simpl; try done; [|unfold maxTrackedAttempts; lia].
    rewrite track_window; simpl; rewrite ?length_app, ?length_map; simpl; [|by apply Forall_app_2; [|constructor]|unfold maxTrackedFailures; lia].
    unfold r, failing, set_times. simpl. rewrite map_app, length_app. done. }
  assert (T := trips_iff r cfg). specialize (T ltac:(simpl; rewrite length_app; simpl; lia) ltac:(simpl; by rewrite length_map) Hf).
  unfold observed, observe_skips, owned. simpl.
  assert (B : Before t time_zero = false) by (unfold Before; lia). rewrite B. cbn [orb].
  assert (O : owned "" t (failing d ts) = false) by done.
  unfold observe_update. rewrite O. cbn [oc_Neutral oc_Success oc_AuthFailure failure_outcome andb negb orb].
  unfold observe_failure. cbn [oc_Reason oc_Limited oc_Immediate oc_RetryAfter failure_outcome orb].
  rewrite C. cbn [orb]. by rewrite T.
Qed.

Lemma fail_at_closed cfg d reason ts :
  settings_wf cfg -> fbetween f0 (CircuitRateFactor cfg) f1 -> reason <> FailureFirstTokenTimeout ->
  within_window cfg ts -> Forall (fun t => 0 < UnixMilli t) ts ->
  Z.of_nat (length ts) < Z.min (CircuitFailureThreshold cfg) 8 ->
  fail_at cfg d reason (fresh_circuit d (Scope d)) ts = failing d ts.
Proof.
  intros H Hf Hr. induction ts as [|t ts IH] using rev_ind; intros Ww P L; [done|].
  rewrite length_app in L. simpl in L. apply Forall_app in P as [P Pt]. inversion Pt as [|? ? Pt' _]; subst.
  unfold fail_at. rewrite fold_left_app. simpl. change (fold_left _ ts _) with (fail_at cfg d reason (fresh_circuit d (Scope d)) ts).
  rewrite IH; [|intros u v Hu Hv; apply Ww; apply elem_of_app; by left|done|lia].
  rewrite fail_step; try done; [|lia]. rewrite (proj2 (Z.leb_gt _ _)); [done|]. rewrite length_app. simpl. lia.
Qed.

(** ** Budgets *)

(** The counter of an exploration budget; 0 when there is no row. *)
Definition counter (tb : Tables) (scope : string) : Z :=
  match budgets tb !! scope with Some b => rb_Counter b | None => 0 end.

Lemma rem_mod_twice a n : 0 < n -> Z.rem (a mod n) n = a mod n.
Proof.
  intros H. pose proof (Z.mod_pos_bound a n H). rewrite Z.rem_mod_nonneg by lia. by rewrite Z.mod_mod by lia.
Qed.

Lemma transaction_Slot tb scope interval :
  0 < interval -> 0 <= counter tb scope ->
  exists tb', transaction (Slot scope interval true) tb = (Ok ((counter tb scope + 1) mod interval =? 0), tb')
              /\ counter tb' scope = (counter tb scope + 1) mod interval.
Proof.
  intros Hi Hc. unfold transaction, Slot, counter in *. rewrite (proj2 (Z.leb_gt interval 0)) by lia. simpl.
  destruct (budgets tb !! scope) as [b|] eqn:E; simpl in *.
  - rewrite lookup_alter_eq, E. simpl. rewrite (Z.rem_mod_nonneg (rb_Counter b + 1)) by lia. rewrite rem_mod_twice by done.
    eexists. split; [reflexivity|]. simpl. rewrite lookup_alter_eq, E. simpl. by rewrite Z.rem_mod_nonneg by lia.
  - rewrite alter_insert_eq, lookup_insert_eq. simpl. rewrite (Z.rem_mod_nonneg 1) by lia. rewrite rem_mod_twice by done.
    eexists. split; [reflexivity|]. simpl. rewrite lookup_insert_eq. done.
Qed.

(** The tables after [n] consuming calls. *)
Definition slots (scope : string) (interval : Z) (n : nat) (tb : Tables) : Tables :=
  Nat.iter n (fun tb => (transaction (Slot scope interval true) tb).2) tb.

Lemma slots_counter scope interval n tb :
  0 < interval -> budgets tb !! scope = None -> counter (slots scope interval n tb) scope = Z.of_nat n mod interval.
Proof.
  intros Hi H. induction n as [|n IH].
  - unfold slots, counter. simpl. by rewrite H, Z.mod_0_l by lia.
  - change (slots scope interval (S n) tb) with (transaction (Slot scope interval true) (slots scope interval n tb)).2.
    destruct (transaction_Slot (slots scope interval n tb) scope interval Hi) as (tb' & E & C);
      [rewrite IH; by apply Z.mod_pos_bound|].
    rewrite E. simpl. rewrite C, IH, Zplus_mod_idemp_l. f_equal. lia.
Qed.

(** When the next recovery validation of a scope is allowed. *)
Definition recovery_after (tb : Tables) (scope : string) : option time :=
  budgets tb !! ("recovery:" +:+ scope) ≫= rb_RecoveryAfter.

Lemma recovery_slot_result settings scope mutate now tb :
  exists tb', transaction (RecoverySlot settings scope mutate now) tb
              = (Ok (negb (after_opt (recovery_after tb scope) now)), tb')
  /\ (mutate = false -> tb' = tb)
  /\ (mutate = true -> recovery_after tb' scope =
        if after_opt (recovery_after tb scope) now then recovery_after tb scope else Some (now + recoverySpacing settings)).
Proof.
  unfold transaction, RecoverySlot, recovery_after. set (k := "recovery:" +:+ scope).
  destruct mutate; simpl.
  - rewrite alter_id by done. destruct (budgets tb !! k) as [b|] eqn:E; simpl; rewrite ?E, ?lookup_insert_eq; simpl.
    + destruct (after_opt (rb_RecoveryAfter b) now) eqn:A; simpl; eexists; (split; [reflexivity|]); (split; [done|]);
        intros _; simpl; rewrite ?alter_id, ?lookup_alter_eq, ?E by done; done.
    + eexists. split; [reflexivity|]. split; [done|]. intros _. simpl.
      by rewrite alter_insert_eq, lookup_insert_eq.
  - destruct (budgets tb !! k) as [b|] eqn:E; simpl.
    + destruct (negb _ && false) eqn:B; [by rewrite andb_false_r in B|]. eexists. done.
    + eexists. done.
Qed.

Lemma recoverySpacing_range settings : 6 * Second <= recoverySpacing settings <= 60 * Second.
Proof.
  unfold recoverySpacing. pose proof (wf_budget _ (Normalize_settings_wf settings)) as H.
  set (b := RecoveryBudgetPerMin _) in *. rewrite (proj2 (Z.ltb_ge b 1)) by lia.
  rewrite Z.quot_div_nonneg by lia. assert (6 <= 60 / b) by (apply Z.div_le_lower_bound; lia).
  assert (60 / b <= 60) by (apply Z.div_le_upper_bound; lia). assert (0 < Second) by done. nia.
Qed.

(** ** The properties *)

(** A normal admission succeeds exactly when both gates (the key's and the
    dimension's) are closed; it then returns their generations and changes no
    stored row.  Otherwise it fails with ErrUnavailable and the tables are as
    before. *)
Theorem admit_normal d tok now tb :
  tables_wf tb ->
  match transaction (AdmitRequest d false tok now) tb with
  | (Ok a, tb') => (forall s, s ∈ gates d -> rc_Open (gate tb d s) = false)
                   /\ ad_Token a = tok
                   /\ (forall s, s ∈ gates d -> ad_Generations a !! s = Some (rc_Generation (gate tb d s)))
                   /\ (forall s r, circuits tb !! s = Some r -> circuits tb' !! s = Some r)
  | (Err e, tb') => e = ErrUnavailable /\ tb' = tb /\ exists s, s ∈ gates d /\ rc_Open (gate tb d s) = true
  end.
Proof.
  intros W. destruct (transaction (AdmitRequest d false tok now) tb) as [[a|e] tb'] eqn:H.
  - destruct (admit_result _ _ _ _ _ _ _ W H) as (A & -> & T & G).
    assert (C : forall s, s ∈ gates d -> rc_Open (gate tb d s) = false).
    { unfold admit_ok, enter_ok in A. simpl in A. rewrite !orb_false_r in A. bools.
      by intros s [->| ->]%gates_cases. }
    split_and!; try done. intros s r Hs. rewrite admit_tables_lookup by done. case_decide as D; [|done].
    unfold entered. rewrite C by (destruct D as [->| ->]; [left|right; left]). unfold gate. by rewrite Hs.
  - rewrite transaction_AdmitRequest in H by done. destruct (admit_ok tb d false now) eqn:A; [done|].
    injection H as <- <-. split_and!; try done. unfold admit_ok, enter_ok in A. simpl in A. rewrite !orb_false_r in A.
    apply andb_false_iff in A as [A|A]; apply negb_false_iff in A; eexists; (split; [|exact A]); [left|right; left].
Qed.

Lemma admit_normal_witness :
  match transaction (AdmitRequest demo_dim false "tok-c" 0) no_tables with
  | (Ok a, tb') => (forall s, s ∈ gates demo_dim -> rc_Open (gate no_tables demo_dim s) = false)
                   /\ ad_Token a = "tok-c"
                   /\ (forall s, s ∈ gates demo_dim -> ad_Generations a !! s = Some (rc_Generation (gate no_tables demo_dim s)))
                   /\ (forall s r, circuits no_tables !! s = Some r -> circuits tb' !! s = Some r)
  | (Err e, tb') => e = ErrUnavailable /\ tb' = no_tables /\ exists s, s ∈ gates demo_dim /\ rc_Open (gate no_tables demo_dim s) = true
  end.
Proof. apply admit_normal. apply (no_tables_inv 0). Defined.

(** Half-open exclusivity: after a recovery request is admitted through an
    open gate, every other admission through that gate (of the same key for the
    key gate, of the same dimension for the dimension gate, normal or recovery)
    fails with ErrUnavailable and changes nothing, during the 330 s of the lease
    and as long as only other tokens act. *)
Theorem recovery_admits_one t0 d tok now tb a tb' s l d' rec' tok' t :
  reachable any_op t0 tb -> t0 <= now -> tok <> "" -> transaction (AdmitRequest d true tok now) tb = (Ok a, tb') ->
  s ∈ gates d -> rc_Open (gate tb d s) = true ->
  clocked now l -> Forall (fun to : time * op => to.1 < now + 330 * Second /\ op_token to.2 <> tok) l ->
  s ∈ gates d' -> t < now + 330 * Second ->
  transaction (AdmitRequest d' rec' tok' t) (run_trace l tb') = (Err ErrUnavailable, run_trace l tb').
Proof.
  intros R Hn N H Hs O C F Hs' Ht. apply reachable_inv in R.
  destruct (admission_survives d true tok now tb a tb' s l) as [E W]; try done; [by eapply tables_inv_later|].
  eapply leased_refuses; [exact W|exact E|done|done|]. simpl. lia.
Qed.

Definition demo_admission : Admission :=
  mkAdmission "tok-a" (<[Scope demo_dim := rc_Generation (gate demo_open demo_dim (Scope demo_dim))]>
    {[KeyScope 7 := rc_Generation (gate demo_open demo_dim (KeyScope 7))]}).

Lemma demo_open_reach : reachable any_op (1000 * Second) demo_open.
Proof. by apply demo_open_reachable. Qed.

Lemma demo_open_row : rc_Open (gate demo_open demo_dim (Scope demo_dim)) = true.
Proof. vm_compute. reflexivity. Qed.

Lemma demo_admit :
  transaction (AdmitRequest demo_dim true "tok-a" (2000 * Second)) demo_open = (Ok demo_admission, demo_leased).
Proof.
  unfold demo_leased, demo_admission. cbn [exec_op]. rewrite transaction_AdmitRequest by apply (reachable_inv _ _ _ demo_open_reach).
  assert (A : admit_ok demo_open demo_dim true (2000 * Second) = true) by (vm_compute; reflexivity). rewrite A. reflexivity.
Qed.

Lemma demo_gate : Scope demo_dim ∈ gates demo_dim.
Proof. right. left. Qed.

Lemma recovery_admits_one_witness :
  transaction (AdmitRequest demo_dim true "tok-b" (2100 * Second)) demo_leased = (Err ErrUnavailable, demo_leased).
Proof.
  apply (recovery_admits_one (1000 * Second) demo_dim "tok-a" (2000 * Second) demo_open demo_admission demo_leased
           (Scope demo_dim) []).
  - exact demo_open_reach.
  - vm_compute; discriminate.
  - done.
  - exact demo_admit.
  - exact demo_gate.
  - exact demo_open_row.
  - exact I.
  - constructor.
  - exact demo_gate.
  - reflexivity.
Defined.

(** C20: A recovery closes the circuit: when the recovery request succeeds within
    its lease, whatever other tokens did in between, each gate it entered through
    is closed again with no failures, no backoff, no lease, and a new
    generation. *)
Theorem recovery_success_closes t0 st d tok o a now t tb tb' s l :
  reachable any_op t0 tb -> t0 <= now -> tok <> "" -> transaction (AdmitRequest d true tok now) tb = (Ok a, tb') ->
  s ∈ gates d -> rc_Open (gate tb d s) = true ->
  clocked now l -> Forall (fun to : time * op => to.1 < now + 330 * Second /\ op_token to.2 <> tok) l ->
  t < now + 330 * Second -> recorded (run_trace l tb') d o = false ->
  oc_Admission o = Some a -> oc_Success o = true -> oc_Neutral o = false ->
  exists r, circuits (transaction (Observe st d tok o t) (run_trace l tb')).2 !! s = Some r
            /\ closed_fresh r /\ rc_Generation r = wrap_u64 (rc_Generation (gate tb d s) + 1).
Proof.
  intros R Hn N H Hs O C F Ht Rec Ao Su Ne. apply reachable_inv in R.
  destruct (observe_leased st d tok o a now t tb tb' s l) as [E Ow]; try done; [by eapply tables_inv_later|].
  destruct (owner_success_closes (Normalize st) d tok o t (bool_decide (s = KeyScope (dm_KeyID d)))
              (with_lease (gate tb d s) tok now)) as [Cl G]; [done..|]. eauto.
Qed.

Definition demo_ok : Outcome := mkOutcome (Some demo_admission) "r9" 0 true false false false false 0 "".

Lemma recovery_success_closes_witness :
  exists r, circuits (transaction (Observe DefaultSchedulerSettings demo_dim "tok-a" demo_ok (2050 * Second)) demo_leased).2
              !! Scope demo_dim = Some r
            /\ closed_fresh r
            /\ rc_Generation r = wrap_u64 (rc_Generation (gate demo_open demo_dim (Scope demo_dim)) + 1).
Proof.
  apply (recovery_success_closes (1000 * Second) DefaultSchedulerSettings demo_dim "tok-a" demo_ok demo_admission
           (2000 * Second) (2050 * Second) demo_open demo_leased (Scope demo_dim) []);
    [exact demo_open_reach|vm_compute; discriminate|done|exact demo_admit|exact demo_gate|exact demo_open_row
    |exact I|constructor|reflexivity|vm_compute; reflexivity|reflexivity..].
Defined.

(** A failed recovery reopens the gate: it stays open, loses its lease, gets
    a new generation, and its next cooldown is the one of [open] for the previous
    backoff (or the upstream's Retry-After). *)
Theorem recovery_failure_reopens t0 st d tok o a now t tb tb' s l :
  reachable any_op t0 tb -> t0 <= now -> tok <> "" -> transaction (AdmitRequest d true tok now) tb = (Ok a, tb') ->
  s ∈ gates d -> rc_Open (gate tb d s) = true ->
  clocked now l -> Forall (fun to : time * op => to.1 < now + 330 * Second /\ op_token to.2 <> tok) l ->
  t < now + 330 * Second -> recorded (run_trace l tb') d o = false ->
  oc_Admission o = Some a -> oc_Success o = false -> oc_Neutral o = false ->
  let cfg := Normalize st in
  let seconds := open_seconds (gate tb d s) (oc_RetryAfter o) cfg in
  exists r, circuits (transaction (Observe st d tok o t) (run_trace l tb')).2 !! s = Some r
            /\ rc_Open r = true /\ rc_Lease r = "" /\ rc_Until r = t + wrap_i64 (seconds * Second)
            /\ rc_BackoffSec r = Z.min seconds (CircuitMaxCooldownSec cfg)
            /\ rc_Generation r = wrap_u64 (rc_Generation (gate tb d s) + 1).
Proof.
  intros R Hn N H Hs O C F Ht Rec Ao Su Ne cfg seconds. apply reachable_inv in R.
  destruct (observe_leased st d tok o a now t tb tb' s l) as [E Ow]; try done; [by eapply tables_inv_later|].
  pose proof (owner_failure_reopens (Normalize st) d tok o t (bool_decide (s = KeyScope (dm_KeyID d)))
                (with_lease (gate tb d s) tok now) Ne Su Ow O) as P. eauto.
Qed.

Definition demo_ko : Outcome := mkOutcome (Some demo_admission) "r9" 0 false false false false false 0 "upstream_5xx".

Lemma recovery_failure_reopens_witness :
  exists r, circuits (transaction (Observe DefaultSchedulerSettings demo_dim "tok-a" demo_ko (2050 * Second)) demo_leased).2
              !! Scope demo_dim = Some r
            /\ rc_Open r = true /\ rc_Lease r = ""
            /\ rc_Until r = 2050 * Second
                 + wrap_i64 (open_seconds (gate demo_open demo_dim (Scope demo_dim)) 0 (Normalize DefaultSchedulerSettings) * Second)
            /\ rc_BackoffSec r = Z.min (open_seconds (gate demo_open demo_dim (Scope demo_dim)) 0 (Normalize DefaultSchedulerSettings))
                                   (CircuitMaxCooldownSec (Normalize DefaultSchedulerSettings))
            /\ rc_Generation r = wrap_u64 (rc_Generation (gate demo_open demo_dim (Scope demo_dim)) + 1).
Proof.
  apply (recovery_failure_reopens (1000 * Second) DefaultSchedulerSettings demo_dim "tok-a" demo_ko demo_admission
           (2000 * Second) (2050 * Second) demo_open demo_leased (Scope demo_dim) []);
    [exact demo_open_reach|vm_compute; discriminate|done|exact demo_admit|exact demo_gate|exact demo_open_row
    |exact I|constructor|reflexivity|vm_compute; reflexivity|reflexivity..].
Defined.

(** The first output of a recovery request releases its gates, and the
    request keeps counting: ReleaseOnOutput closes each gate the request still
    owns, and hands back an admission under which the request's final outcome is
    not skipped on that gate, so that a stream that fails later is recorded. *)
Theorem release_keeps_counting t0 d tok now tb a tb' s l t o :
  reachable any_op t0 tb -> t0 <= now -> tok <> "" -> transaction (AdmitRequest d true tok now) tb = (Ok a, tb') ->
  s ∈ gates d -> rc_Open (gate tb d s) = true ->
  clocked now l -> Forall (fun to : time * op => to.1 < now + 330 * Second /\ op_token to.2 <> tok) l ->
  t < now + 330 * Second ->
  exists a' tb2 r, transaction (ReleaseOnOutput d (Some a) t) (run_trace l tb') = (Ok (Some a', true), tb2)
    /\ circuits tb2 !! s = Some r /\ rc_Open r = false /\ rc_Generation r = wrap_u64 (rc_Generation (gate tb d s) + 1)
    /\ (oc_Admission o = Some a' -> forall t', observe_skips tok o t' r = false).
Proof.
  intros R Hn N H Hs O C F Ht. apply reachable_inv in R. assert (Inv : tables_inv now tb) by by eapply tables_inv_later.
  destruct (admission_survives d true tok now tb a tb' s l) as [E W]; try done.
  destruct (admit_result _ _ _ _ _ _ _ (ti_wf _ _ Inv) H) as (_ & _ & Tk & Gs). subst tok.
  destruct (transaction_Release d a t (run_trace l tb') W N) as (a' & ok & tb2 & Et & _ & L).
  destruct (L s Hs) as (L1 & L2 & _). set (r0 := with_lease (gate tb d s) (ad_Token a) now) in *.
  assert (G : gate (run_trace l tb') d s = r0) by (unfold gate; by rewrite E).
  rewrite G in L1, L2. assert (Ok1 : release_ok a t s r0 = true).
  { unfold release_ok. rewrite bool_decide_true by (by apply Gs). simpl. rewrite O, String.eqb_refl. simpl. by apply After_spec. }
  destruct (L2 Ok1) as [-> Ga]. unfold released in L1, Ga. rewrite Ok1 in L1, Ga.
  exists a', tb2, (closeCircuit r0 t). split_and!; try done. intros Ao t'. unfold observe_skips. rewrite Ao.
  assert (Sc : rc_Scope (closeCircuit r0 t) = s) by (simpl; apply gate_wf, Inv). rewrite Sc, bool_decide_true by done. done.
Qed.

Lemma release_keeps_counting_witness :
  exists a' tb2 r, transaction (ReleaseOnOutput demo_dim (Some demo_admission) (2050 * Second)) demo_leased = (Ok (Some a', true), tb2)
    /\ circuits tb2 !! Scope demo_dim = Some r /\ rc_Open r = false
    /\ rc_Generation r = wrap_u64 (rc_Generation (gate demo_open demo_dim (Scope demo_dim)) + 1)
    /\ (oc_Admission demo_ko = Some a' -> forall t', observe_skips "tok-a" demo_ko t' r = false).
Proof.
  apply (release_keeps_counting (1000 * Second) demo_dim "tok-a" (2000 * Second) demo_open demo_admission demo_leased
           (Scope demo_dim) [] (2050 * Second) demo_ko);
    [exact demo_open_reach|vm_compute; discriminate|done|exact demo_admit|exact demo_gate|exact demo_open_row
    |exact I|constructor|reflexivity].
Defined.

(** A request is counted once per dimension: after Observe has recorded a
    request id, a second Observe with that id, whatever its outcome, token and
    time, leaves all three tables exactly as they were. *)
Theorem observe_once st d tok o now st2 tok2 o2 now2 tb :
  tables_wf tb -> oc_RequestID o <> "" -> oc_RequestID o2 = oc_RequestID o ->
  let tb1 := (transaction (Observe st d tok o now) tb).2 in
  transaction (Observe st2 d tok2 o2 now2) tb1 = (Ok tt, tb1).
Proof.
  intros W N E tb1. assert (W1 : tables_wf tb1) by exact (op_wf now (OpObserve st d tok o) tb W).
  rewrite transaction_Observe by done. assert (Rec : (Scope d, oc_RequestID o) ∈ observations tb1
    /\ is_Some (circuits tb1 !! KeyScope (dm_KeyID d)) /\ is_Some (circuits tb1 !! Scope d)).
  { unfold tb1. destruct (recorded tb d o) eqn:R.
    - rewrite transaction_Observe, R by done. simpl. unfold recorded in R. bools. apply bool_decide_eq_true in H0.
      unfold lock_both at 1. rewrite !locked_observations. split; [done|].
      rewrite !lock_both_lookup, !decide_True by auto. eauto.
    - split; [|rewrite !Observe_lookup by done; split; repeat case_decide; try done; eauto].
      rewrite transaction_Observe, R by done. cbn [snd]. unfold save_observed.
      assert (Or : (Scope d, oc_RequestID o) ∈ observations (record_observation d o (lock_both tb d))).
      { unfold record_observation. apply String.eqb_neq in N. rewrite N. simpl. set_solver. }
      by destruct (observe_skips tok o now (gate tb d (Scope d))), (observe_skips tok o now (gate tb d (KeyScope (dm_KeyID d)))). }
  destruct Rec as (Rec & [rk Hk] & [rs Hs]).
  assert (R2 : recorded tb1 d o2 = true).
  { unfold recorded. rewrite E. apply String.eqb_neq in N. rewrite N. simpl. by apply bool_decide_eq_true. }
  rewrite R2. unfold lock_both, locked. by rewrite Hk, Hs.
Qed.

Lemma observe_once_witness :
  transaction (Observe DefaultSchedulerSettings demo_dim "" (demo_failure "r1") (1001 * Second)) demo_open = (Ok tt, demo_open).
Proof.
  apply (observe_once DefaultSchedulerSettings demo_dim "" (demo_failure "r1") (1000 * Second)
           DefaultSchedulerSettings "" (demo_failure "r1") (1001 * Second) no_tables);
    [apply (no_tables_inv 0)|done|reflexivity].
Defined.

(** Cooldowns double and saturate: a closed gate opened [n+1] times in a row
    without Retry-After cools down for CircuitCooldownSec, then twice that, and so
    on, jumping to CircuitMaxCooldownSec as soon as the doubled value exceeds half
    of it; the cooldown always lies between the two settings. *)
Theorem reopen_backoff st now reason r n :
  rc_Open r = false ->
  let cfg := Normalize st in
  let r' := opened cfg now reason (S n) r in
  rc_Open r' = true /\ rc_BackoffSec r' = backoff_at cfg n /\ rc_Until r' = now + backoff_at cfg n * Second
  /\ CircuitCooldownSec cfg <= backoff_at cfg n <= CircuitMaxCooldownSec cfg.
Proof.
  intros O cfg r'. pose proof (Normalize_settings_wf st) as W.
  destruct (opened_backoff cfg now reason r n W O) as (H1 & H2 & H3).
  split_and!; try done; by apply backoff_at_range.
Qed.

Lemma reopen_backoff_witness :
  let cfg := Normalize DefaultSchedulerSettings in
  let r' := opened cfg 0 "upstream_5xx" 4 (fresh_circuit demo_dim "s") in
  rc_Open r' = true /\ rc_BackoffSec r' = backoff_at cfg 3 /\ rc_Until r' = 0 + backoff_at cfg 3 * Second
  /\ CircuitCooldownSec cfg <= backoff_at cfg 3 <= CircuitMaxCooldownSec cfg.
Proof. apply (reopen_backoff DefaultSchedulerSettings 0 "upstream_5xx" (fresh_circuit demo_dim "s") 3). reflexivity. Defined.

(** The breaker of a new gate trips exactly at its threshold: with failures only, each two
    of them less than a window apart and none a first-token timeout, a fresh gate
    is closed after fewer than min(CircuitFailureThreshold, 8) failures and open
    after exactly that many, for every rate factor between 0 and 1. *)
Theorem failures_only_trip st d reason ts t :
  let cfg := Normalize st in
  fbetween f0 (CircuitRateFactor cfg) f1 -> reason <> FailureFirstTokenTimeout ->
  within_window cfg (ts ++ [t]) -> Forall (fun t => 0 < UnixMilli t) (ts ++ [t]) ->
  Z.of_nat (length (ts ++ [t])) = Z.min (CircuitFailureThreshold cfg) 8 ->
  rc_Open (fail_at cfg d reason (fresh_circuit d (Scope d)) (ts ++ [t])) = true /\
  forall k, (k <= length ts)%nat ->
    rc_Open (fail_at cfg d reason (fresh_circuit d (Scope d)) (take k ts)) = false
    /\ rc_Failures (fail_at cfg d reason (fresh_circuit d (Scope d)) (take k ts)) = Z.of_nat k.
Proof.
  intros cfg Hf Hr Ww P L. pose proof (Normalize_settings_wf st) as W. fold cfg in W. clearbody cfg.
  apply Forall_app in P as [P Pt]. inversion Pt as [|? ? Pt' _]; subst. rewrite length_app in L. simpl in L.
  assert (Sub : forall k, within_window cfg (take k ts)).
  { intros k u v Hu%elem_of_take Hv%elem_of_take. destruct Hu as (i & Hu & _), Hv as (j & Hv & _).
    apply Ww; apply elem_of_app; left; by eapply list_elem_of_lookup_2. }
  assert (Cl : forall k, (k <= length ts)%nat -> fail_at cfg d reason (fresh_circuit d (Scope d)) (take k ts) = failing d (take k ts)).
  { intros k Hk. apply fail_at_closed; try done; [by apply Forall_take|]. rewrite length_take. lia. }
  split.
  - unfold fail_at. rewrite fold_left_app. simpl.
    change (fold_left _ ts _) with (fail_at cfg d reason (fresh_circuit d (Scope d)) ts).
    pose proof (Cl (length ts) ltac:(lia)) as E. rewrite take_ge in E by lia. rewrite E, fail_step; try done; [|lia].
    rewrite length_app. simpl. rewrite (proj2 (Z.leb_le _ _)) by lia. done.
  - intros k Hk. rewrite Cl by done. split; [done|]. simpl. rewrite length_take. lia.
Qed.

Lemma failures_only_trip_witness :
  let cfg := Normalize DefaultSchedulerSettings in
  let ts := [1000 * Second; 1001 * Second] in
  rc_Open (fail_at cfg demo_dim "upstream_5xx" (fresh_circuit demo_dim (Scope demo_dim)) (ts ++ [1002 * Second])) = true /\
  forall k, (k <= length ts)%nat ->
    rc_Open (fail_at cfg demo_dim "upstream_5xx" (fresh_circuit demo_dim (Scope demo_dim)) (take k ts)) = false
    /\ rc_Failures (fail_at cfg demo_dim "upstream_5xx" (fresh_circuit demo_dim (Scope demo_dim)) (take k ts)) = Z.of_nat k.
Proof.
  apply (failures_only_trip DefaultSchedulerSettings demo_dim "upstream_5xx" [1000 * Second; 1001 * Second] (1002 * Second)).
  - split; vm_compute; reflexivity.
  - done.
  - intros u v Hu Hv. simpl in Hu, Hv.
    repeat (apply elem_of_cons in Hu as [->|Hu]; [repeat (apply elem_of_cons in Hv as [->|Hv]; [vm_compute; reflexivity|]); by apply elem_of_nil in Hv|]).
    by apply elem_of_nil in Hu.
  - repeat constructor.
  - vm_compute. reflexivity.
Defined.

(** The dynamic threshold agrees with its documented formula
    max(base, min(8, ceil(attempts * factor))) exactly when the configured base
    is at most 8; a larger base is cut down to 8 once the rate factor is on. *)
Theorem threshold_documented r cfg :
  fgt (CircuitRateFactor cfg) f0 = true -> rc_AttemptTimes r <> [] ->
  let dynamic := f_to_int (fceil (fmul (f_of_Z (Z.of_nat (length (rc_AttemptTimes r)))) (CircuitRateFactor cfg))) in
  circuitThreshold r cfg = Z.max (CircuitFailureThreshold cfg) (Z.min 8 dynamic)
  <-> CircuitFailureThreshold cfg <= 8.
Proof.
  intros Hf Ha dynamic. unfold circuitThreshold. rewrite Hf. fold dynamic.
  assert (N : (0 <? Z.of_nat (length (rc_AttemptTimes r))) = true).
  { apply Z.ltb_lt. destruct (rc_AttemptTimes r); [done|simpl; lia]. }
  rewrite N. cbn [andb]. clearbody dynamic. unfold circuitMaxFailureThreshold. repeat case_match; lia.
Qed.

(** A row with one tracked attempt. *)
Definition demo_attempt : RoutingCircuit := set_times (fresh_circuit demo_dim "s") [5] [] 0.

Lemma threshold_documented_witness :
  circuitThreshold demo_attempt DefaultSchedulerSettings =
  Z.max (CircuitFailureThreshold DefaultSchedulerSettings)
    (Z.min 8 (f_to_int (fceil (fmul (f_of_Z 1) (CircuitRateFactor DefaultSchedulerSettings)))))
  <-> CircuitFailureThreshold DefaultSchedulerSettings <= 8.
Proof. apply (threshold_documented demo_attempt DefaultSchedulerSettings); [vm_compute; reflexivity|simpl; congruence]. Defined.

(** A check result that arrives when the 45 s check lease is over is
    dropped, whatever it is; and the time a check may take by default, 60 s, is
    longer than that lease. *)
Theorem late_check_dropped c s d e tok now tb tb1 ok neu msg ra t :
  tables_wf tb -> transaction (ClaimCheck c s d e tok now) tb = (Ok tok, tb1) -> now + CheckLeaseDuration <= t ->
  transaction (FinishCheck s tok ok neu msg ra t) tb1 = (Ok tt, tb1)
  /\ CheckLeaseDuration < RecoveryCheckTimeoutSec (Normalize DefaultSchedulerSettings) * Second.
Proof.
  intros W H Ht. split; [|vm_compute; reflexivity]. unfold transaction in H. rewrite run_ClaimCheck in H.
  destruct (_ <=? _); [done|]. destruct (key_gate_holds _ _ _ _); [done|]. destruct (0 <? _); [done|].
  destruct (circuits (claim_tables tb d) !! s) as [r|] eqn:Er; [|done]. destruct (claim_rejects e now r); [done|].
  injection H as <-. unfold transaction, FinishCheck. rewrite run_mbind, run_first_circuit.
  rewrite (claim_lookup tb d s) by done. rewrite decide_True by done.
  destruct (_ || _ || _); [done|]. unfold check_active. cbn [rc_CheckUntil with_check after_opt].
  assert (A : After (now + CheckLeaseDuration) t = false) by (apply After_false; lia). by rewrite A.
Qed.

Definition demo_checked : Tables :=
  (transaction (ClaimCheck 8 (Scope demo_dim) demo_dim None "chk" (2000 * Second)) demo_open).2.

Lemma late_check_dropped_witness :
  transaction (FinishCheck (Scope demo_dim) "chk" true false "" 0 (2050 * Second)) demo_checked = (Ok tt, demo_checked)
  /\ CheckLeaseDuration < RecoveryCheckTimeoutSec (Normalize DefaultSchedulerSettings) * Second.
Proof.
  apply (late_check_dropped 8 (Scope demo_dim) demo_dim None "chk" (2000 * Second) demo_open demo_checked).
  - apply (reachable_inv _ _ _ demo_open_reach).
  - unfold demo_checked. rewrite (surjective_pairing (transaction _ _)). f_equal.
  - vm_compute. discriminate.
Defined.

(** The exploration budget grants exactly one slot in [interval]: starting
    with no budget row, the (n+1)-th consuming call is granted if and only if
    n+1 is a multiple of the interval. *)
Theorem slot_period scope interval n tb :
  0 < interval -> budgets tb !! scope = None ->
  (transaction (Slot scope interval true) (slots scope interval n tb)).1
  = Ok (bool_decide ((Z.of_nat n + 1) mod interval = 0)).
Proof.
  intros Hi H. pose proof (slots_counter scope interval n tb Hi H) as C.
  destruct (transaction_Slot (slots scope interval n tb) scope interval Hi) as (tb' & E & _).
  - rewrite C. by apply Z.mod_pos_bound.
  - rewrite E. simpl. rewrite C, Zplus_mod_idemp_l. f_equal. apply eq_true_iff_eq. rewrite bool_decide_eq_true. lia.
Qed.

Lemma slot_period_witness :
  (transaction (Slot "explore" 20 true) (slots "explore" 20 19 no_tables)).1 = Ok (bool_decide ((19 + 1) mod 20 = 0)).
Proof. apply (slot_period "explore" 20 19 no_tables); [lia|reflexivity]. Defined.

(** Recovery validations of a scope are spaced: after a granted slot at
    [now], calls before now + spacing are refused and the first call from then
    on is granted; the spacing is 60 s divided by RecoveryBudgetPerMin, between 6
    and 60 s, and is 20 s when the store was built without settings. *)
Theorem recovery_slots_spaced st scope now tb tb1 st2 mutate t :
  transaction (RecoverySlot st scope true now) tb = (Ok true, tb1) ->
  (transaction (RecoverySlot st2 scope mutate t) tb1).1 = Ok (bool_decide (now + recoverySpacing st <= t))
  /\ 6 * Second <= recoverySpacing st <= 60 * Second
  /\ recoverySpacing ZeroSettings = 20 * Second.
Proof.
  intros H. split; [|split; [apply recoverySpacing_range|vm_compute; reflexivity]].
  destruct (recovery_slot_result st scope true now tb) as (tb' & E & _ & A). rewrite E in H. injection H as Hn <-.
  apply negb_true_iff in Hn. rewrite Hn in A. specialize (A eq_refl).
  destruct (recovery_slot_result st2 scope mutate t tb') as (tb2 & E2 & _). rewrite E2. simpl. rewrite A. simpl.
  f_equal. apply eq_true_iff_eq. rewrite bool_decide_eq_true, negb_true_iff, After_false. done.
Qed.

Lemma recovery_slots_spaced_witness :
  (transaction (RecoverySlot ZeroSettings "key:7" true (19 * Second))
     (transaction (RecoverySlot ZeroSettings "key:7" true 0) no_tables).2).1
  = Ok (bool_decide (0 + recoverySpacing ZeroSettings <= 19 * Second))
  /\ 6 * Second <= recoverySpacing ZeroSettings <= 60 * Second
  /\ recoverySpacing ZeroSettings = 20 * Second.
Proof.
  apply (recovery_slots_spaced ZeroSettings "key:7" 0 no_tables).
  rewrite (surjective_pairing (transaction _ _)). f_equal.
Defined.
