(* ===== verification/Breaker.v ===== *)
(** * When a breaker trips (internal/routinghealth/store.go)

    The gate of a dimension keeps bounded lists of times that every observation trims to
    its own window.  This file recounts them from the whole history of observations and
    shows, on the transactions of [Observe], exactly which observation opens the gate. *)

From stdpp Require Import sorting.
From S2P Require Import Prelude GoFloat GoString Settings Domain Database Circuit CircuitProps CircuitSafety CircuitRecovery.

(** ** Trimmed lists of times *)

(** The stored list shows what the whole list has after any later cut, up to the cap. *)
Definition tracks (cap : nat) (cut0 : Z) (stored full : list Z) : Prop :=
  forall cut, cut0 <= cut -> filter (fun t => cut < t) stored = lastn cap (filter (fun t => cut < t) full).

(** On sorted times trimming by age and by number commute. *)
Lemma filter_lastn cut n l :
  StronglySorted Z.le l -> filter (fun t => cut < t) (lastn n l) = lastn n (filter (fun t => cut < t) l).
Proof.
  induction 1 as [|x l Sl IH F]; [done|]. destruct (decide (cut < x)) as [C|C].
  - assert (All : Forall (fun t => cut < t) (x :: l)).
    { constructor; [done|]. eapply List.Forall_impl; [|exact F]. simpl. lia. }
    rewrite (filter_true _ (x :: l)) by done. apply filter_true.
    destruct (lastn_suffix n (x :: l)) as [k E]. rewrite E in All. by apply Forall_app in All as [_ ?].
  - rewrite filter_cons_False by done. unfold lastn at 1. cbn [length].
    destruct (decide (length l < n)%nat) as [L|L].
    + replace (S (length l) - n)%nat with 0%nat by lia. rewrite drop_0, filter_cons_False by done.
      symmetry. apply lastn_all. pose proof (length_filter (fun t => cut < t) l). lia.
    + replace (S (length l) - n)%nat with (S (length l - n)) by lia. exact IH.
Qed.

Lemma ascending_filter cut l : StronglySorted Z.le l -> StronglySorted Z.le (filter (fun t => cut < t) l).
Proof.
  induction 1 as [|x l Sl IH F]; [constructor|]. rewrite filter_cons. case_decide; [|done]. constructor; [done|].
  apply List.Forall_forall. intros y [_ Hy]%list_elem_of_In%list_elem_of_filter. rewrite List.Forall_forall in F. by apply F, list_elem_of_In.
Qed.

Lemma lastn_app_lastn {A} n (l k : list A) : lastn n (lastn n l ++ k) = lastn n (l ++ k).
Proof.
  unfold lastn at 1 3. rewrite !length_app, lastn_length. unfold lastn.
  rewrite !drop_app, drop_drop, length_drop. f_equal; f_equal; lia.
Qed.

Lemma filter_twice (a b : Z) (l : list Z) : a <= b -> filter (fun t => b < t) (filter (fun t => a < t) l) = filter (fun t => b < t) l.
Proof. intros H. rewrite list_filter_filter. apply list_filter_iff. intros x. lia. Qed.

(** Adding times that are newer than the rest. *)
Lemma tracks_push cap cut0 cut stored full k t :
  tracks cap cut0 stored full -> cut0 <= cut -> cut < t -> StronglySorted Z.le (full ++ replicate k t) ->
  let stored' := lastn cap (filter (fun u => cut < u) stored ++ replicate k t) in
  tracks cap cut stored' (full ++ replicate k t)
  /\ length stored' = Nat.min cap (length (filter (fun u => cut < u) (full ++ replicate k t))).
Proof.
  intros T Hc Ht S stored'.
  assert (E : stored' = lastn cap (filter (fun u => cut < u) (full ++ replicate k t))).
  { unfold stored'. rewrite T, lastn_app_lastn, list.filter_app by done. f_equal. f_equal. symmetry. apply filter_true.
    apply Forall_replicate. done. }
  rewrite E. split; [|apply lastn_length]. intros c2 H2. rewrite filter_lastn, filter_twice by (done || by apply ascending_filter).
  done.
Qed.

(** ** Observations and their recount *)

(** One call of [Observe]. *)
Record call : Type := mkCall { ca_token : string; ca_outcome : Outcome; ca_at : time }.

Definition observe_one (st : SchedulerSettings) (d : Dimension) (tb : Tables) (c : call) : Tables :=
  (transaction (Observe st d (ca_token c) (ca_outcome c) (ca_at c)) tb).2.
Definition observe_all (st : SchedulerSettings) (d : Dimension) (l : list call) (tb : Tables) : Tables :=
  fold_left (observe_one st d) l tb.

(** What the dimension's gate makes of a call: an authentication failure concerns the key
    gate only. *)
Definition succeeds (c : call) : bool := negb (oc_Neutral (ca_outcome c)) && oc_Success (ca_outcome c).
Definition fails (c : call) : bool :=
  negb (oc_Neutral (ca_outcome c)) && negb (oc_Success (ca_outcome c)) && negb (oc_AuthFailure (ca_outcome c)).

(** The times of all attempts, and of the failures since the last success, a first-token
    timeout counting FTTFailureWeight times. *)
Definition attempts (l : list call) : list Z :=
  map (fun c => UnixMilli (ca_at c)) (List.filter (fun c => succeeds c || fails c) l).
Definition failures_step (cfg : SchedulerSettings) (acc : list Z) (c : call) : list Z :=
  if succeeds c then [] else
  if fails c then acc ++ replicate (failure_weight cfg (oc_Reason (ca_outcome c))) (UnixMilli (ca_at c)) else acc.
Definition failures (cfg : SchedulerSettings) (l : list call) : list Z := fold_left (failures_step cfg) l [].

Definition recent (cfg : SchedulerSettings) (now : time) (cap : nat) (l : list Z) : Z :=
  Z.of_nat (Nat.min cap (length (filter (fun t => window_cut cfg now < t) l))).

(** The documented threshold for [n] attempts in the window. *)
Definition threshold_for (cfg : SchedulerSettings) (n : Z) : Z :=
  if fgt (CircuitRateFactor cfg) f0
  then Z.min 8 (Z.max (CircuitFailureThreshold cfg) (f_to_int (fceil (fmul (f_of_Z n) (CircuitRateFactor cfg)))))
  else CircuitFailureThreshold cfg.

(** The call [c], after [l], opens a closed gate: a failure that is a rate limit or an
    immediate one, that reaches the threshold, or that is one of at least 40% failures
    among eight attempts or more. *)
Definition trips (cfg : SchedulerSettings) (l : list call) (c : call) : bool :=
  let n := recent cfg (ca_at c) 120 (attempts (l ++ [c])) in
  let f := recent cfg (ca_at c) 64 (failures cfg (l ++ [c])) in
  fails c && (oc_Limited (ca_outcome c) || oc_Immediate (ca_outcome c) || (threshold_for cfg n <=? f)
              || ((8 <=? n) && (4 * n <=? 10 * f))).

(** Admitted under generation [g] of the dimension's gate, or started since [since]. *)
Definition current (d : Dimension) (g : Z) (since : time) (c : call) : Prop :=
  match oc_Admission (ca_outcome c) with
  | Some a => ad_Generations a !! Scope d = Some g
  | None => since <= oc_StartedAt (ca_outcome c)
  end.

Fixpoint in_order (t : time) (l : list call) : Prop :=
  match l with [] => True | c :: l => t <= ca_at c /\ in_order (ca_at c) l end.

(** ** The row keeps the recount *)

Lemma attempts_snoc l c : attempts (l ++ [c]) = attempts l ++ (if succeeds c || fails c then [UnixMilli (ca_at c)] else []).
Proof. unfold attempts. rewrite List.filter_app, map_app. simpl. by destruct (_ || _). Qed.

Lemma failures_snoc cfg l c : failures cfg (l ++ [c]) = failures_step cfg (failures cfg l) c.
Proof. unfold failures. by rewrite fold_left_app. Qed.

Lemma sorted_snoc l k t : StronglySorted Z.le l -> Forall (fun u => u <= t) l -> StronglySorted Z.le (l ++ replicate k t).
Proof.
  induction 1 as [|x l Sl IH F]; intros B; simpl.
  - induction k; simpl; constructor; [done|]. apply Forall_replicate. lia.
  - inversion B; subst. constructor; [by apply IH|]. apply Forall_app. split; [done|]. by apply Forall_replicate.
Qed.

Record recounted (cfg : SchedulerSettings) (g : Z) (since : time) (l : list call) (t : time) (r : RoutingCircuit) : Prop := {
  re_open : rc_Open r = false;
  re_lease : rc_Lease r = "";
  re_gen : rc_Generation r = g;
  re_since : rc_OpenedAt r = since;
  re_attempts : tracks 120 (window_cut cfg t) (rc_AttemptTimes r) (attempts l);
  re_failures : tracks 64 (window_cut cfg t) (rc_FailureTimes r) (failures cfg l);
  re_sorted : StronglySorted Z.le (attempts l) /\ Forall (fun u => u <= UnixMilli t) (attempts l);
  re_fsorted : StronglySorted Z.le (failures cfg l) /\ Forall (fun u => u <= UnixMilli t) (failures cfg l)
}.

Lemma window_cut_mono cfg t u : t <= u -> window_cut cfg t <= window_cut cfg u.
Proof. intros H. apply UnixMilli_mono. lia. Qed.

Lemma window_cut_lt cfg t : settings_wf cfg -> window_cut cfg t < UnixMilli t.
Proof.
  intros W. pose proof (wf_window _ W). unfold window_cut, UnixMilli.
  assert (t / Millisecond - 1000 = (t - 1000 * Millisecond) / Millisecond) as E.
  { replace (t - 1000 * Millisecond) with (t + -1000 * Millisecond) by lia. rewrite Z.div_add by done. lia. }
  assert ((t - CircuitWindowSec cfg * Second) / Millisecond <= (t - 1000 * Millisecond) / Millisecond).
  { apply Z.div_le_mono; [done|]. unfold Second, Millisecond in *. lia. }
  lia.
Qed.

Lemma tracks_later cap a b s l : tracks cap a s l -> a <= b -> tracks cap b s l.
Proof. intros T H cut Hc. apply T. lia. Qed.

Lemma bound_later (l : list Z) a b : Forall (fun u => u <= a) l -> a <= b -> Forall (fun u => u <= b) l.
Proof. intros F H. eapply List.Forall_impl; [|exact F]. simpl. lia. Qed.

(** 0.4 in the program's arithmetic is exact for the numbers it is used on. *)
Lemma forty_percent n f :
  0 <= n <= 120 -> 0 <= f <= 64 -> fge (f_of_Z f) (fmul (f_of_Z n) (f_dec 4 1)) = (4 * n <=? 10 * f).
Proof.
  intros Hn Hf.
  assert (All : forallb (fun n => let x := fmul (f_of_Z (Z.of_nat n)) (f_dec 4 1) in
      forallb (fun f => Bool.eqb (fge (f_of_Z (Z.of_nat f)) x) (4 * Z.of_nat n <=? 10 * Z.of_nat f)) (seq 0 65)) (seq 0 121) = true)
    by (vm_compute; reflexivity).
  rewrite forallb_forall in All. specialize (All (Z.to_nat n)). cbv zeta in All. rewrite forallb_forall in All.
  apply Bool.eqb_prop. rewrite <- (All ltac:(apply in_seq; lia) (Z.to_nat f)); [|apply in_seq; lia]. by rewrite !Z2Nat.id by lia.
Qed.

(** ** One observation *)

Lemma threshold_agrees cfg r :
  rc_AttemptTimes r <> [] -> circuitThreshold r cfg = threshold_for cfg (Z.of_nat (length (rc_AttemptTimes r))).
Proof.
  intros N. unfold circuitThreshold, threshold_for. assert (L : (0 <? Z.of_nat (length (rc_AttemptTimes r))) = true).
  { apply Z.ltb_lt. destruct (rc_AttemptTimes r); [done|simpl; lia]. }
  rewrite L. destruct (fgt _ _); [|done]. cbn [andb]. set (k := f_to_int _). clearbody k. unfold circuitMaxFailureThreshold.
  repeat case_match; lia.
Qed.

Lemma not_owned tok now r : rc_Lease r = "" -> owned tok now r = false.
Proof. intros E. unfold owned. by rewrite E. Qed.

(** A closed gate does not skip a current call. *)
Lemma current_counts cfg d g since l t r c :
  rc_Scope r = Scope d -> recounted cfg g since l t r -> current d g since c ->
  observe_skips (ca_token c) (ca_outcome c) (ca_at c) r = false.
Proof.
  intros Hs R C. destruct R as [O L G S _ _ _ _]. unfold observe_skips, current in *. rewrite O, (not_owned _ _ _ L). cbn [negb andb].
  destruct (oc_Admission (ca_outcome c)); [rewrite Hs, G, bool_decide_true by done; done|].
  unfold Before. rewrite S. rewrite !orb_false_r. lia.
Qed.

(** What a failure leaves in the row. *)
Lemma count_failure_recount cfg g since l t r c :
  settings_wf cfg -> recounted cfg g since l t r -> t <= ca_at c -> 0 < UnixMilli (ca_at c) -> fails c = true ->
  let r' := count_failure cfg (oc_Reason (ca_outcome c)) (ca_at c) r in
  recounted cfg g since (l ++ [c]) (ca_at c) r'
  /\ Z.of_nat (length (rc_AttemptTimes r')) = recent cfg (ca_at c) 120 (attempts (l ++ [c]))
  /\ rc_AttemptTimes r' <> []
  /\ rc_Failures r' = recent cfg (ca_at c) 64 (failures cfg (l ++ [c])).
Proof.
  intros W R Ht Hp Hf r'. assert (Hs : succeeds c = false).
  { unfold fails in Hf. unfold succeeds. bools. by rewrite H1, andb_false_r. }
  destruct R as [O L G S A F [A1 A2] [F1 F2]]. pose proof (window_cut_mono cfg _ _ Ht) as Hc.
  pose proof (window_cut_lt cfg (ca_at c) W) as Hw. pose proof (UnixMilli_mono _ _ Ht) as Hm.
  set (w := failure_weight cfg (oc_Reason (ca_outcome c))). set (ms := UnixMilli (ca_at c)) in *.
  assert (EA : attempts (l ++ [c]) = attempts l ++ replicate 1 ms) by (rewrite attempts_snoc, Hs, Hf; done).
  assert (EF : failures cfg (l ++ [c]) = failures cfg l ++ replicate w ms)
    by (rewrite failures_snoc; unfold failures_step; rewrite Hs, Hf; done).
  assert (SA := sorted_snoc _ 1 ms A1 (bound_later _ _ _ A2 Hm)). assert (SF := sorted_snoc _ w ms F1 (bound_later _ _ _ F2 Hm)).
  destruct (tracks_push _ _ _ _ _ 1 ms A Hc Hw SA) as [TA LA]. destruct (tracks_push _ _ _ _ _ w ms F Hc Hw SF) as [TF LF].
  assert (RA : rc_AttemptTimes r' = lastn 120 (filter (fun u => window_cut cfg (ca_at c) < u) (rc_AttemptTimes r) ++ replicate 1 ms)).
  { unfold r', count_failure, trackTimestamp. simpl. fold ms. by rewrite (proj2 (Z.eqb_neq ms 0)) by lia. }
  assert (RF : rc_FailureTimes r' = lastn 64 (filter (fun u => window_cut cfg (ca_at c) < u) (rc_FailureTimes r) ++ replicate w ms)).
  { unfold r', count_failure, trackTimestamp. simpl. fold ms w. f_equal.
    rewrite list.filter_app, filter_twice by lia. f_equal. apply filter_true. by apply Forall_replicate. }
  split_and!.
  - constructor; try done; rewrite ?RA, ?RF, ?EA, ?EF; try done.
    + split; [done|]. apply Forall_app. split; [by eapply bound_later|]. by apply Forall_replicate.
    + split; [done|]. apply Forall_app. split; [by eapply bound_later|]. by apply Forall_replicate.
  - unfold recent. rewrite RA, EA. by rewrite LA.
  - rewrite RA. intros E. apply (f_equal length) in E. rewrite lastn_length, length_app in E. rewrite length_replicate in E. cbn [length] in E. lia.
  - change (rc_Failures r') with (Z.of_nat (length (rc_FailureTimes r'))). unfold recent. rewrite RF, EF. by rewrite LF.
Qed.

Lemma success_recount cfg g since l t r c :
  settings_wf cfg -> recounted cfg g since l t r -> t <= ca_at c -> 0 < UnixMilli (ca_at c) -> succeeds c = true ->
  recounted cfg g since (l ++ [c]) (ca_at c) (observe_success cfg false false (ca_at c) r).
Proof.
  intros W R Ht Hp Hs. destruct R as [O L G S A F [A1 A2] [F1 F2]]. pose proof (window_cut_mono cfg _ _ Ht) as Hc.
  pose proof (window_cut_lt cfg (ca_at c) W) as Hw. pose proof (UnixMilli_mono _ _ Ht) as Hm. set (ms := UnixMilli (ca_at c)) in *.
  assert (EA : attempts (l ++ [c]) = attempts l ++ replicate 1 ms) by (rewrite attempts_snoc, Hs; done).
  assert (EF : failures cfg (l ++ [c]) = []) by (rewrite failures_snoc; unfold failures_step; by rewrite Hs).
  assert (SA := sorted_snoc _ 1 ms A1 (bound_later _ _ _ A2 Hm)).
  destruct (tracks_push _ _ _ _ _ 1 ms A Hc Hw SA) as [TA _].
  unfold observe_success. cbn [rc_Open set_times]. rewrite O. cbn [negb orb].
  constructor; try done; rewrite ?EA, ?EF.
  - simpl. unfold trackTimestamp. fold ms. rewrite (proj2 (Z.eqb_neq ms 0)) by lia. exact TA.
  - intros cut Hcut. done.
  - split; [done|]. apply Forall_app. split; [by eapply bound_later|]. by apply Forall_replicate.
  - split; constructor.
Qed.

(** A current call on a closed gate opens it exactly when the recount says so. *)
Lemma observed_recount cfg d g since l t r c :
  settings_wf cfg -> rc_Scope r = Scope d -> recounted cfg g since l t r -> current d g since c -> t <= ca_at c ->
  0 < UnixMilli (ca_at c) ->
  let r' := observed cfg d (ca_token c) (ca_outcome c) (ca_at c) false r in
  if trips cfg l c then rc_Open r' = true /\ rc_Lease r' = "" else recounted cfg g since (l ++ [c]) (ca_at c) r'.
Proof.
  intros W Hsc R Hcur Ht Hp r'. unfold r', observed. rewrite (current_counts cfg d g since l t r c) by done.
  unfold observe_update. rewrite (not_owned _ _ _ (re_lease _ _ _ _ _ _ R)).
  assert (Later : attempts (l ++ [c]) = attempts l -> failures cfg (l ++ [c]) = failures cfg l -> recounted cfg g since (l ++ [c]) (ca_at c) r).
  { intros E1 E2. pose proof (UnixMilli_mono _ _ Ht). pose proof (window_cut_mono cfg _ _ Ht). destruct R as [? ? ? ? ? ? [? ?] [? ?]].
    constructor; rewrite ?E1, ?E2; try done; try (by eapply tracks_later); split; try done; by eapply bound_later. }
  destruct (oc_Neutral (ca_outcome c)) eqn:N.
  { assert (Hs : succeeds c = false) by (unfold succeeds; by rewrite N). assert (Hf : fails c = false) by (unfold fails; by rewrite N).
    unfold trips. rewrite Hf. cbn [andb]. apply Later; [rewrite attempts_snoc, Hs, Hf; apply app_nil_r|].
    rewrite failures_snoc. unfold failures_step. by rewrite Hs, Hf. }
  destruct (oc_Success (ca_outcome c)) eqn:Sc.
  { assert (Hs : succeeds c = true) by (unfold succeeds; by rewrite N, Sc). assert (Hf : fails c = false) by (unfold fails; by rewrite N, Sc).
    unfold trips. rewrite Hf. cbn [andb]. by eapply success_recount. }
  destruct (oc_AuthFailure (ca_outcome c)) eqn:Af; cbn [orb negb andb].
  { assert (Hs : succeeds c = false) by (unfold succeeds; by rewrite Sc, andb_false_r).
    assert (Hf : fails c = false) by (unfold fails; by rewrite Af, andb_false_r).
    unfold trips. rewrite Hf. cbn [andb]. apply Later; [rewrite attempts_snoc, Hs, Hf; apply app_nil_r|].
    rewrite failures_snoc. unfold failures_step. by rewrite Hs, Hf. }
  assert (Hf : fails c = true) by (unfold fails; by rewrite N, Sc, Af).
  destruct (count_failure_recount cfg g since l t r c W R Ht Hp Hf) as (R' & E1 & E2 & E3).
  unfold observe_failure, trips. rewrite Hf. cbn [andb orb]. set (r1 := count_failure _ _ _ r) in *.
  rewrite threshold_agrees by done. rewrite E1, E3. set (n := recent _ _ 120 _) in *. set (f := recent _ _ 64 _) in *.
  assert (Su : sustainedFailure r1 = (8 <=? n) && (4 * n <=? 10 * f)).
  { unfold sustainedFailure. rewrite E1, E3. unfold sustainedMinAttempts. destruct (Z.ltb_spec n 8).
    - by rewrite (proj2 (Z.leb_gt 8 n)).
    - rewrite (proj2 (Z.leb_le 8 n)) by done. cbn [andb]. apply forty_percent; unfold n, f, recent; lia. }
  rewrite Su. by destruct (_ || _).
Qed.

(** An open gate without a lease stays open under observations. *)
Lemma observed_open cfg d tok o now r :
  rc_Open r = true -> rc_Lease r = "" -> let r' := observed cfg d tok o now false r in rc_Open r' = true /\ rc_Lease r' = "".
Proof.
  intros O L r'. unfold r', observed. destruct (observe_skips tok o now r); [done|]. unfold observe_update. rewrite (not_owned _ _ _ L).
  destruct (oc_Neutral o); [done|]. destruct (oc_Success o); [unfold observe_success; simpl; by rewrite O|].
  cbn [orb]. destruct (negb _); [|done]. unfold observe_failure. by destruct (_ || _).
Qed.

(** ** The whole history *)

(** Every call with a request id is the first one with it for the dimension. *)
Definition request_ids (l : list call) : list string :=
  List.filter (fun id => negb (String.eqb id "")) (map (fun c => oc_RequestID (ca_outcome c)) l).
Definition first_calls (d : Dimension) (tb : Tables) (l : list call) : Prop :=
  NoDup (request_ids l) /\ Forall (fun c => recorded tb d (ca_outcome c) = false) l.

Lemma observe_one_gate st d tb c :
  tables_wf tb -> recorded tb d (ca_outcome c) = false ->
  gate (observe_one st d tb c) d (Scope d)
  = observed (Normalize st) d (ca_token c) (ca_outcome c) (ca_at c) false (gate tb d (Scope d)).
Proof.
  intros W R. unfold gate at 1, observe_one. rewrite Observe_lookup by done.
  pose proof (KeyScope_neq_Scope (dm_KeyID d) d). by rewrite decide_False, decide_True by congruence.
Qed.

Lemma observe_one_records st d tb c s :
  tables_wf tb -> s ∈ observations (observe_one st d tb c) ->
  s ∈ observations tb \/ oc_RequestID (ca_outcome c) <> "" /\ s = (Scope d, oc_RequestID (ca_outcome c)).
Proof.
  intros W. unfold observe_one. rewrite transaction_Observe by done. cbn [snd].
  assert (L : observations (lock_both tb d) = observations tb) by (unfold lock_both; by rewrite !locked_observations).
  destruct (recorded tb d (ca_outcome c)); [rewrite L; auto|]. unfold save_observed, record_observation.
  destruct (String.eqb_spec (oc_RequestID (ca_outcome c)) ""); repeat case_match; simpl; rewrite ?elem_of_union, ?elem_of_singleton, ?L; tauto.
Qed.

Lemma first_calls_step st d tb c l :
  tables_wf tb -> first_calls d tb (c :: l) -> recorded tb d (ca_outcome c) = false /\ first_calls d (observe_one st d tb c) l.
Proof.
  intros W [N F]. inversion F as [|? ? Fc Fl]; subst. split; [done|]. unfold request_ids in N. simpl in N.
  split; [by destruct (negb _); [inversion N|]|]. apply Forall_forall. intros c' Hc'.
  pose proof (proj1 (Forall_forall _ _) Fl c' Hc') as Rc. unfold recorded in *.
  destruct (String.eqb_spec (oc_RequestID (ca_outcome c')) "") as [E|E]; [done|]. cbn [negb andb] in *.
  apply bool_decide_eq_false in Rc. apply bool_decide_eq_false. intros H.
  apply (observe_one_records st d tb c) in H as [H|[Hn H]]; [done| |done]. injection H as H.
  rewrite (proj2 (String.eqb_neq _ _) Hn) in N. simpl in N. apply list.NoDup_cons in N as [N _]. apply N.
  apply list_elem_of_In, filter_In. split; [|by rewrite (proj2 (String.eqb_neq _ _) Hn)].
  rewrite <- H. apply (in_map (fun c => oc_RequestID (ca_outcome c))). exact Hc'.
Qed.

Lemma observe_one_wf st d tb c : tables_wf tb -> tables_wf (observe_one st d tb c).
Proof. exact (op_wf (ca_at c) (OpObserve st d (ca_token c) (ca_outcome c)) tb). Qed.

Lemma stays_open st d l : forall tb,
  tables_wf tb -> first_calls d tb l -> rc_Open (gate tb d (Scope d)) = true -> rc_Lease (gate tb d (Scope d)) = "" ->
  rc_Open (gate (observe_all st d l tb) d (Scope d)) = true.
Proof.
  induction l as [|c l IH]; intros tb W F O L; [done|]. destruct (first_calls_step st d tb c l W F) as [Rc Fl].
  destruct (observed_open (Normalize st) d (ca_token c) (ca_outcome c) (ca_at c) _ O L) as [O' L'].
  rewrite <- observe_one_gate in O', L' by done. apply IH; [by apply observe_one_wf|done..].
Qed.

Lemma observe_all_trips st d g since l : forall pre t tb,
  tables_wf tb -> recounted (Normalize st) g since pre t (gate tb d (Scope d)) -> first_calls d tb l -> in_order t l ->
  Millisecond <= t -> Forall (current d g since) l ->
  rc_Open (gate (observe_all st d l tb) d (Scope d)) = true
  <-> exists l1 c l2, l = l1 ++ c :: l2 /\ trips (Normalize st) (pre ++ l1) c = true.
Proof.
  induction l as [|c l IH]; intros pre t tb W R F Io Ht C.
  { simpl. rewrite (re_open _ _ _ _ _ _ R). split; [done|]. intros ([|] & ? & ? & ? & ?); done. }
  destruct Io as [Ho Io]. inversion C as [|? ? Cc Cl]; subst. destruct (first_calls_step st d tb c l W F) as [Rc Fl].
  assert (P : 0 < UnixMilli (ca_at c)) by (unfold UnixMilli; apply Z.div_str_pos; unfold Millisecond in *; lia).
  pose proof (observed_recount (Normalize st) d g since pre t _ c (Normalize_settings_wf st) (gate_wf tb d (Scope d) W) R Cc Ho P) as Step.
  cbv zeta in Step. rewrite <- (observe_one_gate st) in Step by done.
  destruct (trips (Normalize st) pre c) eqn:T.
  - split; [|intros _; apply (stays_open st d l); [by apply observe_one_wf|done|apply Step|apply Step]].
    intros _. exists [], c, l. by rewrite app_nil_r.
  - change (observe_all st d (c :: l) tb) with (observe_all st d l (observe_one st d tb c)).
    rewrite (IH (pre ++ [c]) (ca_at c)); [|by apply observe_one_wf|done..|lia|done]. split.
    + intros (l1 & c' & l2 & -> & T'). exists (c :: l1), c', l2. split; [done|]. by rewrite <- app_assoc in T'.
    + intros ([|x l1] & c' & l2 & E & T'); simplify_eq/=; [by rewrite app_nil_r, T in T'|].
      exists l1, c', l2. split; [done|]. by rewrite <- app_assoc.
Qed.

(** C30: The breaker trips exactly when its rules say so.  Take a gate of a dimension that
    is closed with no history (new, or just closed by a recovery), and any sequence of
    Observe transactions of requests of that dimension, each observed once, in clock
    order, and admitted under the gate's generation: successes, failures of every kind,
    neutral outcomes and authentication failures in any mixture.  The gate is open
    afterwards if and only if some failure among them was a rate limit or immediate, or
    brought the failures since the last success and inside the window (first-token
    timeouts weighted, at most 64 counted) up to the threshold, which the attempts inside
    the window (at most 120) scale by CircuitRateFactor between the configured base and 8,
    or up to 40% of eight attempts or more. *)
Theorem breaker_trips st d l tb :
  let r0 := gate tb d (Scope d) in
  tables_wf tb -> closed_fresh r0 -> first_calls d tb l -> in_order Millisecond l ->
  Forall (current d (rc_Generation r0) (rc_OpenedAt r0)) l ->
  rc_Open (gate (observe_all st d l tb) d (Scope d)) = true
  <-> exists l1 c l2, l = l1 ++ c :: l2 /\ trips (Normalize st) l1 c = true.
Proof.
  intros r0 W (C1 & C2 & C3 & C4 & _ & C6 & _) F Io C.
  apply (observe_all_trips st d (rc_Generation r0) (rc_OpenedAt r0) l [] Millisecond tb); try done.
  fold r0. constructor; try done; unfold tracks; try (split; constructor).
  - intros cut _. by rewrite C4.
  - intros cut _. by rewrite C3.
Qed.

(** Two successes, then three failures within a minute. *)
Definition demo_call (id : string) (ok : bool) (t : time) : call :=
  mkCall "" (mkOutcome None id 0 ok false false false false 0 "upstream_5xx") t.
Definition demo_calls : list call :=
  [demo_call "a" true (1000 * Second); demo_call "b" true (1001 * Second); demo_call "c" false (1002 * Second);
   demo_call "d" false (1003 * Second); demo_call "e" false (1004 * Second)].

Example demo_trips_at_third :
  map (fun k => rc_Open (gate (observe_all DefaultSchedulerSettings demo_dim (take k demo_calls) no_tables) demo_dim (Scope demo_dim)))
    [3; 4; 5]%nat = [false; false; true].
Proof. vm_compute. reflexivity. Qed.

Lemma breaker_trips_witness :
  rc_Open (gate (observe_all DefaultSchedulerSettings demo_dim demo_calls no_tables) demo_dim (Scope demo_dim)) = true
  <-> exists l1 c l2, demo_calls = l1 ++ c :: l2 /\ trips (Normalize DefaultSchedulerSettings) l1 c = true.
Proof.
  apply (breaker_trips DefaultSchedulerSettings demo_dim demo_calls no_tables).
  - apply (no_tables_inv 0).
  - vm_compute. tauto.
  - split; [apply (bool_decide_unpack _); vm_compute; exact I|]. repeat constructor.
  - vm_compute. repeat split; discriminate.
  - repeat constructor; vm_compute; discriminate.
Defined.
