(* ===== verification/Picker.v ===== *)
(** * Candidate selection (internal/picker/picker.go, band.go, routing_health.go)

    [evaluate] looks at every platform key: [inspect] applies the hard rules and
    the scores, [applyRoutingHealth] takes out the keys behind an open circuit
    and may let one of them in for validation, and the band ranking selects one
    of the best.  Rows of the other tables (keys, cooldowns, probe and request
    logs) are arguments, as read at [now]; one clock reading stands for the
    several of a pass. *)

From stdpp Require Import sorting.
From S2P Require Import Prelude GoFloat GoString Settings Domain Capacity Window Score Database Circuit.

(** ** Requests and candidates *)

Record Request : Type := mkRequest {
  rq_MutateRecovery : bool;
  rq_Diagnostic : bool;
  rq_BudgetReady : bool;
  rq_ExplorationSlot : bool;
  rq_ConsumerID : Z;
  rq_Path : string;
  rq_Stream : bool;
  rq_SessionSource : string;
  rq_Protocol : string;
  rq_Model : string;
  rq_Session : string;
  rq_Exclude : list Z;
  rq_ExcludeProviders : list Z;
  rq_ExcludeKeyModels : list Z;
  rq_AllowKeys : option (gset Z);      (* nil means unrestricted *)
  rq_DriftKeys : gset Z;
  rq_RouteReasons : gmap Z string
}.

(** What [inspect] reports of a key's circuit and probes. *)
Record CircuitInfo : Type := mkInfo {
  ci_RecoveryScopes : list string;
  ci_RecoveryStatus : string;
  ci_RecoveryCheckAt : option time;
  ci_RecoveryNextCheckAt : option time;
  ci_RecoveryCheckError : string;
  ci_RecoveryLastAt : option time;
  ci_ProbeStatus : string;
  ci_ProbeAt : Z;
  ci_ProbeModel : string;
  ci_ProbePath : string;
  ci_ProbeStream : bool;
  ci_CircuitState : string;
  ci_CircuitScope : string;
  ci_CircuitReason : string;
  ci_CircuitUntil : Z
}.

Definition no_info : CircuitInfo := mkInfo [] "" None None "" None "" 0 "" "" false "" "" "" 0.

(** Scores and resources. *)
Record Scores : Type := mkScores {
  sc_LatencySamples : Z;
  sc_LastSampleAt : Z;
  sc_Reliable : bool;
  sc_Quality : f64;
  sc_EffectiveCost : f64;
  sc_SuccessRate : f64;
  sc_CacheRate : f64;
  sc_TTFTp50 : Z;
  sc_Samples : Z
}.

Definition no_scores : Scores := mkScores 0 0 false f0 f0 f0 f0 0 0.

Record Candidate : Type := mkCandidate {
  cd_Key : PlatformKey;
  cd_LastBalance : option f64;
  cd_CurrentRPM : Z;
  cd_KeyInflight : Z;
  cd_ProviderInflight : Z;
  cd_Info : CircuitInfo;
  cd_Scores : Scores;
  cd_Eligible : bool;
  cd_SkipReason : string;
  cd_Recovery : bool;
  cd_InBand : bool;
  cd_Selected : bool;
  cd_DecisionReason : string;
  cd_RankingMode : string;
  cd_AffinityHit : bool
}.

Definition cd_KeyID (c : Candidate) : Z := pk_ID (cd_Key c).

Definition with_eligible (c : Candidate) (eligible : bool) (skip : string) (recovery : bool) : Candidate :=
  mkCandidate (cd_Key c) (cd_LastBalance c) (cd_CurrentRPM c) (cd_KeyInflight c) (cd_ProviderInflight c) (cd_Info c)
    (cd_Scores c) eligible skip recovery (cd_InBand c) (cd_Selected c) (cd_DecisionReason c) (cd_RankingMode c)
    (cd_AffinityHit c).
Definition with_info (c : Candidate) (i : CircuitInfo) : Candidate :=
  mkCandidate (cd_Key c) (cd_LastBalance c) (cd_CurrentRPM c) (cd_KeyInflight c) (cd_ProviderInflight c) i
    (cd_Scores c) (cd_Eligible c) (cd_SkipReason c) (cd_Recovery c) (cd_InBand c) (cd_Selected c) (cd_DecisionReason c)
    (cd_RankingMode c) (cd_AffinityHit c).
Definition with_scores (c : Candidate) (s : Scores) : Candidate :=
  mkCandidate (cd_Key c) (cd_LastBalance c) (cd_CurrentRPM c) (cd_KeyInflight c) (cd_ProviderInflight c) (cd_Info c)
    s (cd_Eligible c) (cd_SkipReason c) (cd_Recovery c) (cd_InBand c) (cd_Selected c) (cd_DecisionReason c)
    (cd_RankingMode c) (cd_AffinityHit c).
Definition with_decision (c : Candidate) (inband selected : bool) (reason mode : string) (hit : bool) : Candidate :=
  mkCandidate (cd_Key c) (cd_LastBalance c) (cd_CurrentRPM c) (cd_KeyInflight c) (cd_ProviderInflight c) (cd_Info c)
    (cd_Scores c) (cd_Eligible c) (cd_SkipReason c) (cd_Recovery c) inband selected reason mode hit.

(** ** Hard rules *)

Definition hardReject (key : PlatformKey) (protocol model : string) (filterByModels : bool) (excluded : list Z) (now : time) : string :=
  if bool_decide (pk_ID key ∈ excluded) then "excluded" else
  if negb (String.eqb (pk_Status key) StatusEnabled) then "key_disabled" else
  match pk_Upstream key with
  | None => "upstream_disabled"
  | Some u =>
      if negb (String.eqb (up_Status u) StatusEnabled) then "upstream_disabled" else
      if after_opt (up_CooldownUntil u) now then "provider_cooldown" else
      if negb (SupportsProtocol key protocol) then "protocol_mismatch" else
      if filterByModels && negb (SupportsModel key model) then "model_not_supported" else
      if after_opt (pk_CooldownUntil key) now then "cooldown" else
      if match up_LastBalance u with Some b => fle b f0 | None => false end then "low_balance" else
      if String.eqb (pk_HealthStatus key) HealthDisabled then "disabled" else
      if String.eqb (pk_HealthStatus key) HealthLowBalance then "low_balance" else ""
  end.

Definition effectiveRankingMode (configured session : string) : string :=
  if String.eqb configured "adaptive" then
    if negb (String.eqb (TrimSpace session) "") then "cache_affinity" else "load_balance"
  else configured.

(** Not among the allowed keys: the reason reported. *)
Definition route_reject (req : Request) (id : Z) : string :=
  match rq_AllowKeys req with
  | None => ""
  | Some allow =>
      if bool_decide (id ∈ allow) then "" else
      if bool_decide (id ∈ rq_DriftKeys req) then "route_rate_drift" else
      let reason := default "" (rq_RouteReasons req !! id) in
      if String.eqb reason "" then "not_in_route_group" else reason
  end.

(** The limits, with the counters the snapshot returned. *)
Definition capacity_reject (key : PlatformKey) (rpm ki pi : Z) : string :=
  if (0 <? pk_RPMLimit key) && (pk_RPMLimit key <=? rpm) then "key_rpm_exceeded" else
  if (0 <? pk_MaxConcurrency key) && (pk_MaxConcurrency key <=? ki) then "key_concurrency_exceeded" else
  match pk_Upstream key with
  | Some u => if (0 <? up_Concurrency u) && (up_Concurrency u <=? pi) then "provider_concurrency_exceeded" else ""
  | None => ""
  end.

(** The first rule that rejects the key, or "". *)
Definition reject_reason (key : PlatformKey) (req : Request) (cfg : SchedulerSettings) (modelCooldowns : gset Z)
    (rpm ki pi : Z) (now : time) : string :=
  let r := route_reject req (pk_ID key) in
  if negb (String.eqb r "") then r else
  let r := hardReject key (rq_Protocol req) (rq_Model req) (ModelFilterEnabled cfg) (rq_Exclude req) now in
  if negb (String.eqb r "") then r else
  if bool_decide (pk_UpstreamID key ∈ rq_ExcludeProviders req) then "provider_excluded" else
  if bool_decide (pk_ID key ∈ rq_ExcludeKeyModels req) then "key_model_excluded" else
  if bool_decide (pk_ID key ∈ modelCooldowns) then "key_model_cooldown" else
  capacity_reject key rpm ki pi.

(** [inspect]; [win] is the metrics window of the key for the requested model. *)
Definition inspect (key : PlatformKey) (req : Request) (cfg : SchedulerSettings) (modelCooldowns : gset Z)
    (win : Window) (now : time) (rt : runtimeState) : Candidate * runtimeState :=
  let '(rpm, ki, pi, rt') := resourceSnapshot (pk_ID key) (pk_UpstreamID key) now rt in
  let balance := match pk_Upstream key with Some u => up_LastBalance u | None => pk_LastBalance key end in
  let c := mkCandidate key balance rpm ki pi no_info no_scores false "" false false false ""
             (effectiveRankingMode (RankingMode cfg) (rq_Session req)) false in
  let reason := reject_reason key req cfg modelCooldowns rpm ki pi now in
  if negb (String.eqb reason "") then (with_eligible c false reason false, rt') else
  if String.eqb (RankingMode cfg) "stable_latency" then (with_eligible c true "" false, rt') else
  let q := Quality (mkScoreInputs (wn_SuccessRate win) (wn_Samples win) (wn_CacheRate win) (wn_HasCache win)
                      (wn_TTFTp50 win) (wn_HasLatency win)) cfg in
  let s := mkScores 0 0 false q (effectiveCost (pk_RateMultiplier key) (wn_CacheRate win)) (wn_SuccessRate win)
             (wn_CacheRate win) (wn_TTFTp50 win) (wn_Samples win) in
  (with_eligible (with_scores c s) true "" false, rt').

(** Every key in id order; the runtime is threaded through. *)
Fixpoint inspect_all (keys : list PlatformKey) (req : Request) (cfg : SchedulerSettings) (modelCooldowns : gset Z)
    (win : Z -> Window) (now : time) (rt : runtimeState) : list Candidate * runtimeState :=
  match keys with
  | [] => ([], rt)
  | k :: rest =>
      let '(c, rt) := inspect k req cfg modelCooldowns (win (pk_ID k)) now rt in
      let '(cs, rt) := inspect_all rest req cfg modelCooldowns win now rt in
      (c :: cs, rt)
  end.

Record KeyModelCooldown : Type := mkCooldown { kc_PlatformKeyID : Z; kc_Model : string; kc_CooldownUntil : time }.

Definition activeModelCooldowns (rows : list KeyModelCooldown) (keys : list PlatformKey) (model : string) (now : time) : gset Z :=
  let model := TrimSpace model in
  if String.eqb model "" || bool_decide (keys = []) then ∅ else
  list_to_set (kc_PlatformKeyID <$> filter (fun r => kc_PlatformKeyID r ∈ pk_ID <$> keys /\ kc_Model r = model
                                                     /\ After (kc_CooldownUntil r) now = true) rows).

(** ** Route scopes and dimensions *)

Definition dimension (req : Request) (key : Z) : Dimension :=
  mkDim key (rq_Protocol req) (rq_Model req) (rq_Path req) (rq_Stream req).

Definition json_bool (b : bool) : list Z := bytes (if b then "true" else "false").

Fixpoint json_ids (ids : list Z) : list Z :=
  match ids with
  | [] => []
  | [i] => bytes (fmt_uint i)
  | i :: rest => bytes (fmt_uint i) ++ [44] ++ json_ids rest
  end.

(** A nil slice marshals to null; map keys are collected and sorted. *)
Definition json_id_list (ids : list Z) : list Z :=
  match ids with [] => bytes "null" | _ => [91] ++ json_ids ids ++ [93] end.

Definition sessionDigest (s : list Z) : string := sha256_hex s.

Definition routeScope (req : Request) : string :=
  let ids := merge_sort Z.le (elements (default ∅ (rq_AllowKeys req))) in
  sessionDigest ([91] ++ bytes (fmt_uint (rq_ConsumerID req)) ++ [44] ++ json_string (rq_Protocol req) ++ [44]
    ++ json_string (rq_Model req) ++ [44] ++ json_string (rq_Path req) ++ [44] ++ json_bool (rq_Stream req) ++ [44]
    ++ json_bool (bool_decide (is_Some (rq_AllowKeys req))) ++ [44] ++ json_id_list ids ++ [93]).

(** ** Circuits behind the candidates *)

Record ProbeLog : Type := mkProbe {
  pl_PlatformKeyID : Z;
  pl_Model : string;
  pl_Path : string;
  pl_Stream : bool;
  pl_Success : bool;
  pl_LatencyMs : Z;
  pl_CreatedAt : time
}.

(** The zero value of the row, before a gate is found. *)
Definition zero_circuit : RoutingCircuit := {|
  rc_Generation := 0; rc_Scope := ""; rc_PlatformKeyID := 0; rc_Open := false; rc_Failures := 0;
  rc_FailureTimes := []; rc_AttemptTimes := []; rc_OpenedAt := time_zero; rc_Until := time_zero;
  rc_BackoffSec := 0; rc_Reason := ""; rc_Lease := ""; rc_LeaseUntil := time_zero; rc_Protocol := "";
  rc_Model := ""; rc_Path := ""; rc_Stream := false; rc_RecoveryAt := None; rc_CheckLease := "";
  rc_CheckUntil := None; rc_CheckAt := None; rc_CheckOK := false; rc_CheckError := "";
  rc_NextCheckAt := None; rc_CheckBackoff := 0
|}.

Definition recoveryGatePriority (r : RoutingCircuit) (now : time) : Z :=
  if After (rc_LeaseUntil r) now then 5
  else if after_opt (rc_CheckUntil r) now then 4
  else if After (rc_Until r) now then 3
  else if check_backoff now r then 3
  else if negb (rc_CheckOK r) && negb (String.eqb (rc_Path r) "") then 2
  else 1.

Definition recoveryBefore (a b : Candidate) : bool :=
  match ci_RecoveryLastAt (cd_Info a), ci_RecoveryLastAt (cd_Info b) with
  | None, Some _ => true
  | Some _, None => false
  | la, lb =>
      match la, lb with
      | Some ta, Some tb => if negb (ta =? tb) then Before ta tb
                            else if negb (ci_CircuitUntil (cd_Info a) =? ci_CircuitUntil (cd_Info b))
                            then ci_CircuitUntil (cd_Info a) <? ci_CircuitUntil (cd_Info b) else cd_KeyID a <? cd_KeyID b
      | _, _ => if negb (ci_CircuitUntil (cd_Info a) =? ci_CircuitUntil (cd_Info b))
                then ci_CircuitUntil (cd_Info a) <? ci_CircuitUntil (cd_Info b) else cd_KeyID a <? cd_KeyID b
      end
  end.

(** The gate a key waits behind: one of its two open gates, or a busy row. *)
Definition better_gate (now : time) (gate r : RoutingCircuit) : RoutingCircuit :=
  if String.eqb (rc_Scope gate) "" || (recoveryGatePriority gate now <? recoveryGatePriority r now)
     || ((recoveryGatePriority r now =? recoveryGatePriority gate now) && After (rc_Until r) (rc_Until gate))
  then r else gate.

Definition busier_gate (now : time) (gate r : RoutingCircuit) : RoutingCircuit :=
  if recoveryGatePriority gate now <? recoveryGatePriority r now then r else gate.

Definition find_gate (states : gmap string RoutingCircuit) (busy : list RoutingCircuit) (req : Request) (key : Z)
    (now : time) : RoutingCircuit :=
  let add gate scope := match states !! scope with Some r => better_gate now gate r | None => gate end in
  let gate := add (add zero_circuit (Scope (dimension req key))) (KeyScope key) in
  fold_left (busier_gate now) (filter (fun r => rc_PlatformKeyID r = key) busy) gate.

(** The rows of gated keys that hold a lease or a check, by scope. *)
Definition scope_le (a b : RoutingCircuit) : Prop := String.leb (rc_Scope a) (rc_Scope b) = true.
#[export] Instance scope_le_dec a b : Decision (scope_le a b).
Proof. unfold scope_le. apply _. Defined.

Definition busy_rows (tb : Tables) (states : gmap string RoutingCircuit) (ids : list Z) (now : time) : list RoutingCircuit :=
  let gated := filter (fun id => is_Some (states !! KeyScope id)) ids in
  merge_sort scope_le (snd <$> map_to_list
    (select (fun r => bool_decide (rc_PlatformKeyID r ∈ gated) && (After (rc_LeaseUntil r) now || after_opt (rc_CheckUntil r) now))
       (circuits tb))).

(** The state, skip reason and recovery status of a key behind gate [g]. *)
Definition gate_view (now : time) (key : PlatformKey) (g : RoutingCircuit) : string * string * string * Z :=
  let state := "open" in
  let reason := "business_cooldown" in
  let status := "cooldown" in
  let until := UnixMilli (rc_Until g) in
  let '(state, reason, status) :=
    if negb (After (rc_Until g) now) then
      let status := if bool_decide (is_Some (rc_CheckAt g)) && negb (rc_CheckOK g) then "check_failed" else "waiting_check" in
      let status := if negb (AllowsProbe (Some key)) || String.eqb (rc_Path g) "" || negb (SupportsCheck (rc_Path g))
                    then "waiting_request" else status in
      ("half_open", "recovery_pending", status)
    else (state, reason, status) in
  let '(reason, status) := if after_opt (rc_CheckUntil g) now then ("recovery_check_inflight", "checking") else (reason, status) in
  let '(reason, status) := if bool_decide (is_Some (rc_CheckAt g)) && check_backoff now g
                           then ("recovery_check_backoff", "check_failed") else (reason, status) in
  if After (rc_LeaseUntil g) now then (state, "recovery_inflight", "validating", UnixMilli (rc_LeaseUntil g))
  else (state, reason, status, until).

(** How a candidate counts after the pass. *)
Inductive health_class : Type := HNormal | HRequest | HAny | HNone.

Definition probe_info (req : Request) (probe : option ProbeLog) (i : CircuitInfo) : CircuitInfo :=
  let '(status, at_, model, path, stream) :=
    match probe with
    | Some r => (if pl_Success r then (if 6000 <=? pl_LatencyMs r then "degraded" else "healthy") else "down",
                 UnixMilli (pl_CreatedAt r), pl_Model r, pl_Path r, pl_Stream r)
    | None => (if rq_Diagnostic req then "unknown" else ci_ProbeStatus i, ci_ProbeAt i, ci_ProbeModel i, ci_ProbePath i,
               ci_ProbeStream i)
    end in
  mkInfo (ci_RecoveryScopes i) (ci_RecoveryStatus i) (ci_RecoveryCheckAt i) (ci_RecoveryNextCheckAt i)
    (ci_RecoveryCheckError i) (ci_RecoveryLastAt i) status at_ model path stream "closed" (ci_CircuitScope i)
    (ci_CircuitReason i) (ci_CircuitUntil i).

(** The candidate with its probe state and gate, and how it counts. *)
Definition health_step (tb : Tables) (states : gmap string RoutingCircuit) (busy : list RoutingCircuit)
    (probe : Z -> option ProbeLog) (req : Request) (now : time) (c : Candidate) : Candidate * health_class :=
  let i := probe_info req (probe (cd_KeyID c)) (cd_Info c) in
  let g := find_gate states busy req (cd_KeyID c) now in
  let scopes := rc_Scope <$> filter (fun r => rc_PlatformKeyID r = cd_KeyID c) busy in
  if String.eqb (rc_Scope g) "" then
    (with_info c (mkInfo scopes (ci_RecoveryStatus i) (ci_RecoveryCheckAt i) (ci_RecoveryNextCheckAt i) (ci_RecoveryCheckError i)
       (ci_RecoveryLastAt i) (ci_ProbeStatus i) (ci_ProbeAt i) (ci_ProbeModel i) (ci_ProbePath i) (ci_ProbeStream i)
       (ci_CircuitState i) (ci_CircuitScope i) (ci_CircuitReason i) (ci_CircuitUntil i)),
     if cd_Eligible c then HNormal else HNone)
  else
    let '(state, reason, status, until) := gate_view now (cd_Key c) g in
    let c1 := with_info c (mkInfo scopes status (rc_CheckAt g) (rc_NextCheckAt g) (rc_CheckError g) (rc_RecoveryAt g)
                (ci_ProbeStatus i) (ci_ProbeAt i) (ci_ProbeModel i) (ci_ProbePath i) (ci_ProbeStream i) state
                (if String.eqb (rc_Scope g) (KeyScope (cd_KeyID c)) then "key" else "request") (rc_Reason g) until) in
    if cd_Eligible c then
      (with_eligible c1 false reason (cd_Recovery c),
       if String.eqb reason "recovery_pending" || String.eqb reason "recovery_check_backoff" then
         if String.eqb reason "recovery_pending" && String.eqb status "waiting_request" then HRequest else HAny
       else HNone)
    else (c1, HNone).

Definition is_request (h : health_class) : bool := match h with HRequest => true | _ => false end.
Definition is_any (h : health_class) : bool := match h with HAny => true | _ => false end.
Definition is_normal (h : health_class) : bool := match h with HNormal => true | _ => false end.

(** [best...] of the loop: the first candidate of the class before all others. *)
Definition best_of (cls : health_class -> bool) (l : list (Candidate * health_class)) : option (nat * (Candidate * health_class)) :=
  scan_best (fun _ ch => cls ch.2) (fun a b => recoveryBefore a.1 b.1) l.

(** The candidate to validate: a request-validated one, or with no normal
    candidate the earlier of that and a check-owned one. *)
Definition choose_recovery (l : list (Candidate * health_class)) : option nat :=
  let request := best_of is_request l in
  if existsb (fun ch => is_normal ch.2) l then fst <$> request else
  match best_of is_any l, request with
  | Some (i, a), Some (j, b) => Some (if recoveryBefore a.1 b.1 then i else j)
  | Some (i, _), None => Some i
  | None, r => fst <$> r
  end.

Definition waiting_status (normal : bool) (bound allowed : bool) (c : Candidate) : Candidate :=
  let i := cd_Info c in
  if String.eqb (ci_RecoveryStatus i) "waiting_request" && normal && (bound || negb allowed) then
    with_info c (mkInfo (ci_RecoveryScopes i) (if bound then "waiting_session" else "waiting_budget") (ci_RecoveryCheckAt i)
      (ci_RecoveryNextCheckAt i) (ci_RecoveryCheckError i) (ci_RecoveryLastAt i) (ci_ProbeStatus i) (ci_ProbeAt i)
      (ci_ProbeModel i) (ci_ProbePath i) (ci_ProbeStream i) (ci_CircuitState i) (ci_CircuitScope i) (ci_CircuitReason i)
      (ci_CircuitUntil i))
  else c.

(** [boundKey]: the key the session is bound to, 0 if none. *)
Definition applyRoutingHealth (tb : Tables) (probe : Z -> option ProbeLog) (req : Request) (boundKey : Z) (now : time)
    (cands : list Candidate) : result rherr (list Candidate * Tables) :=
  match run (Snapshot (dimension req <$> (cd_KeyID <$> cands))) tb with
  | Err e => Err e
  | Ok (states, _) =>
      let busy := busy_rows tb states (cd_KeyID <$> cands) now in
      let l := health_step tb states busy probe req now <$> cands in
      let normal := existsb (fun ch => is_normal ch.2) l in
      let bound := existsb (fun ch => (cd_KeyID ch.1 =? boundKey) && cd_Eligible ch.1) l in
      let recovery := choose_recovery l in
      let slot := match recovery with
                  | Some _ => if normal && negb bound
                              then transaction (RecoverySlot ZeroSettings (routeScope req) (rq_MutateRecovery req) now) tb
                              else (Ok (negb normal), tb)
                  | None => (Ok false, tb)
                  end in
      match slot with
      | (Err e, _) => Err e
      | (Ok allowed, tb') =>
          let cs := waiting_status normal bound allowed <$> (fst <$> l) in
          Ok (match recovery with
              | Some i => if allowed then alter (fun c => with_eligible c true "" true) i cs else cs
              | None => cs
              end, tb')
      end
  end.

(** ** Ranking *)

Definition affinityScore (req : Request) (keyID : Z) : Z :=
  fnv64a (bytes (rq_Protocol req) ++ [0] ++ bytes (rq_Model req) ++ [0] ++ bytes (TrimSpace (rq_Session req)) ++ [0]
          ++ bytes (fmt_uint keyID)).

Definition cost_less (a b : Candidate) : bool :=
  let ca := sc_EffectiveCost (cd_Scores a) in
  let cb := sc_EffectiveCost (cd_Scores b) in
  if negb (feq ca cb) then flt ca cb else cd_KeyID a <? cd_KeyID b.

Definition candidateLess (mode : string) (req : Request) (a b : Candidate) : bool :=
  if String.eqb mode "fixed_order" then cd_KeyID a <? cd_KeyID b
  else if String.eqb mode "cache_affinity" then
    let ha := affinityScore req (cd_KeyID a) in
    let hb := affinityScore req (cd_KeyID b) in
    if negb (ha =? hb) then hb <? ha else cost_less a b
  else if String.eqb mode "load_balance" then
    if negb (cd_KeyInflight a =? cd_KeyInflight b) then cd_KeyInflight a <? cd_KeyInflight b
    else if negb (cd_ProviderInflight a =? cd_ProviderInflight b) then cd_ProviderInflight a <? cd_ProviderInflight b
    else cost_less a b
  else cost_less a b.

(** [sort.SliceStable]. *)
Section stable_sort.
Context {A : Type} (less : A -> A -> bool).

Fixpoint insert_by (x : A) (l : list A) : list A :=
  match l with
  | [] => [x]
  | y :: l' => if less x y then x :: l else y :: insert_by x l'
  end.

Definition sort_stable (l : list A) : list A := fold_left (fun acc x => insert_by x acc) l [].
End stable_sort.

(** Eligible candidates, with their positions. *)
Definition eligible_at (out : list Candidate) : list nat :=
  List.filter (fun i => match out !! i with Some c => cd_Eligible c | None => false end) (seq 0 (length out)).

Definition quality_at (out : list Candidate) (i : nat) : f64 :=
  match out !! i with Some c => sc_Quality (cd_Scores c) | None => f0 end.

(** [best := first; for ... if q > best { best = q }]. *)
Definition best_quality (out : list Candidate) (el : list nat) : f64 :=
  match el with
  | [] => f0
  | i :: _ => fold_left (fun best j => if fgt (quality_at out j) best then quality_at out j else best) el (quality_at out i)
  end.

Definition band_of (cfg : SchedulerSettings) (out : list Candidate) (el : list nat) : list nat :=
  let floor := fmul (best_quality out el) (fsub f1 (Epsilon cfg)) in
  List.filter (fun i => fge (fadd (quality_at out i) (f_dec 1 9)) floor) el.

Definition less_at (mode : string) (req : Request) (out : list Candidate) (i j : nat) : bool :=
  match out !! i, out !! j with
  | Some a, Some b => candidateLess mode req a b
  | _, _ => false
  end.

(** At least three samples under 80 % success. *)
Definition known_bad (c : Candidate) : bool := (3 <=? sc_Samples (cd_Scores c)) && flt (sc_SuccessRate (cd_Scores c)) (f_dec 8 1).

Definition colder (a b : Candidate) : bool :=
  (sc_Samples (cd_Scores a) <? sc_Samples (cd_Scores b))
  || ((sc_Samples (cd_Scores a) =? sc_Samples (cd_Scores b)) && (cd_KeyID a <? cd_KeyID b)).

Definition coldestOutBand (cands : list Candidate) (band : list nat) : option nat :=
  fst <$> scan_best (fun i c => cd_Eligible c && negb (bool_decide (i ∈ band)) && negb (known_bad c)) colder cands.

Definition select_at (out : list Candidate) (i : nat) (reason : string) (hit : bool) : list Candidate :=
  alter (fun c => with_decision c (cd_InBand c) true (if String.eqb reason "" then cd_DecisionReason c else reason)
                    (cd_RankingMode c) hit) i out.

(** [InBand = true] and the mode, for the band. *)
Definition mark_band (out : list Candidate) (band : list nat) (mode : string) : list Candidate :=
  imap (fun i c => if bool_decide (i ∈ band)
                   then with_decision c true (cd_Selected c) (cd_DecisionReason c) mode (cd_AffinityHit c) else c) out.

Definition unselect (out : list Candidate) (band : list nat) : list Candidate :=
  imap (fun i c => if bool_decide (i ∈ band)
                   then with_decision c (cd_InBand c) false (cd_DecisionReason c) (cd_RankingMode c) false else c) out.

(** The exploration override: the coldest candidate outside the band. *)
Definition explore (cfg : SchedulerSettings) (req : Request) (mode : string) (band : list nat) (out : list Candidate) : list Candidate :=
  if rq_ExplorationSlot req && fgt (ExplorationRatio cfg) f0 && String.eqb (TrimSpace (rq_Session req)) "" then
    match coldestOutBand out band with
    | Some i => alter (fun c => with_decision c (cd_InBand c) true "exploration" mode (cd_AffinityHit c)) i (unselect out band)
    | None => out
    end
  else out.

(** The selection among eligible candidates; [stickyID] is the session's key or 0. *)
Definition rank (cfg : SchedulerSettings) (req : Request) (stickyID : Z) (out : list Candidate) : list Candidate :=
  let el := eligible_at out in
  match find (fun i => match out !! i with Some c => cd_Recovery c | None => false end) el with
  | Some i => alter (fun c => with_decision c (cd_InBand c) true "recovery_validation" (cd_RankingMode c) (cd_AffinityHit c)) i out
  | None =>
      if bool_decide (el = []) || String.eqb (RankingMode cfg) "stable_latency" then out else
      let band := band_of cfg out el in
      let mode := effectiveRankingMode (RankingMode cfg) (rq_Session req) in
      let out := mark_band out band mode in
      let sticky := if String.eqb mode "cache_affinity" && (0 <? stickyID)
                    then find (fun i => match out !! i with Some c => cd_KeyID c =? stickyID | None => false end) band
                    else None in
      match sticky with
      | Some i => select_at out i "" true
      | None =>
          let sorted := sort_stable (less_at mode req out) band in
          let hit := String.eqb mode "cache_affinity" && negb (String.eqb (TrimSpace (rq_Session req)) "") in
          let out := match sorted with i :: _ => select_at out i "" hit | [] => out end in
          explore cfg req mode band out
      end
  end.

(** ** Sticky sessions *)

Record stickyEntry : Type := mkSticky { se_KeyID : Z; se_Expiry : time }.

Definition stickyEnabled (protocol : string) (cfg : SchedulerSettings) : bool :=
  if String.eqb protocol ProtocolAnthropic then StickyAnthropic cfg
  else if String.eqb protocol ProtocolOpenAI then StickyOpenAI cfg else false.

Definition stickyRedisKey (session : string) : string := "sum:sticky:" +:+ session.

(** [rget]: the id Redis holds under a key, if Redis is configured and answers. *)
Definition stickyKey (req : Request) (cfg : SchedulerSettings) (rget : string -> option Z)
    (sticky : gmap string stickyEntry) (now : time) : Z :=
  if String.eqb (TrimSpace (rq_Session req)) "" || negb (stickyEnabled (rq_Protocol req) cfg) then 0 else
  match rget (stickyRedisKey (rq_Session req)) with
  | Some id => id
  | None => match sticky !! rq_Session req with
            | Some e => if After (se_Expiry e) now then se_KeyID e else 0
            | None => 0
            end
  end.

(** The Redis command sent, if any, and the local map after. *)
Definition SetSticky (cfg : SchedulerSettings) (protocol session : string) (keyID : Z) (now : time)
    (sticky : gmap string stickyEntry) : option (string * string * duration) * gmap string stickyEntry :=
  if String.eqb (TrimSpace session) "" || (keyID =? 0) || negb (stickyEnabled protocol cfg) then (None, sticky) else
  let ttl := StickyTTLSec cfg * Second in
  (Some (stickyRedisKey session, fmt_uint keyID, ttl), <[session := mkSticky keyID (now + ttl)]> sticky).

(** ** The whole pass *)

(** What a pass reads besides the runtime and the routing tables. *)
Record Env : Type := mkEnv {
  en_keys : list PlatformKey;               (* ORDER BY id *)
  en_cooldowns : list KeyModelCooldown;
  en_probes : Z -> option ProbeLog;         (* latest probe per key, diagnostics only *)
  en_window : Z -> string -> Window;        (* metrics window of key and model *)
  en_bound : Z;                             (* key bound to the session, 0 if none *)
  en_sticky : Z                             (* sticky key of the session, 0 if none *)
}.

Definition evaluate (cfg : SchedulerSettings) (env : Env) (req : Request) (now : time) (rt : runtimeState) (tb : Tables)
  : result rherr (list Candidate * runtimeState * Tables) :=
  let cool := activeModelCooldowns (en_cooldowns env) (en_keys env) (rq_Model req) now in
  let '(cs, rt') := inspect_all (en_keys env) req cfg cool (fun k => en_window env k (rq_Model req)) now rt in
  match applyRoutingHealth tb (if rq_Diagnostic req then en_probes env else fun _ => None) req (en_bound env) now cs with
  | Err e => Err e
  | Ok (out, tb') => Ok (rank cfg req (en_sticky env) out, rt', tb')
  end.

(** The exploration interval of [prepareBudget]. *)
Definition exploration_interval (cfg : SchedulerSettings) : Z :=
  if fgt (ExplorationRatio cfg) f0 then f_to_int (fceil (fdiv f1 (ExplorationRatio cfg))) else 0.

Definition with_budget (req : Request) (mutate ready slot : bool) : Request :=
  mkRequest mutate (rq_Diagnostic req) ready slot (rq_ConsumerID req) (rq_Path req) (rq_Stream req) (rq_SessionSource req)
    (rq_Protocol req) (rq_Model req) (rq_Session req) (rq_Exclude req) (rq_ExcludeProviders req) (rq_ExcludeKeyModels req)
    (rq_AllowKeys req) (rq_DriftKeys req) (rq_RouteReasons req).

Definition prepareBudget (cfg : SchedulerSettings) (req : Request) (mutate : bool) (tb : Tables) : result rherr (Request * Tables) :=
  if rq_BudgetReady req then Ok (with_budget req mutate true (rq_ExplorationSlot req), tb) else
  if bool_decide (rq_Exclude req ++ rq_ExcludeProviders req ++ rq_ExcludeKeyModels req <> [])
  then Ok (with_budget req mutate true (rq_ExplorationSlot req), tb) else
  match transaction (Slot (routeScope req) (exploration_interval cfg) mutate) tb with
  | (Ok slot, tb') => Ok (with_budget req mutate true slot, tb')
  | (Err e, _) => Err e
  end.
