(* ===== verification/PickerProps.v ===== *)
(** * What the selection guarantees (internal/picker/band.go, routing_health.go)

    [choice] is the specification of the ranking: which candidate a pass may
    select and why.  [rank] implements it, and [evaluate] only ever selects a key
    that passes every hard rule and has no open circuit in its way, except one
    admitted for validation. *)

From S2P Require Import Prelude GoFloat GoString Settings Domain Capacity Window Score Database Circuit CircuitProps CircuitSafety Picker.

(** ** Orders *)

Lemma flt_trans x y z : flt x y = true -> flt y z = true -> flt x z = true.
Proof.
  rewrite !flt_spec. intros [H1 H2] [H3 H4]. split; [by eapply fle_trans|].
  destruct (fle z x) eqn:E; [|done]. by rewrite (fle_trans y z x) in H2.
Qed.

Lemma cost_less_spec a b :
  cost_less a b = true <->
  flt (sc_EffectiveCost (cd_Scores a)) (sc_EffectiveCost (cd_Scores b)) = true
  \/ feq (sc_EffectiveCost (cd_Scores a)) (sc_EffectiveCost (cd_Scores b)) = true /\ cd_KeyID a < cd_KeyID b.
Proof.
  unfold cost_less, feq, flt. destruct (fle _ _), (fle _ _); simpl; rewrite ?Z.ltb_lt; intuition congruence.
Qed.

Lemma cost_less_irrefl a : cost_less a a = false.
Proof. apply not_true_is_false. rewrite cost_less_spec. unfold flt. intros [H|[_ H]]; [|lia]. by destruct (fle _ _). Qed.

Lemma cost_less_trans a b c : cost_less a b = true -> cost_less b c = true -> cost_less a c = true.
Proof.
  rewrite !cost_less_spec. unfold feq. rewrite !flt_spec, !andb_true_iff.
  set (x := sc_EffectiveCost (cd_Scores a)). set (y := sc_EffectiveCost (cd_Scores b)).
  set (z := sc_EffectiveCost (cd_Scores c)). intros [[H1 H2]|[[H1 H2] L]] [[H3 H4]|[[H3 H4] L']];
    (assert (Hxz : fle x z = true) by (by eapply fle_trans)).
  - left. split; [done|]. destruct (fle z x) eqn:E; [|done]. by rewrite (fle_trans y z x) in H2.
  - left. split; [done|]. destruct (fle z x) eqn:E; [|done]. by rewrite (fle_trans y z x) in H2.
  - left. split; [done|]. destruct (fle z x) eqn:E; [|done]. by rewrite (fle_trans z x y) in H4.
  - right. split; [split; [done|by eapply fle_trans]|lia].
Qed.

(** Lexicographic steps of the orders: compare two integers first. *)
Ltac lex :=
  repeat match goal with
  | |- context [?a =? ?b] => destruct (Z.eqb_spec a b); simpl
  | H : context [?a =? ?b] |- _ => destruct (Z.eqb_spec a b); simpl in H
  end.

Lemma candidateLess_irrefl mode req a : candidateLess mode req a a = false.
Proof. unfold candidateLess. rewrite !Z.eqb_refl. simpl. repeat case_match; try lia; apply cost_less_irrefl. Qed.

Lemma candidateLess_trans mode req a b c :
  candidateLess mode req a b = true -> candidateLess mode req b c = true -> candidateLess mode req a c = true.
Proof.
  unfold candidateLess. repeat (destruct (String.eqb mode _)); try apply cost_less_trans; try lia;
    intros H1 H2; lex; try lia; by eapply cost_less_trans.
Qed.

Lemma recoveryBefore_irrefl a : recoveryBefore a a = false.
Proof. unfold recoveryBefore. rewrite !Z.eqb_refl. simpl. destruct (ci_RecoveryLastAt _); rewrite ?Z.eqb_refl; simpl; lia. Qed.

Lemma recoveryBefore_trans a b c : recoveryBefore a b = true -> recoveryBefore b c = true -> recoveryBefore a c = true.
Proof. unfold recoveryBefore, Before. repeat case_match; try done; simplify_eq; bools; lia. Qed.

Lemma recoveryBefore_split a b c : recoveryBefore a c = true -> recoveryBefore a b = true \/ recoveryBefore b c = true.
Proof. unfold recoveryBefore, Before. repeat case_match; auto; try done; simplify_eq; bools; lia. Qed.

Lemma colder_irrefl a : colder a a = false.
Proof. unfold colder. lia. Qed.

Lemma colder_trans a b c : colder a b = true -> colder b c = true -> colder a c = true.
Proof. unfold colder. lia. Qed.

(** ** The stable sort *)

Section sorting_lemmas.
Context {A : Type} (less : A -> A -> bool).
Context (irrefl : forall a, less a a = false).
Context (trans : forall a b c, less a b = true -> less b c = true -> less a c = true).

Lemma insert_by_perm x l : insert_by less x l ≡ₚ x :: l.
Proof. induction l as [|y l IH]; simpl; [done|]. case_match; [done|]. rewrite IH. apply Permutation_swap. Qed.

Lemma sort_stable_acc l acc : fold_left (fun acc x => insert_by less x acc) l acc ≡ₚ l ++ acc.
Proof.
  revert acc. induction l as [|x l IH]; intros acc; simpl; [done|].
  rewrite IH, insert_by_perm. by rewrite <- Permutation_middle.
Qed.

Lemma sort_stable_perm l : sort_stable less l ≡ₚ l.
Proof. unfold sort_stable. by rewrite sort_stable_acc, app_nil_r. Qed.

(** No element of the list comes before its first one. *)
Definition head_least (l : list A) : Prop :=
  match l with [] => True | h :: _ => Forall (fun z => less z h = false) l end.

Lemma insert_by_head x l : head_least l -> head_least (insert_by less x l).
Proof using irrefl trans.
  destruct l as [|h l]; simpl; [by constructor|]. intros H. destruct (less x h) eqn:E; simpl.
  - constructor; [by apply irrefl|]. revert H. apply List.Forall_impl. intros z Hz.
    destruct (less z x) eqn:E2; [|done]. by rewrite (trans z x h) in Hz.
  - inversion H as [|? ? H1 H2]; subst. constructor; [done|].
    rewrite insert_by_perm. by constructor.
Qed.

Lemma sort_stable_head l : head_least (sort_stable less l).
Proof using irrefl trans.
  unfold sort_stable. assert (H : head_least []) by done. revert H. generalize (@nil A).
  induction l as [|x l IH]; intros acc H; simpl; [done|]. apply IH. by apply insert_by_head.
Qed.
End sorting_lemmas.

(** ** The specification of the ranking *)

(** An eligible candidate at position [i]. *)
Definition eligible (out : list Candidate) (i : nat) : Prop := exists c, out !! i = Some c /\ cd_Eligible c = true.

(** The quality band: eligible and within epsilon of the best quality. *)
Definition in_band (cfg : SchedulerSettings) (out : list Candidate) (i : nat) : Prop :=
  exists c b, out !! i = Some c /\ cd_Eligible c = true
    /\ eligible out b /\ (forall j, eligible out j -> fle (quality_at out j) (quality_at out b) = true)
    /\ fge (fadd (sc_Quality (cd_Scores c)) (f_dec 1 9)) (fmul (quality_at out b) (fsub f1 (Epsilon cfg))) = true.

Definition sessionless (req : Request) : bool := String.eqb (TrimSpace (rq_Session req)) "".

(** May be explored: eligible, outside the band and not known to be bad. *)
Definition explorable (cfg : SchedulerSettings) (out : list Candidate) (i : nat) (c : Candidate) : Prop :=
  out !! i = Some c /\ cd_Eligible c = true /\ ~ in_band cfg out i /\ known_bad c = false.

(** Nobody is admitted for validation. *)
Definition no_validation (out : list Candidate) : Prop := forall i c, out !! i = Some c -> cd_Eligible c = true -> cd_Recovery c = false.

(** The session's key, in the band. *)
Definition sticky_at (cfg : SchedulerSettings) (req : Request) (stickyID : Z) (out : list Candidate) (i : nat) : Prop :=
  effectiveRankingMode (RankingMode cfg) (rq_Session req) = "cache_affinity" /\ 0 < stickyID /\ in_band cfg out i
  /\ exists c, out !! i = Some c /\ cd_KeyID c = stickyID.

(** The request was granted an exploration slot. *)
Definition explores (cfg : SchedulerSettings) (req : Request) : Prop :=
  rq_ExplorationSlot req = true /\ fgt (ExplorationRatio cfg) f0 = true /\ sessionless req = true.

(** The choices, each allowed only when none of those before it is possible. *)
Inductive choice (cfg : SchedulerSettings) (req : Request) (stickyID : Z) (out : list Candidate) : option nat -> Prop :=
| choice_recovery i c :
    (* a validation goes first *)
    out !! i = Some c -> cd_Eligible c = true -> cd_Recovery c = true -> choice cfg req stickyID out (Some i)
| choice_none :
    no_validation out -> (forall i, ~ eligible out i) \/ RankingMode cfg = "stable_latency" -> choice cfg req stickyID out None
| choice_sticky i :
    (* the session's key, while it is in the band *)
    no_validation out -> RankingMode cfg <> "stable_latency" -> sticky_at cfg req stickyID out i ->
    choice cfg req stickyID out (Some i)
| choice_exploration i c :
    (* on a granted slot, the coldest candidate outside the band *)
    no_validation out -> RankingMode cfg <> "stable_latency" -> (forall j, ~ sticky_at cfg req stickyID out j) ->
    explores cfg req -> explorable cfg out i c ->
    (forall j d, explorable cfg out j d -> colder d c = false) -> choice cfg req stickyID out (Some i)
| choice_best i c :
    (* first of the band in the order of the mode *)
    no_validation out -> RankingMode cfg <> "stable_latency" -> (forall j, ~ sticky_at cfg req stickyID out j) ->
    (explores cfg req -> forall j d, ~ explorable cfg out j d) -> out !! i = Some c -> in_band cfg out i ->
    (forall j d, out !! j = Some d -> in_band cfg out j ->
       candidateLess (effectiveRankingMode (RankingMode cfg) (rq_Session req)) req d c = false) ->
    choice cfg req stickyID out (Some i).

(** What the ranking may change of a candidate. *)
Definition same_core (c c' : Candidate) : Prop :=
  exists inband selected reason mode hit, c' = with_decision c inband selected reason mode hit.

Lemma same_core_refl c : same_core c c.
Proof. exists (cd_InBand c), (cd_Selected c), (cd_DecisionReason c), (cd_RankingMode c), (cd_AffinityHit c). by destruct c. Qed.

(** [out'] is [out] with exactly the candidate [sel] selected. *)
Definition selects (out : list Candidate) (sel : option nat) (out' : list Candidate) : Prop :=
  length out' = length out
  /\ forall i c, out !! i = Some c ->
       exists c', out' !! i = Some c' /\ same_core c c' /\ cd_Selected c' = bool_decide (sel = Some i).

(** ** The ranking implements it *)

Lemma eligible_at_spec out i : i ∈ eligible_at out <-> eligible out i.
Proof.
  unfold eligible_at, eligible. rewrite list_elem_of_In, filter_In, in_seq. split.
  - intros [_ H]. destruct (out !! i) as [c|] eqn:E; [|done]. eauto.
  - intros (c & H & He). rewrite H. pose proof (lookup_lt_Some _ _ _ H). split; [lia|done].
Qed.

Lemma best_fold_spec out l x :
  is_nan x = false -> (forall i, i ∈ l -> is_nan (quality_at out i) = false) ->
  let b := fold_left (fun best j => if fgt (quality_at out j) best then quality_at out j else best) l x in
  (b = x \/ exists j, j ∈ l /\ b = quality_at out j) /\ fle x b = true
  /\ forall j, j ∈ l -> fle (quality_at out j) b = true.
Proof.
  revert x. induction l as [|i l IH]; intros x Hx Hl; simpl.
  - split_and!; [by left|by apply fle_refl|]. intros j Hj. by apply not_elem_of_nil in Hj.
  - assert (Hi : is_nan (quality_at out i) = false) by (apply Hl; by left).
    set (x' := if fgt (quality_at out i) x then quality_at out i else x).
    assert (Hx' : is_nan x' = false) by (unfold x'; by case_match).
    assert (L : fle x x' = true /\ fle (quality_at out i) x' = true).
    { unfold x', fgt. destruct (flt x (quality_at out i)) eqn:E; split; try (by apply fle_refl).
      - by apply flt_fle. - by apply flt_false_fle. }
    destruct (IH x' Hx' ltac:(intros; apply Hl; by right)) as (H1 & H2 & H3). split_and!.
    + destruct H1 as [H1|(j & Hj & H1)]; [|right; exists j; split; [by right|done]].
      rewrite H1. unfold x'. case_match; [right; exists i; split; [by left|done]|by left].
    + eapply fle_trans; [apply L|done].
    + intros j [->|Hj]%elem_of_cons; [eapply fle_trans; [apply L|done]|by apply H3].
Qed.

(** Qualities of eligible candidates are float64 values in [0, 1]. *)
Definition quality_ok (out : list Candidate) : Prop :=
  forall i c, out !! i = Some c -> cd_Eligible c = true -> valid (sc_Quality (cd_Scores c)) /\ fbetween f0 (sc_Quality (cd_Scores c)) f1.

Lemma quality_at_ok out i : quality_ok out -> eligible out i -> valid (quality_at out i) /\ fbetween f0 (quality_at out i) f1.
Proof. intros Q (c & H & He). unfold quality_at. rewrite H. by eapply Q. Qed.

Lemma fbetween_not_nan x : fbetween f0 x f1 -> is_nan x = false.
Proof. intros H. by apply fbetween_fin in H; destruct x. Qed.

Lemma best_quality_spec out :
  quality_ok out -> eligible_at out <> [] ->
  exists b, eligible out b /\ best_quality out (eligible_at out) = quality_at out b
            /\ forall j, eligible out j -> fle (quality_at out j) (quality_at out b) = true.
Proof.
  intros Q Hne. destruct (eligible_at out) as [|i el] eqn:E; [done|]. unfold best_quality.
  assert (N : forall j, j ∈ i :: el -> is_nan (quality_at out j) = false).
  { intros j Hj. rewrite <- E in Hj. apply fbetween_not_nan, quality_at_ok; [done|by apply eligible_at_spec]. }
  destruct (best_fold_spec out (i :: el) (quality_at out i) (N i ltac:(by left)) N) as (H1 & H2 & H3).
  assert (A : exists b, b ∈ i :: el /\ fold_left (fun best j => if fgt (quality_at out j) best then quality_at out j else best)
              (i :: el) (quality_at out i) = quality_at out b).
  { destruct H1 as [H1|(b & Hb & H1)]; [exists i; split; [by left|done]|eauto]. }
  destruct A as (b & Hb & Eb). exists b. rewrite <- E in Hb. apply eligible_at_spec in Hb. split_and!; [done|done|].
  intros j Hj. rewrite <- Eb. apply H3. rewrite <- E. by apply eligible_at_spec.
Qed.

(** Adding 1e-9 does not decrease a quality. *)
Lemma quality_slack q e :
  valid q -> fbetween f0 q f1 -> fbetween f0 e f1 -> fge (fadd q (f_dec 1 9)) (fmul q (fsub f1 e)) = true.
Proof.
  intros V Hq He. pose proof (fbetween_fin q Hq) as F. unfold fge. eapply fle_trans.
  - apply fmul_le_l; [done|done|apply Hq|by apply fsub_unit].
  - rewrite <- (fadd_0_r q V F) at 1. apply fadd_mono; [apply Hq|done|apply fle_refl; by destruct q|vm_compute; reflexivity].
Qed.

Section band.
Context (cfg : SchedulerSettings) (out : list Candidate).
Context (Q : quality_ok out) (Eps : fbetween f0 (Epsilon cfg) f1).

Lemma band_of_spec i : i ∈ band_of cfg out (eligible_at out) <-> in_band cfg out i.
Proof using Q.
  unfold band_of. rewrite list_elem_of_In, filter_In, <- list_elem_of_In, eligible_at_spec.
  split.
  - intros [(c & H & He) Hf]. destruct (best_quality_spec out Q) as (b & Hb & Eb & Max).
    { intros Hnil. assert (i ∈ eligible_at out) as Hi by (apply eligible_at_spec; by exists c). rewrite Hnil in Hi.
      by apply not_elem_of_nil in Hi. }
    exists c, b. split_and!; try done. rewrite <- Eb. unfold quality_at in Hf. by rewrite H in Hf.
  - intros (c & b & H & He & Hb & Max & Hf). split; [by exists c|]. unfold quality_at at 1. rewrite H.
    destruct (best_quality_spec out Q) as (b' & Hb' & Eb & Max').
    { intros Hnil. apply eligible_at_spec in Hb. rewrite Hnil in Hb. by apply not_elem_of_nil in Hb. }
    rewrite Eb. destruct (quality_at_ok out b Q Hb) as [V1 B1], (quality_at_ok out b' Q Hb') as [V2 B2].
    by rewrite (valid_antisym _ _ V2 V1 (fbetween_fin _ B2) (Max _ Hb') (Max' _ Hb)).
Qed.

Lemma band_nonempty : eligible_at out <> [] -> band_of cfg out (eligible_at out) <> [].
Proof using Q Eps.
  intros Hne Hnil. destruct (best_quality_spec out Q Hne) as (b & Hb & Eb & Max).
  assert (Hin : b ∈ band_of cfg out (eligible_at out)); [|rewrite Hnil in Hin; by apply not_elem_of_nil in Hin].
  apply band_of_spec. destruct (quality_at_ok out b Q Hb) as [V B]. destruct Hb as (c & H & He).
  exists c, b. split_and!; [done|done|by exists c|done|]. pose proof (quality_slack _ _ V B Eps) as S.
  unfold quality_at in S at 1. by rewrite H in S.
Qed.
End band.

(** ** Bookkeeping of the selected flag *)

Definition unselected (out : list Candidate) : Prop := forall i c, out !! i = Some c -> cd_Selected c = false.

Lemma same_core_trans a b c : same_core a b -> same_core b c -> same_core a c.
Proof. intros (?&?&?&?&?&->) (?&?&?&?&?&->). by eexists _, _, _, _, _. Qed.

Lemma same_core_eqs c c' :
  same_core c c' ->
  cd_Key c' = cd_Key c /\ cd_Scores c' = cd_Scores c /\ cd_Eligible c' = cd_Eligible c /\ cd_Recovery c' = cd_Recovery c
  /\ cd_KeyInflight c' = cd_KeyInflight c /\ cd_ProviderInflight c' = cd_ProviderInflight c /\ cd_SkipReason c' = cd_SkipReason c
  /\ cd_Info c' = cd_Info c.
Proof. by intros (?&?&?&?&?&->). Qed.

(** A list whose candidates differ from [out] only in their decision. *)
Definition recast (out out' : list Candidate) : Prop := Forall2 same_core out out'.

Lemma recast_refl out : recast out out.
Proof. apply Forall_Forall2_diag, Forall_true, same_core_refl. Qed.

Lemma recast_lookup out out' i c :
  recast out out' -> out !! i = Some c -> exists c', out' !! i = Some c' /\ same_core c c'.
Proof. apply Forall2_lookup_l. Qed.

Lemma recast_lookup_r out out' i c' :
  recast out out' -> out' !! i = Some c' -> exists c, out !! i = Some c /\ same_core c c'.
Proof. apply Forall2_lookup_r. Qed.

Lemma recast_imap (f : nat -> Candidate -> Candidate) out :
  (forall i c, same_core c (f i c)) -> recast out (imap f out).
Proof.
  intros H. apply Forall2_same_length_lookup_2; [by rewrite length_imap|].
  intros i x y Hx Hy. rewrite list_lookup_imap, Hx in Hy. by simplify_eq/=.
Qed.

Lemma candidateLess_core mode req a b a' b' :
  same_core a a' -> same_core b b' -> candidateLess mode req a' b' = candidateLess mode req a b.
Proof. by intros (?&?&?&?&?&->) (?&?&?&?&?&->). Qed.

Lemma colder_core a b a' b' : same_core a a' -> same_core b b' -> colder a' b' = colder a b.
Proof. by intros (?&?&?&?&?&->) (?&?&?&?&?&->). Qed.

Lemma less_at_lookup mode req out i j a b :
  out !! i = Some a -> out !! j = Some b -> less_at mode req out i j = candidateLess mode req a b.
Proof. unfold less_at. by intros -> ->. Qed.

Lemma selects_recast out out1 sel out2 : recast out out1 -> selects out1 sel out2 -> selects out sel out2.
Proof.
  intros R [L H]. split; [by rewrite L, (Forall2_length R)|]. intros i c Hc.
  destruct (recast_lookup _ _ _ _ R Hc) as (c1 & H1 & S1). destruct (H i c1 H1) as (c2 & H2 & S2 & E).
  exists c2. split_and!; [done|by eapply same_core_trans|done].
Qed.

Lemma selects_alter out i f :
  unselected out -> (forall c, same_core c (f c)) -> (forall c, cd_Selected (f c) = true) -> selects out (Some i) (alter f i out).
Proof.
  intros U Hf Ht. split; [by rewrite length_alter|]. intros j c Hj. destruct (decide (i = j)) as [->|Hne].
  - exists (f c). rewrite list_lookup_alter_eq, Hj. split_and!; [done|done|]. rewrite Ht. by rewrite bool_decide_true.
  - exists c. rewrite list_lookup_alter_ne by done. split_and!; [done|apply same_core_refl|].
    rewrite bool_decide_false by congruence. by eapply U.
Qed.

Lemma selects_none out : unselected out -> selects out None out.
Proof. intros U. split; [done|]. intros i c H. exists c. split_and!; [done|apply same_core_refl|]. by rewrite (U i c H). Qed.

Ltac decided := intros; eexists _, _, _, _, _; reflexivity.

Lemma mark_band_recast out band mode : recast out (mark_band out band mode).
Proof. apply recast_imap. intros i c. case_bool_decide; [decided|apply same_core_refl]. Qed.

Lemma mark_band_unselected out band mode : unselected out -> unselected (mark_band out band mode).
Proof.
  intros U i c H. unfold mark_band in H. rewrite list_lookup_imap in H. destruct (out !! i) as [d|] eqn:E; [|done].
  simplify_eq/=. case_bool_decide; by apply (U i d).
Qed.

Lemma unselect_recast out band : recast out (unselect out band).
Proof. apply recast_imap. intros i c. case_bool_decide; [decided|apply same_core_refl]. Qed.

(** After [unselect] nothing is selected if the selection was in the band. *)
Lemma unselect_unselected out band i f :
  unselected out -> i ∈ band -> unselected (unselect (alter f i out) band).
Proof.
  intros U Hi j c H. unfold unselect in H. rewrite list_lookup_imap in H.
  destruct (alter f i out !! j) as [d|] eqn:E; [|done]. simplify_eq/=. case_bool_decide as B; [done|].
  rewrite list_lookup_alter_ne in E by (intros ->; done). by apply (U j d).
Qed.

Lemma find_spec {A} (p : A -> bool) l x : find p l = Some x -> x ∈ l /\ p x = true.
Proof. intros H. apply List.find_some in H as [H1 H2]. by rewrite list_elem_of_In. Qed.

Section ranking.
Context (cfg : SchedulerSettings) (req : Request) (stickyID : Z) (out : list Candidate).
Context (Q : quality_ok out) (Eps : fbetween f0 (Epsilon cfg) f1) (U : unselected out).
Context (Mode : RankingMode cfg <> "stable_latency") (NoVal : no_validation out) (NoSticky : forall j, ~ sticky_at cfg req stickyID out j).
Let mode := effectiveRankingMode (RankingMode cfg) (rq_Session req).
Let band := band_of cfg out (eligible_at out).
Let marked := mark_band out band mode.

Lemma coldest_explorable i :
  forall out', recast out out' -> coldestOutBand out' band = Some i ->
  exists c, explorable cfg out i c /\ forall j d, explorable cfg out j d -> colder d c = false.
Proof using Q.
  intros out' R. unfold coldestOutBand. rewrite fmap_Some. intros ([i' c'] & Hs & ->). simpl.
  pose proof (scan_best_inv (fun i c => cd_Eligible c && negb (bool_decide (i ∈ band)) && negb (known_bad c))
    colder colder_irrefl colder_trans out') as I. rewrite Hs in I. simpl in I. destruct I as (H1 & H2 & H3).
  destruct (recast_lookup_r _ _ _ _ R H1) as (c & Hc & S). exists c. split.
  - apply andb_true_iff in H2 as [[He Hb]%andb_true_iff Hk%negb_true_iff]. apply negb_true_iff, bool_decide_eq_false in Hb.
    destruct S as (?&?&?&?&?&->). split_and!; try done. by rewrite <- band_of_spec.
  - intros j d (Hj & He & Hb & Hk). destruct (recast_lookup _ _ _ _ R Hj) as (d' & Hd' & S').
    rewrite <- (colder_core d c d' c' S' S). apply (H3 j d' Hd').
    destruct S' as (?&?&?&?&?&->). rewrite <- band_of_spec in Hb by done.
    change (cd_Eligible d && negb (bool_decide (j ∈ band)) && negb (known_bad d) = true).
    rewrite He, Hk, bool_decide_false; done.
Qed.

Lemma coldest_none out' : recast out out' -> coldestOutBand out' band = None -> forall j d, ~ explorable cfg out j d.
Proof using Q.
  intros R. unfold coldestOutBand. rewrite fmap_None. intros Hs j d (Hj & He & Hb & Hk).
  pose proof (scan_best_inv (fun i c => cd_Eligible c && negb (bool_decide (i ∈ band)) && negb (known_bad c))
    colder colder_irrefl colder_trans out') as I. rewrite Hs in I. simpl in I.
  destruct (recast_lookup _ _ _ _ R Hj) as (d' & Hd' & S'). specialize (I j d' Hd'). destruct S' as (?&?&?&?&?&->).
  rewrite <- band_of_spec in Hb by done. change (cd_Eligible d && negb (bool_decide (j ∈ band)) && negb (known_bad d) = false) in I.
  by rewrite He, Hk, bool_decide_false in I.
Qed.

(** The exploration override of a selection inside the band. *)
Lemma explore_refines i f :
  i ∈ band -> (forall c, same_core c (f c)) -> (forall c, cd_Selected (f c) = true) ->
  ((explores cfg req -> forall j d, ~ explorable cfg out j d) -> choice cfg req stickyID out (Some i)) ->
  exists sel, choice cfg req stickyID out (Some sel) /\ selects out (Some sel) (explore cfg req mode band (alter f i marked)).
Proof using Q U Mode NoVal NoSticky.
  intros Hi Hf Ht Hch. pose proof (mark_band_recast out band mode) as R. fold marked in R.
  pose proof (mark_band_unselected out band mode U) as Um. fold marked in Um.
  assert (Base : selects out (Some i) (alter f i marked)) by (eapply selects_recast; [exact R|by apply selects_alter]).
  assert (R2 : recast out (alter f i marked)).
  { apply Forall2_same_length_lookup_2; [by rewrite length_alter, <- (Forall2_length R)|]. intros k x y Hx Hy.
    destruct Base as [_ Base]. destruct (Base k x Hx) as (y' & Hy' & S & _). congruence. }
  unfold explore. destruct (rq_ExplorationSlot req && _ && _) eqn:E.
  2: { exists i. split; [|done]. apply Hch. intros (E1 & E2 & E3). unfold sessionless in E3. by rewrite E1, E2, E3 in E. }
  apply andb_true_iff in E as [[E1 E2]%andb_true_iff E3].
  destruct (coldestOutBand (alter f i marked) band) as [j|] eqn:Ec.
  2: { exists i. split; [|done]. apply Hch. intros _. by apply (coldest_none _ R2). }
  destruct (coldest_explorable j _ R2 Ec) as (c & Hc & Hmin). exists j. split; [by eapply choice_exploration|].
  eapply selects_recast; [exact R2|]. eapply selects_recast; [apply (unselect_recast _ band)|].
  apply selects_alter; [by apply unselect_unselected|decided|done].
Qed.

Lemma sorted_head_best i rest :
  sort_stable (less_at mode req marked) band = i :: rest ->
  i ∈ band /\ ((explores cfg req -> forall j d, ~ explorable cfg out j d) -> choice cfg req stickyID out (Some i)).
Proof using Q Mode NoVal NoSticky.
  intros Hs. pose proof (mark_band_recast out band mode) as R. fold marked in R.
  assert (Hi : i ∈ band). { rewrite <- (sort_stable_perm (less_at mode req marked) band), Hs. by left. }
  split; [done|]. intros Nx. pose proof Hi as Hb. apply band_of_spec in Hb as Hb'; [|done].
  destruct Hb' as (c & b & Hc & He & _). eapply choice_best; [done|done|done|done|exact Hc|by apply band_of_spec|].
  intros j d Hd Hj. apply band_of_spec in Hj; [|done]. fold band in Hj.
  assert (Irr : forall a, less_at mode req marked a a = false).
  { intros a. unfold less_at. case_match; [apply candidateLess_irrefl|done]. }
  assert (Tr : forall x y z, less_at mode req marked x y = true -> less_at mode req marked y z = true ->
                             less_at mode req marked x z = true).
  { intros x y z. unfold less_at. repeat case_match; try done. apply candidateLess_trans. }
  pose proof (sort_stable_head _ Irr Tr band) as Hh. rewrite Hs in Hh. simpl in Hh. rewrite Forall_forall in Hh.
  assert (Hjs : j ∈ i :: rest) by (rewrite <- Hs, sort_stable_perm; done).
  rewrite list_elem_of_In in Hjs. specialize (Hh j Hjs). destruct (recast_lookup _ _ _ _ R Hc) as (c' & Hc' & S), (recast_lookup _ _ _ _ R Hd) as (d' & Hd' & S').
  rewrite (less_at_lookup _ _ _ _ _ _ _ Hd' Hc') in Hh. by rewrite (candidateLess_core _ _ _ _ _ _ S' S) in Hh.
Qed.
End ranking.

(** Every branch of the ranking. *)
Lemma rank_refines_lemma cfg req stickyID out :
  quality_ok out -> fbetween f0 (Epsilon cfg) f1 -> unselected out ->
  exists sel, choice cfg req stickyID out sel /\ selects out sel (rank cfg req stickyID out).
Proof.
  intros Q Eps U. unfold rank. destruct (find _ (eligible_at out)) as [i|] eqn:Ef.
  { apply find_spec in Ef as [Hi Hr]. apply eligible_at_spec in Hi as (c & Hc & He). rewrite Hc in Hr.
    exists (Some i). split; [by eapply choice_recovery|]. apply selects_alter; [done|decided|done]. }
  assert (Nv : no_validation out).
  { intros i c Hc He. apply (List.find_none _ _) with (x := i) in Ef; [by rewrite Hc in Ef|]. apply list_elem_of_In, eligible_at_spec. by exists c. }
  case_bool_decide as Hel.
  { exists None. split; [|by apply selects_none]. apply choice_none; [done|]. left. intros i Hi.
    apply eligible_at_spec in Hi. rewrite Hel in Hi. by apply not_elem_of_nil in Hi. }
  simpl. destruct (String.eqb_spec (RankingMode cfg) "stable_latency") as [Em|Mode].
  { exists None. split; [|by apply selects_none]. apply choice_none; [done|by right]. }
  pose proof (band_nonempty cfg out Q Eps Hel) as Hne.
  set (mode := effectiveRankingMode (RankingMode cfg) (rq_Session req)).
  set (band := band_of cfg out (eligible_at out)) in *.
  pose proof (mark_band_recast out band mode) as R. pose proof (mark_band_unselected out band mode U) as Um.
  destruct (if String.eqb mode "cache_affinity" && (0 <? stickyID) then _ else None) as [i|] eqn:Es.
  - destruct (String.eqb_spec mode "cache_affinity") as [Emode|]; [|done]. destruct (0 <? stickyID) eqn:Ep; [|done].
    apply find_spec in Es as [Hi Hk]. destruct (mark_band out band mode !! i) as [c'|] eqn:Ec; [|done].
    destruct (recast_lookup_r _ _ _ _ R Ec) as (c & Hc & S). apply same_core_eqs in S as (Ek & _).
    exists (Some i). split; [apply choice_sticky; [done|done|]; split_and!; [done|lia|by apply band_of_spec|exists c; split; [done|]; unfold cd_KeyID in *; rewrite <- Ek; lia]|].
    eapply selects_recast; [exact R|]. apply selects_alter; [done|decided|done].
  - assert (Ns : forall j, ~ sticky_at cfg req stickyID out j).
    { intros j (M & P & Hb & c & Hc & Hk). rewrite (proj2 (String.eqb_eq mode "cache_affinity")), (proj2 (Z.ltb_lt _ _) P) in Es by exact M. cbn [andb] in Es.
      apply (List.find_none _ _) with (x := j) in Es; [|apply list_elem_of_In; by apply band_of_spec].
      destruct (recast_lookup _ _ _ _ R Hc) as (c' & Hc' & S). rewrite Hc' in Es. apply same_core_eqs in S as (Ek & _). unfold cd_KeyID in *. rewrite Ek in Es. lia. }
    destruct (sort_stable (less_at mode req (mark_band out band mode)) band) as [|i rest] eqn:Eso.
    { exfalso. apply Hne. pose proof (sort_stable_perm (less_at mode req (mark_band out band mode)) band) as P.
      rewrite Eso in P. by apply Permutation_nil_l in P. }
    destruct (sorted_head_best cfg req stickyID out Q Mode Nv Ns i rest Eso) as [Hi Hch].
    edestruct (explore_refines cfg req stickyID out Q U Mode Nv Ns i) as (sel & H1 & H2); [exact Hi| | |exact Hch|exists (Some sel); split; [exact H1|exact H2]];
      [decided|done].
Qed.

(** ** Circuits behind the candidates *)

(** What [applyRoutingHealth] leaves alone. *)
Definition kept (c c' : Candidate) : Prop :=
  cd_Key c' = cd_Key c /\ cd_Scores c' = cd_Scores c /\ cd_Selected c' = cd_Selected c
  /\ cd_KeyInflight c' = cd_KeyInflight c /\ cd_ProviderInflight c' = cd_ProviderInflight c.

Lemma kept_trans a b c : kept a b -> kept b c -> kept a c.
Proof. unfold kept. intuition congruence. Qed.

(** The reason and status a gate gives. *)
Definition gate_reason (now : time) (key : PlatformKey) (g : RoutingCircuit) : string := (gate_view now key g).1.1.2.
Definition gate_status (now : time) (key : PlatformKey) (g : RoutingCircuit) : string := (gate_view now key g).1.2.

Definition validatable (now : time) (key : PlatformKey) (g : RoutingCircuit) : Prop :=
  gate_reason now key g = "recovery_pending" \/ gate_reason now key g = "recovery_check_backoff".

Section health.
Context (tb : Tables) (states : gmap string RoutingCircuit) (busy : list RoutingCircuit).
Context (probe : Z -> option ProbeLog) (req : Request) (now : time).
Let step := health_step tb states busy probe req now.
Let gate_of (c : Candidate) : RoutingCircuit := find_gate states busy req (cd_KeyID c) now.

Lemma health_step_kept c : kept c (step c).1 /\ cd_Recovery (step c).1 = cd_Recovery c.
Proof. unfold step, health_step. cbv zeta. repeat case_match; split; split_and?; try done; by split_and!. Qed.

(** The four outcomes for a candidate. *)
Lemma health_step_spec c :
  match (step c).2 with
  | HNormal => cd_Eligible c = true /\ rc_Scope (gate_of c) = "" /\ cd_Eligible (step c).1 = true
  | HRequest => cd_Eligible c = true /\ rc_Scope (gate_of c) <> "" /\ cd_Eligible (step c).1 = false
                /\ gate_reason now (cd_Key c) (gate_of c) = "recovery_pending"
                /\ gate_status now (cd_Key c) (gate_of c) = "waiting_request"
  | HAny => cd_Eligible c = true /\ rc_Scope (gate_of c) <> "" /\ cd_Eligible (step c).1 = false
            /\ validatable now (cd_Key c) (gate_of c)
  | HNone => cd_Eligible (step c).1 = false
  end.
Proof.
  unfold step, health_step, validatable, gate_reason, gate_status. cbv zeta. fold (gate_of c).
  destruct (String.eqb_spec (rc_Scope (gate_of c)) "") as [E|E].
  - destruct (cd_Eligible c) eqn:El; simpl; auto.
  - destruct (gate_view now (cd_Key c) (gate_of c)) as [[[state reason] status] until]. simpl.
    destruct (cd_Eligible c) eqn:El; simpl; [|done].
    destruct (String.eqb_spec reason "recovery_pending") as [->|]; simpl.
    + destruct (String.eqb_spec status "waiting_request") as [->|]; simpl; split_and!; auto.
    + destruct (String.eqb_spec reason "recovery_check_backoff") as [->|]; simpl; split_and?; auto.
Qed.

(** A rule-abiding candidate is normal exactly when no gate stops it. *)
Lemma health_step_normal c : cd_Eligible c = true -> rc_Scope (gate_of c) = "" -> (step c).2 = HNormal.
Proof. intros El E. unfold step, health_step. cbv zeta. fold (gate_of c). by rewrite E, El. Qed.

Lemma health_step_waits c :
  cd_Eligible c = true -> rc_Scope (gate_of c) <> "" -> validatable now (cd_Key c) (gate_of c) ->
  (step c).2 = HRequest \/ (step c).2 = HAny.
Proof.
  intros El E V. unfold validatable, gate_reason in V. unfold step, health_step. cbv zeta. fold (gate_of c).
  destruct (String.eqb_spec (rc_Scope (gate_of c)) "") as [|_]; [done|].
  destruct (gate_view now (cd_Key c) (gate_of c)) as [[[state reason] status] until]. simpl in V. rewrite El.
  destruct V as [->| ->]; simpl; [case_match; auto|auto].
Qed.
End health.

Lemma best_of_spec cls l :
  match best_of cls l with
  | Some (i, ch) => l !! i = Some ch /\ cls ch.2 = true
                    /\ forall j dh, l !! j = Some dh -> cls dh.2 = true -> recoveryBefore dh.1 ch.1 = false
  | None => forall j dh, l !! j = Some dh -> cls dh.2 = false
  end.
Proof.
  unfold best_of. pose proof (scan_best_inv (fun _ (ch : Candidate * health_class) => cls ch.2)
    (fun a b => recoveryBefore a.1 b.1)) as I.
  specialize (I ltac:(intros; apply recoveryBefore_irrefl) ltac:(intros a b c; apply recoveryBefore_trans) l).
  unfold scan_inv in I. by destruct (scan_best _ _ l) as [[]|].
Qed.

Definition has_normal (l : list (Candidate * health_class)) : bool := existsb (fun ch => is_normal ch.2) l.

(** Who may be validated: a gate waiting for a request, or with no normal
    candidate also one that belongs to the synthetic checks. *)
Definition recoverable (l : list (Candidate * health_class)) (ch : Candidate * health_class) : Prop :=
  ch.2 = HRequest \/ ch.2 = HAny /\ has_normal l = false.

Lemma choose_recovery_spec l :
  match choose_recovery l with
  | Some i => exists ch, l !! i = Some ch /\ recoverable l ch
              /\ forall j dh, l !! j = Some dh -> recoverable l dh -> recoveryBefore dh.1 ch.1 = false
  | None => forall j dh, l !! j = Some dh -> ~ recoverable l dh
  end.
Proof.
  assert (Req : forall h, is_request h = true <-> h = HRequest) by (by intros []).
  assert (Any : forall h, is_any h = true <-> h = HAny) by (by intros []).
  unfold choose_recovery. fold (has_normal l). unfold recoverable.
  pose proof (best_of_spec is_request l) as HR. pose proof (best_of_spec is_any l) as HA.
  destruct (has_normal l) eqn:N.
  - destruct (best_of is_request l) as [[i ch]|]; simpl.
    + destruct HR as (H1 & H2 & H3). exists ch. rewrite Req in H2. split_and!; [done|by left|].
      intros j dh Hj [E|[_ E]]; [|done]. eapply H3; [done|]. by apply Req.
    + intros j dh Hj [E|[_ E]]; [|done]. apply Req in E. by rewrite (HR j dh Hj) in E.
  - destruct (best_of is_any l) as [[i a]|], (best_of is_request l) as [[j b]|]; simpl.
    + destruct HA as (A1 & A2 & A3), HR as (R1 & R2 & R3). rewrite Any in A2. rewrite Req in R2.
      destruct (recoveryBefore a.1 b.1) eqn:B; [exists a|exists b]; split_and!; auto; intros k dh Hk [E|[E _]].
      * destruct (recoveryBefore dh.1 a.1) eqn:C; [|done].
        pose proof (R3 k dh Hk ltac:(by apply Req)) as C'. by rewrite (recoveryBefore_trans _ _ _ C B) in C'.
      * eapply A3; [done|by apply Any].
      * eapply R3; [done|by apply Req].
      * apply not_true_is_false. intros D. destruct (recoveryBefore_split dh.1 a.1 b.1 D) as [D'|D']; [|congruence].
        by rewrite (A3 k dh Hk ltac:(by apply Any)) in D'.
    + destruct HA as (A1 & A2 & A3). rewrite Any in A2. exists a. split_and!; auto. intros k dh Hk [E|[E _]].
      * apply Req in E. by rewrite (HR k dh Hk) in E.
      * eapply A3; [done|by apply Any].
    + destruct HR as (R1 & R2 & R3). rewrite Req in R2. exists b. split_and!; auto. intros k dh Hk [E|[E _]].
      * eapply R3; [done|by apply Req].
      * apply Any in E. by rewrite (HA k dh Hk) in E.
    + intros k dh Hk [E|[E _]]; [apply Req in E; by rewrite (HR k dh Hk) in E|apply Any in E; by rewrite (HA k dh Hk) in E].
Qed.

(** The gate [applyRoutingHealth] finds for a key, on tables [tb]. *)
Definition open_gates (tb : Tables) (req : Request) (ids : list Z) : gmap string RoutingCircuit :=
  match run (Snapshot (dimension req <$> ids)) tb with Ok (states, _) => states | Err _ => ∅ end.

Definition gate_for (tb : Tables) (req : Request) (ids : list Z) (now : time) (key : Z) : RoutingCircuit :=
  let states := open_gates tb req ids in
  find_gate states (busy_rows tb states ids now) req key now.

Lemma Snapshot_run tb req ids : run (Snapshot (dimension req <$> ids)) tb = Ok (open_gates tb req ids, tb).
Proof. unfold open_gates, Snapshot. case_bool_decide; done. Qed.

Lemma waiting_status_kept n b a c :
  kept c (waiting_status n b a c) /\ cd_Eligible (waiting_status n b a c) = cd_Eligible c
  /\ cd_Recovery (waiting_status n b a c) = cd_Recovery c.
Proof. unfold waiting_status, kept. case_match; by split_and!. Qed.

(** A pass over the circuits: what becomes of each candidate. *)
Record health_result (tb : Tables) (req : Request) (now : time) (cands out : list Candidate) : Prop := {
  hr_length : length out = length cands;
  hr_each : forall i c, cands !! i = Some c -> exists c', out !! i = Some c' /\ kept c c'
    /\ let g := gate_for tb req (cd_KeyID <$> cands) now (cd_KeyID c) in
       if cd_Recovery c' then cd_Eligible c = true /\ cd_Eligible c' = true /\ rc_Scope g <> "" /\ validatable now (cd_Key c) g
       else cd_Eligible c' = cd_Eligible c && String.eqb (rc_Scope g) "";
  hr_one : forall i j c d, out !! i = Some c -> out !! j = Some d -> cd_Recovery c = true -> cd_Recovery d = true -> i = j;
  hr_last_resort :
    (forall i c, cands !! i = Some c -> cd_Eligible c = true ->
                 rc_Scope (gate_for tb req (cd_KeyID <$> cands) now (cd_KeyID c)) <> "") ->
    (exists i c, cands !! i = Some c /\ cd_Eligible c = true
                 /\ validatable now (cd_Key c) (gate_for tb req (cd_KeyID <$> cands) now (cd_KeyID c))) ->
    exists i c, out !! i = Some c /\ cd_Recovery c = true
}.

Section health_pass.
Context (tb : Tables) (probe : Z -> option ProbeLog) (req : Request) (now : time) (cands : list Candidate).
Context (Fresh : forall i c, cands !! i = Some c -> cd_Recovery c = false).
Let ids := cd_KeyID <$> cands.
Let states := open_gates tb req ids.
Let step := health_step tb states (busy_rows tb states ids now) probe req now.
Let l := step <$> cands.
Let gate_of (c : Candidate) : RoutingCircuit := gate_for tb req ids now (cd_KeyID c).

Lemma pass_lookup n b a i c :
  cands !! i = Some c -> exists c', (waiting_status n b a <$> (fst <$> l)) !! i = Some c' /\ kept c c' /\ cd_Recovery c' = false
    /\ cd_Eligible c' = cd_Eligible c && String.eqb (rc_Scope (gate_of c)) "".
Proof using Fresh.
  intros Hi. exists (waiting_status n b a (step c).1).
  destruct (waiting_status_kept n b a (step c).1) as (W1 & W2 & W3).
  destruct (health_step_kept tb states (busy_rows tb states ids now) probe req now c) as (K1 & K2).
  unfold l. rewrite !list_lookup_fmap, Hi. split_and!; [done|by eapply kept_trans|by rewrite W3; unfold step; rewrite K2, (Fresh i c)|].
  rewrite W2. pose proof (health_step_spec tb states (busy_rows tb states ids now) probe req now c) as S. fold step in S.
  change (find_gate states (busy_rows tb states ids now) req (cd_KeyID c) now) with (gate_of c) in S.
  destruct (String.eqb_spec (rc_Scope (gate_of c)) "") as [E|E]; rewrite ?andb_true_r, ?andb_false_r.
  - destruct (cd_Eligible c) eqn:El; [|destruct (step c).2; intuition congruence].
    pose proof (health_step_normal tb states (busy_rows tb states ids now) probe req now c El E) as N. fold step in N.
    rewrite N in S. apply S.
  - destruct (step c).2; intuition congruence.
Qed.

Lemma pass_length n b a : length (waiting_status n b a <$> (fst <$> l)) = length cands.
Proof using. unfold l. by rewrite !length_fmap. Qed.

Lemma pass_back n b a i c' :
  (waiting_status n b a <$> (fst <$> l)) !! i = Some c' -> exists c, cands !! i = Some c /\ cd_Recovery c' = false.
Proof using Fresh.
  intros H. pose proof (lookup_lt_Some _ _ _ H) as L. rewrite pass_length in L.
  destruct (lookup_lt_is_Some_2 _ _ L) as [c Hc]. exists c. split; [done|].
  destruct (pass_lookup n b a i c Hc) as (d & Hd & _ & R & _). congruence.
Qed.

Lemma recoverable_waits i ch : l !! i = Some ch -> recoverable l ch ->
  exists c, cands !! i = Some c /\ cd_Eligible c = true /\ rc_Scope (gate_of c) <> "" /\ validatable now (cd_Key c) (gate_of c).
Proof using.
  unfold l. rewrite list_lookup_fmap, fmap_Some. intros (c & Hc & ->) R. exists c. split; [done|].
  pose proof (health_step_spec tb states (busy_rows tb states ids now) probe req now c) as S. fold step in S.
  change (find_gate states (busy_rows tb states ids now) req (cd_KeyID c) now) with (gate_of c) in S.
  destruct R as [R|[R _]]; rewrite R in S; [|naive_solver]. destruct S as (S1 & S2 & S3 & S4 & S5).
  split_and!; [done|done|by left].
Qed.

(** With no normal candidate, a waiting gate makes a candidate recoverable. *)
Lemma waits_recoverable :
  (forall i c, cands !! i = Some c -> cd_Eligible c = true -> rc_Scope (gate_of c) <> "") -> has_normal l = false.
Proof using.
  intros N. apply not_true_is_false. unfold has_normal. rewrite existsb_exists. intros (ch & Hin & Hn).
  apply list_elem_of_In, list_elem_of_lookup in Hin as [i Hi]. unfold l in Hi.
  rewrite list_lookup_fmap, fmap_Some in Hi. destruct Hi as (c & Hc & ->).
  pose proof (health_step_spec tb states (busy_rows tb states ids now) probe req now c) as S. fold step in S.
  destruct (step c).2; try done. destruct S as (S1 & S2 & _). by apply (N i c Hc S1).
Qed.

Lemma waiting_found i c :
  cands !! i = Some c -> cd_Eligible c = true -> rc_Scope (gate_of c) <> "" -> validatable now (cd_Key c) (gate_of c) ->
  has_normal l = false -> is_Some (choose_recovery l).
Proof using.
  intros Hc El E V N. pose proof (choose_recovery_spec l) as S. destruct (choose_recovery l); [done|].
  exfalso. apply (S i (step c)); [by unfold l; rewrite list_lookup_fmap, Hc|].
  destruct (health_step_waits tb states (busy_rows tb states ids now) probe req now c El E V) as [W|W]; [by left|by right].
Qed.
End health_pass.

Lemma applyRoutingHealth_spec tb probe req bk now cands out tb' :
  (forall i c, cands !! i = Some c -> cd_Recovery c = false) ->
  applyRoutingHealth tb probe req bk now cands = Ok (out, tb') ->
  circuits tb' = circuits tb /\ health_result tb req now cands out.
Proof.
  intros Fresh. unfold applyRoutingHealth. rewrite Snapshot_run.
  set (ids := cd_KeyID <$> cands). set (l := health_step _ _ _ _ _ _ <$> cands). fold (has_normal l).
  set (normal := has_normal l). set (bound := existsb _ l).
  destruct (match choose_recovery l with Some _ => _ | None => _ end) as [[allowed|e] tb1] eqn:Eslot; [|done].
  intros [= <- <-]. split.
  { destruct (choose_recovery l); [|by simplify_eq]. destruct (normal && negb bound); [|by simplify_eq].
    by rewrite <- (RecoverySlot_circuits ZeroSettings (routeScope req) (rq_MutateRecovery req) now tb), Eslot. }
  set (cs := waiting_status normal bound allowed <$> (fst <$> l)).
  assert (Look : forall i c, cands !! i = Some c -> exists c', cs !! i = Some c' /\ kept c c' /\ cd_Recovery c' = false
    /\ cd_Eligible c' = cd_Eligible c && String.eqb (rc_Scope (gate_for tb req ids now (cd_KeyID c))) "").
  { intros i c. by apply pass_lookup. }
  assert (Back : forall i c', cs !! i = Some c' -> cd_Recovery c' = false).
  { intros i c' H. by destruct (pass_back tb probe req now cands Fresh normal bound allowed i c' H) as (? & _ & ?). }
  assert (Len : length cs = length cands) by apply pass_length.
  assert (Last : (forall i c, cands !! i = Some c -> cd_Eligible c = true -> rc_Scope (gate_for tb req ids now (cd_KeyID c)) <> "") ->
    (exists i c, cands !! i = Some c /\ cd_Eligible c = true /\ validatable now (cd_Key c) (gate_for tb req ids now (cd_KeyID c))) ->
    is_Some (choose_recovery l) /\ allowed = true).
  { intros N (i & c & Hc & El & V). pose proof (waits_recoverable tb probe req now cands N) as HN.
    destruct (waiting_found tb probe req now cands i c Hc El (N i c Hc El) V HN) as [k Hk].
    change (choose_recovery l = Some k) in Hk. split; [by rewrite Hk|]. rewrite Hk in Eslot.
    change (normal = false) in HN. rewrite HN in Eslot. by simplify_eq/=. }
  pose proof (choose_recovery_spec l) as CS.
  destruct (choose_recovery l) as [k|] eqn:Ek; [destruct allowed|].
  - destruct CS as (ch & Hch & Rec & _). destruct (recoverable_waits tb probe req now cands k ch Hch Rec) as (ck & Hck & El & Eg & V).
    split.
    + by rewrite length_alter.
    + intros i c Hc. destruct (Look i c Hc) as (c' & Hc' & K & R & E). destruct (decide (k = i)) as [<-|Hne].
      * assert (c = ck) by congruence. subst c. exists (with_eligible c' true "" true). rewrite list_lookup_alter_eq, Hc'.
        split_and!; [done|done|]. simpl. by split_and!.
      * exists c'. rewrite list_lookup_alter_ne by done. split_and!; [done|done|]. by rewrite R.
    + assert (O : forall i c, alter (fun c => with_eligible c true "" true) k cs !! i = Some c -> cd_Recovery c = true -> i = k).
      { intros i c Hi Hr. destruct (decide (k = i)) as [<-|Hne]; [done|]. rewrite list_lookup_alter_ne in Hi by done.
        by rewrite (Back i c Hi) in Hr. }
      intros i j c d Hi Hj Hr1 Hr2. rewrite (O i c), (O j d); done.
    + intros _ _. destruct (Look k ck Hck) as (c' & Hc' & _). exists k, (with_eligible c' true "" true).
      by rewrite list_lookup_alter_eq, Hc'.
  - split; [done| | |].
    + intros i c Hc. destruct (Look i c Hc) as (c' & Hc' & K & R & E). exists c'. by rewrite R.
    + intros i j c d Hi Hj Hr. by rewrite (Back i c Hi) in Hr.
    + intros N W. by destruct (Last N W) as [_ ?].
  - split; [done| | |].
    + intros i c Hc. destruct (Look i c Hc) as (c' & Hc' & K & R & E). exists c'. by rewrite R.
    + intros i j c d Hi Hj Hr. by rewrite (Back i c Hi) in Hr.
    + intros N W. destruct (Last N W) as [[? ?] _]. done.
Qed.

(** ** The whole pass *)

Lemma fdiv_valid x y : valid (fdiv x y).
Proof. unfold fdiv. repeat case_match; try done; apply rnd_valid. Qed.

Lemma Quality_valid inp cfg : valid (Quality inp cfg).
Proof. unfold Quality. cbv zeta. case_match; [reflexivity|apply fdiv_valid]. Qed.

(** The counters of a key, as [resourceSnapshot] reports them. *)
Definition current_rpm (rt : runtimeState) (now : time) (k : Z) : Z := Z.of_nat (length (recent now (gets (rpm rt) k))).

(** The rules for a key, with its counters. *)
Record rules_ok (cfg : SchedulerSettings) (req : Request) (cool : gset Z) (rpm ki pi : Z) (now : time) (key : PlatformKey) : Prop := {
  ro_route : forall allow, rq_AllowKeys req = Some allow -> pk_ID key ∈ allow;
  ro_excluded : (pk_ID key ∉ rq_Exclude req) /\ (pk_UpstreamID key ∉ rq_ExcludeProviders req) /\ (pk_ID key ∉ rq_ExcludeKeyModels req);
  ro_enabled : pk_Status key = StatusEnabled;
  ro_upstream : exists u, pk_Upstream key = Some u /\ up_Status u = StatusEnabled
    /\ (forall t, up_CooldownUntil u = Some t -> t <= now)            (* provider not cooling down *)
    /\ (forall b, up_LastBalance u = Some b -> fle b f0 = false)      (* balance left, if known *)
    /\ (0 < up_Concurrency u -> pi < up_Concurrency u);
  ro_protocol : SupportsProtocol key (rq_Protocol req) = true;
  ro_model : ModelFilterEnabled cfg = true -> SupportsModel key (rq_Model req) = true;
  ro_cooldown : (forall t, pk_CooldownUntil key = Some t -> t <= now) /\ (pk_ID key ∉ cool);
  ro_health : pk_HealthStatus key <> HealthDisabled /\ pk_HealthStatus key <> HealthLowBalance;
  ro_limits : (0 < pk_RPMLimit key -> rpm < pk_RPMLimit key) /\ (0 < pk_MaxConcurrency key -> ki < pk_MaxConcurrency key)
}.

Lemma route_reject_spec req id : route_reject req id = "" <-> forall allow, rq_AllowKeys req = Some allow -> id ∈ allow.
Proof.
  unfold route_reject. destruct (rq_AllowKeys req) as [a|]; [|split; [by intros _ ? ?|done]].
  case_bool_decide as H; [split; [by intros _ ? [= <-]|done]|]. split; [|by intros G; specialize (G a eq_refl)].
  case_bool_decide; [done|]. destruct (String.eqb_spec (default "" (rq_RouteReasons req !! id)) "") as [E|E]; done.
Qed.

Lemma after_opt_spec p now : after_opt p now = false <-> forall t, p = Some t -> t <= now.
Proof. destruct p as [t|]; simpl; [rewrite After_false; split; [by intros ? ? [= <-]|auto]|done]. Qed.

Lemma hardReject_spec key protocol model filter excluded now :
  hardReject key protocol model filter excluded now = "" <->
  (pk_ID key ∉ excluded) /\ pk_Status key = StatusEnabled
  /\ (exists u, pk_Upstream key = Some u /\ up_Status u = StatusEnabled
               /\ (forall t, up_CooldownUntil u = Some t -> t <= now) /\ (forall b, up_LastBalance u = Some b -> fle b f0 = false))
  /\ SupportsProtocol key protocol = true /\ (filter = true -> SupportsModel key model = true)
  /\ (forall t, pk_CooldownUntil key = Some t -> t <= now)
  /\ pk_HealthStatus key <> HealthDisabled /\ pk_HealthStatus key <> HealthLowBalance.
Proof.
  unfold hardReject. rewrite <- !after_opt_spec. case_bool_decide as H1; [split; [done|tauto]|].
  destruct (String.eqb_spec (pk_Status key) StatusEnabled) as [E1|]; simpl; [|split; [done|tauto]].
  destruct (pk_Upstream key) as [u|] eqn:Eu; [|split; [done|intros (_ & _ & (u & ? & _) & _); done]].
  setoid_rewrite <- after_opt_spec.
  assert (Lb : match up_LastBalance u with Some b => fle b f0 | None => false end = false
               <-> forall b, up_LastBalance u = Some b -> fle b f0 = false).
  { destruct (up_LastBalance u); [split; [by intros ? ? [= <-]|auto]|done]. }
  assert (Up : forall P : Upstream -> Prop, (exists u', Some u = Some u' /\ P u') <-> P u) by (intros P; split; [by intros (? & [= <-] & ?)|eauto]).
  rewrite Up, <- Lb.
  destruct (String.eqb_spec (up_Status u) StatusEnabled) as [E2|]; simpl; [|split; [done|tauto]].
  destruct (after_opt (up_CooldownUntil u) now); [split; [done|intuition congruence]|].
  destruct (SupportsProtocol key protocol); simpl; [|split; [done|intuition congruence]].
  destruct filter, (SupportsModel key model); simpl; try (split; [done|intuition congruence]);
  (destruct (after_opt (pk_CooldownUntil key) now); [split; [done|intuition congruence]|]);
  (destruct (match up_LastBalance u with Some _ => _ | None => _ end); [split; [done|intuition congruence]|]);
  (destruct (String.eqb_spec (pk_HealthStatus key) HealthDisabled); [split; [done|intuition congruence]|]);
  (destruct (String.eqb_spec (pk_HealthStatus key) HealthLowBalance); [split; [done|intuition congruence]|]);
  intuition congruence.
Qed.

(** The chain of rejections lets through exactly the keys the rules allow. *)
Lemma reject_reason_spec key req cfg cool rpm ki pi now :
  reject_reason key req cfg cool rpm ki pi now = "" <-> rules_ok cfg req cool rpm ki pi now key.
Proof.
  pose proof (route_reject_spec req (pk_ID key)) as R.
  pose proof (hardReject_spec key (rq_Protocol req) (rq_Model req) (ModelFilterEnabled cfg) (rq_Exclude req) now) as H.
  unfold reject_reason. cbv zeta.
  destruct (String.eqb_spec (route_reject req (pk_ID key)) "") as [E|E]; cbn [negb].
  2: { split; [done|]. intros []. exfalso. by apply E, R. }
  destruct (String.eqb_spec (hardReject key (rq_Protocol req) (rq_Model req) (ModelFilterEnabled cfg) (rq_Exclude req) now) "") as [E2|E2]; cbn [negb].
  2: { split; [done|]. intros [R1 (R2 & _) R3 (u & R4 & R5 & R6 & R7 & _) R8 R9 (R10 & _) R11 _]. exfalso. apply E2, H. split_and!; try tauto.
       by exists u. }
  pose proof (proj1 R E) as ER. apply (proj1 H) in E2 as (H1 & H2 & (u & H3 & H4 & H5 & H6) & H7 & H8 & H9 & H10).
  case_bool_decide; [split; [done|intros []; tauto]|]. case_bool_decide; [split; [done|intros []; tauto]|].
  case_bool_decide; [split; [done|intros []; tauto]|]. unfold capacity_reject. rewrite H3.
  assert (Lim : forall l x : Z, (0 <? l) && (l <=? x) = false <-> (0 < l -> x < l)) by (intros; lia).
  pose proof (Lim (pk_RPMLimit key) rpm) as L1. pose proof (Lim (pk_MaxConcurrency key) ki) as L2.
  pose proof (Lim (up_Concurrency u) pi) as L3.
  destruct ((0 <? pk_RPMLimit key) && _); [split; [done|intros []; intuition congruence]|].
  destruct ((0 <? pk_MaxConcurrency key) && _); [split; [done|intros []; intuition congruence]|].
  destruct ((0 <? up_Concurrency u) && _).
  - split; [done|]. intros [? ? ? (u' & U1 & _ & _ & _ & U2)]. assert (u' = u) by congruence. subst u'. by apply L3 in U2.
  - split; [|done]. intros _. split; try tauto; [exists u; tauto].
Qed.

(** The key passes every hard rule of the request. *)
Definition passes (cfg : SchedulerSettings) (req : Request) (cool : gset Z) (rt : runtimeState) (now : time) (key : PlatformKey) : Prop :=
  rules_ok cfg req cool (current_rpm rt now (pk_ID key)) (geti (keyInflight rt) (pk_ID key))
    (geti (providerInflight rt) (pk_UpstreamID key)) now key.

Record settings_ok (cfg : SchedulerSettings) : Prop := {
  so_weights : weight_ok (WeightSuccess cfg) /\ weight_ok (WeightTTFT cfg) /\ weight_ok (WeightCache cfg);
  so_prior : is_nan (PriorSuccess cfg) = false;
  so_cap : in_i64 (TTFTCapMs cfg);
  so_epsilon : fbetween f0 (Epsilon cfg) f1
}.

Definition window_ok (w : Window) : Prop :=
  is_nan (wn_SuccessRate w) = false /\ is_nan (wn_CacheRate w) = false /\ in_i64 (wn_TTFTp50 w).

(** Two runtimes that report the same counters at [now]. *)
Definition same_counters (now : time) (rt rt' : runtimeState) : Prop :=
  keyInflight rt' = keyInflight rt /\ providerInflight rt' = providerInflight rt
  /\ forall k, recent now (gets (rpm rt') k) = recent now (gets (rpm rt) k).

Lemma same_counters_snapshot now rt k p : same_counters now rt (resourceSnapshot k p now rt).2.
Proof.
  unfold same_counters, resourceSnapshot. split_and!; try done. intros k'. simpl. rewrite gets_insert.
  case_decide; [subst; apply recent_later; lia|done].
Qed.

Lemma same_counters_trans now a b c : same_counters now a b -> same_counters now b c -> same_counters now a c.
Proof. intros (A1 & A2 & A3) (B1 & B2 & B3). split_and!; congruence. Qed.

Lemma passes_same cfg req cool now rt rt' key :
  same_counters now rt rt' -> passes cfg req cool rt' now key <-> passes cfg req cool rt now key.
Proof. intros (E1 & E2 & E3). unfold passes, current_rpm. by rewrite E1, E2, E3. Qed.

(** What [inspect] makes of a key. *)
Record inspected (cfg : SchedulerSettings) (req : Request) (cool : gset Z) (now : time) (rt : runtimeState)
    (key : PlatformKey) (c : Candidate) : Prop := {
  in_key : cd_Key c = key;
  in_recovery : cd_Recovery c = false;
  in_selected : cd_Selected c = false;
  in_eligible : cd_Eligible c = true <-> passes cfg req cool rt now key;
  in_quality : settings_ok cfg -> valid (sc_Quality (cd_Scores c)) /\ fbetween f0 (sc_Quality (cd_Scores c)) f1
}.

Lemma inspect_spec key req cfg cool win now rt :
  window_ok win ->
  inspected cfg req cool now rt key (inspect key req cfg cool win now rt).1
  /\ same_counters now rt (inspect key req cfg cool win now rt).2.
Proof.
  intros (Wo1 & Wo2 & Wo3). pose proof (same_counters_snapshot now rt (pk_ID key) (pk_UpstreamID key)) as SC.
  assert (Zero : valid f0 /\ fbetween f0 f0 f1) by (split; [reflexivity|by split]).
  unfold inspect, passes, resourceSnapshot. cbv zeta. fold (current_rpm rt now (pk_ID key)).
  set (ki := geti (keyInflight rt) (pk_ID key)). set (pi := geti (providerInflight rt) (pk_UpstreamID key)).
  pose proof (reject_reason_spec key req cfg cool (current_rpm rt now (pk_ID key)) ki pi now) as RS.
  set (reason := reject_reason _ _ _ _ _ _ _ _) in *. split.
  - destruct (String.eqb_spec reason "") as [E|E]; cbn [negb];
      [destruct (String.eqb (RankingMode cfg) "stable_latency")|]; (split; [done|done|done| |intros SO]);
      try (unfold passes; fold ki pi; rewrite <- RS; split; [done|by try intros]); try done.
    destruct SO as [[W1 [W2 W3]] P C Ep]. split; [apply Quality_valid|]. by apply Quality_unit_lemma.
  - repeat case_match; apply SC.
Qed.

Lemma inspect_all_spec req cfg cool win now keys rt :
  (forall k, window_ok (win k)) ->
  let '(cs, rt') := inspect_all keys req cfg cool win now rt in
  Forall2 (inspected cfg req cool now rt) keys cs /\ same_counters now rt rt'.
Proof.
  intros W. revert rt. induction keys as [|k keys IH]; intros rt; simpl; [split; [constructor|done]|].
  pose proof (inspect_spec k req cfg cool (win (pk_ID k)) now rt (W _)) as [I SC].
  destruct (inspect k req cfg cool (win (pk_ID k)) now rt) as [c rt1]. specialize (IH rt1).
  destruct (inspect_all keys req cfg cool win now rt1) as [cs rt2]. destruct IH as [F SC2].
  split; [|by eapply same_counters_trans]. constructor; [done|]. eapply Forall2_impl; [|exact F].
  intros key d []. split; try done. by rewrite in_eligible0, (passes_same _ _ _ _ rt rt1).
Qed.

(** Candidates of a pass before the ranking, key by key. *)
Definition judged (cfg : SchedulerSettings) (env : Env) (req : Request) (now : time) (rt : runtimeState) (tb : Tables)
    (key : PlatformKey) (c : Candidate) : Prop :=
  let g := gate_for tb req (pk_ID <$> en_keys env) now (pk_ID key) in
  let ok := passes cfg req (activeModelCooldowns (en_cooldowns env) (en_keys env) (rq_Model req) now) rt now key in
  cd_Key c = key
  /\ (cd_Eligible c = true <-> ok /\ (if cd_Recovery c then rc_Scope g <> "" /\ validatable now key g else rc_Scope g = "")).

Definition env_ok (env : Env) (model : string) : Prop := forall k, window_ok (en_window env k model).

(** [evaluate] is: judge every key, then rank. *)
Lemma evaluate_spec cfg env req now rt tb out rt' tb' :
  settings_ok cfg -> env_ok env (rq_Model req) -> evaluate cfg env req now rt tb = Ok (out, rt', tb') ->
  exists cs, Forall2 (judged cfg env req now rt tb) (en_keys env) cs /\ quality_ok cs /\ unselected cs
    /\ (forall i j c d, cs !! i = Some c -> cs !! j = Some d -> cd_Recovery c = true -> cd_Recovery d = true -> i = j)
    /\ (forall i c, cs !! i = Some c -> cd_Recovery c = true -> cd_Eligible c = true)
    /\ out = rank cfg req (en_sticky env) cs /\ circuits tb' = circuits tb /\ same_counters now rt rt'.
Proof.
  intros So Eo. unfold evaluate. set (cool := activeModelCooldowns _ _ _ _).
  pose proof (inspect_all_spec req cfg cool (fun k => en_window env k (rq_Model req)) now (en_keys env) rt (fun k => Eo k)) as H.
  destruct (inspect_all (en_keys env) req cfg cool _ now rt) as [cs rt1]. destruct H as [F SC].
  destruct (applyRoutingHealth _ _ _ _ _ _) as [[cs' tb1]|e] eqn:Eh; [|done]. intros [= <- <- <-].
  apply applyRoutingHealth_spec in Eh as [Ec HR].
  2: { intros i c Hc. destruct (Forall2_lookup_r _ _ _ _ _ F Hc) as (k & _ & []). done. }
  assert (Ids : cd_KeyID <$> cs = pk_ID <$> en_keys env).
  { clear -F. induction F as [|k c ks cs I _ IH]; [done|]. rewrite !fmap_cons, IH. unfold cd_KeyID. by rewrite (in_key _ _ _ _ _ _ _ I). }
  assert (Each : forall i k c', en_keys env !! i = Some k -> cs' !! i = Some c' ->
            exists c, cs !! i = Some c /\ inspected cfg req cool now rt k c /\ kept c c'
              /\ let g := gate_for tb req (pk_ID <$> en_keys env) now (pk_ID k) in
                 if cd_Recovery c' then cd_Eligible c = true /\ cd_Eligible c' = true /\ rc_Scope g <> "" /\ validatable now k g
                 else cd_Eligible c' = cd_Eligible c && String.eqb (rc_Scope g) "").
  { intros i k c' Hk Hc'. destruct (Forall2_lookup_l _ _ _ _ _ F Hk) as (c & Hc & I). exists c.
    destruct (hr_each _ _ _ _ _ HR i c Hc) as (d & Hd & K & E). rewrite Ids in E. unfold cd_KeyID in E.
    rewrite (in_key _ _ _ _ _ _ _ I) in E. assert (d = c') by congruence. by subst d. }
  assert (Len : length (en_keys env) = length cs') by (rewrite (hr_length _ _ _ _ _ HR); apply (Forall2_length F)).
  assert (Key : forall i c', cs' !! i = Some c' -> exists k, en_keys env !! i = Some k).
  { intros i c' Hc'. apply lookup_lt_is_Some_2. rewrite Len. by eapply lookup_lt_Some. }
  exists cs'. split_and!; try done.
  - apply Forall2_same_length_lookup_2; [done|]. intros i k c' Hk Hc'. destruct (Each i k c' Hk Hc') as (c & Hc & I & K & E).
    destruct I as [I1 I2 I3 I4 I5]. unfold judged. cbv zeta. fold cool. split; [by rewrite (proj1 K)|]. destruct (cd_Recovery c').
    + destruct E as (E1 & E2 & E3 & E4). rewrite I4 in E1. tauto.
    + by rewrite E, andb_true_iff, I4, String.eqb_eq.
  - intros i c' Hc' _. destruct (Key i c' Hc') as [k Hk]. destruct (Each i k c' Hk Hc') as (c & _ & I & K & _).
    destruct K as (_ & -> & _). by apply I.
  - intros i c' Hc'. destruct (Key i c' Hc') as [k Hk]. destruct (Each i k c' Hk Hc') as (c & _ & I & K & _).
    destruct K as (_ & _ & -> & _). by apply I.
  - apply HR.
  - intros i c' Hc' Hr. destruct (Key i c' Hc') as [k Hk]. destruct (Each i k c' Hk Hc') as (c & _ & I & K & E).
    rewrite Hr in E. apply E.
Qed.

(** What a selected candidate guarantees: its key passes the rules, and it has
    no open gate in its way or is being validated. *)
Definition selectable (cfg : SchedulerSettings) (env : Env) (req : Request) (now : time) (rt : runtimeState) (tb : Tables)
    (c : Candidate) : Prop :=
  passes cfg req (activeModelCooldowns (en_cooldowns env) (en_keys env) (rq_Model req) now) rt now (cd_Key c)
  /\ let g := gate_for tb req (pk_ID <$> en_keys env) now (cd_KeyID c) in
     if cd_Recovery c then rc_Scope g <> "" /\ validatable now (cd_Key c) g else rc_Scope g = "".

Lemma choice_eligible cfg req st out i : choice cfg req st out (Some i) -> eligible out i.
Proof.
  inversion 1 as [? c Hc He|?|? M0 M1 (M2 & M3 & Hb & _)|? c M0 M1 M2 M3 He|? c M0 M1 M2 M3 Hc Hb]; subst; try (by exists c).
  - destruct Hb as (d & _ & Hd & He & _). by exists d.
  - destruct He as (? & ? & _). by exists c.
  - destruct Hb as (d & _ & Hd & He & _). by exists d.
Qed.

Lemma selects_back cs sel out i c :
  selects cs sel out -> out !! i = Some c -> exists d, cs !! i = Some d /\ same_core d c /\ cd_Selected c = bool_decide (sel = Some i).
Proof.
  intros [L S] H. pose proof (lookup_lt_Some _ _ _ H) as Hl. rewrite L in Hl. destruct (lookup_lt_is_Some_2 _ _ Hl) as [d Hd].
  destruct (S i d Hd) as (c' & Hc' & Sc & E). exists d. assert (c' = c) by congruence. by subst.
Qed.

(** A candidate of the result is eligible exactly when it may be selected. *)
Lemma evaluate_eligible cfg env req now rt tb out rt' tb' i c :
  settings_ok cfg -> env_ok env (rq_Model req) -> evaluate cfg env req now rt tb = Ok (out, rt', tb') ->
  out !! i = Some c -> en_keys env !! i = Some (cd_Key c) /\ (cd_Eligible c = true <-> selectable cfg env req now rt tb c).
Proof.
  intros So Eo Ev Hi. destruct (evaluate_spec _ _ _ _ _ _ _ _ _ So Eo Ev) as (cs & J & Q & U & _ & _ & -> & _).
  destruct (rank_refines_lemma cfg req (en_sticky env) cs Q (so_epsilon _ So) U) as (sel & _ & S).
  destruct (selects_back _ _ _ _ _ S Hi) as (d & Hd & Sc & _). destruct (Forall2_lookup_r _ _ _ _ _ J Hd) as (k & Hk & Jk).
  destruct (same_core_eqs _ _ Sc) as (E1 & _ & E3 & E4 & _). destruct Jk as [Kd Je]. unfold selectable, cd_KeyID.
  rewrite E1, E3, E4, Kd. by split.
Qed.

(** A selected candidate is one that may be selected. *)
Lemma evaluate_selected cfg env req now rt tb out rt' tb' i c :
  settings_ok cfg -> env_ok env (rq_Model req) -> evaluate cfg env req now rt tb = Ok (out, rt', tb') ->
  out !! i = Some c -> cd_Selected c = true -> selectable cfg env req now rt tb c.
Proof.
  intros So Eo Ev Hi Hs. apply (evaluate_eligible _ _ _ _ _ _ _ _ _ i c So Eo Ev Hi).
  destruct (evaluate_spec _ _ _ _ _ _ _ _ _ So Eo Ev) as (cs & J & Q & U & _ & _ & -> & _).
  destruct (rank_refines_lemma cfg req (en_sticky env) cs Q (so_epsilon _ So) U) as (sel & Ch & S).
  destruct (selects_back _ _ _ _ _ S Hi) as (d & Hd & Sc & E). rewrite Hs in E. symmetry in E. apply bool_decide_eq_true in E as ->.
  apply choice_eligible in Ch as (d' & Hd' & He). destruct (same_core_eqs _ _ Sc) as (_ & _ & E & _). congruence.
Qed.

(** ** The properties *)

(** C21: The ranking implements its specification, on every branch and in this
    order: with a validation admitted that candidate is selected; otherwise the
    session's sticky key whenever it is in the quality band; otherwise, on a granted
    exploration slot, the coldest candidate outside the band that is not known to be
    bad, if there is one; and only then the band's first candidate in the order of
    the mode (key id, affinity hash, load, then effective cost).  Nothing is selected
    only if nobody is eligible or the stable mode decides.  Nothing but the decision
    fields changes. *)
Theorem rank_refines cfg req stickyID out :
  quality_ok out -> fbetween f0 (Epsilon cfg) f1 -> unselected out ->
  exists sel, choice cfg req stickyID out sel /\ selects out sel (rank cfg req stickyID out).
Proof. apply rank_refines_lemma. Qed.

Definition ranked_key (id : Z) (rate : f64) : PlatformKey :=
  mkKey "" id 3 "k" "" "sk" rate "" StatusEnabled 0 0 None "" None HealthHealthy 0 None [] (Some demo_up).

Definition ranked (id : Z) (q : f64) (rate : f64) (samples : Z) : Candidate :=
  mkCandidate (ranked_key id rate) None 0 0 0 no_info (mkScores 0 0 false q (effectiveCost rate f0) f1 f0 0 samples)
    true "" false false false "" "fixed_order" false.

Definition ranked_out : list Candidate := [ranked 1 (f_dec 9 1) (f_of_Z 2) 5; ranked 2 (f_dec 88 2) f1 5; ranked 3 (f_dec 5 1) f0 0].

Definition plain_request : Request :=
  mkRequest true false true true 1 "/v1/chat/completions" true "" "openai" "gpt-4o" "" [] [] [] None ∅ ∅.

Lemma ranked_out_ok : quality_ok ranked_out /\ unselected ranked_out.
Proof.
  split; intros i c H; apply list_elem_of_lookup_2 in H;
    repeat (apply elem_of_cons in H as [->|H]; [|]); try (by apply not_elem_of_nil in H); try reflexivity; intros _;
    (split; [vm_compute; reflexivity|split; vm_compute; reflexivity]).
Qed.

Lemma rank_refines_witness :
  exists sel, choice DefaultSchedulerSettings plain_request 0 ranked_out sel
              /\ selects ranked_out sel (rank DefaultSchedulerSettings plain_request 0 ranked_out).
Proof. apply rank_refines; [apply ranked_out_ok|split; vm_compute; reflexivity|apply ranked_out_ok]. Defined.

(** C12: A pass over the keys selects at most one candidate, and only one whose
    key passes every hard rule (allowed by the route, enabled, protocol and model
    supported, no cooldown, balance left, below its RPM and concurrency limits) and
    that has no open circuit in its way, or is admitted for validation behind a
    gate that waits for it.  Unless the stable mode takes over, it selects one
    whenever there is an eligible candidate.  Candidates are reported in key order. *)
Theorem evaluate_selects cfg env req now rt tb out rt' tb' :
  settings_ok cfg -> env_ok env (rq_Model req) -> evaluate cfg env req now rt tb = Ok (out, rt', tb') ->
  cd_Key <$> out = en_keys env
  /\ (forall i j c d, out !! i = Some c -> out !! j = Some d -> cd_Selected c = true -> cd_Selected d = true -> i = j)
  /\ (forall i c, out !! i = Some c -> cd_Selected c = true -> selectable cfg env req now rt tb c)
  /\ (RankingMode cfg <> "stable_latency" -> (exists i, eligible out i) -> exists i c, out !! i = Some c /\ cd_Selected c = true).
Proof.
  intros So Eo Ev. pose proof (fun i c => evaluate_eligible _ _ _ _ _ _ _ _ _ i c So Eo Ev) as El.
  destruct (evaluate_spec _ _ _ _ _ _ _ _ _ So Eo Ev) as (cs & J & Q & U & _ & _ & -> & _).
  destruct (rank_refines_lemma cfg req (en_sticky env) cs Q (so_epsilon _ So) U) as (sel & Ch & S).
  assert (Sel : forall i c, rank cfg req (en_sticky env) cs !! i = Some c -> cd_Selected c = true -> sel = Some i).
  { intros i c Hi Hs. destruct (selects_back _ _ _ _ _ S Hi) as (d & _ & _ & E). rewrite E in Hs. by apply bool_decide_eq_true in Hs. }
  split_and!.
  - apply list_eq_same_length with (length (en_keys env)); [done|rewrite length_fmap, (proj1 S); symmetry; apply (Forall2_length J)|].
    intros i k k' _ Hk Hk'. rewrite list_lookup_fmap, fmap_Some in Hk. destruct Hk as (c & Hc & ->).
    destruct (El i c Hc) as [E _]. congruence.
  - intros i j c d Hi Hj Hc Hd. pose proof (Sel i c Hi Hc). pose proof (Sel j d Hj Hd). congruence.
  - intros i c Hi Hs. by apply (evaluate_selected _ _ _ _ _ _ _ _ _ _ _ So Eo Ev Hi).
  - intros M (i & c & Hi & He). destruct sel as [k|].
    + destruct (choice_eligible _ _ _ _ _ Ch) as (d & Hd & _). destruct S as [_ S]. destruct (S k d Hd) as (c' & Hc' & _ & E).
      exists k, c'. by rewrite E, bool_decide_true.
    + exfalso. inversion Ch as [|Nv [N|N]| | |]; [|done]. destruct (selects_back _ _ _ _ _ S Hi) as (d & Hd & Sc & _).
      apply (N i). exists d. split; [done|]. destruct (same_core_eqs _ _ Sc) as (_ & _ & E & _). congruence.
Qed.

(** Two keys, 7 behind an open circuit and 8 free. *)
Definition two_keys : Env := mkEnv [ranked_key 7 f1; ranked_key 8 f1] [] (fun _ => None) (fun _ _ => empty_window) 0 0.

Definition selected_ids (r : result rherr (list Candidate * runtimeState * Tables)) : list Z :=
  match r with Ok (out, _, _) => cd_KeyID <$> filter (fun c => cd_Selected c = true) out | Err _ => [] end.

Lemma default_settings_ok : settings_ok DefaultSchedulerSettings.
Proof.
  split; [split_and!; (split; [vm_compute; reflexivity|split; vm_compute; reflexivity])|vm_compute; reflexivity| |].
  - split; vm_compute; congruence.
  - split; vm_compute; reflexivity.
Qed.

Lemma two_keys_ok model : env_ok two_keys model.
Proof. intros k. unfold window_ok. split; [reflexivity|]. split; [reflexivity|]. split; vm_compute; congruence. Qed.

(** During the cooldown of key 7 the request goes to key 8. *)
Example evaluate_avoids_open_circuit :
  selected_ids (evaluate DefaultSchedulerSettings two_keys plain_request (1010 * Second) new_runtime demo_open) = [8].
Proof. vm_compute. reflexivity. Qed.

Lemma demo_evaluates :
  is_ok (evaluate DefaultSchedulerSettings two_keys plain_request (1010 * Second) new_runtime demo_open) = true.
Proof. vm_compute. reflexivity. Qed.

Lemma evaluate_selects_witness :
  exists out rt' tb', evaluate DefaultSchedulerSettings two_keys plain_request (1010 * Second) new_runtime demo_open = Ok (out, rt', tb')
  /\ cd_Key <$> out = en_keys two_keys
  /\ (forall i j c d, out !! i = Some c -> out !! j = Some d -> cd_Selected c = true -> cd_Selected d = true -> i = j)
  /\ (forall i c, out !! i = Some c -> cd_Selected c = true ->
        selectable DefaultSchedulerSettings two_keys plain_request (1010 * Second) new_runtime demo_open c)
  /\ (RankingMode DefaultSchedulerSettings <> "stable_latency" -> (exists i, eligible out i) ->
        exists i c, out !! i = Some c /\ cd_Selected c = true).
Proof.
  pose proof demo_evaluates as O.
  destruct (evaluate DefaultSchedulerSettings two_keys plain_request (1010 * Second) new_runtime demo_open) as [[[out rt'] tb']|e] eqn:E;
    [|discriminate O].
  exists out, rt', tb'. split; [reflexivity|].
  exact (evaluate_selects _ _ _ _ _ _ _ _ _ default_settings_ok (two_keys_ok _) E).
Defined.
