(* ===== verification/PickerAdmit.v ===== *)
(** * The picker and the circuit store agree (internal/picker/routing_health.go, internal/routinghealth)

    The picker reads the circuit rows and decides which keys are open for the
    request; the gateway then asks the store to admit the request on the selected
    key.  The theorem of this file relates the two: in every reachable state of
    the store the selected candidate is admitted, as a normal request or as a
    validation, exactly as the picker marked it. *)

From stdpp Require Import sorting.
From S2P Require Import Prelude GoFloat GoString Settings Domain Capacity Window Score Database Circuit CircuitProps CircuitSafety Picker PickerProps.

(** ** Checks only run behind an expired cooldown *)

Record paced (now : time) (r : RoutingCircuit) : Prop := {
  pc_until : rc_CheckUntil r <> None \/ rc_NextCheckAt r <> None -> rc_Until r <= now;
  pc_ok : rc_CheckOK r = true -> rc_NextCheckAt r = None;
  pc_next : rc_CheckUntil r <> None -> after_opt (rc_NextCheckAt r) now = false
}.

Lemma after_opt_later p now now' : now <= now' -> after_opt p now = false -> after_opt p now' = false.
Proof. destruct p as [t|]; simpl; [|done]. rewrite !After_false. lia. Qed.

Lemma paced_later now now' r : paced now r -> now <= now' -> paced now' r.
Proof. intros [] H. split; [intros; specialize (pc_until0 H0); lia|done|intros; eapply after_opt_later; eauto]. Qed.

Lemma paced_fresh now d s : paced now (fresh_circuit d s).
Proof. split; simpl; [intros [|]; done|done|done]. Qed.

(** A row whose checks are unchanged or cleared. *)
Definition checks_kept (r r' : RoutingCircuit) : Prop :=
  rc_CheckUntil r' = None /\ rc_NextCheckAt r' = None
  \/ rc_Until r' = rc_Until r /\ (rc_CheckUntil r' = rc_CheckUntil r \/ rc_CheckUntil r' = None)
     /\ rc_NextCheckAt r' = rc_NextCheckAt r /\ rc_CheckOK r' = rc_CheckOK r.

Lemma paced_kept now r r' : checks_kept r r' -> paced now r -> paced now r'.
Proof.
  intros [[E1 E2]|(E1 & E2 & E3 & E4)] [P1 P2 P3]; split; rewrite ?E1, ?E2, ?E3, ?E4; try done.
  - intros [|]; done.
  - destruct E2 as [-> | ->]; intros [|]; auto.
  - destruct E2 as [-> | ->]; done.
Qed.

Lemma observe_update_checks cfg d tok o now k r : checks_kept r (observe_update cfg d tok o now k r).
Proof.
  unfold observe_update, observe_success, observe_failure, checks_kept.
  repeat match goal with |- context [if ?c then _ else _] => destruct c end; simpl; auto 10.
Qed.

Lemma row_tr_paced now tok k r r' : row_tr now tok k r r' -> paced now r -> paced now r'.
Proof.
  destruct 1 as [r O B|st d o key r S|r O|r d O B N|r msg nx b O|r msg nx b O L T A B]; intros P.
  - eapply paced_kept; [|exact P]. right. simpl. auto.
  - eapply paced_kept; [|exact P]. apply observe_update_checks.
  - eapply paced_kept; [|exact P]. by left.
  - unfold gate_blocked in B. bools. destruct P as [P1 P2 P3]. split; simpl; [done|done|]. intros _.
    unfold check_backoff in N. destruct (rc_CheckOK r) eqn:C; [by rewrite P2|done].
  - eapply paced_kept; [|exact P]. by left.
  - destruct P as [P1 P2 P3]. unfold check_active in A. split; simpl; [|done|done].
    intros _. apply P1. left. by destruct (rc_CheckUntil r).
Qed.

(** Rows of a reachable store: paced, and none without a scope. *)
Definition store_paced (now : time) (tb : Tables) : Prop :=
  tables_wf tb /\ circuits tb !! "" = None /\ forall s r, circuits tb !! s = Some r -> paced now r.

Lemma reachable_paced ok now tb : reachable ok now tb -> store_paced now tb.
Proof.
  induction 1 as [t Ht|now now' o tb R IH Hn Ho].
  - split_and!; intros; simpl in *; by rewrite ?lookup_empty in *.
  - destruct IH as (W & N & P). pose proof (op_rows now' o tb W) as M. split_and!; [by apply op_wf| |].
    + destruct (circuits (exec_op now' o tb) !! "") as [r'|] eqn:E; [|done].
      destruct (move_back _ _ _ _ _ M "" r' E) as (r & [Hr|(_ & ? & _)] & _); congruence.
    + intros s r' H. destruct (move_back _ _ _ _ _ M s r' H) as (r & O & T).
      assert (Pr : paced now' r).
      { destruct O as [Hr|(_ & _ & d & ->)]; [|apply paced_fresh]. eapply paced_later; [by eapply P|done]. }
      destruct T as [->|T]; [done|]. by eapply row_tr_paced.
Qed.

Lemma store_paced_later now now' tb : store_paced now tb -> now <= now' -> store_paced now' tb.
Proof. intros (W & N & P) H. split_and!; [done|done|]. intros. eapply paced_later; [by eapply P|done]. Qed.

(** ** The gate found is the one that matters *)

Lemma open_gates_lookup tb req ids s r :
  tables_wf tb -> open_gates tb req ids !! s = Some r ->
  circuits tb !! s = Some r /\ rc_Open r = true /\ rc_Scope r = s.
Proof.
  intros W. unfold open_gates, Snapshot. case_bool_decide as E; simpl; [by rewrite lookup_empty|].
  unfold select. rewrite map_lookup_filter_Some. simpl. intros [H [_ O]%andb_true_iff]. auto.
Qed.

Lemma open_gates_found tb req ids k s r :
  tables_wf tb -> k ∈ ids -> s ∈ [Scope (dimension req k); KeyScope k] ->
  circuits tb !! s = Some r -> rc_Open r = true -> open_gates tb req ids !! s = Some r.
Proof.
  intros W Hk Hs Hr O.
  assert (Hin : s ∈ (dimension req <$> ids) ≫= fun d => [Scope d; KeyScope (dm_KeyID d)]).
  { apply list_elem_of_bind. exists (dimension req k). split; [done|]. by apply list_elem_of_fmap_2. }
  unfold open_gates, Snapshot. case_bool_decide as E; [rewrite E in Hin; by apply not_elem_of_nil in Hin|]. simpl.
  apply map_lookup_filter_Some. simpl. split; [done|]. by rewrite (W _ _ Hr), bool_decide_true, O.
Qed.

Lemma busy_rows_elem tb states ids now r :
  r ∈ busy_rows tb states ids now <->
  (exists s, circuits tb !! s = Some r) /\ (rc_PlatformKeyID r ∈ ids /\ is_Some (states !! KeyScope (rc_PlatformKeyID r)))
  /\ (After (rc_LeaseUntil r) now || after_opt (rc_CheckUntil r) now) = true.
Proof.
  unfold busy_rows. rewrite merge_sort_Permutation, list_elem_of_fmap. split.
  - intros ([s r'] & -> & H). apply elem_of_map_to_list in H. unfold select in H. apply map_lookup_filter_Some in H as [H1 H2].
    simpl in *. apply andb_true_iff in H2 as [H2 H3]. apply bool_decide_eq_true, list_elem_of_filter in H2 as [H2 H2'].
    split_and!; eauto.
  - intros ([s H1] & [H2 H2'] & H3). exists (s, r). split; [done|]. apply elem_of_map_to_list, map_lookup_filter_Some.
    split; [done|]. simpl. rewrite H3, andb_true_r. by apply bool_decide_eq_true, list_elem_of_filter.
Qed.

(** The order of the gates: priority, then the later end of the cooldown. *)
Definition dominates (now : time) (g r : RoutingCircuit) : Prop :=
  recoveryGatePriority r now < recoveryGatePriority g now
  \/ recoveryGatePriority r now = recoveryGatePriority g now /\ rc_Until r <= rc_Until g.

Lemma dominates_refl now g : dominates now g g.
Proof. right. lia. Qed.

Lemma better_gate_spec now g r :
  (better_gate now g r = r \/ better_gate now g r = g /\ rc_Scope g <> "") /\ dominates now (better_gate now g r) r
  /\ (rc_Scope g <> "" -> dominates now (better_gate now g r) g).
Proof.
  unfold better_gate, dominates. destruct (String.eqb_spec (rc_Scope g) "") as [E|E]; simpl.
  - split_and!; [by left|right; lia|done].
  - destruct (_ || _) eqn:B; (split_and!; [auto| |intros _]).
    + right; lia.
    + apply orb_true_iff in B as [B|[B1 B2]%andb_true_iff]; bools; lia.
    + apply orb_false_iff in B as [B1 B2]. apply andb_false_iff in B2 as [B2|B2]; bools; lia.
    + right; lia.
Qed.

(** Busy rows replace the gate only with a higher priority. *)
Lemma busier_fold now l g :
  let g' := fold_left (busier_gate now) l g in
  (g' = g \/ g' ∈ l /\ recoveryGatePriority g now < recoveryGatePriority g' now)
  /\ forall r, r ∈ l -> recoveryGatePriority r now <= recoveryGatePriority g' now.
Proof.
  revert g. induction l as [|x l IH]; intros g; simpl.
  - split; [by left|]. intros r H. by apply not_elem_of_nil in H.
  - destruct (IH (busier_gate now g x)) as [H1 H2]. unfold busier_gate in *.
    destruct (Z.ltb_spec (recoveryGatePriority g now) (recoveryGatePriority x now)) as [L|L].
    + split.
      * right. destruct H1 as [-> | [H1 H1']]; [split; [by left|lia]|split; [by right|lia]].
      * intros r [->|Hr]%elem_of_cons; [destruct H1 as [-> | [_ ?]]; lia|auto].
    + split.
      * destruct H1 as [-> | [H1 H1']]; [by left|right; split; [by right|lia]].
      * intros r [->|Hr]%elem_of_cons; [destruct H1 as [-> | [_ ?]]; lia|auto].
Qed.

Section gate_of_key.
Context (tb : Tables) (req : Request) (ids : list Z) (now : time) (k : Z).
Context (St : store_paced now tb) (Hk : k ∈ ids).
Let states := open_gates tb req ids.
Let busy := filter (fun r => rc_PlatformKeyID r = k) (busy_rows tb states ids now).
Let g := gate_for tb req ids now k.

(** An open row of one of the two gates. *)
Definition open_row (s : string) (r : RoutingCircuit) : Prop :=
  s ∈ [Scope (dimension req k); KeyScope k] /\ circuits tb !! s = Some r /\ rc_Open r = true.

(** The better of the two gates, before the busy rows. *)
Lemma own_gate_spec :
  exists a, g = fold_left (busier_gate now) busy a /\ (a = zero_circuit \/ exists s, open_row s a)
            /\ forall s r, open_row s r -> rc_Scope a <> "" /\ dominates now a r.
Proof using St Hk.
  destruct St as (W & Ne & P).
  set (add := fun gt scope => match states !! scope with Some r => better_gate now gt r | None => gt end).
  exists (add (add zero_circuit (Scope (dimension req k))) (KeyScope k)). split; [done|].
  assert (Row : forall s r, states !! s = Some r -> s ∈ [Scope (dimension req k); KeyScope k] -> open_row s r /\ rc_Scope r <> "").
  { intros s r H Hs. destruct (open_gates_lookup _ _ _ _ _ W H) as (H1 & H2 & H3). split; [done|]. rewrite H3. intros ->. congruence. }
  assert (Conv : forall s r, open_row s r -> states !! s = Some r).
  { intros s r (H1 & H2 & H3). by eapply open_gates_found. }
  unfold add. destruct (states !! Scope (dimension req k)) as [r1|] eqn:E1.
  - destruct (Row _ _ E1 ltac:(by left)) as [O1 S1].
    assert (B1 : better_gate now zero_circuit r1 = r1) by done. rewrite B1.
    destruct (states !! KeyScope k) as [r2|] eqn:E2.
    + destruct (Row _ _ E2 ltac:(right; by left)) as [O2 S2]. destruct (better_gate_spec now r1 r2) as (C & D2 & D1).
      split; [right; destruct C as [-> | [-> _]]; eauto|]. intros s r Hr. split; [by destruct C as [-> | [-> _]]|].
      pose proof (Conv s r Hr) as Hr'. destruct Hr as (Hs & _). apply elem_of_cons in Hs as [->|Hs%list_elem_of_singleton].
      * rewrite E1 in Hr'. simplify_eq. by apply D1.
      * subst s. rewrite E2 in Hr'. by simplify_eq.
    + split; [right; eauto|]. intros s r Hr. split; [done|]. pose proof (Conv s r Hr) as Hr'. destruct Hr as (Hs & _).
      apply elem_of_cons in Hs as [->|Hs%list_elem_of_singleton]; [|subst s; congruence].
      rewrite E1 in Hr'. simplify_eq. apply dominates_refl.
  - destruct (states !! KeyScope k) as [r2|] eqn:E2.
    + destruct (Row _ _ E2 ltac:(right; by left)) as [O2 S2].
      assert (B1 : better_gate now zero_circuit r2 = r2) by done. rewrite B1.
      split; [right; eauto|]. intros s r Hr. split; [done|]. pose proof (Conv s r Hr) as Hr'. destruct Hr as (Hs & _).
      apply elem_of_cons in Hs as [->|Hs%list_elem_of_singleton]; [congruence|subst s].
      rewrite E2 in Hr'. simplify_eq. apply dominates_refl.
    + split; [by left|]. intros s r Hr. pose proof (Conv s r Hr) as Hr'. destruct Hr as (Hs & _).
      apply elem_of_cons in Hs as [->|Hs%list_elem_of_singleton]; [|subst s]; congruence.
Qed.

Lemma busy_spec r : r ∈ busy -> (exists s, circuits tb !! s = Some r) /\ rc_Scope r <> "" /\ paced now r
  /\ exists r', open_row (KeyScope k) r'.
Proof using St Hk.
  destruct St as (W & Ne & P). intros [E H]%list_elem_of_filter. apply busy_rows_elem in H as ([s Hs] & [_ [r' Hr']] & _).
  rewrite E in Hr'. destruct (open_gates_lookup _ _ _ _ _ W Hr') as (H1 & H2 & _).
  split_and!; [by exists s| |by eapply P|exists r'; split_and!; [right; by left|done|done]].
  rewrite (W _ _ Hs). intros ->. congruence.
Qed.

(** No gate found: both are closed. *)
Lemma no_gate_closed s r : rc_Scope g = "" -> open_row s r -> False.
Proof using St Hk.
  intros Eg Hr. destruct own_gate_spec as (a & Ea & _ & D). destruct (D s r Hr) as [Sa _].
  pose proof (busier_fold now busy a) as [[B|[B _]] _]; rewrite <- Ea in B; [congruence|].
  by apply busy_spec in B as (_ & B & _).
Qed.

(** A gate found is a row of the store that dominates the open rows of the key. *)
Lemma gate_dominates :
  rc_Scope g <> "" -> paced now g /\ (forall s r, open_row s r -> dominates now g r)
  /\ (forall r, r ∈ busy -> recoveryGatePriority r now <= recoveryGatePriority g now).
Proof using St Hk.
  intros Sg. destruct own_gate_spec as (a & Ea & Oa & D). pose proof (busier_fold now busy a) as [B L]. rewrite <- Ea in B, L.
  split_and!; [| |done].
  - destruct B as [B|[B _]]; [|by apply busy_spec in B as (_ & _ & ? & _)]. rewrite B. destruct Oa as [Oa|(s & _ & Ha & _)];
      [rewrite B, Oa in Sg; done|]. destruct St as (_ & _ & P). by eapply P.
  - intros s r Hr. destruct (D s r Hr) as [_ Dr]. destruct B as [-> | [_ B]]; [done|]. left. destruct Dr as [|[-> _]]; lia.
Qed.
End gate_of_key.

(** A gate that waits for a validation is half open and free. *)
Lemma validatable_ready now key g : paced now g -> validatable now key g -> gate_blocked now g = false.
Proof.
  intros [P1 P2 P3] V. unfold validatable, gate_reason, gate_view, check_backoff in V. unfold gate_blocked.
  destruct (After (rc_LeaseUntil g) now) eqn:EL.
  { exfalso. repeat case_match; simplify_eq/=; by destruct V. }
  rewrite orb_false_r. destruct (after_opt (rc_NextCheckAt g) now) eqn:EN.
  - assert (Nx : rc_NextCheckAt g <> None) by (intros E; by rewrite E in EN). apply orb_false_iff. split.
    + apply After_false. apply P1. by right.
    + destruct (rc_CheckUntil g) eqn:EC; [|done]. by specialize (P3 ltac:(done)).
  - rewrite andb_false_r, andb_false_r in V. destruct (after_opt (rc_CheckUntil g) now) eqn:EC.
    { exfalso. repeat case_match; simplify_eq/=; by destruct V. }
    destruct (After (rc_Until g) now) eqn:EU; [|done]. exfalso. simpl in V. by destruct V.
Qed.

Lemma unblocked_priority now r : gate_blocked now r = false -> recoveryGatePriority r now <= 3.
Proof.
  unfold gate_blocked, recoveryGatePriority. intros [[B1 B2]%orb_false_iff B3]%orb_false_iff. rewrite B1, B2, B3.
  repeat case_match; lia.
Qed.

(** Under a free gate every row it dominates is free. *)
Lemma dominated_unblocked now g r : gate_blocked now g = false -> dominates now g r -> gate_blocked now r = false.
Proof.
  intros Bg D. pose proof (unblocked_priority now g Bg) as Pg. unfold gate_blocked in Bg.
  apply orb_false_iff in Bg as [[Bu _]%orb_false_iff _]. apply After_false in Bu.
  unfold dominates in D. unfold recoveryGatePriority at 1 3 in D. unfold gate_blocked.
  destruct (After (rc_LeaseUntil r) now); [lia|]. destruct (after_opt (rc_CheckUntil r) now); [lia|].
  destruct (After (rc_Until r) now) eqn:E; [|done]. apply After_spec in E. lia.
Qed.

Lemma gate_open_row tb req k s :
  s ∈ [Scope (dimension req k); KeyScope k] -> rc_Open (gate tb (dimension req k) s) = true ->
  open_row tb req k s (gate tb (dimension req k) s).
Proof. intros Hs. unfold gate, open_row. destruct (circuits tb !! s) as [r|]; simpl; [|done]. by intros O. Qed.

(** With no gate found the store admits a normal request. *)
Lemma normal_admitted tb req ids now k :
  store_paced now tb -> k ∈ ids -> rc_Scope (gate_for tb req ids now k) = "" -> admit_ok tb (dimension req k) false now = true.
Proof.
  intros St Hk Eg. unfold admit_ok, enter_ok. change (dm_KeyID (dimension req k)) with k.
  assert (C : forall s, s ∈ [Scope (dimension req k); KeyScope k] -> rc_Open (gate tb (dimension req k) s) = false).
  { intros s Hs. destruct (rc_Open _) eqn:O; [|done]. exfalso. by eapply no_gate_closed; [..|apply gate_open_row]. }
  rewrite (C (Scope (dimension req k))) by by left. rewrite (C (KeyScope k) ltac:(right; by left)). done.
Qed.

(** Behind a gate that waits for it the store admits the validation. *)
Lemma validation_admitted tb req ids now k key :
  store_paced now tb -> k ∈ ids -> let g := gate_for tb req ids now k in
  rc_Scope g <> "" -> validatable now key g -> admit_ok tb (dimension req k) true now = true.
Proof.
  intros St Hk g Sg V. destruct (gate_dominates tb req ids now k St Hk Sg) as (Pg & D & L). fold g in Pg, D, L.
  pose proof (validatable_ready now key g Pg V) as Bg.
  assert (Free : forall s, s ∈ [Scope (dimension req k); KeyScope k] -> rc_Open (gate tb (dimension req k) s) = true ->
                           gate_blocked now (gate tb (dimension req k) s) = false).
  { intros s Hs O. eapply dominated_unblocked; [exact Bg|]. by eapply D, gate_open_row. }
  assert (Idle : rc_Open (gate tb (dimension req k) (KeyScope k)) = true -> key_in_use tb (dimension req k) now = false).
  { intros O. unfold key_in_use. apply Z.ltb_ge. destruct (decide (select (busy_on_key (dimension req k) (KeyScope k) now) (circuits tb) = ∅)) as [E|E];
      [by simpl; rewrite E, map_size_empty|]. exfalso. apply map_choose in E as (s & r & Hr). unfold select in Hr.
    apply map_lookup_filter_Some in Hr as [Hr Hb]. simpl in Hb. unfold busy_on_key in Hb. simpl in Hb.
    apply andb_true_iff in Hb as [[Hid _]%andb_true_iff Hb]. apply Z.eqb_eq in Hid.
    assert (Hin : r ∈ filter (fun r => rc_PlatformKeyID r = k) (busy_rows tb (open_gates tb req ids) ids now)).
    { apply list_elem_of_filter. split; [done|]. apply busy_rows_elem. rewrite Hid, orb_comm. split_and!; [by exists s|done| |done].
      destruct (gate_open_row tb req k (KeyScope k) ltac:(right; by left) O) as (H1 & H2 & H3).
      rewrite (open_gates_found tb req ids k (KeyScope k) _ (proj1 St) Hk H1 H2 H3). done. }
    specialize (L r Hin). pose proof (unblocked_priority now g Bg). unfold recoveryGatePriority at 1 in L.
    destruct (After (rc_LeaseUntil r) now); [lia|]. destruct (after_opt (rc_CheckUntil r) now); [lia|done]. }
  unfold admit_ok, enter_ok. change (dm_KeyID (dimension req k)) with k. apply andb_true_iff. split.
  - destruct (rc_Open (gate tb (dimension req k) (KeyScope k))) eqn:O; [|done].
    rewrite (Free (KeyScope k)), Idle by (done || (right; by left)). done.
  - destruct (rc_Open (gate tb (dimension req k) (Scope (dimension req k)))) eqn:O; [|done].
    rewrite Free by (done || by left). done.
Qed.

Lemma selectable_admitted cfg env req now rt tb tb' c tok :
  store_paced now tb -> cd_KeyID c ∈ pk_ID <$> en_keys env -> circuits tb' = circuits tb -> selectable cfg env req now rt tb c ->
  exists a, transaction (AdmitRequest (dimension req (cd_KeyID c)) (cd_Recovery c) tok now) tb'
            = (Ok a, admit_tables tb' (dimension req (cd_KeyID c)) tok now).
Proof.
  intros St Hk Ec [_ S]. assert (W' : tables_wf tb') by (intros s r; rewrite Ec; apply St).
  assert (A : admit_ok tb' (dimension req (cd_KeyID c)) (cd_Recovery c) now = true).
  { assert (E : admit_ok tb' (dimension req (cd_KeyID c)) (cd_Recovery c) now = admit_ok tb (dimension req (cd_KeyID c)) (cd_Recovery c) now)
      by (unfold admit_ok, key_in_use, gate; by rewrite Ec). rewrite E.
    destruct (cd_Recovery c); [destruct S as [S1 S2]; by eapply validation_admitted|by eapply normal_admitted]. }
  rewrite transaction_AdmitRequest, A by done. by eexists.
Qed.

(** ** The property *)

(** C5: Whatever a pass finds eligible, the store admits: in every reachable state of
    the circuit tables, if no other operation comes in between, AdmitRequest for
    such a candidate's key succeeds, as a normal request or as a validation exactly as
    the candidate is marked.  The picker's view of the gates (two scopes, the busy
    rows of a gated key, priorities) and the store's admission rules agree. *)
Theorem selected_is_admitted cfg env req t0 now rt tb out rt' tb' i c tok :
  reachable any_op t0 tb -> t0 <= now -> settings_ok cfg -> env_ok env (rq_Model req) ->
  evaluate cfg env req now rt tb = Ok (out, rt', tb') -> out !! i = Some c -> cd_Eligible c = true ->
  exists a tb'', transaction (AdmitRequest (dimension req (cd_KeyID c)) (cd_Recovery c) tok now) tb' = (Ok a, tb'').
Proof.
  intros R Hn So Eo Ev Hi He. destruct (evaluate_eligible _ _ _ _ _ _ _ _ _ i c So Eo Ev Hi) as [Hk Hs].
  destruct (evaluate_spec _ _ _ _ _ _ _ _ _ So Eo Ev) as (_ & _ & _ & _ & _ & _ & _ & Ec & _).
  pose proof (store_paced_later _ _ _ (reachable_paced _ _ _ R) Hn) as St.
  edestruct (selectable_admitted cfg env req now rt tb tb' c tok St) as [a Ha]; [|exact Ec|by apply Hs|eauto].
  unfold cd_KeyID. apply (list_elem_of_fmap_2 pk_ID). by eapply list_elem_of_lookup_2.
Qed.

(** After its cooldown, with no other key, key 7 is validated by the request. *)
Definition one_key : Env := mkEnv [ranked_key 7 f1] [] (fun _ => None) (fun _ _ => empty_window) 0 0.

Lemma one_key_ok model : env_ok one_key model.
Proof. apply (two_keys_ok model). Qed.

Definition after_cooldown : result rherr (list Candidate * runtimeState * Tables) :=
  evaluate DefaultSchedulerSettings one_key plain_request (2000 * Second) new_runtime demo_open.

Definition validated (r : result rherr (list Candidate * runtimeState * Tables)) : list (Z * bool) :=
  match r with
  | Ok (out, _, _) => (fun c => (cd_KeyID c, cd_Recovery c)) <$> filter (fun c => cd_Eligible c = true) out
  | Err _ => []
  end.

Lemma after_cooldown_validates : validated after_cooldown = [(7, true)].
Proof. vm_compute. reflexivity. Qed.

Lemma selected_is_admitted_witness :
  exists out rt' tb' i c a tb'', after_cooldown = Ok (out, rt', tb') /\ out !! i = Some c /\ cd_Recovery c = true
    /\ transaction (AdmitRequest (dimension plain_request (cd_KeyID c)) (cd_Recovery c) "tok-v" (2000 * Second)) tb' = (Ok a, tb'').
Proof.
  pose proof after_cooldown_validates as V. unfold validated in V.
  destruct after_cooldown as [[[out rt'] tb']|e] eqn:E; [|discriminate V].
  destruct (filter (fun c => cd_Eligible c = true) out) as [|c l] eqn:F; [discriminate V|]. injection V as V1 V2 V3.
  assert (Hin : c ∈ filter (fun c => cd_Eligible c = true) out) by (rewrite F; by left).
  apply list_elem_of_filter in Hin as [He Hin]. apply list_elem_of_lookup in Hin as [i Hi].
  destruct (selected_is_admitted DefaultSchedulerSettings one_key plain_request (1000 * Second) (2000 * Second) new_runtime demo_open out rt' tb' i c
    "tok-v" (demo_open_reachable any_op I) ltac:(done) default_settings_ok (one_key_ok _) E Hi He) as (a & tb'' & H).
  exists out, rt', tb', i, c, a, tb''. split; [reflexivity|]. split; [exact Hi|]. split; [exact V2|exact H].
Defined.
