(* ===== verification/Stable.v ===== *)
(** * Stable routing and decisions (internal/picker/stable.go, band.go)

    In the mode "stable_latency" a session keeps its key as long as the key is
    reliable; a faster challenger takes over only after its lead has lasted.  The
    bindings live in a state per route scope, kept in Redis and in memory.  Rows
    of [request_attempts] and what Redis answers are arguments. *)

From stdpp Require Import sorting.
From S2P Require Import Prelude GoFloat GoString Settings Domain Capacity Window Score Database Circuit Picker.

(** ** The state of a scope *)

Record stableBinding : Type := mkBinding { sb_Key : Z; sb_Expires : Z; sb_Challenger : Z; sb_Since : Z }.
Record responseSession : Type := mkResponse { rs_Session : string; rs_Expires : Z }.
Record stableState : Type := mkStable {
  ss_Bindings : gmap string stableBinding;
  ss_Responses : gmap string responseSession;
  ss_Explored : gmap Z Z;
  ss_Expires : Z
}.

Definition zero_binding : stableBinding := mkBinding 0 0 0 0.
Definition zero_state : stableState := mkStable ∅ ∅ ∅ 0.

Definition set_expires (s : stableState) (e : Z) : stableState :=
  mkStable (ss_Bindings s) (ss_Responses s) (ss_Explored s) e.
Definition set_bindings (s : stableState) (b : gmap string stableBinding) : stableState :=
  mkStable b (ss_Responses s) (ss_Explored s) (ss_Expires s).
Definition set_explored (s : stableState) (e : gmap Z Z) : stableState :=
  mkStable (ss_Bindings s) (ss_Responses s) e (ss_Expires s).
Definition set_responses (s : stableState) (r : gmap string responseSession) : stableState :=
  mkStable (ss_Bindings s) r (ss_Explored s) (ss_Expires s).

Definition prepare (now : Z) (s : stableState) : stableState :=
  let s := if ss_Expires s <=? now then zero_state else s in
  mkStable (filter (fun kv => now < sb_Expires kv.2) (ss_Bindings s))
    (filter (fun kv => now < rs_Expires kv.2) (ss_Responses s)) (ss_Explored s) (ss_Expires s).

(** ** Running a function on the state of a scope *)

Inductive serr : Type := TxFailedErr | ContextErr.

(** What one WATCH transaction came to, and the stored value it read. *)
Inductive watch_reply : Type :=
| WatchDone (raw : option stableState)
| WatchConflict (raw : option stableState)
| WatchError.

(** The states in memory after the call, and the value written to Redis. *)
Record stable_out (A : Type) : Type := mkOut { so_val : A; so_states : gmap string stableState; so_set : option stableState }.
Arguments mkOut {A}.
Arguments so_val {A}.
Arguments so_states {A}.
Arguments so_set {A}.

Section with_state.
Context {A : Type} (fn : stableState -> A * stableState) (scope : string) (mutate : bool) (now ttl : Z).

Definition commit (raw : option stableState) (states : gmap string stableState) : stable_out A :=
  let '(a, s) := fn (prepare now (default zero_state raw)) in
  if mutate then let s := set_expires s (now + ttl) in mkOut a (<[scope := s]> states) (Some s)
  else mkOut a states None.

Definition local (states : gmap string stableState) : stable_out A :=
  let '(a, s) := fn (prepare now (default zero_state (states !! scope))) in
  if mutate then
    mkOut a (filter (fun kv => now < ss_Expires kv.2) (<[scope := set_expires s (now + ttl)]> states)) None
  else mkOut a states None.

(** At most five attempts; [inl] is the commit, [inr conflicted] the end of the loop. *)
Fixpoint watch_loop (n : nat) (replies : list watch_reply) (states : gmap string stableState) (conflicted : bool)
  : stable_out A + bool :=
  match n with
  | O => inr conflicted
  | S n' =>
      match replies with
      | WatchDone raw :: _ => inl (commit raw states)
      | WatchConflict _ :: rest => watch_loop n' rest states true
      | WatchError :: _ | [] => inr false
      end
  end.

(** [redis]: the replies when a client is configured, and whether the request's
    context had ended after them. *)
Definition withStableState (redis : option (list watch_reply * bool)) (states : gmap string stableState)
  : result serr (stable_out A) :=
  match redis with
  | None => Ok (local states)
  | Some (replies, ended) =>
      match watch_loop 5 replies states false with
      | inl out => Ok out
      | inr true => Err TxFailedErr
      | inr false => if ended then Err ContextErr else Ok (local states)
      end
  end.
End with_state.

(** ** Recent attempts *)

Definition AttemptStatsVersion : Z := 2.

Record RequestAttempt : Type := mkAttemptRow {
  ra_ID : string;
  ra_PlatformKeyID : Z;
  ra_Protocol : string;
  ra_Model : string;
  ra_Path : string;
  ra_Stream : bool;
  ra_StatsVersion : Z;
  ra_Result : string;
  ra_TTFTMs : Z;
  ra_FailureAction : option string;       (* NULL in rows older than the column *)
  ra_InputTokens : Z;
  ra_CacheReadTokens : Z;
  ra_CacheCreationTokens : Z;
  ra_CompletedAt : time
}.

(** [ORDER BY completed_at DESC, id DESC]. *)
Definition attempt_first (a b : RequestAttempt) : Prop :=
  ra_CompletedAt b < ra_CompletedAt a \/ ra_CompletedAt a = ra_CompletedAt b /\ String.leb (ra_ID b) (ra_ID a) = true.
#[export] Instance attempt_first_dec a b : Decision (attempt_first a b).
Proof. unfold attempt_first. apply _. Defined.

(** The rows of the query; [model] is absent in the cross-model fallback. *)
Definition attempt_scored (cfg : SchedulerSettings) (req : Request) (model : option string) (now : time) (key : Z)
    (r : RequestAttempt) : bool :=
  (ra_PlatformKeyID r =? key) && String.eqb (ra_Protocol r) (rq_Protocol req)
  && match model with Some m => String.eqb (ra_Model r) m | None => true end
  && String.eqb (ra_Path r) (rq_Path req) && Bool.eqb (ra_Stream r) (rq_Stream req)
  && (ra_StatsVersion r =? AttemptStatsVersion) && After (ra_CompletedAt r) (now - WindowMinutes cfg * Minute)
  && (String.eqb (ra_Result r) "success" || String.eqb (ra_Result r) "upstream_failure")
  && (String.eqb (ra_Result r) "success"
      || match ra_FailureAction r with Some a => negb (bool_decide (a ∈ AvailabilityFailureActions)) | None => true end).

Definition recent_attempts (cfg : SchedulerSettings) (req : Request) (model : option string) (now : time)
    (rows : list RequestAttempt) (key : Z) : list RequestAttempt :=
  take (Z.to_nat (WindowMaxSamples cfg))
    (merge_sort attempt_first (filter (fun r => attempt_scored cfg req model now key r = true) rows)).

(** [byKey] after the fallback. *)
Definition attempts_of (cfg : SchedulerSettings) (req : Request) (now : time) (rows : list RequestAttempt) (key : Z)
  : list RequestAttempt :=
  let own := recent_attempts cfg req (Some (rq_Model req)) now rows key in
  if Z.of_nat (length own) <? MinSamples cfg then
    let all := recent_attempts cfg req None now rows key in
    if (length own <? length all)%nat then all else own
  else own.

(** The scores of one eligible candidate from its attempts. *)
Definition attempt_stats (l : list RequestAttempt) (c : Candidate) : Candidate :=
  let s := cd_Scores c in
  let oks := filter (fun r => ra_Result r = "success") l in
  let ok := Z.of_nat (length oks) in
  let n := Z.of_nat (length l) in
  let lats := filter (fun t => 0 < t) (ra_TTFTMs <$> oks) in
  let sum f := fold_left (fun n r => wrap_i64 (n + f r)) oks 0 in
  let den := wrap_i64 (wrap_i64 (sum ra_InputTokens + sum ra_CacheReadTokens) + sum ra_CacheCreationTokens) in
  let cache := if 0 <? den then fdiv (f_of_Z (sum ra_CacheReadTokens)) (f_of_Z den) else sc_CacheRate s in
  with_scores c (mkScores (Z.of_nat (length lats))
    (fold_left (fun m r => Z.max m (UnixMilli (ra_CompletedAt r))) l (sc_LastSampleAt s)) (sc_Reliable s)
    (fdiv (fadd (f_of_Z ok) (f_dec 35 1)) (f_of_Z (n + 5)))
    (effectiveCost (pk_RateMultiplier (cd_Key c)) cache)
    (if 0 <? n then fdiv (f_of_Z ok) (f_of_Z n) else sc_SuccessRate s) cache
    (if bool_decide (lats = []) then sc_TTFTp50 s else merge_sort Z.le lats !!! ((length lats - 1) / 2)%nat) n).

Definition attemptCandidates (cfg : SchedulerSettings) (req : Request) (now : time) (rows : list RequestAttempt)
    (cands : list Candidate) : list Candidate :=
  (fun c => if cd_Eligible c then attempt_stats (attempts_of cfg req now rows (cd_KeyID c)) c else c) <$> cands.

(** ** The pool and its fastest candidate *)

Definition with_reliable (c : Candidate) (b : bool) : Candidate :=
  let s := cd_Scores c in
  with_scores c (mkScores (sc_LatencySamples s) (sc_LastSampleAt s) b (sc_Quality s) (sc_EffectiveCost s)
                   (sc_SuccessRate s) (sc_CacheRate s) (sc_TTFTp50 s) (sc_Samples s)).

(** Positions of a list whose element satisfies [p], in order. *)
Definition positions {A} (p : A -> bool) (l : list A) : list nat :=
  List.filter (fun i => match l !! i with Some a => p a | None => false end) (seq 0 (length l)).

Definition best_success (cands : list Candidate) (minSamples : Z) : f64 :=
  fold_left (fun b c => if cd_Eligible c && (minSamples <=? sc_Samples (cd_Scores c))
                        then fmax b (sc_SuccessRate (cd_Scores c)) else b) cands f0.

Definition is_reliable (minSamples : Z) (best : f64) (c : Candidate) : bool :=
  let s := cd_Scores c in
  cd_Eligible c && (minSamples <=? sc_Samples s) && fge (sc_SuccessRate s) (f_dec 9 1)
  && fge (fadd (fadd (sc_SuccessRate s) (f_dec 5 2)) (f_dec 1 9)) best.

Definition best_eligible (cands : list Candidate) : f64 :=
  fold_left (fun b c => if cd_Eligible c then fmax b (sc_Quality (cd_Scores c)) else b) cands (f_of_Z (-1)).

(** The candidates with their reliability, the pool, and whether it is degraded. *)
Definition candidatePool (cands : list Candidate) (minSamples : Z) : list Candidate * list nat * bool :=
  let best := best_success cands minSamples in
  let cands := (fun c => with_reliable c (is_reliable minSamples best c)) <$> cands in
  let pool := positions (fun c => sc_Reliable (cd_Scores c)) cands in
  if bool_decide (pool = []) then
    let best := best_eligible cands in
    (cands, positions (fun c => cd_Eligible c && fge (fadd (sc_Quality (cd_Scores c)) (f_dec 1 9)) best) cands, true)
  else (cands, pool, false).

Definition MaxInt : Z := 2 ^ 63 - 1.

Definition fastest_ttft (cands : list Candidate) (pool : list nat) (minSamples : Z) : Z :=
  fold_left (fun f i => match cands !! i with
                        | Some c => if minSamples <=? sc_LatencySamples (cd_Scores c) then Z.min f (sc_TTFTp50 (cd_Scores c)) else f
                        | None => f
                        end) pool MaxInt.

(** Not skipped by the latency test. *)
Definition fast_enough (fastest minSamples : Z) (c : Candidate) : bool :=
  let s := cd_Scores c in
  negb (negb (fastest =? MaxInt)
        && ((sc_LatencySamples s <? minSamples)
            || fgt (f_of_Z (wrap_i64 (sc_TTFTp50 s - fastest))) (fmax (f_of_Z 500) (fmul (f_of_Z fastest) (f_dec 1 1))))).

Definition at_pos (cands : list Candidate) (p : Candidate -> bool) (i : nat) : bool :=
  match cands !! i with Some c => p c | None => false end.
Definition at_pos2 (cands : list Candidate) (p : Candidate -> Candidate -> bool) (i j : nat) : bool :=
  match cands !! i, cands !! j with Some c, Some d => p c d | _, _ => false end.

Definition cheaper (a b : Candidate) : bool :=
  flt (sc_EffectiveCost (cd_Scores a)) (sc_EffectiveCost (cd_Scores b))
  || (feq (sc_EffectiveCost (cd_Scores a)) (sc_EffectiveCost (cd_Scores b)) && (cd_KeyID a <? cd_KeyID b)).

Definition fastestCandidate (cands : list Candidate) (pool : list nat) (minSamples : Z) : option nat :=
  let fastest := fastest_ttft cands pool minSamples in
  snd <$> scan_best (fun _ i => at_pos cands (fast_enough fastest minSamples) i) (at_pos2 cands cheaper) pool.

(** ** The decision *)

Record Decision : Type := mkDecision {
  de_BudgetReady : bool;
  de_ExplorationSlot : bool;
  de_Reason : string;
  de_PreviousKeyID : Z;
  de_SelectedKeyID : Z;
  de_Scope : string;
  de_SessionSource : string;
  de_SessionHash : string;
  de_Exploration : bool;
  de_Degraded : bool;
  de_Candidates : list Candidate
}.

Definition zero_decision : Decision := mkDecision false false "" 0 0 "" "" "" false false [].

(** The outcome of the closure on the state. *)
Record verdict : Type := mkVerdict { vd_chosen : nat; vd_reason : string; vd_previous : Z; vd_exploration : bool }.

Section decide.
Context (cfg : SchedulerSettings) (req : Request) (now : Z) (mutate : bool).
Context (cands : list Candidate) (rows : Z -> list RequestAttempt) (best : nat) (degraded : bool).

Definition scores_at (i : nat) : Scores := match cands !! i with Some c => cd_Scores c | None => no_scores end.
Definition key_at (i : nat) : Z := match cands !! i with Some c => cd_KeyID c | None => 0 end.

(** [current]: the first candidate of the bound key. *)
Definition current_of (key : Z) : option nat :=
  fst <$> scan_best (fun _ c => cd_KeyID c =? key) (fun _ _ => false) cands.

(** The challenger leads: enough samples, no worse success, clearly faster. *)
Definition improved (cur : nat) : bool :=
  let c := scores_at cur in
  let b := scores_at best in
  let gap := wrap_i64 (sc_TTFTp50 c - sc_TTFTp50 b) in
  negb (best =? cur)%nat && (MinSamples cfg <=? sc_LatencySamples b) && (MinSamples cfg <=? sc_LatencySamples c)
  && fge (sc_SuccessRate b) (sc_SuccessRate c) && (0 <? gap)
  && ((SwitchImprovementMs cfg <=? gap)
      || fge (f_of_Z gap) (fmul (f_of_Z (sc_TTFTp50 c)) (SwitchImprovementRatio cfg))).

Definition new_samples (key since : Z) : Z :=
  Z.of_nat (length (filter (fun r => ra_Result r = "success" /\ 0 < ra_TTFTMs r /\ since < UnixMilli (ra_CompletedAt r)) (rows key))).

(** The bound key stays eligible and good enough: keep it, or switch to a
    challenger whose lead was confirmed.  Returns the choice, the reason and the
    binding. *)
Definition keep_binding (cur : nat) (b : stableBinding) : nat * string * stableBinding :=
  if improved cur then
    let b := if negb (sb_Challenger b =? key_at best) then mkBinding (sb_Key b) (sb_Expires b) (key_at best) now else b in
    if (SwitchConfirmSec cfg * 1000 <=? now - sb_Since b) && (3 <=? new_samples (key_at best) (sb_Since b))
    then (best, "latency_improved", b) else (cur, "reuse", b)
  else (cur, "reuse", mkBinding (sb_Key b) (sb_Expires b) 0 0).

Definition keeps (cur : nat) : bool :=
  sc_Reliable (scores_at cur)
  || (degraded && fge (fadd (sc_Quality (scores_at cur)) (f_dec 1 9)) (sc_Quality (scores_at best))).

(** The choice before exploration. *)
Definition from_binding (state : stableState) : nat * string * stableState :=
  match ss_Bindings state !! rq_Session req with
  | None => (best, "initial_selection", state)
  | Some b =>
      match current_of (sb_Key b) with
      | None => (best, "binding_unavailable", state)
      | Some cur =>
          if match cands !! cur with Some c => cd_Eligible c | None => false end then
            if keeps cur then
              let '(chosen, reason, b') := keep_binding cur b in
              (chosen, reason, if mutate then set_bindings state (<[rq_Session req := b']> (ss_Bindings state)) else state)
            else (best, "reliability_dropped", state)
          else (best, match cands !! cur with Some c => cd_SkipReason c | None => "" end, state)
      end
  end.

Definition explored_at (state : stableState) (key : Z) : Z := default 0 (ss_Explored state !! key).

Definition mark_explored (state : stableState) (key : Z) : stableState :=
  if mutate then set_explored state (<[key := now]> (ss_Explored state)) else state.

(** The challenger may borrow the exploration slot of a bound session. *)
Definition challenger_faster (cur : nat) : bool :=
  (sc_LatencySamples (scores_at best) <? MinSamples cfg)
  || ((MinSamples cfg <=? sc_LatencySamples (scores_at cur)) && (sc_TTFTp50 (scores_at best) <? sc_TTFTp50 (scores_at cur))).

Definition staler (a b : Candidate) : bool :=
  (sc_LastSampleAt (cd_Scores a) <? sc_LastSampleAt (cd_Scores b))
  || ((sc_LastSampleAt (cd_Scores a) =? sc_LastSampleAt (cd_Scores b)) && (cd_KeyID a <? cd_KeyID b)).

Definition may_explore (state : stableState) (chosen : nat) (i : nat) (c : Candidate) : bool :=
  cd_Eligible c && negb (i =? chosen)%nat && negb (now - explored_at state (cd_KeyID c) <? 60000) && negb (known_bad c).

Definition excludes_any : bool := bool_decide (rq_Exclude req ++ rq_ExcludeProviders req ++ rq_ExcludeKeyModels req <> []).

(** The closure of [stableDecision]. *)
Definition decide_state (state : stableState) : verdict * stableState :=
  let has := bool_decide (is_Some (ss_Bindings state !! rq_Session req)) in
  let previous := sb_Key (default zero_binding (ss_Bindings state !! rq_Session req)) in
  let current := current_of previous in
  let '(chosen, reason, state) := from_binding state in
  if excludes_any then (mkVerdict chosen "failover" previous false, state) else
  let '(chosen, reason, exploration, state) :=
    match current with
    | Some cur =>
        if negb (String.eqb (rq_Session req) "") && has && String.eqb reason "reuse" && (chosen =? cur)%nat
           && negb (best =? cur)%nat && rq_ExplorationSlot req && fgt (ExplorationRatio cfg) f0
           && challenger_faster cur && (60000 <=? now - explored_at state (key_at best))
        then (best, "challenger_trial", true, mark_explored state (key_at best))
        else (chosen, reason, false, state)
    | None => (chosen, reason, false, state)
    end in
  if (String.eqb (rq_Session req) "" || negb has) && fgt (ExplorationRatio cfg) f0 && rq_ExplorationSlot req then
    match scan_best (may_explore state chosen) staler cands with
    | Some (i, c) => (mkVerdict i "exploration" previous true, mark_explored state (cd_KeyID c))
    | None => (mkVerdict chosen reason previous exploration, state)
    end
  else (mkVerdict chosen reason previous exploration, state).
End decide.

(** ** The picker *)

Record BandPicker : Type := mkPicker {
  bp_cfg : SchedulerSettings;
  bp_sticky : gmap string stickyEntry;
  bp_runtime : runtimeState;
  bp_stable : gmap string stableState
}.

Definition set_runtime (p : BandPicker) (rt : runtimeState) : BandPicker :=
  mkPicker (bp_cfg p) (bp_sticky p) rt (bp_stable p).
Definition set_stable (p : BandPicker) (s : gmap string stableState) : BandPicker :=
  mkPicker (bp_cfg p) (bp_sticky p) (bp_runtime p) s.
Definition set_sticky (p : BandPicker) (s : gmap string stickyEntry) : BandPicker :=
  mkPicker (bp_cfg p) s (bp_runtime p) (bp_stable p).

(** What a call reads of the database and of Redis: the two stable-state calls of
    one decision have their own replies. *)
Record World : Type := mkWorld {
  wd_keys : list PlatformKey;
  wd_cooldowns : list KeyModelCooldown;
  wd_probes : Z -> option ProbeLog;
  wd_window : Z -> string -> Window;
  wd_attempts : list RequestAttempt;
  wd_rget : string -> option Z;
  wd_bound : option (list watch_reply * bool);
  wd_watch : option (list watch_reply * bool)
}.

Inductive perr : Type := ErrNoUpstream | PStore (e : rherr) | PStable (e : serr).

Definition stable_ttl (cfg : SchedulerSettings) : Z := Z.max (StickyTTLSec cfg) 900 * 1000.

(** [boundKey] of [applyRoutingHealth]. *)
Definition bound_key (p : BandPicker) (w : World) (req : Request) (now : time) : result serr Z :=
  if String.eqb (rq_Session req) "" then Ok 0 else
  if String.eqb (RankingMode (bp_cfg p)) "stable_latency" then
    match withStableState (fun s => (sb_Key (default zero_binding (ss_Bindings s !! rq_Session req)), s))
            (routeScope req) false (UnixMilli now) (stable_ttl (bp_cfg p)) (wd_bound w) (bp_stable p) with
    | Ok out => Ok (so_val out)
    | Err e => Err e
    end
  else Ok (stickyKey req (bp_cfg p) (wd_rget w) (bp_sticky p) now).

(** [evaluate] of the picker. *)
Definition pass (p : BandPicker) (w : World) (req : Request) (now : time) (tb : Tables)
  : result perr (list Candidate * BandPicker * Tables) :=
  match bound_key p w req now with
  | Err e => Err (PStable e)
  | Ok bound =>
      match evaluate (bp_cfg p)
              (mkEnv (wd_keys w) (wd_cooldowns w) (wd_probes w) (wd_window w) bound
                 (stickyKey req (bp_cfg p) (wd_rget w) (bp_sticky p) now)) req now (bp_runtime p) tb with
      | Err e => Err (PStore e)
      | Ok (cands, rt, tb') => Ok (cands, set_runtime p rt, tb')
      end
  end.

Definition base_decision (req : Request) (reason : string) : Decision :=
  mkDecision (rq_BudgetReady req) (rq_ExplorationSlot req) reason 0 0 (routeScope req) (rq_SessionSource req) (rq_Session req)
    false false [].

Definition with_pick (d : Decision) (reason : string) (previous selected : Z) (exploration degraded : bool) (cands : list Candidate) : Decision :=
  mkDecision (de_BudgetReady d) (de_ExplorationSlot d) reason previous selected (de_Scope d) (de_SessionSource d)
    (de_SessionHash d) exploration degraded cands.

(** Result, decision, picker and tables after a decision. *)
Definition outcome : Type := result perr Candidate * Decision * BandPicker * Tables.

Definition set_in_band (pool : list nat) (cands : list Candidate) : list Candidate :=
  imap (fun i c => if bool_decide (i ∈ pool)
                   then with_decision c true (cd_Selected c) (cd_DecisionReason c) (cd_RankingMode c) (cd_AffinityHit c) else c) cands.

Definition stableDecision (p : BandPicker) (w : World) (req : Request) (mutate : bool) (now : time) (tb : Tables) : outcome :=
  let d := base_decision req "" in
  match pass p w req now tb with
  | Err e => (Err e, d, p, tb)
  | Ok (cands, p, tb) =>
      match find (fun c => cd_Selected c && cd_Recovery c) cands with
      | Some c => (Ok c, with_pick d "recovery_validation" 0 (cd_KeyID c) false false cands, p, tb)
      | None =>
          let cfg := bp_cfg p in
          let cands := attemptCandidates cfg req now (wd_attempts w) cands in
          let '(cands, pool, degraded) := candidatePool cands (MinSamples cfg) in
          let cands := set_in_band pool cands in
          match fastestCandidate cands pool (MinSamples cfg) with
          | None => (Err ErrNoUpstream, with_pick d "" 0 0 false degraded cands, p, tb)
          | Some best =>
              match withStableState
                      (decide_state cfg req (UnixMilli now) mutate cands (attempts_of cfg req now (wd_attempts w)) best degraded)
                      (routeScope req) mutate (UnixMilli now) (stable_ttl cfg) (wd_watch w) (bp_stable p) with
              | Err e => (Err (PStable e), with_pick d "" 0 0 false degraded cands, p, tb)
              | Ok out =>
                  let v := so_val out in
                  let cands := alter (fun c => with_decision c (cd_InBand c) true (vd_reason v) (cd_RankingMode c) (cd_AffinityHit c))
                                 (vd_chosen v) cands in
                  match cands !! vd_chosen v with
                  | Some c => (Ok c, with_pick d (vd_reason v) (vd_previous v) (cd_KeyID c) (vd_exploration v) degraded cands,
                               set_stable p (so_states out), tb)
                  | None => (Err ErrNoUpstream, d, p, tb)
                  end
              end
          end
      end
  end.

Definition PickDecision (p : BandPicker) (w : World) (req : Request) (now : time) (tb : Tables) : outcome :=
  match prepareBudget (bp_cfg p) req true tb with
  | Err e => (Err (PStore e), zero_decision, p, tb)
  | Ok (req, tb) =>
      if String.eqb (RankingMode (bp_cfg p)) "stable_latency" then stableDecision p w req true now tb else
      let d := base_decision req "legacy_ranking" in
      match pass p w req now tb with
      | Err e => (Err e, d, p, tb)
      | Ok (cands, p, tb) =>
          match find cd_Selected cands with
          | Some c => (Ok c, with_pick d (if cd_Recovery c then "recovery_validation" else "legacy_ranking") 0 (cd_KeyID c)
                               false false cands, p, tb)
          | None => (Err ErrNoUpstream, with_pick d "legacy_ranking" 0 0 false false cands, p, tb)
          end
      end
  end.

Definition Pick (p : BandPicker) (w : World) (req : Request) (now : time) (tb : Tables) : result perr Candidate * BandPicker * Tables :=
  let '(r, _, p, tb) := PickDecision p w req now tb in (r, p, tb).

Definition with_diagnostic (req : Request) : Request :=
  mkRequest (rq_MutateRecovery req) true (rq_BudgetReady req) (rq_ExplorationSlot req) (rq_ConsumerID req) (rq_Path req)
    (rq_Stream req) (rq_SessionSource req) (rq_Protocol req) (rq_Model req) (rq_Session req) (rq_Exclude req)
    (rq_ExcludeProviders req) (rq_ExcludeKeyModels req) (rq_AllowKeys req) (rq_DriftKeys req) (rq_RouteReasons req).

Definition Explain (p : BandPicker) (w : World) (req : Request) (now : time) (tb : Tables)
  : result perr (list Candidate) * BandPicker * Tables :=
  match prepareBudget (bp_cfg p) (with_diagnostic req) false tb with
  | Err e => (Err (PStore e), p, tb)
  | Ok (req, tb) =>
      if String.eqb (RankingMode (bp_cfg p)) "stable_latency" then
        let '(r, d, p, tb) := stableDecision p w req false now tb in
        (match r with Ok _ | Err ErrNoUpstream => Ok (de_Candidates d) | Err e => Err e end, p, tb)
      else match pass p w req now tb with
           | Err e => (Err e, p, tb)
           | Ok (cands, p, tb) => (Ok cands, p, tb)
           end
  end.

(** ** After a success *)

Definition commit_state (cfg : SchedulerSettings) (req : Request) (d : Decision) (key : Z) (responseID : string) (now : Z)
    (state : stableState) : unit * stableState :=
  let ttl := if String.eqb (rq_Session req) "" then 900 else StickyTTLSec cfg in
  let state :=
    if negb (String.eqb (de_Reason d) "challenger_trial") && (negb (de_Exploration d) || negb (String.eqb (rq_Session req) "")) then
      let old := ss_Bindings state !! rq_Session req in
      let o := default zero_binding old in
      if negb (bool_decide (is_Some old)) || (sb_Key o =? key) || (sb_Key o =? de_PreviousKeyID d) then
        let o := if negb (sb_Key o =? key) then mkBinding key 0 0 0 else o in
        set_bindings state (<[rq_Session req := mkBinding (sb_Key o) (now + ttl * 1000) (sb_Challenger o) (sb_Since o)]> (ss_Bindings state))
      else state
    else state in
  if String.eqb responseID "" then (tt, state) else
  let expires := now + StickyTTLSec cfg * 1000 in
  let '(session, state) :=
    if String.eqb (rq_Session req) "" then
      let session := sessionDigest (bytes ("response:" +:+ responseID)) in
      (session, set_bindings state (<[session := mkBinding key expires 0 0]> (ss_Bindings state)))
    else (rq_Session req, state) in
  (tt, set_responses state (<[sessionDigest (bytes responseID) := mkResponse session expires]> (ss_Responses state))).

Definition CommitSuccess (p : BandPicker) (w : World) (req : Request) (d : Decision) (key : Z) (responseID : string) (now : time) : BandPicker :=
  if String.eqb (de_Reason d) "recovery_validation" then p else
  if negb (String.eqb (RankingMode (bp_cfg p)) "stable_latency")
  then set_sticky p (SetSticky (bp_cfg p) (rq_Protocol req) (rq_Session req) key now (bp_sticky p)).2 else
  match withStableState (commit_state (bp_cfg p) req d key responseID (UnixMilli now)) (routeScope req) true (UnixMilli now)
          (stable_ttl (bp_cfg p)) (wd_watch w) (bp_stable p) with
  | Ok out => set_stable p (so_states out)
  | Err _ => p
  end.

Definition ResolvePrevious (p : BandPicker) (w : World) (req : Request) (id : string) (now : time) : string :=
  match withStableState (fun s => (match ss_Responses s !! sessionDigest (bytes id) with Some r => rs_Session r | None => "" end, s))
          (routeScope req) false (UnixMilli now) (stable_ttl (bp_cfg p)) (wd_watch w) (bp_stable p) with
  | Ok out => so_val out
  | Err _ => ""
  end.
