(* ===== verification/StableProps.v ===== *)
(** * What stable routing guarantees (internal/picker/stable.go)

    Every decision selects an eligible key, and one is found whenever there is
    one; a bound session keeps its key unless a challenger's lead was confirmed or
    the key failed; previews change nothing; a committed response id resolves to
    its session. *)

From S2P Require Import Prelude GoFloat GoString Settings Domain Capacity Window Score Database Circuit CircuitProps CircuitSafety Picker PickerProps Stable.

(** ** Positions and scans *)

Lemma positions_spec {A} (p : A -> bool) l i : i ∈ positions p l <-> exists a, l !! i = Some a /\ p a = true.
Proof.
  unfold positions. rewrite list_elem_of_In, filter_In, in_seq. split.
  - intros [_ H]. destruct (l !! i) as [a|]; [by exists a|done].
  - intros (a & H & Hp). rewrite H. pose proof (lookup_lt_Some _ _ _ H). split; [lia|done].
Qed.

Lemma scan_from_some {A} (ok : nat -> A -> bool) better i l b : is_Some (scan_from ok better i l (Some b)).
Proof. revert i b. induction l as [|c l IH]; intros i [k b]; simpl; [by eexists|]. repeat case_match; apply IH. Qed.

(** A scan finds something as soon as one element qualifies. *)
Lemma scan_best_found {A} (ok : nat -> A -> bool) better l j c :
  l !! j = Some c -> ok j c = true -> is_Some (scan_best ok better l).
Proof.
  unfold scan_best. intros Hj Ho. assert (G : forall i best, ok (i + j)%nat c = true -> is_Some (scan_from ok better i l best)).
  { clear Ho. revert j Hj. induction l as [|x l IH]; intros [|j] Hj i best Ho; simplify_eq/=.
    - rewrite Nat.add_0_r in Ho. rewrite Ho. destruct best as [[k b]|]; [case_match|]; apply scan_from_some.
    - apply (IH j Hj). by replace (S i + j)%nat with (i + S j)%nat by lia. }
  by apply G.
Qed.

Lemma scan_from_elem {A} (ok : nat -> A -> bool) better l i best k c :
  scan_from ok better i l best = Some (k, c) ->
  best = Some (k, c) \/ (i <= k)%nat /\ l !! (k - i)%nat = Some c /\ ok k c = true.
Proof.
  revert i best. induction l as [|x l IH]; intros i best H; simpl in H; [by left|].
  apply IH in H as [H|(H1 & H2 & H3)].
  - destruct (ok i x) eqn:Eo; [|by left]. destruct best as [[k' b]|]; [destruct (better x b); [|by left]|];
      injection H as <- <-; right; by rewrite Nat.sub_diag.
  - right. split_and!; [lia| |done]. by replace (k - i)%nat with (S (k - S i)) by lia.
Qed.

(** What a scan returns is an element that qualifies. *)
Lemma scan_best_elem {A} (ok : nat -> A -> bool) better l k c :
  scan_best ok better l = Some (k, c) -> l !! k = Some c /\ ok k c = true.
Proof. intros H. apply scan_from_elem in H as [H|(_ & H & Ho)]; [done|]. by rewrite Nat.sub_0_r in H. Qed.

(** ** The pool is never empty while a candidate is eligible *)

Lemma fastest_zero y : flt (fmax (f_of_Z 500) y) (f_of_Z 0) = false.
Proof.
  unfold fmax. destruct (is_nan y) eqn:N; [by rewrite orb_true_r|]. rewrite orb_false_r. simpl is_nan.
  destruct (is_nan (f_of_Z 500)) eqn:N5; [by vm_compute in N5|].
  destruct (fle (f_of_Z 500) y) eqn:E; [|vm_compute; reflexivity].
  apply not_true_is_false. intros H. apply flt_fle in H. pose proof (fle_trans _ _ _ E H) as H'. by vm_compute in H'.
Qed.

Lemma fastest_ttft_spec cands pool m :
  fastest_ttft cands pool m = MaxInt
  \/ exists i c, i ∈ pool /\ cands !! i = Some c /\ (m <=? sc_LatencySamples (cd_Scores c)) = true
                 /\ sc_TTFTp50 (cd_Scores c) = fastest_ttft cands pool m.
Proof.
  unfold fastest_ttft.
  enough (G : forall l f, let r := fold_left (fun f i => match cands !! i with
      | Some c => if m <=? sc_LatencySamples (cd_Scores c) then Z.min f (sc_TTFTp50 (cd_Scores c)) else f
      | None => f end) l f in r = f \/ exists i c, i ∈ l /\ cands !! i = Some c
      /\ (m <=? sc_LatencySamples (cd_Scores c)) = true /\ sc_TTFTp50 (cd_Scores c) = r) by apply G.
  induction l as [|i l IH]; intros f; simpl; [by left|].
  set (f' := match cands !! i with Some c => _ | None => f end).
  destruct (IH f') as [H|(j & c & Hj & H)]; [|right; exists j, c; split; [by right|done]].
  rewrite H. unfold f'. destruct (cands !! i) as [c|] eqn:Ec; [|by left].
  destruct (m <=? sc_LatencySamples (cd_Scores c)) eqn:Em; [|by left].
  destruct (Z.le_ge_cases f (sc_TTFTp50 (cd_Scores c))); [left; lia|].
  right. exists i, c. split_and!; [by left|done|done|lia].
Qed.

Lemma fastestCandidate_elem cands pool m i : fastestCandidate cands pool m = Some i -> i ∈ pool /\ is_Some (cands !! i).
Proof.
  unfold fastestCandidate. rewrite fmap_Some. intros ([k j] & H & ->). apply scan_best_elem in H as [H Ho].
  split; [by eapply list_elem_of_lookup_2|]. unfold at_pos in Ho. simpl. by destruct (cands !! j).
Qed.

Lemma fastestCandidate_found cands pool m i c :
  i ∈ pool -> cands !! i = Some c -> is_Some (fastestCandidate cands pool m).
Proof.
  intros Hi Hc. unfold fastestCandidate. apply fmap_is_Some.
  assert (G : exists j d, j ∈ pool /\ cands !! j = Some d /\ fast_enough (fastest_ttft cands pool m) m d = true).
  { destruct (fastest_ttft_spec cands pool m) as [E|(j & d & Hj & Hd & L & E)].
    - exists i, c. split_and!; [done|done|]. unfold fast_enough. by rewrite E.
    - exists j, d. split_and!; [done|done|]. unfold fast_enough. rewrite E, Z.sub_diag.
      replace (sc_LatencySamples (cd_Scores d) <? m) with false by lia. change (wrap_i64 0) with 0. unfold fgt.
      by rewrite fastest_zero, andb_false_r. }
  destruct G as (j & d & Hj & Hd & F). apply list_elem_of_lookup in Hj as [k Hk].
  eapply scan_best_found; [exact Hk|]. unfold at_pos. by rewrite Hd.
Qed.

(** Quality from attempts: (ok + 3.5) / (n + 5). *)
Lemma attempt_quality_unit l c :
  Z.of_nat (length l) <= 2 ^ 52 ->
  valid (sc_Quality (cd_Scores (attempt_stats l c))) /\ fbetween f0 (sc_Quality (cd_Scores (attempt_stats l c))) f1.
Proof.
  intros Hn. unfold attempt_stats. cbn [cd_Scores with_scores sc_Quality]. split; [apply fdiv_valid|].
  apply smoothed_rate_unit; [|done]. pose proof (filter_length_le (fun r => ra_Result r = "success") l). lia.
Qed.

Lemma attempts_of_length cfg req now rows key : (length (attempts_of cfg req now rows key) <= Z.to_nat (WindowMaxSamples cfg))%nat.
Proof. unfold attempts_of, recent_attempts. repeat case_match; rewrite length_take; lia. Qed.

(** A scored candidate is the candidate with other scores. *)
Definition rescored (c c' : Candidate) : Prop := exists s, c' = with_scores c s.

Lemma attemptCandidates_lookup cfg req now rows cands i c :
  cands !! i = Some c -> exists c', attemptCandidates cfg req now rows cands !! i = Some c' /\ rescored c c'
    /\ (cd_Eligible c = true -> WindowMaxSamples cfg <= 2 ^ 52 -> fbetween f0 (sc_Quality (cd_Scores c')) f1 /\ valid (sc_Quality (cd_Scores c'))).
Proof.
  intros H. unfold attemptCandidates. rewrite list_lookup_fmap, H. simpl. eexists. split; [done|].
  destruct (cd_Eligible c) eqn:E; [|split; [exists (cd_Scores c); by destruct c|done]].
  split; [by eexists|]. intros _ W. pose proof (attempts_of_length cfg req now rows (cd_KeyID c)).
  destruct (attempt_quality_unit (attempts_of cfg req now rows (cd_KeyID c)) c); [lia|done].
Qed.

Lemma best_eligible_spec cands :
  (forall i c, cands !! i = Some c -> cd_Eligible c = true -> is_nan (sc_Quality (cd_Scores c)) = false) ->
  best_eligible cands = f_of_Z (-1)
  \/ exists i c, cands !! i = Some c /\ cd_Eligible c = true /\ best_eligible cands = sc_Quality (cd_Scores c).
Proof.
  unfold best_eligible. assert (N0 : is_nan (f_of_Z (-1)) = false) by done. revert N0. generalize (f_of_Z (-1)).
  induction cands as [|c l IH]; intros b Nb H; simpl; [by left|].
  set (b' := if cd_Eligible c then fmax b (sc_Quality (cd_Scores c)) else b).
  assert (Hb : b' = b \/ cd_Eligible c = true /\ b' = sc_Quality (cd_Scores c)).
  { unfold b'. destruct (cd_Eligible c) eqn:E; [|by left]. unfold fmax. rewrite Nb, (H 0%nat c eq_refl E). simpl. case_match; auto. }
  assert (Nb' : is_nan b' = false) by (destruct Hb as [-> | [E ->]]; [done|by apply (H 0%nat c)]).
  destruct (IH b' Nb' (fun i d Hd => H (S i) d Hd)) as [E|(i & d & Hd & E1 & E2)].
  - rewrite E. destruct Hb as [-> | [Ec ->]]; [by left|]. right. by exists 0%nat, c.
  - right. by exists (S i), d.
Qed.

(** The pool: made of eligible candidates, and not empty while there is one. *)
Lemma candidatePool_spec cands m out pool degraded :
  candidatePool cands m = (out, pool, degraded) ->
  length out = length cands
  /\ (forall i c, cands !! i = Some c -> exists c', out !! i = Some c' /\ rescored c c')
  /\ (forall i, i ∈ pool -> exists c, cands !! i = Some c /\ cd_Eligible c = true)
  /\ ((forall i c, cands !! i = Some c -> cd_Eligible c = true -> valid (sc_Quality (cd_Scores c)) /\ fbetween f0 (sc_Quality (cd_Scores c)) f1) ->
      (exists i c, cands !! i = Some c /\ cd_Eligible c = true) -> pool <> []).
Proof.
  unfold candidatePool. set (best := best_success cands m). set (rel := fun c => with_reliable c (is_reliable m best c)).
  set (out0 := rel <$> cands).
  assert (Look : forall i c, cands !! i = Some c -> exists c', out0 !! i = Some c' /\ rescored c c').
  { intros i c H. exists (rel c). unfold out0. rewrite list_lookup_fmap, H. split; [done|by eexists]. }
  assert (Back : forall i c', out0 !! i = Some c' -> exists c, cands !! i = Some c /\ c' = rel c).
  { intros i c' H. unfold out0 in H. rewrite list_lookup_fmap in H. destruct (cands !! i) as [c|]; simplify_eq/=. eauto. }
  case_bool_decide as Ep; intros [= <- <- <-].
  - split_and!; [by unfold out0; rewrite length_fmap|done| |].
    + intros i (c' & H & Hp)%positions_spec. destruct (Back _ _ H) as (c & Hc & ->). exists c. split; [done|].
      by apply andb_true_iff in Hp as [Hp _].
    + intros Q (i & c & Hc & He) Hnil.
      assert (G : exists j d, out0 !! j = Some d /\ cd_Eligible d = true
                  /\ fge (fadd (sc_Quality (cd_Scores d)) (f_dec 1 9)) (best_eligible out0) = true).
      { destruct (best_eligible_spec out0) as [E|(j & d & Hd & Ed & E)].
        - intros j d Hd Ed. destruct (Back _ _ Hd) as (d' & Hd' & ->). by apply fbetween_not_nan, (Q j d' Hd').
        - exists i, (rel c). split_and!; [by unfold out0; rewrite list_lookup_fmap, Hc|done|]. rewrite E. unfold fge.
          destruct (Q i c Hc He) as [_ [B _]]. eapply fle_trans; [|apply fadd_nonneg; [exact B|vm_compute; reflexivity]]. by vm_compute.
        - exists j, d. split_and!; [done|done|]. rewrite E. destruct (Back _ _ Hd) as (d' & Hd' & ->).
          destruct (Q j d' Hd' Ed) as [V B]. pose proof (fbetween_fin _ B) as F. unfold fge. cbn [rel with_reliable cd_Scores with_scores sc_Quality].
          rewrite <- (fadd_0_r _ V F) at 1. apply fadd_mono; [apply B|done|apply fle_refl; by apply fbetween_not_nan|vm_compute; reflexivity]. }
      destruct G as (j & d & Hd & Ed & Hf).
      assert (Hin : j ∈ positions (fun c => cd_Eligible c && fge (fadd (sc_Quality (cd_Scores c)) (f_dec 1 9)) (best_eligible out0)) out0).
      { apply positions_spec. exists d. split; [done|]. by rewrite Ed, Hf. }
      rewrite Hnil in Hin. by apply not_elem_of_nil in Hin.
  - split_and!; [by unfold out0; rewrite length_fmap|done| |done].
    intros i (c' & H & Hp)%positions_spec. destruct (Back _ _ H) as (c & Hc & ->). exists c. split; [done|].
    simpl in Hp. unfold is_reliable in Hp. by apply andb_true_iff in Hp as [[[Hp _]%andb_true_iff _]%andb_true_iff _].
Qed.

(** ** The verdict *)

Section verdicts.
Context (cfg : SchedulerSettings) (req : Request) (now : Z) (mutate : bool).
Context (cands : list Candidate) (rows : Z -> list RequestAttempt) (best : nat) (degraded : bool).
Context (Hbest : eligible cands best).

Lemma keep_binding_cases cur b :
  let '(chosen, reason, b') := keep_binding cfg now cands rows best cur b in
  sb_Key b' = sb_Key b /\ sb_Expires b' = sb_Expires b
  /\ (chosen = cur /\ reason = "reuse"
      \/ chosen = best /\ reason = "latency_improved" /\ improved cfg cands best cur = true
         /\ sb_Challenger b' = key_at cands best
         /\ (sb_Challenger b = key_at cands best /\ sb_Since b' = sb_Since b \/ sb_Since b' = now)
         /\ SwitchConfirmSec cfg * 1000 <= now - sb_Since b' /\ 3 <= new_samples rows (key_at cands best) (sb_Since b')).
Proof.
  unfold keep_binding. destruct (improved cfg cands best cur) eqn:I; [|simpl; auto].
  destruct (Z.eqb_spec (sb_Challenger b) (key_at cands best)) as [E|E]; simpl.
  - destruct (_ && _) eqn:C; [|split_and!; auto]. apply andb_true_iff in C as [C1 C2].
    split_and!; auto. right. split_and!; auto; lia.
  - destruct (_ && _) eqn:C; simpl; [|split_and!; auto]. apply andb_true_iff in C as [C1 C2].
    split_and!; auto. right. split_and!; auto; lia.
Qed.

(** Where the choice comes from. *)
Lemma from_binding_cases state :
  let '(chosen, reason, state') := from_binding cfg req now mutate cands rows best degraded state in
  chosen = best \/ eligible cands chosen.
Proof.
  unfold from_binding. destruct (ss_Bindings state !! rq_Session req) as [b|]; [|by left].
  destruct (current_of cands (sb_Key b)) as [cur|]; [|by left].
  destruct (cands !! cur) as [c|] eqn:Ec; [|by left]. destruct (cd_Eligible c) eqn:El; [|by left].
  destruct (keeps cands best degraded cur); [|by left]. pose proof (keep_binding_cases cur b) as K.
  destruct (keep_binding cfg now cands rows best cur b) as [[chosen reason] b'].
  destruct K as (_ & _ & [[-> _]|[-> _]]); [|by left]. right. by exists c.
Qed.

(** Every verdict is an eligible candidate. *)
Lemma decide_eligible state : eligible cands (vd_chosen (decide_state cfg req now mutate cands rows best degraded state).1).
Proof using Hbest.
  unfold decide_state. pose proof (from_binding_cases state) as F.
  destruct (from_binding cfg req now mutate cands rows best degraded state) as [[chosen reason] state'].
  assert (Hc : eligible cands chosen) by (by destruct F as [->|F]). clear F.
  destruct (excludes_any req); [done|].
  destruct (match current_of cands _ with Some _ => _ | None => _ end) as [[[chosen2 reason2] expl2] state2] eqn:E2.
  assert (Hc2 : eligible cands chosen2).
  { destruct (current_of cands _) as [cur|]; [|by simplify_eq]. destruct (_ && (60000 <=? _)); by simplify_eq. }
  destruct (_ && rq_ExplorationSlot req); [|done].
  destruct (scan_best (may_explore now state2 chosen2) staler cands) as [[i c]|] eqn:Es; [|done].
  apply scan_best_elem in Es as [Hi Ho]. exists c. split; [done|]. unfold may_explore in Ho.
  by apply andb_true_iff in Ho as [[[Ho _]%andb_true_iff _]%andb_true_iff _].
Qed.
End verdicts.

(** The state call returns the closure's value on some state. *)
Lemma withStableState_val {A} (fn : stableState -> A * stableState) scope mutate now ttl redis states out :
  withStableState fn scope mutate now ttl redis states = Ok out -> exists s, so_val out = (fn s).1.
Proof.
  assert (L : forall st, exists s, so_val (local fn scope mutate now ttl st) = (fn s).1).
  { intros st. unfold local. eexists. destruct (fn _) as [a s] eqn:E. case_match; simpl; by rewrite E. }
  assert (C : forall raw st, exists s, so_val (commit fn scope mutate now ttl raw st) = (fn s).1).
  { intros raw st. unfold commit. eexists. destruct (fn _) as [a s] eqn:E. case_match; simpl; by rewrite E. }
  assert (W : forall n replies c o, watch_loop fn scope mutate now ttl n replies states c = inl o -> exists s, so_val o = (fn s).1).
  { induction n as [|n IH]; intros replies c o H; simpl in H; [done|]. repeat case_match; simplify_eq; eauto. }
  unfold withStableState. destruct redis as [[replies ended]|]; [|intros [= <-]; apply L].
  destruct (watch_loop _ _ _ _ _ _ _ _) as [o|[]] eqn:E; [|done|]; repeat case_match; intros; simplify_eq; eauto.
Qed.

Lemma set_in_band_recast pool cands : recast cands (set_in_band pool cands).
Proof. apply recast_imap. intros i c. case_bool_decide; [eexists _, _, _, _, _; reflexivity|apply same_core_refl]. Qed.

(** The candidates of the pool stage, against those of the pass. *)
Lemma pool_stage cfg req now rows cands cands1 pool degraded :
  candidatePool (attemptCandidates cfg req now rows cands) (MinSamples cfg) = (cands1, pool, degraded) ->
  (forall i c', set_in_band pool cands1 !! i = Some c' -> exists c, cands !! i = Some c /\ cd_Key c' = cd_Key c
                /\ cd_Eligible c' = cd_Eligible c /\ cd_Recovery c' = cd_Recovery c)
  /\ (forall i, i ∈ pool -> eligible (set_in_band pool cands1) i)
  /\ (WindowMaxSamples cfg <= 2 ^ 52 -> (exists i, eligible cands i) -> exists i, i ∈ pool).
Proof.
  intros H. apply candidatePool_spec in H as (L & Look & Pool & Ne). pose proof (set_in_band_recast pool cands1) as R.
  assert (Len : length (attemptCandidates cfg req now rows cands) = length cands) by (unfold attemptCandidates; by rewrite length_fmap).
  assert (Look2 : forall i c, cands !! i = Some c -> exists c', set_in_band pool cands1 !! i = Some c' /\ cd_Key c' = cd_Key c
                /\ cd_Eligible c' = cd_Eligible c /\ cd_Recovery c' = cd_Recovery c).
  { intros i c Hc. destruct (attemptCandidates_lookup cfg req now rows cands i c Hc) as (c1 & H1 & (s1 & ->) & _).
    destruct (Look i _ H1) as (c2 & H2 & (s2 & ->)). destruct (recast_lookup _ _ _ _ R H2) as (c3 & H3 & S).
    exists c3. apply same_core_eqs in S as (-> & _ & -> & -> & _). done. }
  split_and!.
  - intros i c' Hc'. pose proof (lookup_lt_Some _ _ _ Hc') as Hl. rewrite <- (Forall2_length R), L, Len in Hl.
    destruct (lookup_lt_is_Some_2 _ _ Hl) as [c Hc]. exists c. split; [done|]. destruct (Look2 i c Hc) as (d & Hd & E). congruence.
  - intros i Hi. destruct (Pool i Hi) as (c1 & H1 & El). destruct (Look i c1 H1) as (c2 & H2 & (s2 & ->)).
    destruct (recast_lookup _ _ _ _ R H2) as (c3 & H3 & S). exists c3. split; [done|].
    by apply same_core_eqs in S as (_ & _ & -> & _).
  - intros W (i & c & Hc & El). destruct pool as [|j pool]; [|exists j; by left]. exfalso. apply Ne; [| |done].
    + intros k d Hd Ed. pose proof (lookup_lt_Some _ _ _ Hd) as Hl. rewrite Len in Hl.
      destruct (lookup_lt_is_Some_2 _ _ Hl) as [d0 Hd0].
      destruct (attemptCandidates_lookup cfg req now rows cands k d0 Hd0) as (d1 & H1 & (s & ->) & Q).
      assert (d = with_scores d0 s) as -> by congruence. split; by apply Q.
    + destruct (attemptCandidates_lookup cfg req now rows cands i c Hc) as (c1 & H1 & (s & ->) & _). eauto.
Qed.

(** The pass keeps everything of the picker but the counters. *)
Lemma pass_keeps p w req now tb cands p1 tb1 :
  pass p w req now tb = Ok (cands, p1, tb1) ->
  bp_cfg p1 = bp_cfg p /\ bp_sticky p1 = bp_sticky p /\ bp_stable p1 = bp_stable p.
Proof. unfold pass. repeat case_match; intros; by simplify_eq/=. Qed.

Lemma pass_cfg p w req now tb cands p1 tb1 : pass p w req now tb = Ok (cands, p1, tb1) -> bp_cfg p1 = bp_cfg p.
Proof. intros H. by destruct (pass_keeps _ _ _ _ _ _ _ _ H). Qed.

(** ** Previews *)

Lemma Slot_preview s i tb : exists r, transaction (Slot s i false) tb = (r, tb).
Proof. unfold transaction, Slot. repeat (case_match; simplify_eq/=); eauto. Qed.

Lemma RecoverySlot_preview st s now tb : exists r, transaction (RecoverySlot st s false now) tb = (r, tb).
Proof. unfold transaction, RecoverySlot. simpl. repeat (case_match; simplify_eq/=); rewrite ?andb_false_r in *; eauto; done. Qed.

Lemma applyRoutingHealth_preview tb probe req bk now cands out tb' :
  rq_MutateRecovery req = false -> applyRoutingHealth tb probe req bk now cands = Ok (out, tb') -> tb' = tb.
Proof.
  intros M. unfold applyRoutingHealth. rewrite Snapshot_run, M.
  destruct (RecoverySlot_preview ZeroSettings (routeScope req) now tb) as [r Er]. rewrite Er.
  repeat (case_match; simplify_eq/=); congruence.
Qed.

Lemma withStableState_preview {A} (fn : stableState -> A * stableState) scope now ttl redis states out :
  withStableState fn scope false now ttl redis states = Ok out -> so_states out = states /\ so_set out = None.
Proof.
  assert (L : so_states (local fn scope false now ttl states) = states /\ so_set (local fn scope false now ttl states) = None)
    by (unfold local; by case_match).
  assert (W : forall n replies c o, watch_loop fn scope false now ttl n replies states c = inl o -> so_states o = states /\ so_set o = None).
  { induction n as [|n IH]; intros replies c o H; simpl in H; [done|]. repeat case_match; simplify_eq; eauto.
    unfold commit. by case_match. }
  unfold withStableState. repeat case_match; intros; simplify_eq; eauto.
Qed.

(** Two pickers that route alike: they differ at most in how far the lists of
    send times are trimmed. *)
Definition routes_alike (now : time) (p p' : BandPicker) : Prop :=
  bp_cfg p' = bp_cfg p /\ bp_sticky p' = bp_sticky p /\ bp_stable p' = bp_stable p /\ same_counters now (bp_runtime p) (bp_runtime p').

Lemma routes_alike_refl now p : routes_alike now p p.
Proof. unfold routes_alike, same_counters. by split_and!. Qed.

Lemma inspect_all_counters req cfg cool win now keys rt : same_counters now rt (inspect_all keys req cfg cool win now rt).2.
Proof.
  revert rt. induction keys as [|k keys IH]; intros rt; simpl; [by split_and!|].
  pose proof (same_counters_snapshot now rt (pk_ID k) (pk_UpstreamID k)) as S.
  assert (E : (inspect k req cfg cool (win (pk_ID k)) now rt).2 = (resourceSnapshot (pk_ID k) (pk_UpstreamID k) now rt).2).
  { unfold inspect. destruct (resourceSnapshot _ _ _ _) as [[[? ?] ?] ?]. by repeat case_match. }
  destruct (inspect k req cfg cool (win (pk_ID k)) now rt) as [c rt1]. simpl in E. subst rt1. specialize (IH (resourceSnapshot (pk_ID k) (pk_UpstreamID k) now rt).2).
  destruct (inspect_all keys req cfg cool win now _) as [cs rt2]. by eapply same_counters_trans.
Qed.

Lemma pass_preview p w req now tb cands p1 tb1 :
  rq_MutateRecovery req = false -> pass p w req now tb = Ok (cands, p1, tb1) -> tb1 = tb /\ routes_alike now p p1.
Proof.
  intros M. unfold pass. destruct (bound_key p w req now); [|done]. unfold evaluate. set (cool := activeModelCooldowns _ _ _ _). simpl en_keys. simpl en_window.
  pose proof (inspect_all_counters req (bp_cfg p) cool (fun k => wd_window w k (rq_Model req)) now (wd_keys w) (bp_runtime p)) as I.
  destruct (inspect_all _ _ _ _ _ _ _) as [cs rt1]. destruct (applyRoutingHealth _ _ _ _ _ _) as [[cs' tb2]|e] eqn:Eh; [|done].
  apply applyRoutingHealth_preview in Eh; [|done]. intros [= <- <- <-]. split; [done|]. by split_and!.
Qed.

Lemma stableDecision_preview p w req now tb :
  rq_MutateRecovery req = false ->
  let '(_, _, p', tb') := stableDecision p w req false now tb in tb' = tb /\ routes_alike now p p'.
Proof.
  intros M. unfold stableDecision. pose proof (routes_alike_refl now p) as RR.
  destruct (pass p w req now tb) as [[[cands p1] tb1]|e] eqn:Ep; [|done].
  destruct (pass_preview _ _ _ _ _ _ _ _ M Ep) as [-> R].
  destruct (find _ cands); [done|]. destruct (candidatePool _ _) as [[cands1 pool] degraded].
  destruct (fastestCandidate _ _ _); [|done]. destruct (withStableState _ _ _ _ _ _ _) as [out|e] eqn:Es; [|done].
  apply withStableState_preview in Es as [Es _]. destruct (_ !! _); [|done]. split; [done|].
  destruct R as (R1 & R2 & R3 & R4). split_and!; simpl; congruence || done.
Qed.

(** ** Committed successes *)

(** The state of a scope as a call without Redis sees it. *)
Definition state_at (p : BandPicker) (req : Request) (now : Z) : stableState :=
  prepare now (default zero_state (bp_stable p !! routeScope req)).

Lemma prepare_binding now s k b :
  ss_Bindings (prepare now s) !! k = Some b <-> now < ss_Expires s /\ ss_Bindings s !! k = Some b /\ now < sb_Expires b.
Proof.
  unfold prepare. simpl. rewrite map_lookup_filter_Some. simpl. destruct (Z.leb_spec (ss_Expires s) now); simpl.
  - rewrite lookup_empty. split; [by intros [? _]|lia].
  - naive_solver.
Qed.

Lemma prepare_response now s k r :
  ss_Responses (prepare now s) !! k = Some r <-> now < ss_Expires s /\ ss_Responses s !! k = Some r /\ now < rs_Expires r.
Proof.
  unfold prepare. simpl. rewrite map_lookup_filter_Some. simpl. destruct (Z.leb_spec (ss_Expires s) now); simpl.
  - rewrite lookup_empty. split; [by intros [? _]|lia].
  - naive_solver.
Qed.

(** A call is shown the cell [c] of a scope: without a Redis client it is the state in
    memory; with one, the transaction reads it after at most four conflicts. *)
Definition shown (w : World) (p : BandPicker) (scope : string) (c : option stableState) : Prop :=
  match wd_watch w with
  | None => bp_stable p !! scope = c
  | Some (replies, _) => exists pre rest, replies = pre ++ WatchDone c :: rest /\ (length pre < 5)%nat
                         /\ Forall (fun r => exists raw, r = WatchConflict raw) pre
  end.

Lemma watch_loop_done {A} (fn : stableState -> A * stableState) scope mutate now ttl c pre rest : forall n states conflicted,
  (length pre < n)%nat -> Forall (fun r => exists raw, r = WatchConflict raw) pre ->
  watch_loop fn scope mutate now ttl n (pre ++ WatchDone c :: rest) states conflicted = inl (commit fn scope mutate now ttl c states).
Proof.
  induction pre as [|r pre IH]; intros [|n] states conflicted Hn Hp; simpl in Hn; [lia|done|lia|].
  inversion Hp as [|? ? [raw ->] Hp']; subst. simpl. apply IH; [lia|done].
Qed.

(** A call on the cell it is shown: its value, and the cell it leaves. *)
Lemma withStableState_shown {A} (fn : stableState -> A * stableState) w p scope mutate now ttl c :
  0 < ttl -> shown w p scope c ->
  exists out, withStableState fn scope mutate now ttl (wd_watch w) (bp_stable p) = Ok out
    /\ so_val out = (fn (prepare now (default zero_state c))).1
    /\ (mutate = true -> so_states out !! scope = Some (set_expires (fn (prepare now (default zero_state c))).2 (now + ttl))).
Proof.
  intros Ht S. unfold shown in S. unfold withStableState. destruct (wd_watch w) as [[replies ended]|].
  - destruct S as (pre & rest & -> & Hn & Hp). rewrite watch_loop_done by done. eexists. split; [done|]. unfold commit.
    destruct (fn _) as [a s]. destruct mutate; split; try done. intros _. apply lookup_insert_eq.
  - eexists. split; [done|]. unfold local. rewrite S. destruct (fn _) as [a s]. destruct mutate; split; try done.
    intros _. apply map_lookup_filter_Some. rewrite lookup_insert_eq. simpl. split; [done|lia].
Qed.

Lemma stable_ttl_pos cfg : 0 < stable_ttl cfg.
Proof. unfold stable_ttl. lia. Qed.

(** A commit replaces the cell it is shown, in Redis and in memory alike. *)
Lemma CommitSuccess_writes p w req d key id now c :
  RankingMode (bp_cfg p) = "stable_latency" -> de_Reason d <> "recovery_validation" -> shown w p (routeScope req) c ->
  bp_stable (CommitSuccess p w req d key id now) !! routeScope req
  = Some (set_expires (commit_state (bp_cfg p) req d key id (UnixMilli now) (prepare (UnixMilli now) (default zero_state c))).2
            (UnixMilli now + stable_ttl (bp_cfg p))).
Proof.
  intros Hm Hd S. unfold CommitSuccess. rewrite (proj2 (String.eqb_neq _ _) Hd), Hm. simpl.
  destruct (withStableState_shown (commit_state (bp_cfg p) req d key id (UnixMilli now)) w p _ true (UnixMilli now) _ c
              (stable_ttl_pos (bp_cfg p)) S) as (out & -> & _ & H). by apply H.
Qed.

Lemma CommitSuccess_local p w req d key id now :
  wd_watch w = None -> RankingMode (bp_cfg p) = "stable_latency" -> de_Reason d <> "recovery_validation" ->
  bp_stable (CommitSuccess p w req d key id now) !! routeScope req
  = Some (set_expires (commit_state (bp_cfg p) req d key id (UnixMilli now) (state_at p req (UnixMilli now))).2
            (UnixMilli now + stable_ttl (bp_cfg p))).
Proof. intros Hw Hm Hd. apply CommitSuccess_writes; [done..|]. unfold shown. by rewrite Hw. Qed.

(** The session a response id is committed under. *)
Definition session_of (req : Request) (id : string) : string :=
  if String.eqb (rq_Session req) "" then sessionDigest (bytes ("response:" +:+ id)) else rq_Session req.

Lemma commit_state_response cfg req d key id now s :
  id <> "" ->
  let s' := (commit_state cfg req d key id now s).2 in
  ss_Responses s' !! sessionDigest (bytes id) = Some (mkResponse (session_of req id) (now + StickyTTLSec cfg * 1000))
  /\ (rq_Session req = "" -> ss_Bindings s' !! session_of req id = Some (mkBinding key (now + StickyTTLSec cfg * 1000) 0 0)).
Proof.
  intros Hid. unfold commit_state, session_of. rewrite (proj2 (String.eqb_neq _ _) Hid).
  destruct (String.eqb_spec (rq_Session req) "") as [E|E]; simpl; rewrite lookup_insert_eq; split; try done.
  intros _. simpl. by rewrite lookup_insert_eq.
Qed.

(** What a commit does to the session's own binding. *)
Lemma commit_state_binding cfg req d key id now s old :
  ss_Bindings s !! rq_Session req = Some old -> sb_Key old <> key -> sb_Key old <> de_PreviousKeyID d ->
  ss_Bindings (commit_state cfg req d key id now s).2 !! rq_Session req = Some old.
Proof.
  intros Ho H1 H2. unfold commit_state. rewrite Ho. simpl default. rewrite bool_decide_true by by eexists.
  rewrite (proj2 (Z.eqb_neq _ _) H1), (proj2 (Z.eqb_neq _ _) H2). cbn [negb orb].
  set (s1 := if _ && _ then s else s). assert (E1 : s1 = s) by (unfold s1; by case_match). rewrite E1.
  destruct (String.eqb id ""); [done|]. destruct (String.eqb_spec (rq_Session req) "") as [E|E]; simpl; [|done].
  rewrite lookup_insert_ne; [done|]. rewrite E. intros F. by apply (sha256_hex_nonempty (bytes ("response:" +:+ id))).
Qed.

(** What a commit leaves of the other responses and bindings. *)
Lemma commit_state_others cfg req d key id now s k sess :
  let s' := (commit_state cfg req d key id now s).2 in
  (id = "" \/ sessionDigest (bytes id) <> k -> ss_Responses s' !! k = ss_Responses s !! k)
  /\ (sess <> rq_Session req -> sess <> session_of req id -> ss_Bindings s' !! sess = ss_Bindings s !! sess).
Proof.
  unfold commit_state, session_of.
  match goal with |- context [if String.eqb id "" then (tt, ?x) else _] => set (s1 := x) end.
  assert (E1 : ss_Responses s1 = ss_Responses s /\ (sess <> rq_Session req -> ss_Bindings s1 !! sess = ss_Bindings s !! sess)).
  { unfold s1. repeat case_match; simpl; split; try done; intros; by rewrite lookup_insert_ne by congruence. }
  destruct E1 as [R B]. destruct (String.eqb_spec id "") as [->|Hid]; simpl; [by rewrite R; eauto|].
  destruct (String.eqb_spec (rq_Session req) ""); simpl; split.
  - intros [?|?]; [done|]. by rewrite lookup_insert_ne, R by done.
  - intros H1 H2. rewrite lookup_insert_ne by congruence. by apply B.
  - intros [?|?]; [done|]. by rewrite lookup_insert_ne, R by done.
  - intros H1 _. by apply B.
Qed.

(** A decision leaves the responses, and the key and expiry of every binding. *)
Lemma decide_state_keeps cfg req now mutate cands rows best degraded s :
  let s' := (decide_state cfg req now mutate cands rows best degraded s).2 in
  ss_Responses s' = ss_Responses s
  /\ forall sess b, ss_Bindings s !! sess = Some b ->
       exists b', ss_Bindings s' !! sess = Some b' /\ sb_Key b' = sb_Key b /\ sb_Expires b' = sb_Expires b.
Proof.
  assert (F : let '(_, _, s1) := from_binding cfg req now mutate cands rows best degraded s in
    ss_Responses s1 = ss_Responses s /\ forall sess b, ss_Bindings s !! sess = Some b ->
       exists b', ss_Bindings s1 !! sess = Some b' /\ sb_Key b' = sb_Key b /\ sb_Expires b' = sb_Expires b).
  { unfold from_binding. destruct (ss_Bindings s !! rq_Session req) as [b|] eqn:Hb; [|split; [done|by eauto]].
    destruct (current_of _ _) as [cur|]; [|split; [done|by eauto]]. destruct (match cands !! cur with Some c => cd_Eligible c | None => false end); [|split; [done|by eauto]].
    destruct (keeps _ _ _ _); [|split; [done|by eauto]]. pose proof (keep_binding_cases cfg now cands rows best cur b) as K.
    destruct (keep_binding cfg now cands rows best cur b) as [[ch re] b']. destruct K as (K1 & K2 & _).
    destruct mutate; [|split; [done|by eauto]]. split; [done|]. intros sess b0 H. simpl.
    destruct (decide (sess = rq_Session req)) as [->|N]; [exists b'; rewrite lookup_insert_eq; naive_solver|].
    exists b0. by rewrite lookup_insert_ne. }
  unfold decide_state. destruct (from_binding _ _ _ _ _ _ _ _ s) as [[chosen reason] s1].
  assert (M : forall key, ss_Responses (mark_explored now mutate s1 key) = ss_Responses s1
                          /\ ss_Bindings (mark_explored now mutate s1 key) = ss_Bindings s1) by (intros; by destruct mutate).
  assert (M2 : forall key key', ss_Responses (mark_explored now mutate (mark_explored now mutate s1 key) key') = ss_Responses s1
                          /\ ss_Bindings (mark_explored now mutate (mark_explored now mutate s1 key) key') = ss_Bindings s1)
    by (intros; by destruct mutate).
  repeat (case_match; simplify_eq); simpl; try done;
    try (match goal with |- context [mark_explored _ _ (mark_explored _ _ _ ?k) ?k'] => destruct (M2 k k') as [-> ->]; done end);
    match goal with |- context [mark_explored _ _ _ ?k] => destruct (M k) as [-> ->]; done end.
Qed.

(** What a decision of the stable mode selects, reports as missing, or fails with. *)
Lemma stableDecision_spec p w req mutate now tb cands p1 tb1 :
  pass p w req now tb = Ok (cands, p1, tb1) ->
  match stableDecision p w req mutate now tb with
  | (Ok c, d, p', tb') =>
      tb' = tb1 /\ de_SelectedKeyID d = cd_KeyID c
      /\ exists i c0, cands !! i = Some c0 /\ cd_Key c = cd_Key c0 /\ cd_Recovery c = cd_Recovery c0
                      /\ (cd_Eligible c0 = true \/ cd_Selected c0 = true /\ cd_Recovery c0 = true)
  | (Err ErrNoUpstream, _, _, _) => WindowMaxSamples (bp_cfg p1) <= 2 ^ 52 -> forall i, ~ eligible cands i
  | (Err (PStable _), _, _, _) => wd_watch w <> None
  | (Err (PStore _), _, _, _) => False
  end.
Proof.
  intros Hp. unfold stableDecision. rewrite Hp.
  destruct (find (fun c => cd_Selected c && cd_Recovery c) cands) as [c|] eqn:Ef.
  { apply find_spec in Ef as [Hin Hs]. apply andb_true_iff in Hs as [Hs Hr]. apply list_elem_of_lookup in Hin as [i Hi].
    split_and!; [done|done|]. exists i, c. split_and!; auto. }
  destruct (candidatePool _ _) as [[cands1 pool] degraded] eqn:Ep.
  destruct (pool_stage _ _ _ _ _ _ _ _ Ep) as (Back & Pool & Ne). set (cs := set_in_band pool cands1) in *.
  destruct (fastestCandidate cs pool (MinSamples (bp_cfg p1))) as [best|] eqn:Eb.
  - apply fastestCandidate_elem in Eb as [Hb _]. pose proof (Pool best Hb) as Hbest.
    destruct (withStableState _ _ _ _ _ _ _) as [out|e] eqn:Es.
    + apply withStableState_val in Es as (s & Ev).
      pose proof (decide_eligible (bp_cfg p1) req (UnixMilli now) mutate cs
        (attempts_of (bp_cfg p1) req now (wd_attempts w)) best degraded Hbest s) as (c & Hc & He).
      rewrite Ev. set (v := (decide_state _ _ _ _ _ _ _ _ s).1) in *. rewrite list_lookup_alter_eq, Hc. simpl.
      destruct (Back _ _ Hc) as (c0 & Hc0 & E1 & E2 & E3). split_and!; [done|done|].
      exists (vd_chosen v), c0. split_and!; [done|done|done|]. left. congruence.
    + unfold withStableState in Es. by destruct (wd_watch w).
  - intros W i Hi. destruct (Ne W ltac:(by exists i)) as [j Hj]. destruct (Pool j Hj) as (c & Hc & _).
    destruct (fastestCandidate_found cs pool (MinSamples (bp_cfg p1)) j c Hj Hc) as [? E]. congruence.
Qed.

(** ** The properties *)

(** C13: In the stable mode a decision selects only candidates the pass left
    eligible (so that hard rules and circuits hold for it too), reports exactly
    that key, and reports "no upstream" only when no candidate was eligible; the
    only other failure is an unfinished Redis transaction.  A validation admitted
    by the pass is taken before anything else. *)
Theorem stable_decides p w req mutate now tb cands p1 tb1 :
  WindowMaxSamples (bp_cfg p1) <= 2 ^ 52 -> pass p w req now tb = Ok (cands, p1, tb1) ->
  match stableDecision p w req mutate now tb with
  | (Ok c, d, p', tb') =>
      tb' = tb1 /\ de_SelectedKeyID d = cd_KeyID c
      /\ exists i c0, cands !! i = Some c0 /\ cd_Key c = cd_Key c0 /\ cd_Recovery c = cd_Recovery c0
                      /\ (cd_Eligible c0 = true \/ cd_Selected c0 = true /\ cd_Recovery c0 = true)
  | (Err ErrNoUpstream, _, _, _) => forall i, ~ eligible cands i
  | (Err (PStable _), _, _, _) => wd_watch w <> None
  | (Err (PStore _), _, _, _) => False
  end.
Proof.
  intros W Hp. pose proof (stableDecision_spec p w req mutate now tb cands p1 tb1 Hp) as S.
  destruct (stableDecision p w req mutate now tb) as [[[[c|[]] d] p'] tb']; auto.
Qed.

(** Settings in the stable mode. *)
Definition stable_settings : SchedulerSettings :=
  let s := DefaultSchedulerSettings in
  mkSettings (CircuitWindowSec s) (CircuitFailureThreshold s) (CircuitCooldownSec s) (CircuitMaxCooldownSec s)
    (CircuitRateFactor s) (FTTFailureWeight s) (RecoveryBudgetPerMin s) (RecoveryCheckTimeoutSec s)
    (FailoverFirstTokenWaitSec s) (SwitchImprovementRatio s) (SwitchImprovementMs s) (SwitchConfirmSec s)
    (ExplorationRatio s) (ProbeTimeoutSec s) (WeightSuccess s) (WeightCache s) (WeightTTFT s) (Epsilon s)
    (WindowMinutes s) (WindowMaxSamples s) (MinSamples s) (PriorSuccess s) (TTFTCapMs s) (StickyAnthropic s)
    (StickyOpenAI s) (StickyTTLSec s) (FailoverMax s) (FailoverExhaustPool s) (StreamHoldUntilToken s) (RetryMax s)
    (CooldownSec s) (FailureWindowSec s) (FailureThreshold s) "stable_latency" (ProbeOpenAIModel s)
    (ProbeAnthropicModel s) (ProbeGrokModel s) (ProbeZhipuModel s) (ProbeMoonshotModel s) (ProbeDeepseekModel s)
    (FilterByModels s).

(** Key 8 is free, key 7 behind an open circuit; no attempts were recorded yet. *)
Definition stable_picker : BandPicker := mkPicker stable_settings ∅ new_runtime ∅.
Definition two_key_world : World :=
  mkWorld (en_keys two_keys) [] (fun _ => None) (fun _ _ => empty_window) [] (fun _ => None) None None.

Lemma stable_pass_ok : is_ok (pass stable_picker two_key_world plain_request (1010 * Second) demo_open) = true.
Proof. vm_compute. reflexivity. Qed.

Example stable_picks_free_key :
  match stableDecision stable_picker two_key_world plain_request true (1010 * Second) demo_open with
  | (Ok c, d, _, _) => (cd_KeyID c, de_Reason d) | _ => (0, "")
  end = (8, "initial_selection").
Proof. vm_compute. reflexivity. Qed.

Lemma stable_decides_witness :
  exists cands p1 tb1, pass stable_picker two_key_world plain_request (1010 * Second) demo_open = Ok (cands, p1, tb1)
  /\ match stableDecision stable_picker two_key_world plain_request true (1010 * Second) demo_open with
     | (Ok c, d, p', tb') =>
         tb' = tb1 /\ de_SelectedKeyID d = cd_KeyID c
         /\ exists i c0, cands !! i = Some c0 /\ cd_Key c = cd_Key c0 /\ cd_Recovery c = cd_Recovery c0
                         /\ (cd_Eligible c0 = true \/ cd_Selected c0 = true /\ cd_Recovery c0 = true)
     | (Err ErrNoUpstream, _, _, _) => forall i, ~ eligible cands i
     | (Err (PStable _), _, _, _) => wd_watch two_key_world <> None
     | (Err (PStore _), _, _, _) => False
     end.
Proof.
  pose proof stable_pass_ok as O.
  destruct (pass stable_picker two_key_world plain_request (1010 * Second) demo_open) as [[[cands p1] tb1]|e] eqn:E; [|discriminate O].
  exists cands, p1, tb1. split; [reflexivity|]. apply (stable_decides _ _ _ _ _ _ cands p1 tb1); [|exact E].
  rewrite (pass_cfg _ _ _ _ _ _ _ _ E). vm_compute. congruence.
Defined.

(** The bound key can go on: it is a candidate, eligible and good enough. *)
Definition serves (cands : list Candidate) (best : nat) (degraded : bool) (cur : nat) : bool :=
  match cands !! cur with Some c => cd_Eligible c | None => false end && keeps cands best degraded cur.

(** The choice before exploration, for a bound session. *)
Lemma bound_choice cfg req now mutate cands rows best degraded state b :
  0 < SwitchConfirmSec cfg -> ss_Bindings state !! rq_Session req = Some b ->
  let '(chosen, reason, st) := from_binding cfg req now mutate cands rows best degraded state in
  (exists b', ss_Bindings st !! rq_Session req = Some b' /\ sb_Key b' = sb_Key b /\ sb_Expires b' = sb_Expires b)
  /\ (forall k, explored_at st k = explored_at state k)
  /\ match current_of cands (sb_Key b) with
     | None => chosen = best
     | Some cur => if serves cands best degraded cur then
         chosen = cur \/ chosen = best /\ improved cfg cands best cur = true /\ sb_Challenger b = key_at cands best
           /\ SwitchConfirmSec cfg * 1000 <= now - sb_Since b /\ 3 <= new_samples rows (key_at cands best) (sb_Since b)
       else chosen = best
     end.
Proof.
  intros Hc Hb. unfold from_binding, serves. rewrite Hb. destruct (current_of cands (sb_Key b)) as [cur|]; [|by split_and!; [exists b| |]].
  destruct (match cands !! cur with Some c => cd_Eligible c | None => false end); cbn [andb]; [|by split_and!; [exists b| |]].
  destruct (keeps cands best degraded cur); [|by split_and!; [exists b| |]].
  pose proof (keep_binding_cases cfg now cands rows best cur b) as K.
  destruct (keep_binding cfg now cands rows best cur b) as [[chosen reason] b']. destruct K as (K1 & K2 & K). split_and!.
  - destruct mutate; [exists b'; simpl; by rewrite lookup_insert_eq|by exists b].
  - by destruct mutate.
  - destruct K as [[-> _]|(-> & _ & I & _ & [[C S]|S] & T & N)]; [by left| |rewrite S in T; lia]. right. rewrite S in T, N. auto.
Qed.

(** C28: What becomes of a bound session.  If its key is no longer a candidate, not
    eligible or not good enough, the decision goes to the best candidate.  Otherwise
    it stays with the key, unless the best candidate has been the same challenger for
    SwitchConfirmSec with at least three new measured successes and a clear latency
    lead, or borrows an exploration slot for a trial, at most once a minute.  In
    every case the decision itself leaves the key and the expiry of the binding as
    they were. *)
Theorem binding_kept cfg req now mutate cands rows best degraded state b :
  0 < SwitchConfirmSec cfg -> rq_Session req <> "" -> ss_Bindings state !! rq_Session req = Some b ->
  let '(v, state') := decide_state cfg req now mutate cands rows best degraded state in
  vd_previous v = sb_Key b
  /\ (exists b', ss_Bindings state' !! rq_Session req = Some b' /\ sb_Key b' = sb_Key b /\ sb_Expires b' = sb_Expires b)
  /\ match current_of cands (sb_Key b) with
     | None => vd_chosen v = best
     | Some cur =>
         if serves cands best degraded cur then
           vd_chosen v = cur
           \/ vd_chosen v = best /\ improved cfg cands best cur = true /\ sb_Challenger b = key_at cands best
              /\ SwitchConfirmSec cfg * 1000 <= now - sb_Since b /\ 3 <= new_samples rows (key_at cands best) (sb_Since b)
           \/ vd_chosen v = best /\ vd_exploration v = true /\ rq_ExplorationSlot req = true
              /\ 60000 <= now - explored_at state (key_at cands best)
         else vd_chosen v = best
     end.
Proof.
  intros Hc Hs Hb. pose proof (bound_choice cfg req now mutate cands rows best degraded state b Hc Hb) as F. unfold decide_state. rewrite Hb. simpl default.
  destruct (from_binding cfg req now mutate cands rows best degraded state) as [[chosen reason] st]. destruct F as (Hst & Hex & Why).
  destruct (excludes_any req).
  { split_and!; [done|done|]. destruct (current_of cands (sb_Key b)); [|done]. destruct (serves _ _ _ _); [naive_solver|done]. }
  rewrite (proj2 (String.eqb_neq _ _) Hs), bool_decide_true by (by eexists). cbn [negb orb andb].
  destruct (current_of cands (sb_Key b)) as [cur|]; cbn [vd_chosen vd_previous vd_exploration]; [|done].
  destruct (_ && (60000 <=? _)) eqn:T; cbn [fst snd vd_chosen vd_previous vd_exploration].
  - repeat (apply andb_true_iff in T as [T ?]). split_and!; [done|unfold mark_explored; by destruct mutate|].
    destruct (serves _ _ _ _); [|done]. right. right. rewrite <- Hex. split_and!; [done|done|done|lia].
  - split_and!; [done|done|]. destruct (serves _ _ _ _); [naive_solver|done].
Qed.

(** Key 7 answers in 2 s, key 8 in 0.5 s; the session is bound to key 7. *)
Definition measured (id ttft : Z) : Candidate :=
  mkCandidate (ranked_key id f1) None 0 0 0 no_info (mkScores 10 0 true f1 f1 f1 f0 ttft 10) true "" false true false "" "stable_latency" false.
Definition duel : list Candidate := [measured 7 2000; measured 8 500].
Definition in_session : Request :=
  mkRequest true false true true 1 "/v1/chat/completions" true "header" "openai" "gpt-4o" "s1" [] [] [] None ∅ ∅.
Definition bound_to_7 : stableState := mkStable {["s1" := mkBinding 7 900000 8 100000]} ∅ ∅ 900000.

Example trial_while_unconfirmed :
  let v := (decide_state stable_settings in_session 200000 true duel (fun _ => []) 1 false bound_to_7).1 in
  (vd_chosen v, vd_reason v) = (1%nat, "challenger_trial").
Proof. vm_compute. reflexivity. Qed.

Lemma binding_kept_witness :
  let '(v, state') := decide_state stable_settings in_session 200000 true duel (fun _ => []) 1 false bound_to_7 in
  vd_previous v = 7
  /\ (exists b', ss_Bindings state' !! "s1" = Some b' /\ sb_Key b' = 7 /\ sb_Expires b' = 900000)
  /\ (vd_chosen v = 0%nat
      \/ vd_chosen v = 1%nat /\ improved stable_settings duel 1 0 = true /\ 8 = key_at duel 1
         /\ SwitchConfirmSec stable_settings * 1000 <= 200000 - 100000 /\ 3 <= new_samples (fun _ => []) (key_at duel 1) 100000
      \/ vd_chosen v = 1%nat /\ vd_exploration v = true /\ rq_ExplorationSlot in_session = true
         /\ 60000 <= 200000 - explored_at bound_to_7 (key_at duel 1)).
Proof.
  apply (binding_kept stable_settings in_session 200000 true duel (fun _ => []) 1 false bound_to_7 (mkBinding 7 900000 8 100000));
    vm_compute; congruence.
Defined.

(** Exploration is spaced and safe: a candidate is explored only if its key
    was not explored in the last minute, and a sessionless exploration never goes
    to the candidate chosen anyway, to an ineligible one, or to one with a known
    bad record; a real decision then records the time. *)
Theorem exploration_spaced cfg req now mutate cands rows best degraded state :
  let '(v, state') := decide_state cfg req now mutate cands rows best degraded state in
  vd_exploration v = true ->
  60000 <= now - explored_at state (key_at cands (vd_chosen v))
  /\ (mutate = true -> explored_at state' (key_at cands (vd_chosen v)) = now)
  /\ (vd_reason v = "exploration" -> exists c, cands !! vd_chosen v = Some c /\ cd_Eligible c = true /\ known_bad c = false).
Proof.
  assert (Ex : forall st, (from_binding cfg req now mutate cands rows best degraded st).2 = st
     \/ exists m, (from_binding cfg req now mutate cands rows best degraded st).2 = set_bindings st m).
  { intros st. unfold from_binding. repeat case_match; simpl; eauto. }
  unfold decide_state. specialize (Ex state).
  destruct (from_binding cfg req now mutate cands rows best degraded state) as [[chosen reason] st]. simpl in Ex.
  assert (Hst : forall k, explored_at st k = explored_at state k) by (intros k; destruct Ex as [-> | [m ->]]; done).
  assert (Mark : forall s k, mutate = true -> explored_at (mark_explored now mutate s k) k = now).
  { intros s k ->. unfold explored_at. simpl. by rewrite lookup_insert_eq. }
  destruct (excludes_any req); [done|].
  destruct (match current_of cands _ with Some _ => _ | None => _ end) as [[[ch2 re2] ex2] st2] eqn:E2.
  assert (H2 : if ex2 then ch2 = best /\ re2 = "challenger_trial" /\ rq_Session req <> "" /\ bool_decide (is_Some (ss_Bindings state !! rq_Session req)) = true
                 /\ 60000 <= now - explored_at st (key_at cands best) /\ st2 = mark_explored now mutate st (key_at cands best) else st2 = st).
  { destruct (current_of cands _) as [cur|]; [|by simplify_eq]. destruct (_ && (60000 <=? _)) eqn:T; simplify_eq; [|done].
    repeat (apply andb_true_iff in T as [T ?]). split_and!; try done; [|lia]. intros E. by rewrite E in T. }
  destruct ex2.
  - destruct H2 as (-> & -> & Hs & Hb & Hx & ->). rewrite (proj2 (String.eqb_neq _ _) Hs), Hb. cbn [negb orb andb].
    cbn [vd_chosen vd_exploration vd_reason]. intros _. rewrite <- Hst. split_and!; [done|intros M; by apply Mark|done].
  - subst st2. destruct (_ && rq_ExplorationSlot req); [|done].
    destruct (scan_best (may_explore now st ch2) staler cands) as [[i c]|] eqn:Es; [|done].
    apply scan_best_elem in Es as [Hi Ho]. unfold may_explore in Ho.
    repeat (apply andb_true_iff in Ho as [Ho ?]). cbn [vd_chosen vd_exploration vd_reason]. intros _.
    assert (Ek : key_at cands i = cd_KeyID c) by (unfold key_at; by rewrite Hi). rewrite Ek, <- Hst. bools.
    split_and!; [lia|intros M; by apply Mark|]. intros _. by exists c.
Qed.

Lemma exploration_spaced_witness :
  let '(v, state') := decide_state stable_settings in_session 200000 true duel (fun _ => []) 1 false bound_to_7 in
  60000 <= 200000 - explored_at bound_to_7 (key_at duel (vd_chosen v))
  /\ (true = true -> explored_at state' (key_at duel (vd_chosen v)) = 200000)
  /\ (vd_reason v = "exploration" -> exists c, duel !! vd_chosen v = Some c /\ cd_Eligible c = true /\ known_bad c = false).
Proof.
  pose proof (exploration_spaced stable_settings in_session 200000 true duel (fun _ => []) 1 false bound_to_7) as H.
  assert (E : vd_exploration (decide_state stable_settings in_session 200000 true duel (fun _ => []) 1 false bound_to_7).1 = true)
    by (vm_compute; reflexivity).
  destruct (decide_state stable_settings in_session 200000 true duel (fun _ => []) 1 false bound_to_7) as [v state']. exact (H E).
Defined.

(** C40: A preview changes nothing the router depends on: Explain leaves the
    circuit tables, budgets, bindings, sticky keys and settings as they were, and
    the request counters report the same values as before; whatever the mode and
    whatever Redis answers. *)
Theorem preview_pure p w req now tb :
  let '(_, p', tb') := Explain p w req now tb in tb' = tb /\ routes_alike now p p'.
Proof.
  unfold Explain, prepareBudget. set (req' := with_diagnostic req). pose proof (routes_alike_refl now p) as RR.
  destruct (Slot_preview (routeScope req') (exploration_interval (bp_cfg p)) tb) as [r Er]. rewrite Er.
  assert (G : forall q, rq_MutateRecovery q = false ->
    let '(_, p', tb') := (if String.eqb (RankingMode (bp_cfg p)) "stable_latency" then
        let '(r, d, p, tb) := stableDecision p w q false now tb in
        (match r with Ok _ | Err ErrNoUpstream => Ok (de_Candidates d) | Err e => Err e end, p, tb)
      else match pass p w q now tb with Err e => (Err e, p, tb) | Ok (cands, p, tb) => (Ok cands, p, tb) end) in
    tb' = tb /\ routes_alike now p p').
  { intros q M. destruct (String.eqb _ _).
    - pose proof (stableDecision_preview p w q now tb M) as S. by destruct (stableDecision p w q false now tb) as [[[? ?] ?] ?].
    - destruct (pass p w q now tb) as [[[cands p1] tb1]|e] eqn:Ep; [|done]. by apply (pass_preview _ _ _ _ _ _ _ _ M Ep). }
  destruct (rq_BudgetReady req'); [by apply G|]. case_bool_decide; [by apply G|]. destruct r; [by apply G|done].
Qed.

(** Calls on the cell of a scope between two moments, by any of the gateway's pickers:
    decisions of the stable mode and commits of other responses, under one sticky TTL
    (in seconds), each shown the cell the one before it left.  The last index collects
    the sessions the commits were made for. *)
Inductive calls_between (scope : string) (ttl : Z) (id : string)
  : time -> option stableState -> time -> option stableState -> list string -> Prop :=
| no_call t c : calls_between scope ttl id t c t c []
| then_decision t0 c0 t c l t' w p req cands rows best degraded out :
    calls_between scope ttl id t0 c0 t c l -> t <= t' -> shown w p scope c -> StickyTTLSec (bp_cfg p) = ttl ->
    withStableState (decide_state (bp_cfg p) req (UnixMilli t') true cands rows best degraded) scope true (UnixMilli t')
      (stable_ttl (bp_cfg p)) (wd_watch w) (bp_stable p) = Ok out ->
    calls_between scope ttl id t0 c0 t' (so_states out !! scope) l
| then_commit t0 c0 t c l t' w p req d key id' :
    calls_between scope ttl id t0 c0 t c l -> t <= t' -> shown w p scope c -> StickyTTLSec (bp_cfg p) = ttl ->
    routeScope req = scope -> RankingMode (bp_cfg p) = "stable_latency" -> de_Reason d <> "recovery_validation" ->
    id' = "" \/ sessionDigest (bytes id') <> sessionDigest (bytes id) ->
    calls_between scope ttl id t0 c0 t' (bp_stable (CommitSuccess p w req d key id' t') !! scope)
      (rq_Session req :: session_of req id' :: l).

(** The cell knows the response, and the binding made for it. *)
Definition knows (id session : string) (key expires : Z) (bound : Prop) (c : option stableState) : Prop :=
  exists s, c = Some s /\ expires <= ss_Expires s
    /\ ss_Responses s !! sessionDigest (bytes id) = Some (mkResponse session expires)
    /\ (bound -> exists b, ss_Bindings s !! session = Some b /\ sb_Key b = key /\ sb_Expires b = expires).

Lemma knows_prepared id session key expires (bound : Prop) c t :
  t < expires -> knows id session key expires bound c ->
  ss_Responses (prepare t (default zero_state c)) !! sessionDigest (bytes id) = Some (mkResponse session expires)
  /\ (bound -> exists b, ss_Bindings (prepare t (default zero_state c)) !! session = Some b /\ sb_Key b = key /\ sb_Expires b = expires).
Proof.
  intros Ht (s & -> & He & Hr & Hb). simpl default. split.
  - apply prepare_response. split_and!; [lia|done|done].
  - intros B. destruct (Hb B) as (b & H1 & H2 & H3). exists b. split; [|done]. apply prepare_binding. split_and!; [lia|done|lia].
Qed.

Lemma calls_between_keep scope ttl id t0 c0 t c l session key (bound : Prop) :
  calls_between scope ttl id t0 c0 t c l -> UnixMilli t < UnixMilli t0 + ttl * 1000 ->
  knows id session key (UnixMilli t0 + ttl * 1000) bound c0 ->
  t0 <= t /\ knows id session key (UnixMilli t0 + ttl * 1000) (bound /\ session ∉ l) c.
Proof.
  intros C. induction C as [t0 c0|t0 c0 t c l t' w p req cands rows best degraded out C IH Ht S T E
                            |t0 c0 t c l t' w p req d key' id' C IH Ht S T Es Hm Hd Hi]; intros Hx K.
  - split; [done|]. destruct K as (s & ? & ? & ? & B). exists s. naive_solver.
  - destruct IH as [Hle IH]; [pose proof (UnixMilli_mono _ _ Ht); lia|done|]. split; [lia|].
    pose proof (UnixMilli_mono t0 t' ltac:(lia)) as Hu. destruct (knows_prepared _ _ _ _ _ _ _ Hx IH) as [R B].
    destruct (withStableState_shown (decide_state (bp_cfg p) req (UnixMilli t') true cands rows best degraded) _ _ _ true (UnixMilli t') _ _
                (stable_ttl_pos (bp_cfg p)) S) as (out' & E' & _ & W). rewrite E in E'. injection E' as <-. rewrite (W eq_refl).
    match goal with |- context [decide_state ?a ?b ?c ?d ?e ?f ?g ?h ?s] => destruct (decide_state_keeps a b c d e f g h s) as [D1 D2] end.
    eexists. split; [done|]. split_and!; [simpl; unfold stable_ttl; lia|simpl; by rewrite D1|].
    intros Hb. destruct (B Hb) as (b & B1 & B2 & B3). destruct (D2 _ _ B1) as (b' & ? & ? & ?). exists b'. split_and!; [done|lia|lia].
  - destruct IH as [Hle IH]; [pose proof (UnixMilli_mono _ _ Ht); lia|done|]. split; [lia|].
    pose proof (UnixMilli_mono t0 t' ltac:(lia)) as Hu. destruct (knows_prepared _ _ _ _ _ _ _ Hx IH) as [R B].
    subst scope. rewrite (CommitSuccess_writes _ _ _ _ _ _ _ _ Hm Hd S).
    match goal with |- context [commit_state ?a ?b ?c ?d ?e ?f ?s] =>
      destruct (commit_state_others a b c d e f s (sessionDigest (bytes id)) session) as [D1 D2] end.
    eexists. split; [done|]. split_and!; [simpl; unfold stable_ttl; lia|simpl; by rewrite D1|].
    intros [Hb Hn]. rewrite !not_elem_of_cons in Hn. destruct Hn as (N1 & N2 & N3).
    destruct (B (conj Hb N3)) as (b & B1 & B2 & B3). exists b. simpl. by rewrite D2.
Qed.

(** C35: A committed response id resolves to its session.  A successful answer in the
    stable mode commits its response id (the commit reaches the scope's cell, in memory
    or, with Redis, by a transaction that ends within five tries).  Whatever decisions and
    commits of other responses follow on that cell, by this gateway or another one that
    shares Redis, a follow-up naming the id in the same route scope, within StickyTTLSec of
    the commit and shown that cell, resolves to the session of the request, or for a
    request without one to a session derived from the id; and that session is bound to
    the key that answered unless a commit was made for it since. *)
Theorem commit_resolves p w req d key id now cell t c l p' w' now' :
  RankingMode (bp_cfg p) = "stable_latency" -> de_Reason d <> "recovery_validation" -> id <> "" ->
  shown w p (routeScope req) cell ->
  calls_between (routeScope req) (StickyTTLSec (bp_cfg p)) id now (bp_stable (CommitSuccess p w req d key id now) !! routeScope req) t c l ->
  t <= now' -> UnixMilli now' < UnixMilli now + StickyTTLSec (bp_cfg p) * 1000 -> shown w' p' (routeScope req) c ->
  ResolvePrevious p' w' req id now' = session_of req id
  /\ (rq_Session req = "" -> session_of req id ∉ l ->
      exists b, ss_Bindings (prepare (UnixMilli now') (default zero_state c)) !! session_of req id = Some b /\ sb_Key b = key).
Proof.
  intros Hm Hd Hid S C Ht Hx S'. rewrite (CommitSuccess_writes _ _ _ _ _ _ _ _ Hm Hd S) in C.
  match type of C with context [commit_state ?a ?b ?c ?d ?e ?f ?s] => destruct (commit_state_response a b c d e f s Hid) as [Hr Hb] end.
  apply calls_between_keep with (session := session_of req id) (key := key) (bound := rq_Session req = "") in C as [_ K].
  - destruct (knows_prepared _ _ _ _ _ _ _ Hx K) as [R B]. split.
    + unfold ResolvePrevious.
      destruct (withStableState_shown (fun s => (match ss_Responses s !! sessionDigest (bytes id) with Some r => rs_Session r | None => "" end, s))
                  w' p' (routeScope req) false (UnixMilli now') _ c (stable_ttl_pos (bp_cfg p')) S') as (out & -> & -> & _).
      cbn [fst]. by rewrite R.
    + intros E N. destruct (B (conj E N)) as (b & ? & ? & ?). by exists b.
  - pose proof (UnixMilli_mono _ _ Ht). lia.
  - eexists. split; [done|]. split_and!; [simpl; unfold stable_ttl; lia|done|]. intros E. eexists. split; [by apply Hb|done].
Qed.

(** With Redis: the commit meets a conflict, another gateway commits another answer, and
    the follow-up arrives at a third. *)
Definition redis_world (replies : list watch_reply) : World :=
  mkWorld (wd_keys two_key_world) (wd_cooldowns two_key_world) (wd_probes two_key_world) (wd_window two_key_world)
    (wd_attempts two_key_world) (wd_rget two_key_world) None (Some (replies, false)).
Definition first_world : World := redis_world [WatchConflict None; WatchDone None].
Definition first_cell : option stableState :=
  bp_stable (CommitSuccess stable_picker first_world plain_request zero_decision 8 "resp_1" (1010 * Second)) !! routeScope plain_request.
Definition second_cell : option stableState :=
  bp_stable (CommitSuccess stable_picker (redis_world [WatchDone first_cell]) plain_request zero_decision 7 "" (1012 * Second))
  !! routeScope plain_request.

Lemma commit_resolves_witness :
  ResolvePrevious stable_picker (redis_world [WatchDone second_cell]) plain_request "resp_1" (1020 * Second)
  = session_of plain_request "resp_1".
Proof.
  apply (commit_resolves stable_picker first_world plain_request zero_decision 8 "resp_1" (1010 * Second) None (1012 * Second) second_cell
           [""; session_of plain_request ""]); [reflexivity|discriminate|discriminate| | |vm_compute; congruence|vm_compute; reflexivity|].
  - exists [WatchConflict None], []. split; [reflexivity|]. split; [simpl; lia|]. repeat constructor. by exists None.
  - apply (then_commit _ _ _ _ _ (1010 * Second) first_cell [] (1012 * Second) (redis_world [WatchDone first_cell]) stable_picker plain_request
             zero_decision 7 ""); [constructor|vm_compute; congruence| |reflexivity|reflexivity|reflexivity|discriminate|by left].
    exists [], []. split; [reflexivity|]. split; [simpl; lia|constructor].
  - exists [], []. split; [reflexivity|]. split; [simpl; lia|constructor].
Defined.

(** A late completion cannot overwrite a newer decision: if the session is
    bound to a key that is neither the one that answered nor the one the decision
    started from, committing leaves that binding exactly as it is. *)
Theorem late_commit_ignored p w req d key id now old :
  wd_watch w = None -> RankingMode (bp_cfg p) = "stable_latency" -> de_Reason d <> "recovery_validation" ->
  ss_Bindings (state_at p req (UnixMilli now)) !! rq_Session req = Some old -> sb_Key old <> key -> sb_Key old <> de_PreviousKeyID d ->
  ss_Bindings (state_at (CommitSuccess p w req d key id now) req (UnixMilli now)) !! rq_Session req = Some old.
Proof.
  intros Hw Hm Hd Ho H1 H2. unfold state_at at 1. rewrite (CommitSuccess_local p w req d key id now Hw Hm Hd). simpl default.
  apply prepare_binding. split_and!; [simpl; unfold stable_ttl; lia|by apply commit_state_binding|].
  by apply prepare_binding in Ho as (_ & _ & ?).
Qed.

(** A picker whose session s1 is bound to key 7. *)
Definition bound_picker : BandPicker := mkPicker stable_settings ∅ new_runtime {[routeScope in_session := bound_to_7]}.

Lemma late_commit_ignored_witness :
  ss_Bindings (state_at (CommitSuccess bound_picker two_key_world in_session zero_decision 8 "resp_1" (500 * Second)) in_session 500000) !! "s1"
  = Some (mkBinding 7 900000 8 100000).
Proof.
  apply (late_commit_ignored bound_picker two_key_world in_session zero_decision 8 "resp_1" (500 * Second) (mkBinding 7 900000 8 100000));
    [reflexivity|reflexivity|discriminate|vm_compute; reflexivity|discriminate|discriminate].
Defined.
