(* ===== verification/Routes.v ===== *)
(** * Route groups (internal/ops/routegroup.go, route_explain.go; MatchModel of ops.go)

    A consumer bound to route groups may only use the keys of its groups, and
    only while the key's rate lies in the group's range.  The tables of groups,
    members, links and keys are arguments; database errors are not modelled. *)

From S2P Require Import Prelude GoFloat GoString Settings Domain.

(** ** Matching *)

(** [strings.HasSuffix(s, "*")] with [strings.TrimSuffix]: the part before it. *)
Definition cut_star (s : string) : option string :=
  match reverse (bytes s) with
  | 42 :: rest => Some (of_bytes (reverse rest))
  | _ => None
  end.

Definition MatchModel (pattern model : string) : bool :=
  let pattern := ToLower (TrimSpace pattern) in
  let model := ToLower (TrimSpace model) in
  if String.eqb pattern "*" || String.eqb pattern model then true else
  match cut_star pattern with Some pre => HasPrefix model pre | None => false end.

Definition RouteGroupMatches (g : option RouteGroup) (protocol model : string) : bool :=
  match g with
  | None => false
  | Some g =>
      if negb (String.eqb (rg_Status g) StatusEnabled) then false else
      if negb (MatchesProtocol g protocol) then false else
      if bool_decide (rg_Models g = []) then true else
      let model := TrimSpace model in
      existsb (fun p => MatchModel p model || (String.eqb model "" && String.eqb p "*")) (rg_Models g)
  end.

Definition RateInRange (g : option RouteGroup) (rate : f64) : bool :=
  match g with
  | None => true
  | Some g =>
      if match rg_RateMin g with Some m => flt rate m | None => false end then false else
      if match rg_RateMax g with Some m => fge rate m | None => false end then false else true
  end.

(** ** Resolution *)

Record RouteGroupKey : Type := mkMember { gm_RouteGroupID : Z; gm_PlatformKeyID : Z }.
Record ConsumerRouteGroup : Type := mkLink { cl_ConsumerKeyID : Z; cl_RouteGroupID : Z }.

(** The tables, groups and keys by primary key. *)
Record RouteTables : Type := mkRoutes {
  rt_groups : gmap Z RouteGroup;
  rt_members : list RouteGroupKey;
  rt_links : list ConsumerRouteGroup;
  rt_rates : gmap Z f64            (* rate_multiplier of the platform keys *)
}.

Record Allowed : Type := mkAllowed { al_allow : gset Z; al_drift : gset Z; al_bound : bool }.

(** [matched]: the requested groups that serve the request. *)
Definition matched (t : RouteTables) (ids : list Z) (protocol model : string) : gmap Z RouteGroup :=
  filter (fun kv => kv.1 ∈ ids /\ RouteGroupMatches (Some kv.2) protocol model = true) (rt_groups t).

(** One member: into [allow] or [drift]. *)
Definition sort_member (t : RouteTables) (m : gmap Z RouteGroup) (ad : gset Z * gset Z) (r : RouteGroupKey) : gset Z * gset Z :=
  match rt_rates t !! gm_PlatformKeyID r with
  | None => ad
  | Some rate =>
      if RateInRange (m !! gm_RouteGroupID r) rate then ({[gm_PlatformKeyID r]} ∪ ad.1, ad.2)
      else (ad.1, {[gm_PlatformKeyID r]} ∪ ad.2)
  end.

Definition resolveGroupAllowKeys (t : RouteTables) (ids : list Z) (protocol model : string) : Allowed :=
  let m := matched t ids protocol model in
  let members := filter (fun r => is_Some (m !! gm_RouteGroupID r)) (rt_members t) in
  let '(allow, drift) := fold_left (sort_member t m) members (∅, ∅) in
  mkAllowed allow (drift ∖ allow) true.

Definition ResolveAllowKeys (t : RouteTables) (consumerID : Z) (protocol model : string) : Allowed :=
  let links := filter (fun l => cl_ConsumerKeyID l = consumerID) (rt_links t) in
  if bool_decide (links = []) then mkAllowed ∅ ∅ false
  else resolveGroupAllowKeys t (cl_RouteGroupID <$> links) protocol model.

Definition ResolveSnapshotAllowKeys (t : RouteTables) (groupID : option Z) (protocol model : string) : Allowed :=
  match groupID with
  | None => mkAllowed ∅ ∅ false
  | Some id => resolveGroupAllowKeys t [id] protocol model
  end.

(** Why a group does not serve the request, as reported to operators. *)
Definition explain_reason (g : RouteGroup) (protocol model : string) : string :=
  if negb (String.eqb (rg_Status g) StatusEnabled) then "route_group_disabled" else
  if negb (MatchesProtocol g protocol) then "route_protocol_mismatch" else
  if String.eqb (TrimSpace model) "" && negb (bool_decide (rg_Models g = [])) then "model_required" else "route_model_mismatch".

Definition ExplainRouteRejections (t : RouteTables) (consumer : Z) (protocol model : string) : gmap Z string :=
  let ids := cl_RouteGroupID <$> filter (fun l => cl_ConsumerKeyID l = consumer) (rt_links t) in
  let groups := filter (fun kv => kv.1 ∈ ids) (rt_groups t) in
  fold_left (fun out (kv : Z * RouteGroup) =>
    fold_left (fun out r => <[gm_PlatformKeyID r := explain_reason kv.2 protocol model]> out)
      (filter (fun r => gm_RouteGroupID r = kv.1) (rt_members t)) out)
    (map_to_list groups) ∅.

(** ** Groups by key and by consumer *)

Definition groups_of {A} (t : RouteTables) (link_id link_group : A -> Z) (links : list A) (id : Z) : list RouteGroup :=
  omap (fun l => if link_id l =? id then rt_groups t !! link_group l else None) links.

Definition RouteGroupsForKeys (t : RouteTables) (keyIDs : list Z) (id : Z) : list RouteGroup :=
  groups_of t gm_PlatformKeyID gm_RouteGroupID (filter (fun m => gm_PlatformKeyID m ∈ keyIDs) (rt_members t)) id.

Definition RouteGroupsForConsumers (t : RouteTables) (consumerIDs : list Z) (id : Z) : list RouteGroup :=
  groups_of t cl_ConsumerKeyID cl_RouteGroupID (filter (fun l => cl_ConsumerKeyID l ∈ consumerIDs) (rt_links t)) id.

(** ** The models a consumer sees *)

Definition isModelGlob (pattern : string) : bool := bool_decide (42 ∈ bytes pattern).

(** [add]: trimmed, not empty, not seen before; the output in order. *)
Definition add_model (out : list string) (id : string) : list string :=
  let id := TrimSpace id in
  if String.eqb id "" || bool_decide (id ∈ out) then out else out ++ [id].

Definition add_pattern (k : PlatformKey) (out : list string) (pattern : string) : list string :=
  let pattern := TrimSpace pattern in
  if String.eqb pattern "" then out else
  if isModelGlob pattern then fold_left add_model (filter (fun id => MatchModel pattern id = true) (pk_LastModels k)) out
  else add_model out pattern.

Definition addFromGroup (g : RouteGroup) (k : PlatformKey) (out : list string) : list string :=
  if bool_decide (rg_Models g = []) then fold_left add_model (pk_LastModels k) out
  else fold_left (add_pattern k) (rg_Models g) out.

(** [groupByID]: enabled groups; a later group of the same id replaces an earlier. *)
Definition enabled_groups (groups : list RouteGroup) : gmap Z RouteGroup :=
  list_to_map (reverse ((fun g => (rg_ID g, g)) <$> filter (fun g => rg_Status g = StatusEnabled) groups)).

Definition key_enabled (k : PlatformKey) : bool :=
  String.eqb (pk_Status k) StatusEnabled
  && match pk_Upstream k with Some u => String.eqb (up_Status u) StatusEnabled | None => false end.

Definition visible_from (bound : bool) (byID : gmap Z RouteGroup) (memberOf : gmap Z (list Z)) (out : list string) (k : PlatformKey) : list string :=
  if negb (key_enabled k) then out else
  if negb bound then fold_left add_model (pk_LastModels k) out else
  fold_left (fun out gid => match byID !! gid with
                            | Some g => if RateInRange (Some g) (pk_RateMultiplier k) then addFromGroup g k out else out
                            | None => out
                            end) (default [] (memberOf !! pk_ID k)) out.

Definition ListVisibleModels (bound : bool) (groups : list RouteGroup) (keys : list PlatformKey) (memberOf : gmap Z (list Z)) : list string :=
  fold_left (visible_from bound (enabled_groups groups) memberOf) keys [].
