(* ===== verification/RouteProps.v ===== *)
(** * What route groups guarantee (internal/ops/routegroup.go with internal/picker)

    The resolved sets are exactly the members in range and the drifted members; a
    request of a bound consumer never reaches a key outside its groups; and every
    model listed to a bound consumer is served by one of its groups. *)

From S2P Require Import Prelude GoFloat GoString Settings Domain Capacity Window Score Database Circuit Picker PickerProps CircuitSafety Routes.

(** ** Resolution *)

(** [r] makes key [id] a member of a matched group, with its rate (not) in range. *)
Definition member_rated (t : RouteTables) (m : gmap Z RouteGroup) (inrange : bool) (id : Z) (r : RouteGroupKey) : Prop :=
  gm_PlatformKeyID r = id /\ exists rate, rt_rates t !! id = Some rate /\ RateInRange (m !! gm_RouteGroupID r) rate = inrange.

Lemma sort_members t m l ad id :
  let out := fold_left (sort_member t m) l ad in
  (id ∈ out.1 <-> id ∈ ad.1 \/ exists r, r ∈ l /\ member_rated t m true id r)
  /\ (id ∈ out.2 <-> id ∈ ad.2 \/ exists r, r ∈ l /\ member_rated t m false id r).
Proof.
  revert ad. induction l as [|r l IH]; intros ad; simpl.
  - split; (split; [by left|intros [?|(r & H & _)]; [done|by apply not_elem_of_nil in H]]).
  - destruct (IH (sort_member t m ad r)) as [H1 H2]. rewrite H1, H2. clear H1 H2 IH. unfold sort_member, member_rated.
    split; (split; [intros [H|(q & Hq & Hm)]|intros [H|(q & Hq & Hm)]]);
      try (right; exists q; split; [by right|done]);
      try (apply elem_of_cons in Hq as [->|Hq]; [|by right; eauto]); destruct (rt_rates t !! gm_PlatformKeyID r) as [rate|] eqn:Er;
      try destruct (RateInRange (m !! gm_RouteGroupID r) rate) eqn:Ei; simpl in *; try (by left); try set_solver;
      try (destruct Hm as (<- & rate' & Hr & Hi); simplify_eq/=; try congruence; left; set_solver).
    all: apply elem_of_union in H as [H%elem_of_singleton|H]; [|by left].
    all: subst id; right; exists r; split; [by left|]; eauto.
Qed.

(** A group among [ids] that serves the request and has [key] as a member. *)
Definition serves (t : RouteTables) (ids : list Z) (protocol model : string) (key : Z) (g : RouteGroup) : Prop :=
  exists gid, gid ∈ ids /\ rt_groups t !! gid = Some g /\ RouteGroupMatches (Some g) protocol model = true
              /\ mkMember gid key ∈ rt_members t.

Lemma matched_lookup t ids protocol model gid g :
  matched t ids protocol model !! gid = Some g <->
  rt_groups t !! gid = Some g /\ gid ∈ ids /\ RouteGroupMatches (Some g) protocol model = true.
Proof. unfold matched. rewrite map_lookup_filter_Some. done. Qed.

(** Members of matched groups, by key. *)
Lemma member_serves t ids protocol model key b :
  (exists r, r ∈ filter (fun r => is_Some (matched t ids protocol model !! gm_RouteGroupID r)) (rt_members t)
             /\ member_rated t (matched t ids protocol model) b key r)
  <-> exists g rate, serves t ids protocol model key g /\ rt_rates t !! key = Some rate /\ RateInRange (Some g) rate = b.
Proof.
  split.
  - intros (r & [[g Hg] Hr]%list_elem_of_filter & Hk & rate & Hrate & Hin). rewrite Hg in Hin.
    exists g, rate. split_and!; [|done|done]. apply matched_lookup in Hg as (H1 & H2 & H3).
    exists (gm_RouteGroupID r). split_and!; try done. rewrite <- Hk. by destruct r.
  - intros (g & rate & (gid & H1 & H2 & H3 & H4) & Hrate & Hin). exists (mkMember gid key).
    assert (Hm : matched t ids protocol model !! gid = Some g) by (by apply matched_lookup).
    split; [apply list_elem_of_filter; simpl; by rewrite Hm|]. split; [done|]. exists rate. simpl. by rewrite Hm.
Qed.

Lemma resolve_spec t ids protocol model key :
  let a := resolveGroupAllowKeys t ids protocol model in
  let in_range b := exists g rate, serves t ids protocol model key g /\ rt_rates t !! key = Some rate /\ RateInRange (Some g) rate = b in
  al_bound a = true /\ (key ∈ al_allow a <-> in_range true) /\ (key ∈ al_drift a <-> in_range false /\ ~ in_range true).
Proof.
  unfold resolveGroupAllowKeys. set (m := matched t ids protocol model).
  pose proof (sort_members t m (filter (fun r => is_Some (m !! gm_RouteGroupID r)) (rt_members t)) (∅, ∅) key) as S.
  destruct (fold_left _ _ _) as [allow drift]. simpl in S. destruct S as [S1 S2].
  pose proof (member_serves t ids protocol model key true) as M1. pose proof (member_serves t ids protocol model key false) as M2.
  fold m in M1, M2. simpl. split; [done|]. rewrite elem_of_difference, S1, S2, <- M1, <- M2. set_solver.
Qed.

(** ** Visible models *)

Lemma add_model_elem out id x : x ∈ add_model out id <-> x ∈ out \/ x = TrimSpace id /\ x <> "".
Proof.
  unfold add_model. destruct (String.eqb_spec (TrimSpace id) "") as [E|E]; simpl.
  - split; [by left|]. intros [?|[-> ?]]; done.
  - case_bool_decide as H.
    + split; [by left|]. intros [?|[-> ?]]; done.
    + rewrite elem_of_app, list_elem_of_singleton. split; [intros [?| ->]; auto|intros [?|[-> _]]; auto].
Qed.

Lemma add_models_elem l out x : x ∈ fold_left add_model l out <-> x ∈ out \/ exists id, id ∈ l /\ x = TrimSpace id /\ x <> "".
Proof.
  revert out. induction l as [|id l IH]; intros out; simpl.
  - split; [by left|]. intros [?|(id & H & _)]; [done|by apply not_elem_of_nil in H].
  - rewrite IH, add_model_elem. split.
    + intros [[?|[-> ?]]|(j & Hj & E)]; [by left|right; exists id; split; [by left|done]|right; exists j; split; [by right|done]].
    + intros [?|(j & [->|Hj]%elem_of_cons & E)]; [by left; left|left; by right|right; eauto].
Qed.

Lemma MatchModel_trim p m : MatchModel (TrimSpace p) (TrimSpace m) = MatchModel p m.
Proof. unfold MatchModel. by rewrite !TrimSpace_idem. Qed.

(** What a group adds is served by the group. *)
Lemma addFromGroup_elem g k out x protocol :
  rg_Status g = StatusEnabled -> MatchesProtocol g protocol = true ->
  x ∈ addFromGroup g k out -> x ∈ out \/ RouteGroupMatches (Some g) protocol x = true.
Proof.
  intros Hs Hp. unfold addFromGroup, RouteGroupMatches. rewrite Hs, Hp. simpl.
  case_bool_decide as E; [rewrite add_models_elem; intros [?|_]; auto|].
  assert (G : forall ps out, x ∈ fold_left (add_pattern k) ps out ->
            x ∈ out \/ exists p, p ∈ ps /\ TrimSpace x = x /\ MatchModel p x = true).
  { induction ps as [|p ps IH]; intros o H; simpl in H; [by left|].
    apply IH in H as [H|(q & Hq & E1 & E2)]; [|right; exists q; split; [by right|done]].
    unfold add_pattern in H. destruct (String.eqb (TrimSpace p) ""); [by left|].
    destruct (isModelGlob (TrimSpace p)).
    - apply add_models_elem in H as [H|(id & [Hm Hid]%list_elem_of_filter & -> & _)]; [by left|].
      right. exists p. split_and!; [by left|apply TrimSpace_idem|].
      by rewrite <- MatchModel_trim, TrimSpace_idem, <- (TrimSpace_idem p), MatchModel_trim.
    - apply add_model_elem in H as [H|[-> _]]; [by left|]. right. exists p. rewrite !TrimSpace_idem.
      split_and!; [by left|done|]. unfold MatchModel. by rewrite TrimSpace_idem, String.eqb_refl, orb_true_r. }
  intros H. apply G in H as [H|(p & Hp' & E1 & E2)]; [by left|]. right. apply existsb_exists. exists p.
  split; [by apply list_elem_of_In|]. by rewrite E1, E2.
Qed.

(** The group by which a bound consumer sees model [x] on key [k]. *)
Definition seen_through (groups : gmap Z RouteGroup) (memberOf : gmap Z (list Z)) (x : string) (k : PlatformKey) (g : RouteGroup) : Prop :=
  key_enabled k = true
  /\ (exists gid, groups !! gid = Some g /\ gid ∈ default [] (memberOf !! pk_ID k))
  /\ RateInRange (Some g) (pk_RateMultiplier k) = true
  /\ forall protocol, MatchesProtocol g protocol = true -> RouteGroupMatches (Some g) protocol x = true.

Lemma enabled_groups_enabled groups gid g : enabled_groups groups !! gid = Some g -> rg_Status g = StatusEnabled.
Proof.
  intros H. apply elem_of_list_to_map_2, elem_of_reverse, list_elem_of_fmap in H as (g' & [= -> ->] & H).
  by apply list_elem_of_filter in H as [? _].
Qed.

Lemma visible_from_elem groups memberOf out k x :
  (forall gid g, groups !! gid = Some g -> rg_Status g = StatusEnabled) ->
  x ∈ visible_from true groups memberOf out k -> x ∈ out \/ exists g, seen_through groups memberOf x k g.
Proof.
  intros En. unfold visible_from, seen_through. destruct (key_enabled k) eqn:Ek; simpl; [|by left].
  generalize (default [] (memberOf !! pk_ID k)). intros gids. revert out.
  assert (G : forall l o, l ⊆ gids -> x ∈ fold_left (fun out gid => match groups !! gid with
      | Some g => if RateInRange (Some g) (pk_RateMultiplier k) then addFromGroup g k out else out
      | None => out end) l o -> x ∈ o \/ exists g, (exists gid, groups !! gid = Some g /\ gid ∈ gids)
      /\ RateInRange (Some g) (pk_RateMultiplier k) = true
      /\ forall protocol, MatchesProtocol g protocol = true -> RouteGroupMatches (Some g) protocol x = true).
  { induction l as [|gid l IH]; intros o Hl H; cbn [fold_left] in H; [by left|].
    apply IH in H as [H|H]; [|by right|set_solver].
    destruct (groups !! gid) as [g|] eqn:Eg; [|by left]. cbv iota beta in H. destruct (RateInRange (Some g) (pk_RateMultiplier k)) eqn:Er; [|by left].
    destruct (decide (x ∈ o)) as [|Hx]; [by left|]. right. exists g. split_and!; [exists gid; split; [done|set_solver]|done|].
    intros protocol Hp. by destruct (addFromGroup_elem g k o x protocol (En gid g Eg) Hp H). }
  intros o H. apply G in H as [H|(g & H)]; [by left| |done]. right. exists g. done.
Qed.

(** No model is listed twice. *)
Lemma add_model_NoDup out id : NoDup out -> NoDup (add_model out id).
Proof.
  intros H. unfold add_model. destruct (String.eqb _ _); [done|]. simpl. case_bool_decide as E; [done|].
  apply list.NoDup_app. split_and!; [done| |apply NoDup_singleton]. intros x Hx ->%list_elem_of_singleton. done.
Qed.

Lemma fold_left_inv {A B} (f : A -> B -> A) (P : A -> Prop) l a : (forall a b, P a -> P (f a b)) -> P a -> P (fold_left f l a).
Proof. intros Hf. revert a. induction l as [|b l IH]; intros a Ha; simpl; [done|]. by apply IH, Hf. Qed.

Lemma ListVisibleModels_NoDup bound groups keys memberOf : NoDup (ListVisibleModels bound groups keys memberOf).
Proof.
  assert (A : forall l out, NoDup out -> NoDup (fold_left add_model l out)).
  { intros l out. apply fold_left_inv. intros a b. apply add_model_NoDup. }
  unfold ListVisibleModels. apply (fold_left_inv _ (fun l => NoDup l)); [|constructor]. intros out k H. unfold visible_from.
  destruct (key_enabled k); [|done]. destruct bound; [|by apply A]. cbn [negb].
  apply (fold_left_inv _ (fun l => NoDup l)); [|done]. intros o gid Ho. destruct (_ !! gid) as [g|]; [|done].
  destruct (RateInRange (Some g) _); [|done]. unfold addFromGroup. case_bool_decide; [by apply A|].
  apply (fold_left_inv _ (fun l => NoDup l)); [|done]. intros o' p Ho'. unfold add_pattern.
  destruct (String.eqb _ _); [done|]. destruct (isModelGlob _); [by apply A|by apply add_model_NoDup].
Qed.

(** ** The properties *)

(** C34: The keys a bound consumer may use are exactly the members, in range, of
    its enabled groups that serve the protocol and model; the drifted ones are
    exactly the members of such groups whose rate lies in the range of none of
    them.  A deleted group, or one that does not match, contributes nothing, and
    no consumer with a group ever becomes unrestricted. *)
Theorem allow_keys_exact t group protocol model key :
  let a := ResolveSnapshotAllowKeys t (Some group) protocol model in
  let in_range b := exists g rate, serves t [group] protocol model key g /\ rt_rates t !! key = Some rate /\ RateInRange (Some g) rate = b in
  al_bound a = true /\ (key ∈ al_allow a <-> in_range true) /\ (key ∈ al_drift a <-> in_range false /\ ~ in_range true).
Proof. apply resolve_spec. Qed.

(** Isolation: a request restricted to the keys resolved for its route group
    only ever selects a key that is a member of that group, enabled for the
    request's protocol and model, with its rate in the group's range. *)
Theorem route_isolation t group protocol model cfg env req now rt tb out rt' tb' i c :
  rq_AllowKeys req = Some (al_allow (ResolveSnapshotAllowKeys t (Some group) protocol model)) ->
  settings_ok cfg -> env_ok env (rq_Model req) -> evaluate cfg env req now rt tb = Ok (out, rt', tb') ->
  out !! i = Some c -> cd_Eligible c = true ->
  exists g rate, serves t [group] protocol model (cd_KeyID c) g /\ rt_rates t !! cd_KeyID c = Some rate /\ RateInRange (Some g) rate = true.
Proof.
  intros Ha So Eo Ev Hi He. destruct (evaluate_eligible _ _ _ _ _ _ _ _ _ i c So Eo Ev Hi) as [_ S]. apply S in He as [P _].
  pose proof (ro_route _ _ _ _ _ _ _ _ P _ Ha) as Hin. by apply resolve_spec in Hin.
Qed.

(** Group 5 serves gpt-* at rates in [0.5, 2); key 7 is a member in range, key 8 is not. *)
Definition demo_routes : RouteTables :=
  mkRoutes {[5 := mkGroup 5 "g" "openai" ["gpt-*"] (Some (f_dec 5 1)) (Some (f_of_Z 2)) None StatusEnabled]}
    [mkMember 5 7; mkMember 5 8] [mkLink 1 5] {[7 := f1; 8 := f_of_Z 3]}.

Definition routed_request : Request :=
  mkRequest true false true true 1 "/v1/chat/completions" true "" "openai" "gpt-4o" "" [] [] []
    (Some (al_allow (ResolveSnapshotAllowKeys demo_routes (Some 5) "openai" "gpt-4o"))) ∅ ∅.

Definition routed : result rherr (list Candidate * runtimeState * Tables) :=
  evaluate DefaultSchedulerSettings two_keys routed_request 0 new_runtime no_tables.

Definition first_eligible (r : result rherr (list Candidate * runtimeState * Tables)) : option Z :=
  match r with Ok (out, _, _) => cd_KeyID <$> (out !! 0%nat ≫= fun c => if cd_Eligible c then Some c else None) | Err _ => None end.

Lemma routed_to_7 : first_eligible routed = Some 7.
Proof. vm_compute. reflexivity. Qed.

Lemma route_isolation_witness :
  exists g rate, serves demo_routes [5] "openai" "gpt-4o" 7 g /\ rt_rates demo_routes !! 7 = Some rate /\ RateInRange (Some g) rate = true.
Proof.
  pose proof routed_to_7 as V. unfold first_eligible in V. destruct routed as [[[out rt'] tb']|e] eqn:E; [|discriminate V].
  destruct (out !! 0%nat) as [c|] eqn:Hc; [|discriminate V]. cbn in V. destruct (cd_Eligible c) eqn:He; [|discriminate V].
  injection V as V. rewrite <- V.
  exact (route_isolation demo_routes 5 "openai" "gpt-4o" DefaultSchedulerSettings two_keys routed_request 0 new_runtime no_tables
    out rt' tb' 0 c eq_refl default_settings_ok (two_keys_ok _) E Hc He).
Defined.

(** What is listed can be routed: every model listed to a bound consumer is
    listed once and comes from an enabled key in one of the consumer's enabled
    groups, with its rate in range, and that group serves the model for every
    protocol it accepts. *)
Theorem visible_models_routable groups keys memberOf :
  NoDup (ListVisibleModels true groups keys memberOf)
  /\ forall x, x ∈ ListVisibleModels true groups keys memberOf ->
       exists k g, k ∈ keys /\ seen_through (enabled_groups groups) memberOf x k g.
Proof.
  split; [apply ListVisibleModels_NoDup|]. intros x. unfold ListVisibleModels.
  assert (G : forall l out, x ∈ fold_left (visible_from true (enabled_groups groups) memberOf) l out ->
            x ∈ out \/ exists k g, k ∈ l /\ seen_through (enabled_groups groups) memberOf x k g).
  { induction l as [|k l IH]; intros out H; cbn [fold_left] in H; [by left|].
    apply IH in H as [H|(k' & g & Hk & H)]; [|right; exists k', g; split; [by right|done]].
    apply visible_from_elem in H as [H|[g H]]; [by left|right; exists k, g; split; [by left|done]|].
    intros gid g. apply enabled_groups_enabled. }
  intros H. apply G in H as [H|H]; [by apply not_elem_of_nil in H|done].
Qed.

(** Key 7 with two fetched models, of which group 5 lists one. *)
Definition listed_key : PlatformKey :=
  mkKey "" 7 3 "k" "" "sk" f1 "" StatusEnabled 0 0 None "" None HealthHealthy 0 None ["gpt-4o"; "claude-3"] (Some demo_up).
Definition demo_groups : list RouteGroup := [mkGroup 5 "g" "openai" ["gpt-*"] (Some (f_dec 5 1)) (Some (f_of_Z 2)) None StatusEnabled].

Lemma listed_models : ListVisibleModels true demo_groups [listed_key] {[7 := [5]]} = ["gpt-4o"].
Proof. vm_compute. reflexivity. Qed.

Lemma visible_models_routable_witness :
  exists k g, k ∈ [listed_key] /\ seen_through (enabled_groups demo_groups) {[7 := [5]]} "gpt-4o" k g.
Proof. apply (proj2 (visible_models_routable demo_groups [listed_key] {[7 := [5]]})). rewrite listed_models. by left. Defined.
