(* ===== verification/JsonDecode.v ===== *)
(** * Decoding JSON into Go values (encoding/json)

    What [json.Unmarshal] does with the values the program decodes into: maps of
    any, structs with string, raw, pointer and nested struct fields.  A struct
    field takes every member whose name is equal up to case folding, in order; a
    value of the wrong type is reported as an error while decoding goes on. *)

From Stdlib Require Import QArith.
From S2P Require Import Prelude GoFloat GoString Json.

Local Open Scope Z_scope.

(** ** Numbers

    [strconv.ParseFloat] of a JSON number literal; an out-of-range literal is an
    error.  As there, the exponent stops growing at five digits. *)

Definition digits_value (ds : list Z) : Z := fold_left (fun n d => n * 10 + (d - 48)) ds 0.

Definition exponent_value (ds : list Z) : Z :=
  fold_left (fun n d => if n <? 10000 then n * 10 + (d - 48) else n) ds 0.

Definition number_exponent (l : list Z) : Z :=
  match l with
  | _ :: 45 :: ds => - exponent_value ds
  | _ :: 43 :: ds => exponent_value ds
  | _ :: ds => exponent_value ds
  | [] => 0
  end.

Definition number_magnitude (l : list Z) : Q :=
  let '(i, l) := digits l in
  let '(f, l) := match l with 46 :: r => digits r | _ => ([], l) end in
  let e := number_exponent l - Z.of_nat (length f) in
  (inject_Z (digits_value (i ++ f)) * (if 0 <=? e then inject_Z (10 ^ e) else 1 / inject_Z (10 ^ (- e))))%Q.

Definition ParseFloat (literal : list Z) : option f64 :=
  let v := match literal with
           | 45 :: l => rnd (- number_magnitude l)
           | l => rnd (number_magnitude l)
           end in
  if is_inf v then None else Some v.

(** Every number of the value fits into a float64. *)
Fixpoint numbers_fit (v : json) : bool :=
  match v with
  | JNum l => bool_decide (is_Some (ParseFloat l))
  | JArr vs => forallb numbers_fit vs
  | JObj ms => forallb (fun m => numbers_fit m.2) ms
  | _ => true
  end.

(** ** map[string]any *)

Definition Members : Type := list (string * json).

(** [json.Unmarshal(raw, &top)] with [top map[string]any]; null leaves it nil,
    which reads like an empty map. *)
Definition unmarshal_map (raw : list Z) : option Members :=
  match parse raw with
  | Some v => if numbers_fit v then
                match v with JObj ms => Some ms | JNull => Some [] | _ => None end
              else None
  | None => None
  end.

(** [m[k]] as an interface: a missing member and null are both nil. *)
Definition lookup_any (k : string) (m : Members) : option json :=
  match member k m with
  | Some JNull | None => None
  | Some v => Some v
  end.

Definition asMap (v : option json) : option Members :=
  match v with Some (JObj m) => Some m | _ => None end.

(** [m, _ := asMap(v)]: a nil map where the assertion fails. *)
Definition map_or_nil (v : option json) : Members := default [] (asMap v).

Definition as_array (v : option json) : option (list json) :=
  match v with Some (JArr l) => Some l | _ => None end.

Definition as_text (v : option json) : option string :=
  match v with Some (JStr s) => Some s | _ => None end.

(** [v == "text"] for an interface value. *)
Definition any_is (v : option json) (s : string) : bool :=
  match v with Some (JStr t) => String.eqb t s | _ => false end.

(** ** map[string]json.RawMessage

    Raw members keep null apart from a missing member; [None] is the nil map of
    a null document. *)
Definition unmarshal_raw (raw : list Z) : option (option Members) :=
  match parse raw with
  | Some (JObj ms) => Some (Some ms)
  | Some JNull => Some None
  | _ => None
  end.

(** [_ = json.Unmarshal(v[k], &s)] for a string s. *)
Definition raw_string (k : string) (m : Members) : string := default "" (as_text (member k m)).

(** ** Structs *)

(** [foldName]: upper case, with the two other runes that fold to a letter. *)
Fixpoint fold_bytes (l : list Z) : list Z :=
  match l with
  | 0xC5 :: 0xBF :: r => 83 :: fold_bytes r
  | 0xE2 :: 0x84 :: 0xAA :: r => 75 :: fold_bytes r
  | b :: r => (if (97 <=? b) && (b <=? 122) then b - 32 else b) :: fold_bytes r
  | [] => []
  end.

(** The values given for a field, in order. *)
Definition field_values (name : string) (ms : Members) : list json :=
  snd <$> List.filter (fun m : string * json => bool_decide (fold_bytes (bytes m.1) = fold_bytes (bytes name))) ms.

Definition last_value (vs : list json) : option json := fold_left (fun _ v => Some v) vs None.

(** A [json.RawMessage] field. *)
Definition raw_field (name : string) (ms : Members) : option json := last_value (field_values name ms).

(** A string field: its value and whether every value given had the right type. *)
Definition string_field (name : string) (ms : Members) : string * bool :=
  fold_left (fun acc v => match v with
                          | JStr s => (s, acc.2)
                          | JNull => acc
                          | _ => (acc.1, false)
                          end) (field_values name ms) ("", true).

(** A field of struct type: the members that reach its fields. *)
Definition struct_field (name : string) (ms : Members) : Members * bool :=
  fold_left (fun acc v => match v with
                          | JObj m => (acc.1 ++ m, acc.2)
                          | JNull => acc
                          | _ => (acc.1, false)
                          end) (field_values name ms) ([], true).

(** A field of type [any]: the last value given, and whether all numbers fit. *)
Definition any_field (name : string) (ms : Members) : option json * bool :=
  let vs := field_values name ms in
  (match last_value vs with Some JNull | None => None | Some v => Some v end, forallb numbers_fit vs).

(** A pointer to a string. *)
Definition string_ptr_field (name : string) (ms : Members) : option string * bool :=
  fold_left (fun acc v => match v with
                          | JStr s => (Some s, acc.2)
                          | JNull => (None, acc.2)
                          | _ => (acc.1, false)
                          end) (field_values name ms) (None, true).

(** Whether a field of map type ends up non-nil, and whether its values had the
    right type. *)
Definition map_field_set (name : string) (ms : Members) : bool * bool :=
  fold_left (fun acc v => match v with
                          | JObj _ => (true, acc.2)
                          | JNull => (false, acc.2)
                          | _ => (acc.1, false)
                          end) (field_values name ms) (false, true).

(** The members of a value decoded into a struct. *)
Definition struct_members (v : json) : option Members :=
  match v with JObj ms => Some ms | JNull => Some [] | _ => None end.

(** ** Examples *)

Example parse_float_values :
  ParseFloat (bytes "-12.5e1") = Some (F_fin (-125)) /\ ParseFloat (bytes "1e400") = None
  /\ ParseFloat (bytes "0.5") = Some (F_fin (1 # 2)).
Proof. by vm_compute. Qed.

Example field_folding :
  string_field "message" [("Message", JStr "a"); ("other", JNull); ("MESSAGE", JNull)] = ("a", true)
  /\ string_field "message" [("message", JBool true); ("message", JStr "b")] = ("b", false).
Proof. by vm_compute. Qed.
