(* ===== verification/Upstream.v ===== *)
(** * Upstream protocols (internal/upstream)

    Error envelopes (errors.go), generated text in stream events (sse_text.go),
    validation of responses and stream events (validation.go), token usage
    (client.go) and the cost estimate (cost.go). *)

From Stdlib Require Import QArith.
From S2P Require Import Prelude GoFloat GoString Json JsonDecode Settings Domain.

Local Open Scope Z_scope.

(** Library functions whose results the program only passes on; the definitions
    below work with any of them. *)
Class GoLib : Type := {
  Sscanf_float : string -> option f64;
  ParseMediaType : string -> option string;
  http_ParseTime : string -> option time;
  http_StatusText : Z -> string;
  strconv_IsPrint : Z -> bool
}.

Definition one_of (s : string) (l : list string) : bool := existsb (String.eqb s) l.

(** ** Errors *)

Record ErrorInfo := mkErrorInfo { ei_Code : string; ei_Type : string; ei_Message : string }.

Definition noError : ErrorInfo := mkErrorInfo "" "" "".

(** The loop over the nested envelopes: the first that decodes replaces the fields. *)
Fixpoint nested_error (envelopes : list (option json)) (fields : option json * string * string)
    : option json * string * string :=
  match envelopes with
  | [] => fields
  | Some (JObj ms) :: rest =>
      let '(typ, ok1) := string_field "type" ms in
      let '(msg, ok2) := string_field "message" ms in
      if ok1 && ok2 then (raw_field "code" ms, typ, msg) else nested_error rest fields
  | _ :: rest => nested_error rest fields
  end.

Definition ParseError (body : list Z) : ErrorInfo :=
  match parse body ≫= struct_members with
  | None => noError
  | Some ms =>
      let '(typ, ok1) := string_field "type" ms in
      let '(msg, ok2) := string_field "message" ms in
      let '(response, ok3) := struct_field "response" ms in
      if ok1 && ok2 && ok3 then
        let '(code, typ, msg) :=
          nested_error [raw_field "error" ms; raw_field "error" response] (raw_field "code" ms, typ, msg) in
        mkErrorInfo (default "" (as_text code)) typ msg
      else noError
  end.

(** The switch on one of the codes; the empty string where none applies. *)
Definition code_kind (value : string) : string :=
  let v := ToLower (TrimSpace value) in
  if one_of v ["api_key_disabled"; "group_deleted"; "key_disabled"; "account_deactivated"] then "credential_disabled"
  else if one_of v ["invalid_api_key"; "authentication_error"; "invalid_token"; "token_expired"] then "authentication"
  else if one_of v ["insufficient_quota"; "insufficient_user_quota"; "pre_consume_token_quota_failed"; "quota_exceeded";
                    "insufficient_balance"; "credit_balance_exhausted"; "usage_limit_reached"] then "quota"
  else if one_of v ["model_not_found"; "model_not_supported"; "unsupported_model"; "unsupported_endpoint"] then "capability"
  else if one_of v ["rate_limit_error"; "rate_limit_exceeded"; "gateway_queue_full"] then "rate_limit"
  else "".

Definition Kind (e : ErrorInfo) : string :=
  if negb (String.eqb (code_kind (ei_Code e)) "") then code_kind (ei_Code e)
  else if negb (String.eqb (code_kind (ei_Type e)) "") then code_kind (ei_Type e)
  else if EqualFold (ei_Type e) "billing_error" &&
          one_of (ToLower (TrimSpace (ei_Message e))) ["insufficient balance"; "insufficient account balance"]
  then "quota"
  else "".

(** [strings.ToValidUTF8(s, "")] and [strings.ReplaceAll(s, "\x00", "")]. *)
Fixpoint to_valid_utf8 (skip : nat) (l : list Z) : list Z :=
  match l with
  | [] => []
  | b :: l' => match skip with
               | S k => b :: to_valid_utf8 k l'
               | O => match rune_len l with
                      | O => to_valid_utf8 0 l'
                      | S k => b :: to_valid_utf8 k l'
                      end
               end
  end.

Definition drop_nul (l : list Z) : list Z := List.filter (fun b => negb (b =? 0)) l.

(** The first [n] runes. *)
Fixpoint first_runes (n skip : nat) (l : list Z) : list Z :=
  match l with
  | [] => []
  | b :: l' => match skip with
               | S k => b :: first_runes n k l'
               | O => match n with
                      | O => []
                      | S n' => b :: first_runes n' (pred (rune_len l)) l'
                      end
               end
  end.

(** [strconv.Quote], with which [%q] prints a string: printable runes as they are, an
    invalid byte as \x and two digits. *)
Fixpoint hex_digits (n : nat) (v : Z) : list Z :=
  match n with
  | O => []
  | S n' => hex_digits n' (v / 16) ++ [let d := v mod 16 in if d <? 10 then 48 + d else 87 + d]
  end.

(** The rune of a valid encoding. *)
Definition decode_rune (enc : list Z) : Z :=
  match enc with
  | [a] => a
  | [a; b] => (a - 192) * 64 + (b - 128)
  | [a; b; c] => ((a - 224) * 64 + (b - 128)) * 64 + (c - 128)
  | [a; b; c; d] => (((a - 240) * 64 + (b - 128)) * 64 + (c - 128)) * 64 + (d - 128)
  | _ => 0
  end.

Section quote.
Context `{GoLib}.

Definition quote_rune (enc : list Z) : list Z :=
  let r := decode_rune enc in
  if (r =? 34) || (r =? 92) then [92; r]
  else if if r <? 128 then (32 <=? r) && (r <? 127) else strconv_IsPrint r then enc
  else match r with
       | 7 => [92; 97] | 8 => [92; 98] | 12 => [92; 102] | 10 => [92; 110] | 13 => [92; 114] | 9 => [92; 116] | 11 => [92; 118]
       | _ => if (r <? 32) || (r =? 127) then [92; 120] ++ hex_digits 2 r
              else if r <? 65536 then [92; 117] ++ hex_digits 4 r else [92; 85] ++ hex_digits 8 r
       end.

Fixpoint quote_runes (skip : nat) (l : list Z) : list Z :=
  match l with
  | [] => []
  | b :: l' => match skip with
               | S k => quote_runes k l'
               | O => match rune_len l with
                      | O => [92; 120] ++ hex_digits 2 b ++ quote_runes 0 l'
                      | S k => quote_rune (take (S k) l) ++ quote_runes k l'
                      end
               end
  end.

(** The verb [%.128q]. *)
Definition quote128 (s : string) : string := of_bytes ([34] ++ quote_runes 0 (first_runes 128 0 (bytes s)) ++ [34]).
End quote.

Definition Summary (e : ErrorInfo) (fallback : string) : string :=
  if String.eqb (ei_Code e) "" && String.eqb (ei_Message e) "" && HasPrefix (ei_Type e) "response." then fallback
  else
    match List.filter (fun v => negb (String.eqb v "") && negb (String.eqb v "error"))
                      [ei_Code e; ei_Type e; ei_Message e] with
    | [] => fallback
    | parts => let text := drop_nul (to_valid_utf8 0 (bytes (String.concat ": " parts))) in
               of_bytes (first_runes 500 0 text)
    end.

(** [strconv.ParseInt(s, 10, 64)]. *)
Definition ParseInt (s : string) : option Z :=
  let unsigned (l : list Z) := if bool_decide (l = []) || negb (forallb is_digit l) then None else Some (digits_value l) in
  let n := match bytes s with
           | 45 :: l => Z.opp <$> unsigned l
           | 43 :: l => unsigned l
           | l => unsigned l
           end in
  match n with
  | Some n => if (- 2 ^ 63 <=? n) && (n <? 2 ^ 63) then Some n else None
  | None => None
  end.

Definition RetryAfter `{GoLib} (value : string) (now : time) : duration :=
  let by_date := match http_ParseTime value with
                 | Some at_ => if After at_ now then Z.min (at_ - now) (24 * Hour) else 0
                 | None => 0
                 end in
  match ParseInt (TrimSpace value) with
  | Some n => if 0 <? n then Z.min n 86400 * Second else by_date
  | None => by_date
  end.

(** ** Generated text in a stream event *)

Definition nonEmptyStr (v : option json) : string :=
  match as_text v with Some s => TrimSpace s | None => "" end.

Definition has_text (v : option json) : bool := negb (String.eqb (nonEmptyStr v) "").

Definition delta_keys : list string :=
  ["content"; "text"; "reasoning_content"; "thinking"; "reasoning"; "partial_json"; "refusal"].

(** The arguments of a function object. *)
Definition function_arguments (f : option json) : bool :=
  match asMap f with Some f => has_text (lookup_any "arguments" f) | None => false end.

Definition tool_arguments (tool : json) : bool :=
  match asMap (Some tool) with Some m => function_arguments (lookup_any "function" m) | None => false end.

Definition part_text (p : json) : bool :=
  match p with
  | JStr s => negb (String.eqb (TrimSpace s) "")
  | JObj m => has_text (lookup_any "text" m)
  | _ => false
  end.

Definition deltaHasText (d : Members) : bool :=
  existsb (fun k => has_text (lookup_any k d)) delta_keys
  || existsb tool_arguments (default [] (as_array (lookup_any "tool_calls" d)))
  || function_arguments (lookup_any "function_call" d)
  || existsb part_text (default [] (as_array (lookup_any "content" d))).

Definition responsePartHasOutput (part : Members) : bool :=
  let typ := lookup_any "type" part in
  if any_is typ "output_text" || any_is typ "reasoning_text" || any_is typ "summary_text"
  then has_text (lookup_any "text" part)
  else if any_is typ "refusal" then has_text (lookup_any "refusal" part)
  else false.

Definition parts_have_output (v : option json) : bool :=
  existsb (fun p => responsePartHasOutput (map_or_nil (Some p))) (default [] (as_array v)).

Definition responseItemHasOutput (item : Members) : bool :=
  let typ := lookup_any "type" item in
  if any_is typ "function_call" then has_text (lookup_any "arguments" item)
  else if any_is typ "custom_tool_call" then has_text (lookup_any "input" item)
  else if any_is typ "message" && negb (any_is (lookup_any "role" item) "assistant") then false
  else if any_is typ "message" || any_is typ "reasoning"
  then parts_have_output (lookup_any "content" item) || parts_have_output (lookup_any "summary" item)
  else false.

Definition responsesHasOutput (typ : string) (top : Members) : bool :=
  if one_of typ ["response.output_text.delta"; "response.reasoning_text.delta"; "response.reasoning_summary_text.delta";
                 "response.function_call_arguments.delta"; "response.refusal.delta"; "response.custom_tool_call_input.delta"]
  then has_text (lookup_any "delta" top)
  else if one_of typ ["response.output_text.done"; "response.reasoning_text.done"; "response.reasoning_summary_text.done"]
  then has_text (lookup_any "text" top)
  else if String.eqb typ "response.function_call_arguments.done" then has_text (lookup_any "arguments" top)
  else if String.eqb typ "response.custom_tool_call_input.done" then has_text (lookup_any "input" top)
  else if String.eqb typ "response.refusal.done" then has_text (lookup_any "refusal" top)
  else if one_of typ ["response.content_part.added"; "response.content_part.done";
                      "response.reasoning_summary_part.added"; "response.reasoning_summary_part.done"]
  then responsePartHasOutput (map_or_nil (lookup_any "part" top))
  else if one_of typ ["response.output_item.added"; "response.output_item.done"]
  then responseItemHasOutput (map_or_nil (lookup_any "item" top))
  else if String.eqb typ "response.completed" then
    let response := map_or_nil (lookup_any "response" top) in
    any_is (lookup_any "status" response) "completed"
    && existsb (fun v => responseItemHasOutput (map_or_nil (Some v))) (default [] (as_array (lookup_any "output" response)))
  else false.

Definition choice_has_text (ch : json) : bool :=
  match asMap (Some ch) with
  | Some m => match asMap (lookup_any "delta" m) with Some d => deltaHasText d | None => false end
              || has_text (lookup_any "text" m)
  | None => false
  end.

Definition content_block_has_text (block : Members) : bool :=
  let typ := lookup_any "type" block in
  if any_is typ "text" then has_text (lookup_any "text" block)
  else if any_is typ "thinking" then has_text (lookup_any "thinking" block)
  else if any_is typ "tool_use" || any_is typ "server_tool_use"
  then negb (bool_decide (map_or_nil (lookup_any "input" block) = []))
  else false.

Definition SSEEventHasText (eventName : string) (raw : list Z) : bool :=
  match unmarshal_map raw with
  | None => false
  | Some top =>
      let typ := default "" (as_text (lookup_any "type" top)) in
      let typ := if String.eqb typ "" then eventName else typ in
      if bool_decide (is_Some (lookup_any "error" top)) then false
      else if HasPrefix typ "response." then responsesHasOutput typ top
      else if String.eqb typ "content_block_start"
      then content_block_has_text (map_or_nil (lookup_any "content_block" top))
      else
        match asMap (lookup_any "delta" top) with Some d => deltaHasText d | None => false end
        || existsb choice_has_text (default [] (as_array (lookup_any "choices" top)))
        || existsb (fun item => has_text (lookup_any "text" (map_or_nil (Some item))))
                   (default [] (as_array (lookup_any "content" top)))
  end.

Definition JSONHasGeneratedText (raw : list Z) : bool := SSEEventHasText "" raw.

Definition SSELineHasText (line : string) : bool :=
  let line := TrimSpace line in
  if negb (HasPrefix line "data:") then false
  else
    let payload := TrimSpace (TrimPrefix line "data:") in
    if String.eqb payload "" || String.eqb payload "[DONE]" then false
    else JSONHasGeneratedText (bytes payload).

(** ** Validation *)

Definition IsResponsesMetadataEvent (name : string) : bool :=
  one_of name ["codex.rate_limits"; "codex.response.metadata"; "basispoints.response.metadata";
               "responsesapi.websocket_timing"; "keepalive"; "ping"].

Definition IsSSEContentType `{GoLib} (contentType : string) : bool :=
  match ParseMediaType (ToLower contentType) with
  | Some mt => String.eqb mt "text/event-stream" || String.eqb mt "text/stream"
  | None => false
  end.

(** The errors a validated stream can end with. *)
Inductive stream_error : Type :=
| ErrStreamTerminal       (* invalid upstream stream terminal *)
| ErrStreamPayload        (* invalid upstream SSE payload *)
| ErrUpstream (summary : string)
| ErrResponsesEvent (name : string) (* unexpected upstream Responses event *)
| ErrInvalidJSON          (* invalid upstream JSON response *)
| ErrUnexpectedTerminal   (* unexpected upstream terminal *)
| ErrChatEvent            (* unexpected upstream chat event *)
| ErrMessagesEvent        (* unexpected upstream Messages event *)
| ErrMessageStream        (* invalid upstream message stream *)
| ErrEventTooLarge.       (* upstream SSE event exceeds 16 MiB limit *)

#[global] Instance stream_error_eq_dec : EqDecision stream_error.
Proof. solve_decision. Defined.

(** An element of [choices]: whether its message or delta and its finish reason
    are set; [None] for a value of the wrong type. *)
Definition decode_choice (field : string) (v : json) : option (bool * bool) :=
  ms ← struct_members v;
  let '(m, ok1) := map_field_set field ms in
  let '(f, ok2) := string_ptr_field "finish_reason" ms in
  if ok1 && ok2 then Some (m, bool_decide (is_Some f)) else None.

Definition decode_choices (field : string) (v : option json) : option (list (bool * bool)) :=
  match v with
  | Some (JArr l) => mapM (decode_choice field) l
  | Some JNull => Some []
  | _ => None
  end.

Definition is_array (v : option json) : bool := bool_decide (is_Some (as_array v)).

(** [ValidateJSONResponse] on a decoded document; [None] is its error. *)
Definition validate_value (path : string) (doc : json) : option string :=
  match doc with
  | JObj v =>
      if match member "error" v with Some JNull | None => false | Some _ => true end then None
      else
        let id := raw_string "id" v in
        if String.eqb path "/v1/responses" then
          if String.eqb (raw_string "object" v) "response" && negb (String.eqb id "")
             && String.eqb (raw_string "status" v) "completed" && is_array (member "output" v)
          then Some id else None
        else if String.eqb path "/v1/chat/completions" then
          match decode_choices "message" (member "choices" v) with
          | Some (c :: cs) => if forallb (fun c => c.1 && c.2) (c :: cs) then Some id else None
          | _ => None
          end
        else if String.eqb path "/v1/messages" then
          if String.eqb (raw_string "type" v) "message" && is_array (member "content" v)
             && match member "stop_reason" v with Some JNull | None => false | Some _ => true end
          then Some id else None
        else Some id
  | _ => None
  end.

Definition ValidateJSONResponse (path : string) (raw : list Z) : option string :=
  match parse raw with Some v => validate_value path v | None => None end.

Record StreamValidator := mkValidator {
  sv_Path : string;
  sv_Strict : bool;
  sv_SawValid : bool;
  sv_ChatFinished : bool;
  sv_ResponseID : string;
  sv_Err : option stream_error
}.

Definition set_err (e : stream_error) (s : StreamValidator) : StreamValidator :=
  mkValidator (sv_Path s) (sv_Strict s) (sv_SawValid s) (sv_ChatFinished s) (sv_ResponseID s) (Some e).
Definition set_sawValid (b : bool) (s : StreamValidator) : StreamValidator :=
  mkValidator (sv_Path s) (sv_Strict s) b (sv_ChatFinished s) (sv_ResponseID s) (sv_Err s).
Definition set_chatFinished (b : bool) (s : StreamValidator) : StreamValidator :=
  mkValidator (sv_Path s) (sv_Strict s) (sv_SawValid s) b (sv_ResponseID s) (sv_Err s).
Definition set_responseID (id : string) (s : StreamValidator) : StreamValidator :=
  mkValidator (sv_Path s) (sv_Strict s) (sv_SawValid s) (sv_ChatFinished s) id (sv_Err s).

(** The branches of [Event] for the three APIs. *)
Definition responses_event (name : string) (v : Members) (s : StreamValidator) : StreamValidator :=
  if IsResponsesMetadataEvent name then s
  else if negb (HasPrefix name "response.") && negb (String.eqb name "error") then set_err (ErrResponsesEvent name) s
  else
    let id := (string_field "id" (map_or_nil (member "response" v))).1 in
    let s := if String.eqb id "" then s else set_responseID id s in
    let s := if String.eqb name "response.completed" then
               match member "response" v ≫= validate_value (sv_Path s) with
               | None => set_err ErrInvalidJSON s
               | Some _ => set_sawValid true s
               end
             else s in
    if String.eqb name "message_stop" then set_err ErrUnexpectedTerminal s else s.

(** The loop over the choices of a chat event. *)
Definition note_choice (s : StreamValidator) (c : bool * bool) : StreamValidator :=
  let s := if c.1 then set_sawValid true s else s in
  if c.2 then set_chatFinished true s else s.

Definition chat_event (name : string) (v : Members) (s : StreamValidator) : StreamValidator :=
  if negb (bool_decide (is_Some (member "choices" v))) && negb (bool_decide (is_Some (member "usage" v)))
     && negb (String.eqb name "error")
  then set_err ErrChatEvent s
  else
    let s := match decode_choices "delta" (member "choices" v) with
             | Some cs => fold_left note_choice cs s
             | None => s
             end in
    if String.eqb name "message_stop" || String.eqb name "response.completed" then set_err ErrUnexpectedTerminal s else s.

Definition messages_event (name : string) (v : Members) (s : StreamValidator) : StreamValidator :=
  if negb (String.eqb name "ping") && negb (String.eqb name "error")
     && negb (HasPrefix name "message_") && negb (HasPrefix name "content_block_")
  then set_err ErrMessagesEvent s
  else
    let s := if String.eqb name "message_start"
             then set_sawValid (String.eqb (string_field "type" (map_or_nil (member "message" v))).1 "message") s
             else s in
    let s := if String.eqb name "message_stop" && negb (sv_SawValid s) then set_err ErrMessageStream s else s in
    if String.eqb name "response.completed" then set_err ErrUnexpectedTerminal s else s.

Definition Event (name data : string) (s : StreamValidator) : StreamValidator :=
  if negb (sv_Strict s) then s
  else if String.eqb data "[DONE]" then
    if negb (String.eqb (sv_Path s) "/v1/chat/completions") || negb (sv_SawValid s) || negb (sv_ChatFinished s)
    then set_err ErrStreamTerminal s else s
  else if String.eqb (TrimSpace data) "" then s
  else
    match unmarshal_raw (bytes data) with
    | Some (Some v) =>
        if match member "error" v with Some JNull | None => false | Some _ => true end
        then set_err (ErrUpstream (Summary (ParseError (bytes data)) "upstream SSE error")) s
        else
          let typ := raw_string "type" v in
          let name := if String.eqb typ "" then name else typ in
          if String.eqb (sv_Path s) "/v1/responses" then responses_event name v s
          else if String.eqb (sv_Path s) "/v1/chat/completions" then chat_event name v s
          else if String.eqb (sv_Path s) "/v1/messages" then messages_event name v s
          else s
    | _ => set_err ErrStreamPayload s
    end.

(** ** Token usage *)

Record TokenUsage := mkUsage {
  tu_InputTokens : Z;
  tu_OutputTokens : Z;
  tu_CacheReadTokens : Z;
  tu_CacheCreationTokens : Z;
  tu_CacheCreation5mTokens : Z;
  tu_CacheCreation1hTokens : Z;
  tu_ServiceTier : string;
  tu_CostUSD : option f64;
  tu_UsageKnown : bool
}.

Definition noUsage : TokenUsage := mkUsage 0 0 0 0 0 0 "" None false.

Definition pos_or (n old : Z) : Z := if 0 <? n then n else old.

Definition MergeUsage (dst src : TokenUsage) : TokenUsage := {|
  tu_InputTokens := pos_or (tu_InputTokens src) (tu_InputTokens dst);
  tu_OutputTokens := pos_or (tu_OutputTokens src) (tu_OutputTokens dst);
  tu_CacheReadTokens := pos_or (tu_CacheReadTokens src) (tu_CacheReadTokens dst);
  tu_CacheCreationTokens := pos_or (tu_CacheCreationTokens src) (tu_CacheCreationTokens dst);
  tu_CacheCreation5mTokens := pos_or (tu_CacheCreation5mTokens src) (tu_CacheCreation5mTokens dst);
  tu_CacheCreation1hTokens := pos_or (tu_CacheCreation1hTokens src) (tu_CacheCreation1hTokens dst);
  tu_ServiceTier := if String.eqb (tu_ServiceTier src) "" then tu_ServiceTier dst else tu_ServiceTier src;
  tu_CostUSD := match tu_CostUSD src with Some c => Some c | None => tu_CostUSD dst end;
  tu_UsageKnown := tu_UsageKnown src || tu_UsageKnown dst
|}.

Definition NormalizeUsage (protocol : string) (u : TokenUsage) : TokenUsage :=
  if negb (String.eqb protocol ProtocolOpenAI) then u
  else {|
    tu_InputTokens := Z.max 0 (wrap_i64 (tu_InputTokens u - tu_CacheReadTokens u - tu_CacheCreationTokens u));
    tu_OutputTokens := tu_OutputTokens u; tu_CacheReadTokens := tu_CacheReadTokens u;
    tu_CacheCreationTokens := tu_CacheCreationTokens u;
    tu_CacheCreation5mTokens := tu_CacheCreation5mTokens u; tu_CacheCreation1hTokens := tu_CacheCreation1hTokens u;
    tu_ServiceTier := tu_ServiceTier u; tu_CostUSD := tu_CostUSD u; tu_UsageKnown := tu_UsageKnown u |}.

Section usage.
Context `{GoLib}.

(** [asFloat] and [asInt] on the values [map[string]any] holds. *)
Definition asFloat (v : option json) : option f64 :=
  match v with
  | Some (JNum l) => ParseFloat l
  | Some (JStr s) => Sscanf_float (TrimSpace s)
  | _ => None
  end.

Definition asInt (v : option json) : option Z := f_to_int <$> asFloat v.

(** The value of the last of the given members that has one, as successive
    [if v, ok := asInt(m[k]); ok] assignments leave it. *)
Definition last_int (ks : list string) (m : Members) (old : Z) : Z :=
  fold_left (fun acc k => default acc (asInt (lookup_any k m))) ks old.

Definition has_member (k : string) (m : Members) : bool := bool_decide (is_Some (member k m)).

(** The token details nested under the given member. *)
Definition details_int (outer : string) (inner : string) (m : Members) (old : Z) : Z :=
  match asMap (lookup_any outer m) with
  | Some d => last_int [inner] d old
  | None => old
  end.

Definition absorbUsageMap (u : TokenUsage) (m : Members) : TokenUsage := {|
  tu_UsageKnown := tu_UsageKnown u || has_member "input_tokens" m || has_member "prompt_tokens" m
                   || has_member "output_tokens" m || has_member "completion_tokens" m;
  tu_InputTokens := last_int ["input_tokens"; "prompt_tokens"] m (tu_InputTokens u);
  tu_OutputTokens := last_int ["output_tokens"; "completion_tokens"] m (tu_OutputTokens u);
  tu_CacheReadTokens :=
    details_int "input_tokens_details" "cached_tokens" m
      (details_int "prompt_tokens_details" "cached_tokens" m
        (last_int ["cache_read_tokens"; "cache_read_input_tokens"] m (tu_CacheReadTokens u)));
  tu_CacheCreationTokens :=
    details_int "input_tokens_details" "cache_write_tokens" m
      (details_int "prompt_tokens_details" "cache_write_tokens" m
        (last_int ["cache_creation_tokens"; "cache_creation_input_tokens"; "cache_write_tokens"] m
                  (tu_CacheCreationTokens u)));
  tu_CacheCreation5mTokens := details_int "cache_creation" "ephemeral_5m_input_tokens" m (tu_CacheCreation5mTokens u);
  tu_CacheCreation1hTokens := details_int "cache_creation" "ephemeral_1h_input_tokens" m (tu_CacheCreation1hTokens u);
  tu_ServiceTier := match as_text (lookup_any "service_tier" m) with
                    | Some s => if String.eqb s "" then tu_ServiceTier u else s
                    | None => tu_ServiceTier u
                    end;
  tu_CostUSD := match asFloat (lookup_any "cost_usd" m) with
                | Some c => Some c
                | None => match asFloat (lookup_any "cost" m) with
                          | Some c => Some c
                          | None => tu_CostUSD u
                          end
                end
|}.

Definition absorb_opt (m : option Members) (u : TokenUsage) : TokenUsage :=
  match m with Some m => absorbUsageMap u m | None => u end.

Definition ParseUsageJSON (body : list Z) : TokenUsage :=
  match unmarshal_map body with
  | None => noUsage
  | Some top =>
      let u := absorbUsageMap noUsage top in
      let u := absorb_opt (asMap (lookup_any "usage" top)) u in
      let u := absorb_opt (m ← asMap (lookup_any "message" top); asMap (lookup_any "usage" m)) u in
      absorb_opt (m ← asMap (lookup_any "response" top); asMap (lookup_any "usage" m)) u
  end.

Definition ParseSSEUsageLine (line : string) : TokenUsage :=
  let line := TrimSpace line in
  let line := if HasPrefix line "data:" then TrimSpace (TrimPrefix line "data:") else line in
  if String.eqb line "" || String.eqb line "[DONE]" then noUsage else ParseUsageJSON (bytes line).

End usage.

(** ** Cost estimate *)

Definition cacheReadFactor : f64 := f_dec 1 1.
Definition cacheWriteFactor : f64 := f_dec 125 2.

Definition EstimateCostUSD (protocol : string) (inputPerMillion outputPerMillion rate : f64) (u : TokenUsage) : option f64 :=
  if feq inputPerMillion f0 && feq outputPerMillion f0 then None
  else if (tu_InputTokens u =? 0) && (tu_OutputTokens u =? 0) && (tu_CacheReadTokens u =? 0)
          && (tu_CacheCreationTokens u =? 0) then None
  else
    let rate := if fle rate f0 then f1 else rate in
    let uncached := tu_InputTokens u in
    let uncached := if String.eqb protocol ProtocolOpenAI
                    then Z.max 0 (wrap_i64 (uncached - tu_CacheReadTokens u - tu_CacheCreationTokens u)) else uncached in
    let sum := fadd (fadd (fadd (fmul (f_of_Z uncached) inputPerMillion)
                                (fmul (fmul (f_of_Z (tu_CacheReadTokens u)) inputPerMillion) cacheReadFactor))
                          (fmul (fmul (f_of_Z (tu_CacheCreationTokens u)) inputPerMillion) cacheWriteFactor))
                    (fmul (f_of_Z (tu_OutputTokens u)) outputPerMillion) in
    let usd := fmul (fdiv sum (f_of_Z 1000000)) rate in
    Some (fdiv (fround (fmul usd (f_of_Z 100000000))) (f_of_Z 100000000)).

(** ** Examples *)

(** A document written with ['] in place of the quotation mark. *)
Definition js (s : string) : list Z := (fun b => if b =? 39 then 34 else b) <$> bytes s.
Definition js_line (s : string) : string := of_bytes (js s).

Example text_lines :
  map (fun s => SSELineHasText (js_line s))
    ["event: ping"; "data: [DONE]"; "data: {'choices':[{'delta':{'role':'assistant'}}]}";
     "data: {'choices':[{'delta':{'content':'Hi'}}]}"; "data: {'type':'content_block_start','content_block':{'type':'tool_use','input':{}}}";
     "data: {'type':'response.output_text.delta','delta':'A'}"; "data: {'usage':{'output_tokens':3}}"]
  = [false; false; false; true; false; true; false].
Proof. by vm_compute. Qed.

Definition strict_validator (path : string) : StreamValidator := mkValidator path true false false "" None.

Example events_validated :
  map (fun x : string * string * string => bool_decide (is_Some (sv_Err (Event x.1.2 (js_line x.2) (strict_validator x.1.1)))))
    [("/v1/responses", "", "{'type':'codex.rate_limits'}"); ("/v1/responses", "ping", "{'type':'unknown'}");
     ("/v1/chat/completions", "", "{'type':'codex.rate_limits'}"); ("/v1/responses", "codex.rate_limits", "[]")]
  = [false; true; true; true].
Proof. by vm_compute. Qed.
