(* ===== verification/UpstreamProps.v ===== *)
(** * Theorems about the upstream protocols

    What counts as generated text, and what a strict validator accepts over a
    whole stream. *)

From Stdlib Require Import QArith.
From S2P Require Import Prelude GoFloat GoString Json JsonDecode Settings Domain Upstream.

Local Open Scope Z_scope.

(** ** Generated text *)

(** Members that hold what a model generates. *)
Definition text_keys : list string :=
  ["delta"; "text"; "content"; "reasoning_content"; "thinking"; "reasoning"; "partial_json"; "refusal"; "arguments"; "input"].

(** A document that has, somewhere inside, a string that is not blank under one
    of these members, or the non-empty input of a tool. *)
Inductive carries : json -> Prop :=
| carries_text k s m : one_of k text_keys = true -> member k m = Some (JStr s) -> TrimSpace s <> "" -> carries (JObj m)
| carries_input x xs m : member "input" m = Some (JObj (x :: xs)) -> carries (JObj m)
| carries_part s l m : member "content" m = Some (JArr l) -> In (JStr s) l -> TrimSpace s <> "" -> carries (JObj m)
| carries_member k v m : member k m = Some v -> carries v -> carries (JObj m)
| carries_element v l : In v l -> carries v -> carries (JArr l).

Lemma lookup_any_Some k m v : lookup_any k m = Some v -> member k m = Some v.
Proof. unfold lookup_any. destruct (member k m) as [[]|]; congruence. Qed.

Lemma has_text_carries k m : one_of k text_keys = true -> has_text (lookup_any k m) = true -> carries (JObj m).
Proof.
  intros Hk. unfold has_text, nonEmptyStr, as_text. destruct (lookup_any k m) as [[]|] eqn:E; try done.
  apply lookup_any_Some in E. destruct (String.eqb_spec (TrimSpace s) ""); [done|]. intros _. by eapply carries_text.
Qed.

Lemma map_or_nil_carries k m (P : Members -> bool) :
  P [] = false -> (forall d, P d = true -> carries (JObj d)) -> P (map_or_nil (lookup_any k m)) = true -> carries (JObj m).
Proof.
  intros Hn HP. unfold map_or_nil, asMap. destruct (lookup_any k m) as [[]|] eqn:E; simpl; try congruence.
  intros H. apply lookup_any_Some in E. eapply carries_member; [exact E|by apply HP].
Qed.

Lemma as_array_carries k m (P : json -> bool) :
  (forall v, P v = true -> carries v) -> existsb P (default [] (as_array (lookup_any k m))) = true -> carries (JObj m).
Proof.
  intros HP. unfold as_array. destruct (lookup_any k m) as [[]|] eqn:E; try done. simpl. intros H.
  apply existsb_exists in H as (v & Hv & H). apply lookup_any_Some in E.
  eapply carries_member; [exact E|]. by eapply carries_element, HP.
Qed.

Lemma element_carries (P : Members -> bool) v :
  P [] = false -> (forall d, P d = true -> carries (JObj d)) -> P (map_or_nil (Some v)) = true -> carries v.
Proof. intros Hn HP. unfold map_or_nil, asMap. destruct v; simpl; try congruence. apply HP. Qed.

Create HintDb carry.
#[local] Hint Extern 1 (carries (JObj _)) =>
  match goal with H : has_text (lookup_any ?k _) = true |- _ => apply (has_text_carries k); [reflexivity|exact H] end : carry.

Ltac carry_cases :=
  repeat match goal with
  | H : _ || _ = true |- _ => apply orb_true_iff in H as [H|H]
  | H : _ && _ = true |- _ => apply andb_true_iff in H as [_ H]
  | H : (if ?b then _ else _) = true |- _ => destruct b
  end; try done.

Lemma function_arguments_carries k m : function_arguments (lookup_any k m) = true -> carries (JObj m).
Proof.
  unfold function_arguments, asMap. destruct (lookup_any k m) as [[]|] eqn:E; try done. intros H.
  apply lookup_any_Some in E. eapply carries_member; [exact E|]. by apply (has_text_carries "arguments").
Qed.

Lemma deltaHasText_carries d : deltaHasText d = true -> carries (JObj d).
Proof.
  unfold deltaHasText. intros H. carry_cases.
  - apply existsb_exists in H as (k & Hk & H). apply (has_text_carries k); [|done].
    unfold delta_keys in Hk. simpl in Hk. by repeat destruct Hk as [<-|Hk].
  - revert H. apply as_array_carries. intros v H. unfold tool_arguments in H. destruct v; try done. by apply (function_arguments_carries "function").
  - by eapply function_arguments_carries.
  - unfold as_array in H. destruct (lookup_any "content" d) as [[]|] eqn:E; try done. simpl in H.
    apply existsb_exists in H as (v & Hv & H). apply lookup_any_Some in E. destruct v; try done.
    + eapply carries_part; [exact E|exact Hv|]. simpl in H. by destruct (String.eqb_spec (TrimSpace s) "").
    + eapply carries_member; [exact E|]. eapply carries_element; [exact Hv|]. by apply (has_text_carries "text").
Qed.

Lemma responsePart_carries p : responsePartHasOutput p = true -> carries (JObj p).
Proof. unfold responsePartHasOutput. intros H. carry_cases; eauto with carry. Qed.

Lemma responseItem_carries i : responseItemHasOutput i = true -> carries (JObj i).
Proof.
  unfold responseItemHasOutput, parts_have_output. intros H. carry_cases; eauto with carry.
  all: revert H; apply as_array_carries; intros v; apply element_carries; [done|apply responsePart_carries].
Qed.

Lemma responsesHasOutput_carries typ top : responsesHasOutput typ top = true -> carries (JObj top).
Proof.
  unfold responsesHasOutput. intros H. carry_cases; eauto with carry.
  - revert H. apply map_or_nil_carries; [done|apply responsePart_carries].
  - revert H. apply map_or_nil_carries; [done|apply responseItem_carries].
  - revert H. apply (map_or_nil_carries "response" top
      (fun r => existsb (fun v => responseItemHasOutput (map_or_nil (Some v))) (default [] (as_array (lookup_any "output" r))))); [done|].
    intros d. apply as_array_carries. intros v. apply element_carries; [done|apply responseItem_carries].
Qed.

Lemma content_block_carries b : content_block_has_text b = true -> carries (JObj b).
Proof.
  unfold content_block_has_text. intros H. carry_cases; eauto with carry.
  unfold map_or_nil, asMap in H. destruct (lookup_any "input" b) as [[]|] eqn:E; try done. simpl in H.
  apply lookup_any_Some in E. destruct members; [done|]. by eapply carries_input.
Qed.

(** No stream event counts as the first output without output: when the
    gateway takes an event for generated text, its payload is an object without
    an error and contains, somewhere, a string that is not blank under one of the
    members that hold generated text, or the input of a tool call.  Role-only
    deltas, pings and usage chunks have neither. *)
Theorem generated_text_sound name raw :
  SSEEventHasText name raw = true ->
  exists top, unmarshal_map raw = Some top /\ lookup_any "error" top = None /\ carries (JObj top).
Proof.
  unfold SSEEventHasText. destruct (unmarshal_map raw) as [top|]; [|done]. intros H. exists top. split; [done|].
  case_bool_decide as Ee; [done|]. split; [by destruct (lookup_any "error" top); [destruct Ee|]|].
  destruct (HasPrefix _ "response."); [by eapply responsesHasOutput_carries|].
  destruct (String.eqb _ "content_block_start"); [revert H; apply map_or_nil_carries; [done|apply content_block_carries]|].
  apply orb_true_iff in H as [H|H]; [apply orb_true_iff in H as [H|H]|].
  - destruct (lookup_any "delta" top) as [[]|] eqn:E; try done. apply lookup_any_Some in E.
    eapply carries_member; [exact E|by apply deltaHasText_carries].
  - revert H. apply as_array_carries. intros v H. unfold choice_has_text in H. destruct v as [| | | | |m]; try done. simpl in H.
    apply orb_true_iff in H as [H|H]; [|by apply (has_text_carries "text")].
    destruct (lookup_any "delta" m) as [[]|] eqn:E; try done. apply lookup_any_Some in E.
    eapply carries_member; [exact E|by apply deltaHasText_carries].
  - revert H. apply as_array_carries. intros v. apply (element_carries (fun d => has_text (lookup_any "text" d))); [done|]. intros d. by apply has_text_carries.
Qed.

Definition demo_delta : list Z := js "{'choices':[{'delta':{'content':'Hi'}}]}".

Lemma generated_text_sound_witness :
  exists top, unmarshal_map demo_delta = Some top /\ lookup_any "error" top = None /\ carries (JObj top).
Proof. apply (generated_text_sound "" demo_delta). vm_compute. reflexivity. Defined.
