(* ===== verification/Inbound.v ===== *)
(** * What the gateway reads from a client request

    handler/gateway.go (peekModel, peekModelFrom, peekReasoningEffort,
    copyForwardHeaders), domain/requestmeta.go, picker/session.go and
    externalprobe/classify.go.  Bodies are bytes; headers are a lookup of the
    canonical name.  Multipart bodies are read through [GoMime]. *)

From stdpp Require Import sorting.
From S2P Require Import Prelude GoFloat GoString Json JsonDecode Domain Picker Upstream.

(** ** Multipart forms and number formatting

    [media] is [mime.ParseMediaType] with the boundary parameter; [form_parts] is
    what successive [NextPart] calls give, and whether they end in [io.EOF];
    [format_float] is how encoding/json writes a float64. *)

Record form_part := mkPart { fp_name : string; fp_file : string; fp_value : list Z; fp_readable : bool }.

Class GoMime : Type := {
  media : string -> option (string * string);
  form_parts : string -> list Z -> list form_part * bool;
  format_float : f64 -> list Z
}.

Definition multipart_boundary `{GoMime} (contentType : string) : option string :=
  match media contentType with
  | Some (mt, boundary) => if HasPrefix mt "multipart/" then Some boundary else None
  | None => None
  end.

(** ** Fields of the body *)

(** A string field of the body decoded into a struct, errors ignored. *)
Definition peek_string (name : string) (body : list Z) : string :=
  match parse body ≫= struct_members with Some ms => (string_field name ms).1 | None => "" end.

Definition peekModel (body : list Z) : string := TrimSpace (peek_string "model" body).

Definition peekModelFrom `{GoMime} (contentType : string) (body : list Z) : string :=
  match multipart_boundary contentType with
  | None => peekModel body
  | Some boundary =>
      if String.eqb boundary "" then ""
      else match find (fun p => String.eqb (fp_name p) "model" && String.eqb (fp_file p) "") (form_parts boundary body).1 with
           | Some p => TrimSpace (of_bytes (take 512 (fp_value p)))
           | None => ""
           end
  end.

Definition peekReasoningEffort (body : list Z) : string :=
  match parse body ≫= struct_members with
  | None => ""
  | Some ms =>
      let '(top, ok1) := string_field "reasoning_effort" ms in
      let '(reasoning, ok2) := struct_field "reasoning" ms in
      let '(nested, ok3) := string_field "effort" reasoning in
      if ok1 && ok2 && ok3
      then if String.eqb (TrimSpace top) "" then TrimSpace nested else TrimSpace top
      else ""
  end.

(** [strconv.ParseBool]. *)
Definition ParseBool (s : string) : option bool :=
  if one_of s ["1"; "t"; "T"; "true"; "TRUE"; "True"] then Some true
  else if one_of s ["0"; "f"; "F"; "false"; "FALSE"; "False"] then Some false
  else None.

(** The parts of a form up to its end: the last [stream] field. *)
Fixpoint form_stream (parts : list form_part) (eof stream : bool) : bool * bool :=
  match parts with
  | [] => if eof then (stream, true) else (false, false)
  | p :: parts' =>
      if String.eqb (fp_name p) "stream" && String.eqb (fp_file p) "" then
        if negb (fp_readable p) then (false, false)
        else match ParseBool (TrimSpace (of_bytes (take 16 (fp_value p)))) with
             | Some b => form_stream parts' eof b
             | None => (false, false)
             end
      else form_stream parts' eof stream
  end.

(** Whether streaming was asked for, and whether the request says so. *)
Definition RequestStream `{GoMime} (contentType : string) (body : list Z) : bool * bool :=
  match multipart_boundary contentType with
  | Some boundary =>
      if String.eqb boundary "" then (false, false)
      else let '(parts, eof) := form_parts boundary body in form_stream parts eof false
  | None =>
      match unmarshal_raw body with
      | None | Some None => (false, false)
      | Some (Some ms) =>
          match member "stream" ms with
          | None | Some JNull => (false, true)
          | Some (JBool b) => (b, true)
          | Some _ => (false, false)
          end
      end
  end.

(** A field of slice type: [None] is nil; each value given must be an array whose
    elements decode. *)
Definition slice_field {A} (decode : json -> option A) (name : string) (ms : Members) : option (list A) * bool :=
  fold_left (fun acc v => match v with
                          | JArr l => match mapM decode l with Some xs => (Some xs, acc.2) | None => (acc.1, false) end
                          | JNull => (None, acc.2)
                          | _ => (acc.1, false)
                          end) (field_values name ms) (None, true).

Definition is_trigger (v : json) : bool :=
  match struct_members v with
  | Some ms => let '(typ, ok) := string_field "type" ms in ok && String.eqb typ "compaction_trigger"
  | None => false
  end.

Definition RequestCompaction (path : string) (body : list Z) : bool :=
  String.eqb path "/v1/responses"
  && match parse body ≫= struct_members with
     | Some ms => let '(input, ok) := slice_field Some "input" ms in ok && existsb is_trigger (default [] input)
     | None => false
     end.

(** ** Headers passed on *)

Definition hopByHop : list string :=
  ["connection"; "keep-alive"; "proxy-authenticate"; "proxy-authorization"; "te"; "trailers"; "transfer-encoding"; "upgrade"; "host"; "content-length"].

(** [copyForwardHeaders] on the names of a header: which are copied. *)
Definition forwards (name : string) : bool :=
  let lk := ToLower name in
  negb (one_of lk hopByHop) && negb (one_of lk ["authorization"; "x-api-key"])
  && (one_of lk ["content-type"; "accept"] || HasPrefix lk "anthropic-" || HasPrefix lk "openai-" || HasPrefix lk "x-").

Definition copyForwardHeaders (src : list (string * list string)) : list (string * string) :=
  let dst := List.concat (map (fun kv => if forwards kv.1 then map (pair kv.1) kv.2 else []) src) in
  if match find (fun kv => String.eqb (ToLower kv.1) "content-type") dst with Some kv => negb (String.eqb kv.2 "") | None => false end
  then dst
  else List.filter (fun kv => negb (String.eqb (ToLower kv.1) "content-type")) dst ++ [("Content-Type", "application/json")].

(** ** Session identity *)

Definition key_le (a b : string * list Z) : Prop := String.leb a.1 b.1 = true.
#[export] Instance key_le_dec a b : Decision (key_le a b).
Proof. unfold key_le. apply _. Defined.

Definition joined (l : list (list Z)) : list Z :=
  match l with [] => [] | x :: l' => x ++ List.concat (map (fun y => [44] ++ y) l') end.

(** [json.Marshal] of a decoded [any]: map keys sorted, the last value of a key. *)
Fixpoint marshal_any `{GoMime} (v : json) : list Z :=
  match v with
  | JNull => bytes "null"
  | JBool b => bytes (if b then "true" else "false")
  | JStr s => json_string s
  | JNum l => format_float (default f0 (ParseFloat l))
  | JArr vs => [91] ++ joined (map marshal_any vs) ++ [93]
  | JObj ms =>
      let m := fold_left (fun m kv => <[kv.1 := kv.2]> m) (map (fun kv => (kv.1, marshal_any kv.2)) ms) (∅ : gmap string (list Z)) in
      [123] ++ joined (map (fun kv => json_string kv.1 ++ [58] ++ kv.2) (merge_sort key_le (map_to_list m))) ++ [125]
  end.

(** A nil interface is written as null. *)
Definition marshal_opt `{GoMime} (v : option json) : list Z := marshal_any (default JNull v).

Definition decode_turn (v : json) : option (string * option json) :=
  ms ← struct_members v;
  let '(role, ok1) := string_field "role" ms in
  let '(content, ok2) := any_field "content" ms in
  if ok1 && ok2 then Some (role, content) else None.

(** The system parts up to the first user turn, and that turn. *)
Fixpoint first_user (turns : list (string * option json)) (system : list (option json)) : list (option json) * option json :=
  match turns with
  | [] => (system, None)
  | (role, content) :: turns' =>
      let system := if one_of role ["system"; "developer"] then system ++ [content] else system in
      if String.eqb role "user" then (system, content) else first_user turns' system
  end.

(** The first user item of a Responses input. *)
Definition first_input (input : json) : option json :=
  match input with
  | JStr s => if String.eqb s "" then None else Some (JStr s)
  | JArr items =>
      if forallb (fun v => match v with JObj _ | JNull => numbers_fit v | _ => false end) items then
        match find (fun v => any_is (lookup_any "role" (map_or_nil (Some v))) "user") items with
        | Some v => lookup_any "content" (map_or_nil (Some v))
        | None => None
        end
      else None
  | _ => None
  end.

Definition HashSession `{GoMime} (body : list Z) : string :=
  match parse body ≫= struct_members with
  | None => ""
  | Some ms =>
      let '(system, ok1) := any_field "system" ms in
      let '(instructions, ok2) := any_field "instructions" ms in
      let '(messages, ok3) := slice_field decode_turn "messages" ms in
      if ok1 && ok2 && ok3 then
        let '(parts, first) := first_user (default [] messages) [system; instructions] in
        let first := match first with
                     | Some v => Some v
                     | None => raw_field "input" ms ≫= first_input
                     end in
        match first with
        | None => ""
        | Some v => sessionDigest ([91; 91] ++ joined (map marshal_opt parts) ++ [93; 44] ++ marshal_any v ++ [93])
        end
      else ""
  end.

(** Session, its source, and the previous response id. *)
Definition RequestSession `{GoMime} (header : string -> string) (body : list Z) : string * string * string :=
  match find (fun name => negb (String.eqb (TrimSpace (header name)) "")) ["X-Session-Id"; "Session_id"] with
  | Some name => (sessionDigest (bytes (TrimSpace (header name))), name, "")
  | None =>
      let previous := peek_string "previous_response_id" body in
      if negb (String.eqb previous "") then ("", "previous_response_id", previous)
      else
        let s := HashSession body in
        if String.eqb s "" then ("", "none", "") else (s, "derived", "")
  end.

(** ** External probes *)

Definition RPArithmetic : string := "rp_arithmetic".
Definition ExampleArithmetic : string := "example_arithmetic".
Definition HealthManager : string := "health_manager".

Definition ValidRule (rule : string) : bool := one_of rule [RPArithmetic; ExampleArithmetic; HealthManager].

(** [absent] and [emptyArray] of a raw field. *)
Definition absent (raw : option json) : bool :=
  match raw with None | Some JNull => true | Some (JStr s) => String.eqb s "" | _ => false end.

Definition emptyArray (raw : option json) : bool :=
  match raw with None | Some JNull | Some (JArr []) => true | _ => false end.

Record message := mkMessage {
  ms_Role : string;
  ms_Type : string;
  ms_Content : option json;
  ms_ToolCalls : option json;
  ms_ToolCallID : option json
}.

Definition decode_message (v : json) : option message :=
  ms ← struct_members v;
  let '(role, ok1) := string_field "role" ms in
  let '(typ, ok2) := string_field "type" ms in
  if ok1 && ok2
  then Some (mkMessage role typ (raw_field "content" ms) (raw_field "tool_calls" ms) (raw_field "tool_call_id" ms))
  else None.

(** An [int] field: only integer literals that fit. *)
Definition int_field (name : string) (ms : Members) : Z * bool :=
  fold_left (fun acc v => match v with
                          | JNum l => match ParseInt (of_bytes l) with Some n => (n, acc.2) | None => (acc.1, false) end
                          | JNull => acc
                          | _ => (acc.1, false)
                          end) (field_values name ms) (0, true).

Definition decode_block (v : json) : option (string * option string) :=
  ms ← struct_members v;
  let '(typ, ok1) := string_field "type" ms in
  let '(text, ok2) := string_ptr_field "text" ms in
  if ok1 && ok2 then Some (typ, text) else None.

(** The text of a string, or of blocks that are all text of the expected type. *)
Definition textContent (raw : option json) (blockType : string) : option string :=
  if absent raw then None
  else match raw with
       | Some (JStr s) => Some s
       | Some (JArr l) =>
           match mapM decode_block l with
           | Some ((b :: bs) as blocks) =>
               if forallb (fun b => String.eqb b.1 blockType && bool_decide (is_Some b.2)) blocks
               then Some (String.concat "" (default "" ∘ snd <$> blocks)) else None
           | _ => None
           end
       | _ => None
       end.

Definition messageText (m : message) (blockType : string) : option string :=
  if negb (one_of (ms_Type m) [""; "message"]) || negb (emptyArray (ms_ToolCalls m)) || negb (absent (ms_ToolCallID m))
  then None else textContent (ms_Content m) blockType.

(** The templates, as matchers of the whole text.  [-?[0-9]+] first. *)
Definition match_int (l : list Z) : option (list Z) :=
  let l := match l with b :: r => if b =? 45 then r else l | [] => l end in
  match digits l with ([], _) => None | (_, r) => Some r end.

(** [(?: [*+\-] -?[0-9]+)*], as far as it goes. *)
Fixpoint match_terms (fuel : nat) (l : list Z) : list Z :=
  match fuel, l with
  | S fuel', a :: op :: b :: r =>
      if (a =? 32) && ((op =? 42) || (op =? 43) || (op =? 45)) && (b =? 32)
      then match match_int r with Some r' => match_terms fuel' r' | None => l end
      else l
  | _, _ => l
  end.

Definition rp_prefix : string :=
  "Compute exactly, using standard math precedence (multiplication before add and subtract): ".
Definition rp_suffix : string :=
  ". Reply with ONLY RP_ANSWER=N where N is the integer result (it may be negative). No other text.".

(** [rpTemplate.MatchString]: at least one term follows the first number. *)
Definition rpTemplate (s : string) : bool :=
  match strip (bytes rp_prefix) (bytes s) ≫= match_int with
  | Some l =>
      let r := match_terms (length l) l in
      negb (bool_decide (r = l)) && bool_decide (r = bytes rp_suffix)
  | None => false
  end.

Definition nl : string := of_bytes [10].
Definition example_prefix : string :=
  "Calculate and respond with ONLY the number, nothing else." +:+ nl +:+ nl +:+ "Q: 3 + 5 = ?" +:+ nl +:+ "A: 8" +:+ nl +:+ nl
  +:+ "Q: 12 - 7 = ?" +:+ nl +:+ "A: 5" +:+ nl +:+ nl +:+ "Q: ".
Definition example_suffix : string := " = ?" +:+ nl +:+ "A:".

Definition exampleTemplate (s : string) : bool :=
  match strip (bytes example_prefix) (bytes s) ≫= match_int with
  | Some (a :: op :: b :: r) =>
      (a =? 32) && ((op =? 43) || (op =? 45)) && (b =? 32) && match match_int r with Some r' => bool_decide (r' = bytes example_suffix) | None => false end
  | _ => false
  end.

(** [\s] of RE2. *)
Definition re_space (b : Z) : bool := (b =? 9) || (b =? 10) || (b =? 12) || (b =? 13) || (b =? 32).

(** [gpt-health-manager/[0-9]{8}(?:\s|$)] at the head of the text. *)
Definition agent_here (l : list Z) : bool :=
  match strip (bytes "gpt-health-manager/") l with
  | Some r => (8 <=? length r)%nat && forallb is_digit (take 8 r)
              && match drop 8 r with [] => true | b :: _ => re_space b end
  | None => false
  end.

Fixpoint agent_after_space (l : list Z) : bool :=
  match l with
  | [] => false
  | b :: r => re_space b && agent_here r || agent_after_space r
  end.

Definition healthAgent (s : string) : bool := agent_here (bytes s) || agent_after_space (bytes s).

(** The user text, the system text and the token limit of a request that is one
    complete user message; [None] for anything else. *)
Definition probe_text (path : string) (ms : Members) : option (string * string * Z) :=
  let field n := raw_field n ms in
  let '(messages, ok0) := slice_field decode_message "messages" ms in
  let '(maxOutput, ok1) := int_field "max_output_tokens" ms in
  let '(maxCompletion, ok2) := int_field "max_completion_tokens" ms in
  let '(maxTokens, ok3) := int_field "max_tokens" ms in
  if negb (ok0 && ok1 && ok2 && ok3) || negb (emptyArray (field "tools")) || negb (emptyArray (field "functions"))
     || negb (absent (field "previous_response_id")) || negb (absent (field "conversation"))
  then None
  else
    let user (block system : string) (limit : Z) (msgs : option (list message)) :=
      match msgs with
      | None => Some ("", system, limit)
      | Some [m] => if String.eqb (ms_Role m) "user" then (fun t => (t, system, limit)) <$> messageText m block else None
      | Some _ => None
      end in
    if String.eqb path "/v1/responses" then
      if negb (bool_decide (default [] messages = [] :> list message)) || negb (absent (field "system")) then None
      else
        system ← (if absent (field "instructions") then Some "" else textContent (field "instructions") "input_text");
        match field "input" with
        | Some (JStr s) => if String.eqb s "" then None else Some (s, system, maxOutput)
        | Some (JArr l) => mapM decode_message l ≫= fun msgs => user "input_text" system maxOutput (Some msgs)
        | Some JNull => Some ("", system, maxOutput)
        | _ => None
        end
    else if String.eqb path "/v1/chat/completions" then
      if negb (absent (field "input")) || negb (absent (field "instructions")) || negb (absent (field "system")) then None
      else
        let limit := if maxCompletion =? 0 then maxTokens else maxCompletion in
        match messages with
        | Some [a; b] =>
            if one_of (ms_Role a) ["system"; "developer"]
            then messageText a "text" ≫= fun system => user "text" system limit (Some [b])
            else None
        | msgs => user "text" "" limit msgs
        end
    else
      if negb (absent (field "input")) || negb (absent (field "instructions")) then None
      else
        system ← (if absent (field "system") then Some "" else textContent (field "system") "text");
        user "text" system maxTokens messages.

Definition Classify (path : string) (userAgent : string) (body : list Z) : string :=
  if negb (one_of path ["/v1/responses"; "/v1/chat/completions"; "/v1/messages"]) then ""
  else match (parse body ≫= struct_members) ≫= probe_text path with
       | None => ""
       | Some (input, system, limit) =>
           if rpTemplate input then RPArithmetic
           else if exampleTemplate input then ExampleArithmetic
           else if String.eqb input "Reply exactly: ok" && String.eqb system "Reply exactly: ok." && (limit =? 16) && healthAgent userAgent
           then HealthManager
           else ""
       end.

(** ** Examples *)

#[export] Instance demo_mime : GoMime := {|
  media := fun s => Some (s, ""); form_parts := fun _ _ => ([], true); format_float := fun _ => [48] |}.

Example classify_cases :
  Classify "/v1/chat/completions" "" (js ("{'messages':[{'role':'user','content':'" +:+ rp_prefix +:+ "3 * -4 + 15" +:+ rp_suffix +:+ "'}]}"))
    = RPArithmetic
  /\ Classify "/v1/chat/completions" "" (js ("{'messages':[{'role':'user','content':'" +:+ rp_prefix +:+ "3" +:+ rp_suffix +:+ "'}]}")) = ""
  /\ Classify "/v1/messages" "" (js ("{'tools':[{}],'messages':[{'role':'user','content':'" +:+ rp_prefix +:+ "3 * 4" +:+ rp_suffix +:+ "'}]}")) = ""
  /\ Classify "/v1/responses" "curl gpt-health-manager/20250101" (js "{'input':'Reply exactly: ok','instructions':'Reply exactly: ok.','max_output_tokens':16}")
     = HealthManager
  /\ exampleTemplate (example_prefix +:+ "7 - -2" +:+ example_suffix) = true.
Proof. by vm_compute. Qed.

Example inbound_cases :
  peekModel (js "{'model':' gpt-4o '}") = "gpt-4o" /\ RequestStream "application/json" (js "{'stream':true}") = (true, true)
  /\ RequestStream "application/json" (js "{'stream':1}") = (false, false)
  /\ RequestCompaction "/v1/responses" (js "{'input':[{'type':'message'},{'type':'compaction_trigger'}]}") = true
  /\ peekReasoningEffort (js "{'reasoning':{'effort':'high'}}") = "high"
  /\ (RequestSession (fun _ => "") (js "{'previous_response_id':'r1'}")) = ("", "previous_response_id", "r1").
Proof. by vm_compute. Qed.
