(* ===== verification/InboundProps.v ===== *)
(** * Recognising probes: what [Classify] accepts

    The template matchers against the languages of the regular expressions, and
    soundness of the classifier: only a request that consists of one complete user
    message with a known probe text is tagged. *)

From S2P Require Import Prelude GoFloat GoString Json JsonDecode Domain Picker Upstream Inbound.

(** ** The languages *)

(** [-?[0-9]+] *)
Definition int_word (a : list Z) : Prop :=
  exists ds, ds <> [] /\ Forall (fun b => is_digit b = true) ds /\ (a = ds \/ a = 45 :: ds).

(** [ [*+\-] -?[0-9]+] *)
Definition term_word (t : list Z) : Prop :=
  exists op a, t = 32 :: op :: 32 :: a /\ (op = 42 \/ op = 43 \/ op = 45) /\ int_word a.

Definition rp_text (s : string) : Prop :=
  exists a t ts, int_word a /\ Forall term_word (t :: ts)
    /\ bytes s = bytes rp_prefix ++ a ++ List.concat (t :: ts) ++ bytes rp_suffix.

Definition example_text (s : string) : Prop :=
  exists a op b, int_word a /\ (op = 43 \/ op = 45) /\ int_word b
    /\ bytes s = bytes example_prefix ++ a ++ [32; op; 32] ++ b ++ bytes example_suffix.

(** ** The matchers *)

(** A text that does not go on with a digit. *)
Definition stops (l : list Z) : Prop := match l with b :: _ => is_digit b = false | [] => True end.

Lemma digits_app ds r : Forall (fun b => is_digit b = true) ds -> stops r -> digits (ds ++ r) = (ds, r).
Proof.
  induction 1 as [|b ds Hb _ IH]; intros Hr; simpl.
  - destruct r as [|b r]; [done|]. simpl in *. by rewrite Hr.
  - rewrite Hb, IH by done. done.
Qed.

Lemma digits_inv l ds r : digits l = (ds, r) -> l = ds ++ r /\ Forall (fun b => is_digit b = true) ds /\ stops r.
Proof.
  revert ds r. induction l as [|b l IH]; intros ds r; simpl; [by intros [= <- <-]|].
  destruct (is_digit b) eqn:Eb; [|by intros [= <- <-]]. destruct (digits l) as [ds' r'] eqn:E. intros [= <- <-].
  destruct (IH ds' r' eq_refl) as (-> & F & S). split_and!; [done|by constructor|done].
Qed.

Lemma match_int_app a r : int_word a -> stops r -> match_int (a ++ r) = Some r.
Proof.
  intros (ds & Hn & F & Ha) Hr. unfold match_int. destruct ds as [|d ds]; [done|].
  assert (D : digits ((d :: ds) ++ r) = (d :: ds, r)) by by apply digits_app.
  destruct Ha as [-> | ->]; cbn -[digits] in *; [|by rewrite D].
  destruct (Z.eqb_spec d 45) as [->|N]; [by inversion F|by rewrite D].
Qed.

Lemma match_int_inv l r : match_int l = Some r -> exists a, int_word a /\ l = a ++ r /\ stops r.
Proof.
  unfold match_int. set (l' := match l with b :: r0 => if b =? 45 then r0 else l | [] => l end).
  assert (Hl : l = l' \/ l = 45 :: l') by (subst l'; destruct l as [|b l]; [by left|]; destruct (Z.eqb_spec b 45); subst; auto).
  clearbody l'.
  destruct (digits l') as [ds r'] eqn:E. apply digits_inv in E as (E & F & S). destruct ds as [|d ds]; [done|]. intros [= ->].
  destruct Hl as [-> | ->].
  - exists (d :: ds). split_and!; [by exists (d :: ds); auto|done|done].
  - exists (45 :: d :: ds). split_and!; [by exists (d :: ds); auto|by rewrite E|done].
Qed.

Lemma terms_stop ts r : Forall term_word ts -> stops r -> stops (List.concat ts ++ r).
Proof. destruct 1 as [|t ts (op & a & -> & _) _]; done. Qed.

Lemma match_terms_app fuel ts r :
  Forall term_word ts -> (length (List.concat ts) <= fuel)%nat -> match_terms fuel (List.concat ts ++ 46 :: r) = 46 :: r.
Proof.
  intros F. revert fuel. induction F as [|t ts (op & a & -> & Ho & Ha) F IH]; intros fuel Hl.
  { destruct fuel; [done|]. by destruct r as [|? [|? ?]]. }
  simpl in Hl. destruct fuel as [|fuel]; [lia|]. simpl. rewrite length_app in Hl.
  assert (E : (op =? 42) || (op =? 43) || (op =? 45) = true) by (destruct Ho as [->|[->| ->]]; done).
  rewrite E. cbn [andb]. rewrite <- app_assoc, (match_int_app a) by (done || by apply terms_stop). apply IH. lia.
Qed.

Lemma match_terms_inv fuel l : exists ts, Forall term_word ts /\ l = List.concat ts ++ match_terms fuel l.
Proof.
  revert l. induction fuel as [|fuel IH]; intros l; [by exists []|]. destruct l as [|b1 [|op [|b3 r]]]; try by exists [].
  simpl. destruct (_ && _ && _) eqn:E; [|by exists []]. bools. destruct (match_int r) as [r'|] eqn:Em; [|by exists []].
  apply match_int_inv in Em as (a & Ha & -> & _). destruct (IH r') as (ts & F & Hr).
  exists ((32 :: op :: 32 :: a) :: ts). split; [constructor; [|done]|].
  - exists op, a. split_and!; [done| |done]. apply orb_true_iff in H1 as [[?|?]%orb_true_iff|?]; lia.
  - simpl. rewrite <- app_assoc, <- Hr. repeat f_equal; lia.
Qed.

Lemma strip_spec pre l r : strip pre l = Some r <-> l = pre ++ r.
Proof.
  unfold strip. case_bool_decide as H; split.
  - intros [= <-]. rewrite <- H at 1. by rewrite take_drop.
  - intros ->. by rewrite drop_app_length.
  - done.
  - intros ->. by rewrite take_app_length in H.
Qed.

(** The matchers accept exactly the languages. *)
Lemma rpTemplate_spec s : rpTemplate s = true <-> rp_text s.
Proof.
  unfold rpTemplate, rp_text. split.
  - destruct (strip _ _) as [l|] eqn:Es; [|done]. apply strip_spec in Es. cbn [mbind option_bind]. destruct (match_int l) as [l'|] eqn:Em; [|done].
    apply match_int_inv in Em as (a & Ha & -> & _). intros [N E0]%andb_true_iff. apply negb_true_iff, bool_decide_eq_false in N. apply bool_decide_eq_true in E0.
    destruct (match_terms_inv (length l') l') as (ts & F & E). destruct ts as [|t ts]; [by simpl in E|].
    exists a, t, ts. split_and!; [done|done|]. by rewrite Es, E, E0.
  - intros (a & t & ts & Ha & F & Hs).
    assert (St : strip (bytes rp_prefix) (bytes s) = Some (a ++ List.concat (t :: ts) ++ bytes rp_suffix)) by by apply strip_spec.
    rewrite St. cbn [mbind option_bind]. rewrite (match_int_app a) by (done || by apply terms_stop).
    change (bytes rp_suffix) with (46 :: bytes (String.substring 1 200 rp_suffix)).
    rewrite match_terms_app by (done || (rewrite length_app; lia)). rewrite andb_true_iff, negb_true_iff, bool_decide_eq_false, bool_decide_eq_true.
    split; [|done]. inversion F as [|? ? (op & b & -> & _) _]. done.
Qed.

Lemma exampleTemplate_spec s : exampleTemplate s = true <-> example_text s.
Proof.
  unfold exampleTemplate, example_text. split.
  - destruct (strip _ _) as [l|] eqn:Es; [|done]. apply strip_spec in Es. cbn [mbind option_bind]. destruct (match_int l) as [l'|] eqn:Em; [|done].
    apply match_int_inv in Em as (a & Ha & -> & _). destruct l' as [|b1 [|op [|b3 r]]]; try done.
    intros [[[E1 E2]%andb_true_iff E3]%andb_true_iff E4]%andb_true_iff. apply Z.eqb_eq in E1, E3. subst b1 b3.
    destruct (match_int r) as [r'|] eqn:Er; [|done]. apply match_int_inv in Er as (b & Hb & -> & _).
    apply bool_decide_eq_true in E4. subst r'. exists a, op, b. split_and!; [done|lia|done|exact Es].
  - intros (a & op & b & Ha & Ho & Hb & Hs).
    assert (St : strip (bytes example_prefix) (bytes s) = Some (a ++ 32 :: op :: 32 :: b ++ bytes example_suffix)) by by apply strip_spec.
    rewrite St. cbn [mbind option_bind]. rewrite (match_int_app a) by done. rewrite (match_int_app b) by done.
    destruct Ho as [-> | ->]; done.
Qed.

(** ** The request *)

(** A turn that is plain text: no tool calls, no tool results, no other blocks. *)
Definition plain_turn (m : message) (block text : string) : Prop :=
  (ms_Type m = "" \/ ms_Type m = "message") /\ emptyArray (ms_ToolCalls m) = true /\ absent (ms_ToolCallID m) = true
  /\ textContent (ms_Content m) block = Some text.

(** An optional text of the request. *)
Definition optional_text (ms : Members) (name block text : string) : Prop :=
  if absent (raw_field name ms) then text = "" else textContent (raw_field name ms) block = Some text.

Definition messages_of (ms : Members) : option (list message) := (slice_field decode_message "messages" ms).1.
Definition limit_of (name : string) (ms : Members) : Z := (int_field name ms).1.
Definition chat_limit (ms : Members) : Z :=
  if limit_of "max_completion_tokens" ms =? 0 then limit_of "max_tokens" ms else limit_of "max_completion_tokens" ms.

Definition user_turn (m : message) (block text : string) : Prop := ms_Role m = "user" /\ plain_turn m block text.

(** The request is the user text [input] and nothing else but the text [system] of
    the system, with the token limit [limit], in the form of its API. *)
Inductive asks (ms : Members) : string -> string -> string -> Z -> Prop :=
| asks_text input system :
    default [] (messages_of ms) = [] -> absent (raw_field "system" ms) = true -> optional_text ms "instructions" "input_text" system ->
    raw_field "input" ms = Some (JStr input) -> asks ms "/v1/responses" input system (limit_of "max_output_tokens" ms)
| asks_item l m input system :
    default [] (messages_of ms) = [] -> absent (raw_field "system" ms) = true -> optional_text ms "instructions" "input_text" system ->
    raw_field "input" ms = Some (JArr l) -> mapM decode_message l = Some [m] -> user_turn m "input_text" input ->
    asks ms "/v1/responses" input system (limit_of "max_output_tokens" ms)
| asks_chat m input :
    absent (raw_field "input" ms) = true -> absent (raw_field "instructions" ms) = true -> absent (raw_field "system" ms) = true ->
    messages_of ms = Some [m] -> user_turn m "text" input -> asks ms "/v1/chat/completions" input "" (chat_limit ms)
| asks_chat_system a m input system :
    absent (raw_field "input" ms) = true -> absent (raw_field "instructions" ms) = true -> absent (raw_field "system" ms) = true ->
    messages_of ms = Some [a; m] -> (ms_Role a = "system" \/ ms_Role a = "developer") -> plain_turn a "text" system -> user_turn m "text" input ->
    asks ms "/v1/chat/completions" input system (chat_limit ms)
| asks_message m input system :
    absent (raw_field "input" ms) = true -> absent (raw_field "instructions" ms) = true -> optional_text ms "system" "text" system ->
    messages_of ms = Some [m] -> user_turn m "text" input -> asks ms "/v1/messages" input system (limit_of "max_tokens" ms).

(** Nothing that continues a conversation or offers tools, and members of the right
    types. *)
Definition self_contained (ms : Members) : Prop :=
  emptyArray (raw_field "tools" ms) = true /\ emptyArray (raw_field "functions" ms) = true
  /\ absent (raw_field "previous_response_id" ms) = true /\ absent (raw_field "conversation" ms) = true
  /\ (slice_field decode_message "messages" ms).2 = true
  /\ (int_field "max_output_tokens" ms).2 = true /\ (int_field "max_completion_tokens" ms).2 = true /\ (int_field "max_tokens" ms).2 = true.

Lemma messageText_spec m block s : messageText m block = Some s <-> plain_turn m block s.
Proof.
  unfold messageText, plain_turn, one_of. simpl. rewrite orb_false_r.
  destruct (String.eqb_spec (ms_Type m) ""); destruct (String.eqb_spec (ms_Type m) "message"); simpl;
    destruct (emptyArray _); destruct (absent (ms_ToolCallID m)); simpl; naive_solver.
Qed.

Lemma optional_text_spec ms name block text :
  (if absent (raw_field name ms) then Some "" else textContent (raw_field name ms) block) = Some text <-> optional_text ms name block text.
Proof. unfold optional_text. destruct (absent _); [naive_solver|done]. Qed.

(** What the single remaining message must be. *)
Lemma user_turn_spec {A} m block (k : string -> A) r :
  (if String.eqb (ms_Role m) "user" then k <$> messageText m block else None) = Some r <-> exists t, user_turn m block t /\ r = k t.
Proof.
  unfold user_turn. destruct (String.eqb_spec (ms_Role m) "user") as [E|E]; [|naive_solver]. rewrite fmap_Some. setoid_rewrite messageText_spec. naive_solver.
Qed.

Lemma probe_text_sound path ms input system limit :
  one_of path ["/v1/responses"; "/v1/chat/completions"; "/v1/messages"] = true ->
  probe_text path ms = Some (input, system, limit) -> input <> "" -> self_contained ms /\ asks ms path input system limit.
Proof.
  intros Hp. unfold probe_text. cbv zeta. destruct (slice_field decode_message "messages" ms) as [messages ok0] eqn:Em.
  destruct (int_field "max_output_tokens" ms) as [l1 ok1] eqn:E1, (int_field "max_completion_tokens" ms) as [l2 ok2] eqn:E2, (int_field "max_tokens" ms) as [l3 ok3] eqn:E3.
  destruct (negb (ok0 && ok1 && ok2 && ok3) || _ || _ || _ || _) eqn:E; [done|]. bools. intros Hq Hi.
  split; [unfold self_contained; rewrite Em, E1, E2, E3; by split_and!|].
  assert (M : messages_of ms = messages) by (unfold messages_of; by rewrite Em).
  assert (L : l1 = limit_of "max_output_tokens" ms /\ l2 = limit_of "max_completion_tokens" ms /\ l3 = limit_of "max_tokens" ms)
    by (unfold limit_of; by rewrite E1, E2, E3). destruct L as (-> & -> & ->). clear E1 E2 E3 Em.
  destruct (String.eqb_spec path "/v1/responses") as [->|N1].
  - destruct (negb (bool_decide _) || _) eqn:G; [done|]. apply orb_false_iff in G as [G1%negb_false_iff%bool_decide_eq_true G2%negb_false_iff].
    apply bind_Some in Hq as (sys & Hs%optional_text_spec & Hq). rewrite <- M in G1.
    destruct (raw_field "input" ms) as [[| | |s|l|]|] eqn:Ei; try done; [by simplify_eq| |].
    + destruct (String.eqb_spec s ""); simplify_eq. by apply asks_text.
    + apply bind_Some in Hq as ([|m [|]] & Hm & Hq); try done. apply user_turn_spec in Hq as (t & Ht & [= -> -> ->]). by eapply asks_item.
  - destruct (String.eqb_spec path "/v1/chat/completions") as [->|N2].
    + destruct (negb (absent (raw_field "input" ms)) || _ || _) eqn:G; [done|]. bools.
      destruct messages as [[|a [|b [|]]]|]; try done; [| |by simplify_eq].
      * apply user_turn_spec in Hq as (t & Ht & [= -> -> ->]). by eapply asks_chat.
      * destruct (one_of (ms_Role a) _) eqn:Eo; [|done]. apply bind_Some in Hq as (sys & Hs%messageText_spec & Hq). apply user_turn_spec in Hq as (t & Ht & [= -> -> ->]).
        unfold one_of in Eo. simpl in Eo. rewrite orb_false_r in Eo. eapply asks_chat_system; try done. apply orb_true_iff in Eo as [?%String.eqb_eq|?%String.eqb_eq]; auto.
    + assert (path = "/v1/messages") as ->.
      { unfold one_of in Hp. simpl in Hp. destruct (String.eqb_spec path "/v1/responses"), (String.eqb_spec path "/v1/chat/completions"), (String.eqb_spec path "/v1/messages"); done. }
      destruct (negb (absent (raw_field "input" ms)) || _) eqn:G; [done|]. bools. apply bind_Some in Hq as (sys & Hs%optional_text_spec & Hq).
      destruct messages as [[|m [|]]|]; try done; [|by simplify_eq]. apply user_turn_spec in Hq as (t & Ht & [= -> -> ->]). by eapply asks_message.
Qed.

Lemma probe_text_complete path ms input system limit :
  self_contained ms -> asks ms path input system limit -> input <> "" ->
  one_of path ["/v1/responses"; "/v1/chat/completions"; "/v1/messages"] = true /\ probe_text path ms = Some (input, system, limit).
Proof.
  intros (S1 & S2 & S3 & S4 & S5 & S6 & S7 & S8) A Hi. unfold probe_text. cbv zeta.
  assert (Em : slice_field decode_message "messages" ms = (messages_of ms, true)) by (unfold messages_of; destruct (slice_field _ _ _); by cbn in *; subst).
  assert (EI : forall n, (int_field n ms).2 = true -> int_field n ms = (limit_of n ms, true)) by (intros n Hn; unfold limit_of; destruct (int_field n ms); by cbn in *; subst).
  rewrite Em, !EI, S1, S2, S3, S4 by done. cbn [andb orb negb].
  inversion A as [? ? B1 B2 B3%optional_text_spec B4|? ? ? ? B1 B2 B3%optional_text_spec B4 B5 B6|? ? B1 B2 B3 B4 B5|? ? ? ? B1 B2 B3 B4 B5 B6 B7|? ? ? B1 B2 B3%optional_text_spec B4 B5]; subst; (split; [done|]).
  - change (String.eqb "/v1/responses" "/v1/responses") with true. cbv iota. rewrite B1, bool_decide_true, B2, B3, B4 by done. cbn. by destruct (String.eqb_spec input "").
  - change (String.eqb "/v1/responses" "/v1/responses") with true. cbv iota. rewrite B1, bool_decide_true, B2, B3, B4 by done. cbn [negb orb mbind option_bind]. rewrite B5.
    apply user_turn_spec. eauto.
  - change (String.eqb "/v1/chat/completions" "/v1/responses") with false. change (String.eqb "/v1/chat/completions" "/v1/chat/completions") with true. cbv iota.
    rewrite B1, B2, B3, B4. cbn [negb orb]. apply user_turn_spec. eauto.
  - change (String.eqb "/v1/chat/completions" "/v1/responses") with false. change (String.eqb "/v1/chat/completions" "/v1/chat/completions") with true. cbv iota.
    rewrite B1, B2, B3, B4. cbn [negb orb]. assert (Eo : one_of (ms_Role a) ["system"; "developer"] = true) by (destruct B5 as [-> | ->]; done).
    rewrite Eo. apply bind_Some. exists system. split; [by apply messageText_spec|]. apply user_turn_spec. eauto.
  - change (String.eqb "/v1/messages" "/v1/responses") with false. change (String.eqb "/v1/messages" "/v1/chat/completions") with false. cbv iota.
    rewrite B1, B2, B3, B4. cbn [negb orb mbind option_bind]. apply user_turn_spec. eauto.
Qed.

(** ** The property *)

(** Which probe a text is. *)
Definition tagged (userAgent input system : string) (limit : Z) (rule : string) : Prop :=
  rule = RPArithmetic /\ rp_text input
  \/ rule = ExampleArithmetic /\ example_text input
  \/ rule = HealthManager /\ input = "Reply exactly: ok" /\ system = "Reply exactly: ok." /\ limit = 16 /\ healthAgent userAgent = true.

(** The languages do not meet. *)
Lemma texts_differ s : example_text s -> ~ rp_text s.
Proof.
  intros (a & op & b & _ & _ & _ & E1) (a' & t & ts & _ & _ & E2). rewrite E1 in E2. apply (f_equal (take 2)) in E2.
  rewrite !(firstn_app 2) in E2. vm_compute in E2. discriminate E2.
Qed.

(** C27: Exactly the probes are tagged: a request gets a probe's tag if and only if
    it is, as a whole, one user message of plain text in the form of its API (with at
    most a system text, and none of the members of another API), offers no tools,
    continues no conversation, and that text is in the language of the probe's
    template, or is the health manager's fixed exchange with its system text, its
    limit of 16 tokens and its user agent.  Everything else is business traffic. *)
Theorem classify_exact path userAgent body rule : rule <> "" ->
  (Classify path userAgent body = rule <->
   exists ms input system limit, parse body ≫= struct_members = Some ms /\ self_contained ms /\ asks ms path input system limit
     /\ tagged userAgent input system limit rule).
Proof.
  intros Hr. unfold Classify. split.
  - destruct (one_of path _) eqn:Hp; [|done]. cbn [negb]. destruct (parse body ≫= struct_members) as [ms|]; [|done]. cbn [mbind option_bind].
    destruct (probe_text path ms) as [[[input system] limit]|] eqn:Ep; [|done]. intros H.
    assert (Hi : input <> "") by (intros ->; by vm_compute in H). destruct (probe_text_sound _ _ _ _ _ Hp Ep Hi) as [Sc As]. exists ms, input, system, limit.
    split_and!; [done|done|done|]. unfold tagged. destruct (rpTemplate input) eqn:E1; [left; split; [done|by apply rpTemplate_spec]|].
    destruct (exampleTemplate input) eqn:E2; [right; left; split; [done|by apply exampleTemplate_spec]|].
    destruct (_ && _ && _ && _) eqn:E3; [|done]. bools. right. right. split_and!; [done|by apply String.eqb_eq|by apply String.eqb_eq|lia|done].
  - intros (ms & input & system & limit & Hb & Sc & As & T).
    assert (Hi : input <> "").
    { intros ->. destruct T as [(_ & T)|[(_ & T)|(_ & T & _)]]; [apply rpTemplate_spec in T|apply exampleTemplate_spec in T|]; done. }
    destruct (probe_text_complete _ _ _ _ _ Sc As Hi) as [Hp Ep]. rewrite Hp, Hb. cbn [negb mbind option_bind]. rewrite Ep.
    destruct T as [(-> & T)|[(-> & T)|(-> & -> & -> & -> & Ha)]].
    + apply rpTemplate_spec in T. by rewrite T.
    + pose proof (texts_differ _ T) as D. rewrite <- rpTemplate_spec in D. apply not_true_is_false in D. apply exampleTemplate_spec in T. by rewrite D, T.
    + rewrite Ha. by vm_compute.
Qed.

Lemma classify_exact_witness :
  exists ms input system limit, parse (js "{'input':'Reply exactly: ok','instructions':'Reply exactly: ok.','max_output_tokens':16}") ≫= struct_members = Some ms
    /\ self_contained ms /\ asks ms "/v1/responses" input system limit /\ tagged "gpt-health-manager/20250101" input system limit HealthManager.
Proof.
  apply (classify_exact "/v1/responses" "gpt-health-manager/20250101"
    (js "{'input':'Reply exactly: ok','instructions':'Reply exactly: ok.','max_output_tokens':16}") HealthManager).
  - discriminate.
  - vm_compute. reflexivity.
Defined.
