(* ===== verification/Sse.v ===== *)
(** * Event streams of the upstreams (upstream/sse_reader.go)

    [SSEReader] sits between the upstream's response body and everything that
    reads it line by line.  It hands on the bytes it gets and puts a blank line
    between two events an upstream has glued together.  The model keeps the
    buffered reader, the pending bytes and the running state of the current event
    as the source does; the specification below works on whole frames. *)

From S2P Require Import Prelude GoString Json.

(** Errors a reader returns: the end of the stream, an oversized event, or what
    the transport reported. *)
Inductive read_error : Type :=
| EOF
| ErrSSEEventTooLarge
| ErrTransport (what : string).

#[global] Instance read_error_eq_dec : EqDecision read_error.
Proof. solve_decision. Defined.

Definition MaxSSEEventBytes : Z := Z.shiftl 16 20.

Definition zlen {A} (l : list A) : Z := Z.of_nat (length l).

(** ** bufio.Reader

    The bytes the underlying reader will still deliver and the error it ends
    with.  [ReadSlice('\n')] returns the bytes up to the next line feed, a full
    buffer when there is none in it, or the rest with the error. *)

Record bufio_Reader := mkBufio { br_rest : list Z; br_err : read_error }.

Definition bufferSize : nat := Z.to_nat (32 * 1024).

Inductive slice_error : Type :=
| ErrBufferFull
| SliceErr (e : read_error).

Inductive scan_stop : Type := StopFound | StopFull | StopEnd.

Fixpoint scan_newline (n : nat) (l : list Z) : list Z * scan_stop * list Z :=
  match n, l with
  | O, _ => ([], StopFull, l)
  | S _, [] => ([], StopEnd, [])
  | S n', b :: l' =>
      if b =? 10 then ([b], StopFound, l')
      else let '(p, stop, rest) := scan_newline n' l' in (b :: p, stop, rest)
  end.

Definition ReadSlice (r : bufio_Reader) : list Z * option slice_error * bufio_Reader :=
  let '(p, stop, rest) := scan_newline bufferSize (br_rest r) in
  (p, match stop with
      | StopFound => None
      | StopFull => Some ErrBufferFull
      | StopEnd => Some (SliceErr (br_err r))
      end, mkBufio rest (br_err r)).

(** [readLine]'s loop.  A full buffer consumes [bufferSize] bytes, so one more
    round than there are bytes is enough. *)
Fixpoint read_parts (fuel : nat) (line : list Z) (r : bufio_Reader)
    : list Z * option read_error * bufio_Reader :=
  match fuel with
  | O => (line, None, r)
  | S fuel' =>
      let '(part, err, r') := ReadSlice r in
      if MaxSSEEventBytes <? zlen line + zlen part then ([], Some ErrSSEEventTooLarge, r')
      else match err with
           | Some ErrBufferFull => read_parts fuel' (line ++ part) r'
           | Some (SliceErr e) => (line ++ part, Some e, r')
           | None => (line ++ part, None, r')
           end
  end.

Definition readLine (r : bufio_Reader) : list Z * option read_error * bufio_Reader :=
  read_parts (S (length (br_rest r))) [] r.

(** ** SSEReader *)

Record SSEReader := mkSSEReader {
  sr_reader : bufio_Reader;
  sr_pending : list Z;
  sr_err : option read_error;
  sr_data : list Z;
  sr_eventName : string;
  sr_eventBytes : Z
}.

Definition NewSSEReader (r : bufio_Reader) : SSEReader := mkSSEReader r [] None [] "" 0.

Definition has_prefix (l pre : list Z) : bool := bool_decide (take (length pre) l = pre).
Definition trim_prefix (l pre : list Z) : list Z := if has_prefix l pre then drop (length pre) l else l.
Definition trim_suffix (l suf : list Z) : list Z :=
  if has_prefix (reverse l) (reverse suf) then take (length l - length suf) l else l.

Definition completeSSEObject (data : list Z) : bool :=
  let data := trim_right (trim_left data) in
  match data with
  | 123 :: _ => bool_decide (is_Some (parse data))
  | _ => false
  end.

(** The line without its end. *)
Definition line_field (line : list Z) : list Z := trim_suffix (trim_suffix line [10]) [13].

(** The part of [Read] that takes in one line: whether a blank line has to be
    put before it, and the new state; an event over the limit is an error. *)
Definition take_line (line : list Z) (r : SSEReader) : result SSEReader SSEReader :=
  let field := line_field line in
  let isEvent := has_prefix field (bytes "event:") in
  let repair := isEvent && negb (String.eqb (sr_eventName r) "") && completeSSEObject (sr_data r) in
  let '(data, eventName, eventBytes) :=
    if repair then ([], "", 0) else (sr_data r, sr_eventName r, sr_eventBytes r) in
  let eventBytes := eventBytes + zlen line in
  if MaxSSEEventBytes <? eventBytes then
    Err (mkSSEReader (sr_reader r) (sr_pending r) (Some ErrSSEEventTooLarge) data eventName eventBytes)
  else
    let '(data, eventName, eventBytes) :=
      if bool_decide (field = []) then ([], "", 0)
      else if isEvent then (data, TrimSpace (of_bytes (drop 6 field)), eventBytes)
      else (data, eventName, eventBytes) in
    let data :=
      if has_prefix field (bytes "data:")
      then (if bool_decide (data = []) then data else data ++ [10]) ++ trim_prefix (drop 5 field) [32]
      else data in
    Ok (mkSSEReader (sr_reader r) (if repair then 10 :: line else line) (sr_err r) data eventName eventBytes).

(** [n := copy(p, r.pending)] and what follows. *)
Definition deliver (n : nat) (r : SSEReader) : list Z * option read_error * SSEReader :=
  (take n (sr_pending r), None,
   mkSSEReader (sr_reader r) (drop n (sr_pending r)) (sr_err r) (sr_data r) (sr_eventName r) (sr_eventBytes r)).

(** [Read(p)] with [len(p) = n]: the bytes put into p, the error, the reader. *)
Definition Read (n : nat) (r : SSEReader) : list Z * option read_error * SSEReader :=
  match n with
  | O => ([], None, r)
  | S _ =>
      match sr_pending r with
      | _ :: _ => deliver n r
      | [] =>
          match sr_err r with
          | Some e => ([], Some e, r)
          | None =>
              let '(line, err, br) := readLine (sr_reader r) in
              let r := mkSSEReader br [] err (sr_data r) (sr_eventName r) (sr_eventBytes r) in
              if bool_decide (err = Some ErrSSEEventTooLarge) then ([], err, r)
              else match line with
                   | [] => ([], err, r)
                   | _ => match take_line line r with
                          | Err r' => ([], sr_err r', r')
                          | Ok r' => deliver n r'
                          end
                   end
          end
      end
  end.

(** A consumer that reads with buffers of the given sizes until it gets an error. *)
Fixpoint read_all (sizes : list nat) (r : SSEReader) : list Z * option read_error * SSEReader :=
  match sizes with
  | [] => ([], None, r)
  | n :: sizes' =>
      let '(out, err, r') := Read n r in
      match err with
      | Some e => (out, Some e, r')
      | None => let '(out', err', r'') := read_all sizes' r' in (out ++ out', err', r'')
      end
  end.
