(* ===== verification/SseProps.v ===== *)
(** * The event stream reader against its specification

    The specification splits the stream into lines, keeps the lines of the
    current frame and says which line starts a new event that was glued to the
    previous one, with the event's data put together as the event stream format
    defines it.  The reader delivers exactly that, for any buffer sizes. *)

From S2P Require Import Prelude GoString Json Sse.

(** ** Lines *)

(** The stream cut after every line feed. *)
Fixpoint lines_of (l : list Z) : list (list Z) :=
  match l with
  | [] => []
  | b :: l' => if b =? 10 then [b] :: lines_of l'
               else match lines_of l' with
                    | [] => [[b]]
                    | x :: xs => (b :: x) :: xs
                    end
  end.

Definition no_newline (l : list Z) : Prop := Forall (fun b => b <> 10) l.

(** Lines that end with their only line feed; the last may lack it. *)
Fixpoint lines_ok (ls : list (list Z)) : Prop :=
  match ls with
  | [] => True
  | l :: ls' => (exists p, no_newline p /\ l = p ++ [10]) /\ lines_ok ls'
                \/ ls' = [] /\ l <> [] /\ no_newline l
  end.

Lemma lines_of_concat l : concat (lines_of l) = l.
Proof.
  induction l as [|b l IH]; [done|]. simpl. destruct (b =? 10); simpl; [by rewrite IH|].
  destruct (lines_of l); simpl in *; by rewrite <- IH.
Qed.

Lemma lines_of_nil l : lines_of l = [] -> l = [].
Proof. intros E. by rewrite <- (lines_of_concat l), E. Qed.

Lemma lines_of_line p s : no_newline p -> lines_of (p ++ 10 :: s) = (p ++ [10]) :: lines_of s.
Proof.
  induction 1 as [|b p Hb _ IH]; [done|]. simpl.
  rewrite (proj2 (Z.eqb_neq b 10) Hb). by rewrite IH.
Qed.

Lemma lines_of_last p : no_newline p -> p <> [] -> lines_of p = [p].
Proof.
  induction 1 as [|b p Hb Hp IH]; [done|]. intros _. simpl.
  rewrite (proj2 (Z.eqb_neq b 10) Hb). destruct p as [|c p]; [done|]. by rewrite IH.
Qed.

Lemma lines_of_ok l : lines_ok (lines_of l).
Proof.
  induction l as [|b l IH]; [done|]. simpl. destruct (b =? 10) eqn:E.
  - left. split; [|done]. exists []. split; [constructor|]. apply Z.eqb_eq in E. by subst.
  - apply Z.eqb_neq in E. destruct (lines_of l) as [|x xs]; simpl in *.
    + right. split_and!; [done|done|]. by repeat constructor.
    + destruct IH as [[(p & Hp & ->) Hxs]|(-> & Hx & Hn)].
      * left. split; [|done]. exists (b :: p). split; [by constructor|done].
      * right. split_and!; [done|done|by constructor].
Qed.

Lemma lines_ok_concat ls : lines_ok ls -> lines_of (concat ls) = ls.
Proof.
  induction ls as [|l ls IH]; [done|]. intros [[(p & Hp & ->) Hls]|(-> & Hl & Hn)]; simpl.
  - rewrite <- app_assoc. simpl. by rewrite lines_of_line, IH.
  - rewrite app_nil_r. by apply lines_of_last.
Qed.

(** ** Specification *)

Definition is_event (line : list Z) : bool := has_prefix (line_field line) (bytes "event:").
Definition is_blank (line : list Z) : bool := bool_decide (line_field line = []).

(** The value of a [data:] line. *)
Definition data_value (line : list Z) : option (list Z) :=
  let field := line_field line in
  if has_prefix field (bytes "data:") then Some (trim_prefix (drop 5 field) [32]) else None.

Fixpoint join_lines (vs : list (list Z)) : list Z :=
  match vs with
  | [] => []
  | [v] => v
  | v :: vs' => v ++ [10] ++ join_lines vs'
  end.

(** The data and the name of an event, given the lines of its frame. *)
Definition event_data (frame : list (list Z)) : list Z := join_lines (omap data_value frame).
Definition set_name (name : string) (line : list Z) : string :=
  if is_event line then TrimSpace (of_bytes (drop 6 (line_field line))) else name.
Definition event_name (frame : list (list Z)) : string := fold_left set_name frame "".

(** A frame that is an event already: it has a name and its data is an object. *)
Definition event_complete (frame : list (list Z)) : bool :=
  negb (String.eqb (event_name frame) "") && completeSSEObject (event_data frame).

(** The lines to deliver, each with whether a blank line goes before it, and the
    error at the end. *)
Fixpoint reframe (frame : list (list Z)) (ls : list (list Z)) (e : read_error)
    : list (bool * list Z) * read_error :=
  match ls with
  | [] => ([], e)
  | line :: ls' =>
      let glued := is_event line && event_complete frame in
      let frame' := (if glued then [] else frame) ++ [line] in
      if MaxSSEEventBytes <? zlen (concat frame') then ([], ErrSSEEventTooLarge)
      else let '(out, fin) := reframe (if is_blank line then [] else frame') ls' e in
           ((glued, line) :: out, fin)
  end.

Definition out_lines (out : list (bool * list Z)) : list (list Z) :=
  out ≫= fun x : bool * list Z => if x.1 then [[10]; x.2] else [x.2].

Definition rendered (out : list (bool * list Z)) : list Z := concat (out_lines out).

(** The frame that is open after the given lines. *)
Definition open_frame (ls : list (list Z)) : list (list Z) :=
  fold_left (fun frame l => if is_blank l then [] else frame ++ [l]) ls [].

#[local] Arguments MaxSSEEventBytes : simpl never.
#[local] Arguments Z.ltb : simpl never.
#[local] Arguments zlen : simpl never.
#[local] Arguments is_event : simpl never.
#[local] Arguments event_complete : simpl never.
#[local] Arguments is_blank : simpl never.

(** ** Reading a line *)

Lemma bufferSize_pos : (0 < bufferSize)%nat.
Proof. unfold bufferSize. lia. Qed.

Lemma scan_newline_spec n l p stop rest :
  scan_newline n l = (p, stop, rest) ->
  l = p ++ rest /\
  match stop with
  | StopFound => exists q, no_newline q /\ p = q ++ [10]
  | StopFull => no_newline p /\ length p = n
  | StopEnd => no_newline p /\ rest = []
  end.
Proof.
  revert l p stop rest. induction n as [|n IH]; intros l p stop rest E; simpl in E.
  { simplify_eq. split; [done|]. by split; [constructor|]. }
  destruct l as [|b l]; [simplify_eq; split; [done|]; by split; [constructor|]|].
  destruct (b =? 10) eqn:Eb.
  { simplify_eq. split; [done|]. exists []. split; [constructor|]. apply Z.eqb_eq in Eb. by subst. }
  destruct (scan_newline n l) as [[q s] r] eqn:Es. simplify_eq.
  destruct (IH _ _ _ _ Es) as [-> Hs]. split; [done|]. apply Z.eqb_neq in Eb. destruct stop; simpl.
  - destruct Hs as (q' & Hq & ->). exists (b :: q'). split; [by constructor|done].
  - destruct Hs as [Hq <-]. split; [by constructor|done].
  - destruct Hs as [Hq ->]. split; [by constructor|done].
Qed.

(** What reading a line gives, in terms of the lines still to come. *)
Definition line_read (ls : list (list Z)) (e : read_error) (res : list Z * option read_error * bufio_Reader) : Prop :=
  match ls with
  | [] => res = ([], Some e, mkBufio [] e)
  | l :: ls' =>
      if MaxSSEEventBytes <? zlen l then res.1 = ([], Some ErrSSEEventTooLarge)
      else exists err rest, res = (l, err, mkBufio rest e) /\ lines_of rest = ls'
             /\ (err = None \/ err = Some e /\ rest = [])
  end.

Lemma zlen_app {A} (l k : list A) : zlen (l ++ k) = zlen l + zlen k.
Proof. unfold zlen. rewrite length_app. lia. Qed.

Lemma zlen_nonneg {A} (l : list A) : 0 <= zlen l.
Proof. unfold zlen. lia. Qed.

(** A newline-free start belongs to the first line. *)
Lemma lines_of_start p s x xs : no_newline p -> lines_of s = x :: xs -> lines_of (p ++ s) = (p ++ x) :: xs.
Proof.
  intros Hp E. induction Hp as [|b p Hb _ IH]; [done|]. simpl.
  by rewrite (proj2 (Z.eqb_neq b 10) Hb), IH.
Qed.

Lemma line_longer p s l ls : no_newline p -> lines_of (p ++ s) = l :: ls -> zlen p <= zlen l.
Proof.
  intros Hp E. destruct (lines_of s) as [|x xs] eqn:Es.
  - apply lines_of_nil in Es as ->. rewrite app_nil_r in E.
    destruct p; [apply zlen_nonneg|]. rewrite lines_of_last in E by done. by simplify_eq.
  - rewrite (lines_of_start _ _ _ _ Hp Es) in E. simplify_eq. rewrite zlen_app. pose proof (zlen_nonneg x). lia.
Qed.

Lemma read_parts_spec fuel line r :
  no_newline line -> (length (br_rest r) < fuel)%nat ->
  line_read (lines_of (line ++ br_rest r)) (br_err r) (read_parts fuel line r).
Proof.
  revert line r. induction fuel as [|fuel IH]; intros line [s e] Hl Hf; simpl in Hf; [lia|].
  cbn [read_parts]. unfold ReadSlice. cbn [br_rest br_err].
  destruct (scan_newline bufferSize s) as [[p stop] rest] eqn:Es.
  apply scan_newline_spec in Es as [-> Hs]. rewrite <- zlen_app. destruct stop.
  - destruct Hs as (q & Hq & ->). rewrite <- app_assoc. cbn [app].
    rewrite (app_assoc line q). rewrite lines_of_line by by apply Forall_app.
    rewrite (app_assoc line q [10]). unfold line_read. case_match; [done|]. eauto 10.
  - destruct Hs as [Hp Hn]. rewrite (app_assoc line p).
    destruct (MaxSSEEventBytes <? zlen (line ++ p)) eqn:Eb.
    + destruct (lines_of ((line ++ p) ++ rest)) as [|l ls] eqn:El.
      * apply lines_of_nil, app_eq_nil in El as [E _]. apply (f_equal length) in E.
        rewrite length_app in E. pose proof bufferSize_pos. simpl in E. lia.
      * apply line_longer in El; [|by apply Forall_app]. unfold line_read. case_match; [done|lia].
    + apply (IH (line ++ p) (mkBufio rest e)); [by apply Forall_app|].
      rewrite length_app in Hf. pose proof bufferSize_pos. simpl. lia.
  - destruct Hs as [Hp ->]. rewrite app_nil_r. destruct (line ++ p) as [|b l] eqn:E; [done|].
    rewrite lines_of_last; [|rewrite <- E; by apply Forall_app|done].
    unfold line_read. case_match; [done|]. eauto 10.
Qed.

Lemma readLine_spec r : line_read (lines_of (br_rest r)) (br_err r) (readLine r).
Proof. apply (read_parts_spec _ [] r); [constructor|lia]. Qed.

(** ** The state of the current event *)

Lemma join_lines_snoc vs v :
  join_lines (vs ++ [v]) = match vs with [] => v | _ => join_lines vs ++ [10] ++ v end.
Proof.
  induction vs as [|w vs IH]; [done|]. destruct vs as [|u vs]; [done|].
  cbn [app join_lines] in *. rewrite IH. by rewrite <- !app_assoc.
Qed.

(** The reader's data lacks the line feeds after empty leading values. *)
Definition data_tracks (d : list Z) (vs : list (list Z)) : Prop :=
  exists k, join_lines vs = replicate k 10 ++ d /\ (vs = [] -> d = []).

Lemma data_tracks_snoc d vs v :
  data_tracks d vs ->
  data_tracks ((if bool_decide (d = []) then d else d ++ [10]) ++ v) (vs ++ [v]).
Proof.
  intros (k & Hk & Hn). unfold data_tracks. rewrite join_lines_snoc. destruct vs as [|w vs].
  - rewrite (Hn eq_refl). exists 0%nat. split; [done|]. by destruct v.
  - rewrite Hk. case_bool_decide as Ed.
    + subst d. exists (S k). split; [|by destruct vs].
      rewrite app_nil_r, replicate_S_end. by rewrite <- app_assoc.
    + exists k. split; [by rewrite <- !app_assoc|by destruct vs].
Qed.

Lemma complete_tracks d vs : data_tracks d vs -> completeSSEObject d = completeSSEObject (join_lines vs).
Proof.
  intros (k & -> & _). unfold completeSSEObject. induction k as [|k IH]; [done|]. rewrite IH. done.
Qed.

(** The fields of the reader that describe the frame read so far. *)
Record tracks (r : SSEReader) (frame : list (list Z)) : Prop := {
  tr_data : data_tracks (sr_data r) (omap data_value frame);
  tr_name : sr_eventName r = event_name frame;
  tr_bytes : sr_eventBytes r = zlen (concat frame)
}.

Lemma tracks_nil r : sr_data r = [] -> sr_eventName r = "" -> sr_eventBytes r = 0 -> tracks r [].
Proof. intros Hd Hn Hb. split; [|done|done]. exists 0%nat. by rewrite Hd. Qed.

Lemma event_name_snoc frame line : event_name (frame ++ [line]) = set_name (event_name frame) line.
Proof. unfold event_name. by rewrite fold_left_app. Qed.

(** Taking in a line that does not end the frame. *)
Lemma tracks_snoc d name n frame line r :
  data_tracks d (omap data_value frame) -> name = event_name frame -> n = zlen (concat frame) ->
  sr_data r = (match data_value line with
               | Some v => (if bool_decide (d = []) then d else d ++ [10]) ++ v
               | None => d
               end) ->
  sr_eventName r = set_name name line -> sr_eventBytes r = n + zlen line ->
  tracks r (frame ++ [line]).
Proof.
  intros Hd -> -> Ed En Eb. split.
  - rewrite Ed, omap_app. simpl. destruct (data_value line) as [v|]; simpl.
    + by apply data_tracks_snoc.
    + by rewrite app_nil_r.
  - by rewrite event_name_snoc.
  - rewrite concat_app, zlen_app. simpl. by rewrite app_nil_r.
Qed.

Lemma take_line_spec line r frame :
  tracks r frame ->
  let glued := is_event line && event_complete frame in
  let frame' := (if glued then [] else frame) ++ [line] in
  match take_line line r with
  | Err r' => MaxSSEEventBytes < zlen (concat frame') /\ sr_err r' = Some ErrSSEEventTooLarge
  | Ok r' => zlen (concat frame') <= MaxSSEEventBytes
      /\ tracks r' (if is_blank line then [] else frame')
      /\ sr_pending r' = (if glued then 10 :: line else line)
      /\ sr_reader r' = sr_reader r /\ sr_err r' = sr_err r
  end.
Proof.
  intros [Hd Hn Hb] glued frame'.
  assert (Eg : has_prefix (line_field line) (bytes "event:") && negb (String.eqb (sr_eventName r) "")
                 && completeSSEObject (sr_data r) = glued).
  { unfold glued, event_complete, is_event. rewrite Hn, (complete_tracks _ _ Hd). by rewrite andb_assoc. }
  unfold take_line. rewrite Eg.
  assert (exists d name n, (if glued then ([], "", 0) else (sr_data r, sr_eventName r, sr_eventBytes r)) = (d, name, n)
            /\ let f := if glued then [] else frame in
               data_tracks d (omap data_value f) /\ name = event_name f /\ n = zlen (concat f)) as (d & name & n & -> & Hd' & Hn' & Hb').
  { destruct glued; [|by eauto 10]. exists [], "", 0. split; [done|]. split; [|done]. by exists 0%nat. }
  assert (Ez : zlen (concat frame') = n + zlen line).
  { unfold frame'. rewrite concat_app, zlen_app, Hb'. simpl. by rewrite app_nil_r. }
  destruct (MaxSSEEventBytes <? n + zlen line) eqn:El; [split; [lia|done]|].
  unfold is_blank. case_bool_decide as Ef; cbn [sr_pending sr_reader sr_err].
  - rewrite Ef. simpl. split; [lia|]. split_and!; try done. by apply tracks_nil.
  - destruct (has_prefix (line_field line) (bytes "event:")) eqn:Ee; cbn [sr_pending sr_reader sr_err];
      (split; [lia|]); (split_and!; try done); eapply tracks_snoc; eauto;
      unfold data_value, set_name, is_event; rewrite ?Ee; cbn [sr_data sr_eventName sr_eventBytes];
      by destruct (has_prefix (line_field line) (bytes "data:")).
Qed.

(** ** Delivery *)

(** What the reader will still deliver, and the error after it. *)
Definition to_come (r : SSEReader) (frame : list (list Z)) : list Z * read_error :=
  match sr_err r with
  | Some e => (sr_pending r, e)
  | None => let '(out, fin) := reframe frame (lines_of (br_rest (sr_reader r))) (br_err (sr_reader r)) in
            (sr_pending r ++ rendered out, fin)
  end.

Lemma rendered_cons glued line out :
  rendered ((glued, line) :: out) = (if glued then 10 :: line else line) ++ rendered out.
Proof. unfold rendered, out_lines. simpl. by destruct glued; simpl; rewrite ?concat_app. Qed.

Lemma deliver_spec n r frame :
  (0 < n)%nat -> sr_pending r <> [] -> tracks r frame ->
  let '(out, err, r') := deliver n r in
  err = None /\ out <> [] /\ tracks r' frame /\ sr_reader r' = sr_reader r
  /\ to_come r frame = (out ++ (to_come r' frame).1, (to_come r' frame).2).
Proof.
  intros Hn Hp [Hd Hna Hb]. unfold deliver. split_and!; try done.
  - destruct n; [lia|]. by destruct (sr_pending r).
  - unfold to_come. simpl. destruct (sr_err r); simpl; [by rewrite take_drop|].
    destruct (reframe _ _ _). simpl. by rewrite app_assoc, take_drop.
Qed.

(** Taking in a line of the stream and delivering its first bytes. *)
Lemma take_line_deliver n line err rest r frame :
  (0 < n)%nat -> line <> [] -> tracks r frame -> sr_pending r = [] -> sr_err r = err ->
  br_rest (sr_reader r) = rest ->
  err = None \/ err = Some (br_err (sr_reader r)) /\ rest = [] ->
  let '(out, fin) := reframe frame (line :: lines_of rest) (br_err (sr_reader r)) in
  match take_line line r with
  | Err r' => sr_err r' = Some fin /\ out = []
  | Ok r' => let '(got, err', r'') := deliver n r' in
      err' = None /\ got <> [] /\ br_err (sr_reader r'') = br_err (sr_reader r)
      /\ exists frame', tracks r'' frame'
           /\ (rendered out, fin) = (got ++ (to_come r'' frame').1, (to_come r'' frame').2)
  end.
Proof.
  intros Hn Hl T Ep Ee Er He. pose proof (take_line_spec line r frame T) as S.
  cbv zeta in S. cbn [reframe]. revert S.
  set (glued := is_event line && event_complete frame).
  set (frame' := (if glued then [] else frame) ++ [line]). intros S.
  destruct (take_line line r) as [r'|r'].
  - destruct S as (Hz & T' & Ep' & Er' & Ee'). rewrite (proj2 (Z.ltb_ge _ _) Hz).
    destruct (reframe _ (lines_of rest) _) as [out fin] eqn:Ef.
    pose proof (deliver_spec n r' _ Hn ltac:(by rewrite Ep'; destruct glued, line) T') as D.
    destruct (deliver n r') as [[got err'] r'']. destruct D as (-> & Hg & T'' & Er'' & Et).
    split_and!; [done|done|by rewrite Er'', Er'|]. eexists. split; [exact T''|].
    rewrite <- Et, rendered_cons. unfold to_come. rewrite Ee', Ep', Ee, Er', Er.
    destruct He as [->|[-> ->]]; [by rewrite Ef|]. simpl in Ef. simplify_eq. by rewrite app_nil_r.
  - destruct S as [Hz S]. rewrite (proj2 (Z.ltb_lt _ _) Hz). done.
Qed.

(** One call: either the announced error with nothing left, or some bytes. *)
Lemma Read_spec n r frame :
  (0 < n)%nat -> br_err (sr_reader r) <> ErrSSEEventTooLarge -> tracks r frame ->
  let '(out, err, r') := Read n r in
  match err with
  | Some e => out = [] /\ to_come r frame = ([], e)
  | None => out <> [] /\ br_err (sr_reader r') = br_err (sr_reader r)
      /\ exists frame', tracks r' frame' /\ to_come r frame = (out ++ (to_come r' frame').1, (to_come r' frame').2)
  end.
Proof.
  intros Hn He T. destruct n as [|n]; [lia|]. unfold Read.
  destruct (sr_pending r) as [|b p] eqn:Ep; cycle 1.
  { pose proof (deliver_spec (S n) r frame Hn ltac:(by rewrite Ep) T) as D.
    destruct (deliver (S n) r) as [[out err] r']. destruct D as (-> & Ho & T' & -> & Et). eauto 10. }
  destruct (sr_err r) as [e|] eqn:Ee.
  { split; [done|]. unfold to_come. by rewrite Ee, Ep. }
  pose proof (readLine_spec (sr_reader r)) as L.
  assert (Etc : to_come r frame = let '(out, fin) := reframe frame (lines_of (br_rest (sr_reader r))) (br_err (sr_reader r)) in
                                  (rendered out, fin)) by (unfold to_come; by rewrite Ee, Ep).
  rewrite Etc. clear Etc. destruct (readLine (sr_reader r)) as [[line err] br].
  pose proof (lines_of_ok (br_rest (sr_reader r))) as Hok.
  destruct (lines_of (br_rest (sr_reader r))) as [|l ls]; unfold line_read in L.
  { simplify_eq. rewrite bool_decide_eq_false_2 by congruence. done. }
  destruct (MaxSSEEventBytes <? zlen l) eqn:El.
  { simpl in L. simplify_eq. rewrite bool_decide_eq_true_2 by done. split; [done|]. cbn [reframe].
    rewrite concat_app, zlen_app. simpl. rewrite app_nil_r.
    match goal with |- context [zlen (concat ?f)] => pose proof (zlen_nonneg (concat f)) end.
    by rewrite (proj2 (Z.ltb_lt _ _)) by lia. }
  destruct L as (err' & rest & E & <- & Herr). simplify_eq.
  assert (Hl : l <> []) by (destruct Hok as [[(p & _ & ->) _]|(_ & ? & _)]; [by destruct p|done]).
  rewrite bool_decide_eq_false_2 by (destruct Herr as [->|[-> _]]; congruence).
  pose proof (take_line_deliver (S n) l err' rest
    (mkSSEReader (mkBufio rest (br_err (sr_reader r))) [] err' (sr_data r) (sr_eventName r) (sr_eventBytes r)) frame
    Hn Hl ltac:(by destruct T) eq_refl eq_refl eq_refl Herr) as D.
  destruct l as [|b l]; [done|]. cbn [sr_reader br_err] in D.
  destruct (reframe _ _ _) as [out fin]. destruct (take_line _ _) as [r'|r'].
  - destruct (deliver (S n) r') as [[got err''] r'']. by destruct D as (-> & D).
  - by destruct D as [-> ->].
Qed.

(** Reading with any buffers, from any state. *)
Lemma read_all_spec sizes r frame :
  br_err (sr_reader r) <> ErrSSEEventTooLarge -> tracks r frame ->
  match read_all sizes r with
  | (got, Some er, _) => to_come r frame = (got, er)
  | (got, None, _) => got `prefix_of` (to_come r frame).1
      /\ (length (filter (fun n => 0 < n)%nat sizes) <= length got)%nat
  end.
Proof.
  revert r frame. induction sizes as [|n sizes IH]; intros r frame He T; simpl.
  { split; [apply prefix_nil|done]. }
  destruct n as [|n].
  { rewrite filter_cons_False by lia. simpl. specialize (IH r frame He T). by destruct (read_all sizes r) as [[got [er|]] r']. }
  rewrite filter_cons_True by lia.
  pose proof (Read_spec (S n) r frame ltac:(lia) He T) as R.
  destruct (Read (S n) r) as [[out [e|]] r']; [by destruct R as [-> ->]|].
  destruct R as (Ho & Hb & frame' & T' & ->). specialize (IH r' frame' ltac:(by rewrite Hb) T').
  destruct (read_all sizes r') as [[got [er|]] r'']; [by rewrite IH|]. destruct IH as [Hp Hlen]. split.
  - simpl. by apply prefix_app.
  - rewrite length_app. destruct out; [done|]. simpl. lia.
Qed.

(** ** What the specification delivers *)

(** The frame that is open after more lines. *)
Definition next_frame (frame : list (list Z)) (l : list Z) : list (list Z) := if is_blank l then [] else frame ++ [l].

Lemma reframe_lines ls e frame :
  lines_ok ls ->
  let '(out, fin) := reframe frame ls e in
  out.*2 `prefix_of` ls /\ lines_ok (out_lines out)
  /\ (fin <> ErrSSEEventTooLarge -> out.*2 = ls /\ fin = e).
Proof.
  revert frame. induction ls as [|line ls IH]; intros frame Hls; cbn [reframe].
  { split_and!; [apply prefix_nil|done|done]. }
  destruct (_ <? _); [split_and!; [apply prefix_nil|done|done]|].
  assert (Hls' : lines_ok ls) by by destruct Hls as [[_ ?]|(-> & _)].
  set (g := is_event line && event_complete frame).
  specialize (IH (if is_blank line then [] else (if g then [] else frame) ++ [line]) Hls').
  destruct (reframe _ ls e) as [out fin]. destruct IH as (Hp & Hok & Hfin). split_and!.
  - simpl. by apply prefix_cons.
  - assert (Hl : lines_ok (line :: out_lines out)).
    { destruct Hls as [[Hl _]|(-> & Hl)]; [by left|]. apply prefix_nil_inv in Hp. destruct out; [by right|done]. }
    unfold out_lines. simpl. fold (out_lines out). destruct g; [|exact Hl].
    left. split; [|exact Hl]. exists []. split; [constructor|done].
  - intros Hf. destruct (Hfin Hf) as [<- ->]. done.
Qed.

(** The blank line is put exactly before an event field inside a complete event. *)
Lemma reframe_glued ls e frame o1 g l o2 :
  (reframe frame ls e).1 = o1 ++ (g, l) :: o2 ->
  g = is_event l && event_complete (fold_left next_frame (out_lines o1) frame).
Proof.
  revert frame o1. induction ls as [|line ls IH]; intros frame o1; cbn [reframe fst]; [by destruct o1|].
  destruct (_ <? _); [by destruct o1|].
  set (g' := is_event line && event_complete frame). intros E.
  destruct (reframe _ ls e) as [out fin] eqn:Er. simpl in E. destruct o1 as [|[g1 l1] o1]; simplify_eq/=; [done|].
  eapply (f_equal fst) in Er. apply IH in Er. rewrite Er at 1. unfold out_lines. simpl. rewrite fold_left_app.
  by destruct (is_event l1 && event_complete frame).
Qed.

(** No line of the output starts an event inside a complete one. *)
Lemma reframe_separated ls e frame pre l post :
  out_lines (reframe frame ls e).1 = pre ++ l :: post -> is_event l = true ->
  event_complete (fold_left next_frame pre frame) = false.
Proof.
  revert frame pre. induction ls as [|line ls IH]; intros frame pre; cbn [reframe fst out_lines]; [by destruct pre|].
  destruct (_ <? _); [by destruct pre|].
  set (g := is_event line && event_complete frame).
  specialize (IH (if is_blank line then [] else (if g then [] else frame) ++ [line])).
  destruct (reframe _ ls e) as [out fin]. unfold out_lines. simpl. fold (out_lines out).
  destruct g eqn:Eg; simpl in *.
  - intros E He. destruct pre as [|p1 pre]; [by simplify_eq/=|]. simplify_eq/=.
    destruct pre as [|p2 pre]; [done|]. simplify_eq/=. by apply IH.
  - intros E He. destruct pre as [|p1 pre]; simplify_eq/=; [by rewrite He in Eg|]. by apply IH.
Qed.

(** A new reader delivers the reframed stream. *)
Lemma read_all_new s e sizes :
  e <> ErrSSEEventTooLarge ->
  match read_all sizes (NewSSEReader (mkBufio s e)) with
  | (got, Some er, _) => reframe [] (lines_of s) e = ((reframe [] (lines_of s) e).1, er) /\ got = rendered (reframe [] (lines_of s) e).1
  | (got, None, _) => got `prefix_of` rendered (reframe [] (lines_of s) e).1
      /\ (length (filter (fun n => 0 < n)%nat sizes) <= length got)%nat
  end.
Proof.
  intros He. pose proof (read_all_spec sizes (NewSSEReader (mkBufio s e)) [] He
    (tracks_nil (NewSSEReader (mkBufio s e)) eq_refl eq_refl eq_refl)) as R.
  unfold to_come in R. cbn [sr_err NewSSEReader sr_reader br_rest br_err sr_pending app] in R.
  destruct (reframe [] (lines_of s) e) as [out fin]. by destruct (read_all sizes _) as [[got [er|]] r']; simplify_eq/=.
Qed.

(** ** Theorems *)

(** C11: The reader refines its specification on every stream and for every
    sequence of buffer sizes.  What has been delivered is always a prefix of the
    reframed stream; every call with room makes progress, so that after finitely
    many calls the reader reports an error, and then exactly the reframed stream
    has been delivered and the error is the one of the stream, or the one of an
    event over 16 MiB. *)
Theorem sse_reader_refines s e sizes :
  e <> ErrSSEEventTooLarge ->
  let '(out, fin) := reframe [] (lines_of s) e in
  match read_all sizes (NewSSEReader (mkBufio s e)) with
  | (got, Some er, _) => got = rendered out /\ er = fin
  | (got, None, _) => got `prefix_of` rendered out
      /\ (length (filter (fun n => 0 < n)%nat sizes) <= length got)%nat
  end.
Proof.
  intros He. pose proof (read_all_new s e sizes He) as R. destruct (reframe [] (lines_of s) e) as [out fin].
  destruct (read_all sizes _) as [[got [er|]] r']; simpl in R; [|done]. by destruct R as [R ->]; simplify_eq.
Qed.

Definition glued_events : list Z :=
  bytes "event: a" ++ [10] ++ bytes "data: {}" ++ [10] ++ bytes "event: b" ++ [10] ++ bytes "data: [" ++ [10].

Definition separated_events : list Z :=
  bytes "event: a" ++ [10] ++ bytes "data: {}" ++ [10; 10] ++ bytes "event: b" ++ [10] ++ bytes "data: [" ++ [10].

Lemma sse_reader_refines_witness :
  (read_all (replicate 12 5%nat) (NewSSEReader (mkBufio glued_events EOF))).1 = (separated_events, Some EOF)
  /\ let '(out, fin) := reframe [] (lines_of glued_events) EOF in
     match read_all [3%nat; 0%nat; 7%nat] (NewSSEReader (mkBufio glued_events EOF)) with
     | (got, Some er, _) => got = rendered out /\ er = fin
     | (got, None, _) => got `prefix_of` rendered out
         /\ (length (filter (fun n => 0 < n)%nat [3%nat; 0%nat; 7%nat]) <= length got)%nat
     end.
Proof.
  split; [by vm_compute|]. exact (sse_reader_refines glued_events EOF [3%nat; 0%nat; 7%nat] ltac:(discriminate)).
Defined.

(** What a consumer receives when the stream has ended: the lines of the
    stream in order, all of them unless an event is over the limit, with a blank
    line added exactly before an event field that comes inside an event which is
    complete already (a name and one JSON object as data), so that in the output
    no event field follows a complete event in the same frame. *)
Theorem sse_repair_separates s e sizes got er r :
  e <> ErrSSEEventTooLarge ->
  read_all sizes (NewSSEReader (mkBufio s e)) = (got, Some er, r) ->
  (exists out, got = rendered out /\ concat (out.*2) `prefix_of` s
     /\ (er <> ErrSSEEventTooLarge -> concat (out.*2) = s /\ er = e)
     /\ forall o1 g l o2, out = o1 ++ (g, l) :: o2 ->
          g = is_event l && event_complete (open_frame (out_lines o1)))
  /\ forall pre l post, lines_of got = pre ++ l :: post -> is_event l = true -> event_complete (open_frame pre) = false.
Proof.
  intros He E.
  pose proof (read_all_new s e sizes He) as R. rewrite E in R.
  pose proof (reframe_lines (lines_of s) e [] (lines_of_ok s)) as L.
  pose proof (reframe_glued (lines_of s) e []) as G. pose proof (reframe_separated (lines_of s) e []) as S.
  destruct (reframe [] (lines_of s) e) as [out fin]. simplify_eq/=. destruct R as [R ->]. simplify_eq. destruct L as ([k Hk] & Hok & Hfin). split.
  - exists out. split_and!; [done| |intros Hf; destruct (Hfin Hf) as [-> ->]; by rewrite lines_of_concat|exact G].
    exists (concat k). by rewrite <- concat_app, <- Hk, lines_of_concat.
  - unfold rendered. rewrite lines_ok_concat by done. apply S.
Qed.

Lemma sse_repair_separates_witness :
  let run := read_all (replicate 12 5%nat) (NewSSEReader (mkBufio glued_events EOF)) in
  run = (separated_events, Some EOF, run.2)
  /\ forall pre l post, lines_of separated_events = pre ++ l :: post -> is_event l = true ->
       event_complete (open_frame pre) = false.
Proof.
  intros run. assert (E : run = (separated_events, Some EOF, run.2)) by (vm_compute; reflexivity).
  split; [exact E|]. exact (proj2 (sse_repair_separates _ EOF _ _ _ _ ltac:(discriminate) E)).
Defined.
