(* ===== verification/Collector.v ===== *)
(** * Forwarding an upstream event stream (handler/gateway.go, event_diagnostics.go)

    [streamCollector] parses the bytes it is fed into events, validates them,
    measures the first token and holds the response back until it may be
    committed; [copySSE] drives it and writes to the client.  The struct's fields
    are kept in groups; the calls it makes to its callbacks are recorded.  The
    first-token watch may fire between any two steps of the loop. *)

From S2P Require Import Prelude GoFloat GoString Json JsonDecode Settings Domain Upstream Sse.

(** ** State *)

(** Calls to [onProgress], [onCompaction] and [onFirstOutput]. *)
Inductive callback : Type :=
| OnProgress (ttft dur : Z) (usage : TokenUsage)
| OnCompaction
| OnFirstOutput.

Record eventDiagnostics := mkEvents {
  ed_Counts : gmap string Z;
  ed_FirstMs : Z;
  ed_LastMs : Z;
  ed_Terminal : string;
  ed_Oversized : Z
}.

(** buf, lineScanOffset, eventName, eventData, eventBytes, eventOversized *)
Record lineState := mkLines {
  ls_buf : list Z;
  ls_lineScanOffset : nat;
  ls_eventName : string;
  ls_eventData : list string;
  ls_eventBytes : Z;
  ls_eventOversized : bool
}.

(** start, attemptStart, firstAt, ttftMs, firstEventMs, firstEvent *)
Record timing := mkTiming {
  tm_start : time;
  tm_attemptStart : time;
  tm_firstAt : time;
  tm_ttftMs : Z;
  tm_firstEventMs : Z;
  tm_firstEvent : string
}.

(** prefix, total, usage *)
Record capture := mkCapture { cp_prefix : list Z; cp_total : Z; cp_usage : TokenUsage }.

(** holdPending, holdReleased, holdDead *)
Record holdState := mkHold { hd_pending : list Z; hd_released : bool; hd_dead : bool }.

(** strict, protocolPath, sawValid, chatFinished, responseID and terminalErr are
    the fields of the validator, as [validateEvent] copies them in and out. *)
Record streamCollector := mkCollector {
  sc_validator : StreamValidator;
  sc_lines : lineState;
  sc_timing : timing;
  sc_events : eventDiagnostics;
  sc_capture : capture;
  sc_hold : holdState;
  sc_compaction : bool;
  sc_committable : bool;
  sc_holdUntilToken : bool;
  sc_sawBytes : bool;
  sc_terminal : bool;
  sc_onFirstOutput : bool;
  sc_calls : list callback
}.

Definition set_lines (l : lineState) (c : streamCollector) : streamCollector :=
  mkCollector (sc_validator c) l (sc_timing c) (sc_events c) (sc_capture c) (sc_hold c) (sc_compaction c)
    (sc_committable c) (sc_holdUntilToken c) (sc_sawBytes c) (sc_terminal c) (sc_onFirstOutput c) (sc_calls c).
Definition set_timing (t : timing) (c : streamCollector) : streamCollector :=
  mkCollector (sc_validator c) (sc_lines c) t (sc_events c) (sc_capture c) (sc_hold c) (sc_compaction c)
    (sc_committable c) (sc_holdUntilToken c) (sc_sawBytes c) (sc_terminal c) (sc_onFirstOutput c) (sc_calls c).
Definition set_events (e : eventDiagnostics) (c : streamCollector) : streamCollector :=
  mkCollector (sc_validator c) (sc_lines c) (sc_timing c) e (sc_capture c) (sc_hold c) (sc_compaction c)
    (sc_committable c) (sc_holdUntilToken c) (sc_sawBytes c) (sc_terminal c) (sc_onFirstOutput c) (sc_calls c).
Definition set_capture (p : capture) (c : streamCollector) : streamCollector :=
  mkCollector (sc_validator c) (sc_lines c) (sc_timing c) (sc_events c) p (sc_hold c) (sc_compaction c)
    (sc_committable c) (sc_holdUntilToken c) (sc_sawBytes c) (sc_terminal c) (sc_onFirstOutput c) (sc_calls c).
Definition set_hold (h : holdState) (c : streamCollector) : streamCollector :=
  mkCollector (sc_validator c) (sc_lines c) (sc_timing c) (sc_events c) (sc_capture c) h (sc_compaction c)
    (sc_committable c) (sc_holdUntilToken c) (sc_sawBytes c) (sc_terminal c) (sc_onFirstOutput c) (sc_calls c).
Definition set_validator (v : StreamValidator) (c : streamCollector) : streamCollector :=
  mkCollector v (sc_lines c) (sc_timing c) (sc_events c) (sc_capture c) (sc_hold c) (sc_compaction c)
    (sc_committable c) (sc_holdUntilToken c) (sc_sawBytes c) (sc_terminal c) (sc_onFirstOutput c) (sc_calls c).
Definition set_terminal (c : streamCollector) : streamCollector :=
  mkCollector (sc_validator c) (sc_lines c) (sc_timing c) (sc_events c) (sc_capture c) (sc_hold c) (sc_compaction c)
    (sc_committable c) (sc_holdUntilToken c) (sc_sawBytes c) true (sc_onFirstOutput c) (sc_calls c).
Definition set_compaction (c : streamCollector) : streamCollector :=
  mkCollector (sc_validator c) (sc_lines c) (sc_timing c) (sc_events c) (sc_capture c) (sc_hold c) true
    (sc_committable c) (sc_holdUntilToken c) (sc_sawBytes c) (sc_terminal c) (sc_onFirstOutput c) (sc_calls c).
Definition set_committable (c : streamCollector) : streamCollector :=
  mkCollector (sc_validator c) (sc_lines c) (sc_timing c) (sc_events c) (sc_capture c) (sc_hold c) (sc_compaction c)
    true (sc_holdUntilToken c) (sc_sawBytes c) (sc_terminal c) (sc_onFirstOutput c) (sc_calls c).
Definition set_sawBytes (c : streamCollector) : streamCollector :=
  mkCollector (sc_validator c) (sc_lines c) (sc_timing c) (sc_events c) (sc_capture c) (sc_hold c) (sc_compaction c)
    (sc_committable c) (sc_holdUntilToken c) true (sc_terminal c) (sc_onFirstOutput c) (sc_calls c).
Definition call (k : callback) (c : streamCollector) : streamCollector :=
  mkCollector (sc_validator c) (sc_lines c) (sc_timing c) (sc_events c) (sc_capture c) (sc_hold c) (sc_compaction c)
    (sc_committable c) (sc_holdUntilToken c) (sc_sawBytes c) (sc_terminal c) (sc_onFirstOutput c) (sc_calls c ++ [k]).

Definition sc_strict (c : streamCollector) : bool := sv_Strict (sc_validator c).
Definition sc_path (c : streamCollector) : string := sv_Path (sc_validator c).
Definition sc_terminalErr (c : streamCollector) : option stream_error := sv_Err (sc_validator c).
Definition set_terminalErr (e : stream_error) (c : streamCollector) : streamCollector :=
  set_validator (set_err e (sc_validator c)) c.

(** [d.Milliseconds()], truncated towards zero. *)
Definition ms_since (start now : time) : Z := Z.quot (now - start) Millisecond.

(** ** Timing and diagnostics *)

Definition emitProgress (now : time) (c : streamCollector) : streamCollector :=
  call (OnProgress (tm_ttftMs (sc_timing c)) (ms_since (tm_start (sc_timing c)) now) (cp_usage (sc_capture c))) c.

Definition markTTFT (now : time) (c : streamCollector) : streamCollector :=
  let t := sc_timing c in
  if 0 <? tm_ttftMs t then c
  else
    let ms := ms_since (tm_start t) now in
    let c := set_timing (mkTiming (tm_start t) (tm_attemptStart t) now (if ms <=? 0 then 1 else ms)
                                  (tm_firstEventMs t) (tm_firstEvent t)) c in
    let c := if sc_strict c && negb (String.eqb (tm_firstEvent t) "") && sc_onFirstOutput c
             then call OnFirstOutput c else c in
    emitProgress now c.

Definition noteBytes (n : Z) (now : time) (c : streamCollector) : streamCollector :=
  if (0 <? n) && (tm_ttftMs (sc_timing c) =? 0) then markTTFT now c else c.

Definition eventElapsed (now : time) (c : streamCollector) : Z :=
  let t := sc_timing c in
  ms_since (if IsZero (tm_attemptStart t) then tm_start t else tm_attemptStart t) now.

Definition terminal_names : list string :=
  ["response.completed"; "response.failed"; "response.incomplete"; "error"; "message_stop"; "done"].

Definition noteEvent (name data : string) (now : time) (c : streamCollector) : streamCollector :=
  if String.eqb name "" && String.eqb (TrimSpace data) "" then c
  else
    let e := sc_events c in
    let name := of_bytes (take 128 (bytes name)) in
    let name := if String.eqb name "" then "data" else name in
    let first := if bool_decide (ed_Counts e = ∅) then eventElapsed now c else ed_FirstMs e in
    let name := if negb (bool_decide (is_Some (ed_Counts e !! name))) && (64 <=? Z.of_nat (size (ed_Counts e)))
                then "other" else name in
    set_events (mkEvents (<[name := default 0 (ed_Counts e !! name) + 1]> (ed_Counts e)) first (eventElapsed now c)
                         (if one_of name terminal_names then name else ed_Terminal e) (ed_Oversized e)) c.

Definition ttftStatus (success : bool) (c : streamCollector) : string :=
  if 0 <? tm_ttftMs (sc_timing c) then "measured"
  else if 0 <? ed_Oversized (sc_events c) then "event_limit"
  else if success then "no_output" else "interrupted".

Definition upstreamTerminal (c : streamCollector) : bool :=
  one_of (ed_Terminal (sc_events c)) ["error"; "response.failed"; "response.incomplete"].

Definition atEventBoundary (c : streamCollector) : bool :=
  let l := sc_lines c in
  bool_decide (ls_buf l = []) && String.eqb (ls_eventName l) "" && bool_decide (ls_eventData l = []) && (ls_eventBytes l =? 0).

(** ** Events *)

Definition validateEvent (name data : string) (c : streamCollector) : streamCollector :=
  set_validator (Event name data (sc_validator c)) c.

(** The struct [finishEvent] decodes the data into: its type and its item's. *)
Definition event_types (data : list Z) : option (string * string) :=
  ms ← parse data ≫= struct_members;
  let '(typ, ok1) := string_field "type" ms in
  let '(item, ok2) := struct_field "item" ms in
  let '(item_typ, ok3) := string_field "type" item in
  if ok1 && ok2 && ok3 then Some (typ, item_typ) else None.

Section collector.
Context `{GoLib}.

Definition merge_usage (u : TokenUsage) (c : streamCollector) : streamCollector :=
  let p := sc_capture c in set_capture (mkCapture (cp_prefix p) (cp_total p) (MergeUsage (cp_usage p) u)) c.

Definition note_oversized (c : streamCollector) : streamCollector :=
  let e := sc_events c in
  set_events (mkEvents (ed_Counts e) (ed_FirstMs e) (ed_LastMs e) (ed_Terminal e) (ed_Oversized e + 1)) c.

Definition note_first_event (now : time) (c : streamCollector) : streamCollector :=
  let t := sc_timing c in
  if tm_firstEventMs t =? 0
  then set_timing (mkTiming (tm_start t) (tm_attemptStart t) (tm_firstAt t) (tm_ttftMs t)
                            (Z.max 1 (ms_since (tm_start t) now)) (tm_firstEvent t)) c
  else c.

(** The first generated text: its event's name is recorded before the time. *)
Definition note_text (name : string) (data : list Z) (now : time) (c : streamCollector) : streamCollector :=
  let t := sc_timing c in
  if SSEEventHasText name data && (tm_ttftMs t =? 0) then
    markTTFT now (set_timing (mkTiming (tm_start t) (tm_attemptStart t) (tm_firstAt t) (tm_ttftMs t) (tm_firstEventMs t)
                                       (if String.eqb name "" then "data" else name)) c)
  else c.

(** What follows the validation of an event with data. *)
Definition dispatch_event (name data : string) (types : option (string * string)) (now : time) (c : streamCollector)
    : streamCollector :=
  let responses := String.eqb (sc_path c) "/v1/responses" in
  let compacting := match types with
                    | Some (_, item) => String.eqb name "response.compaction.compacting"
                                        || String.eqb name "response.output_item.added" && String.eqb item "compaction"
                    | None => false
                    end in
  let c := if responses && (tm_ttftMs (sc_timing c) =? 0) && negb (sc_compaction c) && compacting
           then call OnCompaction (set_compaction c) else c in
  if responses && IsResponsesMetadataEvent name then c
  else
    let c := note_text name (bytes data) now c in
    let c := if one_of name ["message_stop"; "response.completed"] then set_terminal c
             else if one_of name ["error"; "response.failed"; "response.incomplete"]
             then set_terminalErr (ErrUpstream (Summary (ParseError (bytes data)) ("upstream stream ended: " +:+ name)))
                                  (set_terminal c)
             else c in
    if sc_strict c && responses && bool_decide (sc_terminalErr c = None) && HasPrefix name "response."
    then set_committable c else c.

(** [finishEvent] without the reset it defers. *)
Definition finish_event (now : time) (c : streamCollector) : streamCollector :=
  let l := sc_lines c in
  if ls_eventOversized l then set_terminalErr ErrEventTooLarge (set_terminal (note_oversized c))
  else
    let data := String.concat (of_bytes [10]) (ls_eventData l) in
    let name := ls_eventName l in
    if String.eqb (TrimSpace data) "" then c
    else if String.eqb (TrimSpace data) "[DONE]" then
      set_terminal (validateEvent name (TrimSpace data) (noteEvent "done" data now c))
    else
      let c := note_first_event now c in
      let c := merge_usage (ParseSSEUsageLine ("data: " +:+ data)) c in
      let types := event_types (bytes data) in
      let name := match types with Some (typ, _) => if String.eqb typ "" then name else typ | None => name end in
      let c := validateEvent name data (noteEvent name data now c) in
      if bool_decide (is_Some (sc_terminalErr c)) then set_terminal c
      else dispatch_event name data types now c.

Definition finishEvent (now : time) (c : streamCollector) : streamCollector :=
  let c := finish_event now c in
  set_lines (mkLines (ls_buf (sc_lines c)) (ls_lineScanOffset (sc_lines c)) "" [] 0 false) c.

(** ** Lines *)

Definition maxLogBodyBytes : Z := Z.shiftl 64 10.

Fixpoint find_newline (l : list Z) : option nat :=
  match l with
  | [] => None
  | b :: l' => if b =? 10 then Some O else S <$> find_newline l'
  end.

(** A line that is not blank. *)
Definition take_field (line : string) (c : streamCollector) : streamCollector :=
  let l := sc_lines c in
  if HasPrefix line "event:" then
    set_lines (mkLines (ls_buf l) (ls_lineScanOffset l) (TrimSpace (TrimPrefix line "event:"))
                       (ls_eventData l) (ls_eventBytes l) (ls_eventOversized l)) c
  else if HasPrefix line "data:" then
    let n := ls_eventBytes l + zlen (bytes line) in
    let over := ls_eventOversized l || (MaxSSEEventBytes <? n) in
    let data := if MaxSSEEventBytes <? n then [] else ls_eventData l in
    let data := if over then data else data ++ [TrimPrefix (TrimPrefix line "data:") " "] in
    set_lines (mkLines (ls_buf l) (ls_lineScanOffset l) (ls_eventName l) data n over) c
  else c.

(** The loop of [feed]: the collector and how many bytes of the buffer were
    dropped after a terminal event.  Every round takes a line off the buffer. *)
Fixpoint feed_lines (fuel : nat) (now : time) (c : streamCollector) : streamCollector * nat :=
  match fuel with
  | O => (c, O)
  | S fuel' =>
      let l := sc_lines c in
      match find_newline (drop (ls_lineScanOffset l) (ls_buf l)) with
      | None =>
          let l := if MaxSSEEventBytes <? zlen (ls_buf l)
                   then mkLines (drop (length (ls_buf l) - 64) (ls_buf l)) (ls_lineScanOffset l) (ls_eventName l) []
                                (ls_eventBytes l) true
                   else l in
          (set_lines (mkLines (ls_buf l) (length (ls_buf l)) (ls_eventName l) (ls_eventData l) (ls_eventBytes l)
                              (ls_eventOversized l)) c, O)
      | Some i =>
          let i := (i + ls_lineScanOffset l)%nat in
          let line := of_bytes (trim_suffix (take i (ls_buf l)) [13]) in
          let c := set_lines (mkLines (drop (S i) (ls_buf l)) O (ls_eventName l) (ls_eventData l) (ls_eventBytes l)
                                      (ls_eventOversized l)) c in
          let blank := String.eqb line "" in
          let c := if blank then finishEvent now c else take_field line c in
          if blank && sc_terminal c then
            let l := sc_lines c in
            (set_lines (mkLines [] (ls_lineScanOffset l) (ls_eventName l) (ls_eventData l) (ls_eventBytes l)
                                (ls_eventOversized l)) c, length (ls_buf l))
          else
            let c := if negb (sc_strict c) && (tm_ttftMs (sc_timing c) =? 0) && SSELineHasText line
                     then markTTFT now c else c in
            feed_lines fuel' now (merge_usage (ParseSSEUsageLine line) c)
      end
  end.

(** [feed(p)]: how many bytes of p belong to the response. *)
Definition feed (p : list Z) (now : time) (c : streamCollector) : Z * streamCollector :=
  let c := if 0 <? zlen p then set_sawBytes c else c in
  let l := sc_lines c in
  let c := set_lines (mkLines (ls_buf l ++ p) (ls_lineScanOffset l) (ls_eventName l) (ls_eventData l) (ls_eventBytes l)
                              (ls_eventOversized l)) c in
  let '(c, dropped) := feed_lines (S (length (ls_buf (sc_lines c)))) now c in
  let consumed := zlen p - Z.of_nat dropped in
  let k := sc_capture c in
  let room := maxLogBodyBytes - zlen (cp_prefix k) in
  let c := set_capture (mkCapture (if 0 <? room then cp_prefix k ++ take (Z.to_nat (Z.min room consumed)) p else cp_prefix k)
                                  (cp_total k + consumed) (cp_usage k)) c in
  (consumed, emitProgress now c).

End collector.

(** ** The client's response writer

    The n-th write is answered by [write_reply n]: all bytes taken, or an error
    after some of them, which every later write repeats. *)

Record ginWriter := mkWriter {
  gw_status : Z;
  gw_headers : bool;
  gw_written : bool;
  gw_body : list Z;
  gw_broken : bool;
  gw_writes : nat
}.

Section writer.
Context (write_reply : nat -> option nat).

Definition gin_Write (p : list Z) (w : ginWriter) : bool * ginWriter :=
  if gw_broken w then (false, mkWriter (gw_status w) (gw_headers w) true (gw_body w) true (gw_writes w))
  else match write_reply (gw_writes w) with
       | None => (true, mkWriter (gw_status w) (gw_headers w) true (gw_body w ++ p) false (S (gw_writes w)))
       | Some k => (false, mkWriter (gw_status w) (gw_headers w) true (gw_body w ++ take k p) true (S (gw_writes w)))
       end.

Definition gin_Flush (w : ginWriter) : ginWriter :=
  mkWriter (gw_status w) (gw_headers w) true (gw_body w) (gw_broken w) (gw_writes w).

(** [commitHeaders] of forwardOnce: the upstream's headers and status, once. *)
Definition commitHeaders (status : Z) (w : ginWriter) : ginWriter :=
  if gw_headers w || gw_written w then w
  else mkWriter status true (gw_written w) (gw_body w) (gw_broken w) (gw_writes w).

(** ** Holding the response back *)

Definition holdBuffer (chunk : list Z) (c : streamCollector) : bool * streamCollector :=
  let h := sc_hold c in
  if hd_released h || hd_dead h then (false, c)
  else if MaxSSEEventBytes <? zlen (hd_pending h) + zlen chunk then (false, c)
  else (true, set_hold (mkHold (hd_pending h ++ chunk) (hd_released h) (hd_dead h)) c).

Definition releaseHeld (status : Z) (c : streamCollector) (w : ginWriter) : streamCollector * ginWriter :=
  let h := sc_hold c in
  if hd_released h || hd_dead h then (c, w)
  else
    let w := commitHeaders status w in
    let '(pending, w) := match hd_pending h with
                         | [] => ([], w)
                         | p => ([], (gin_Write p w).2)
                         end in
    (set_hold (mkHold pending true (hd_dead h)) c, gin_Flush w).

(** The salvage callback of the first-token watch: commit if bytes have flowed.
    [false] means that the attempt is cancelled, which the reader then reports. *)
Definition watch_fires (status : Z) (c : streamCollector) (w : ginWriter) : streamCollector * ginWriter :=
  if sc_sawBytes c then releaseHeld status c w else (c, w).

Definition maybe_fires (fires : bool) (status : Z) (c : streamCollector) (w : ginWriter) : streamCollector * ginWriter :=
  if fires then watch_fires status c w else (c, w).

(** ** copySSE *)

Inductive copy_error : Type :=
| ErrPrefixLimit                 (* stream prefix exceeded limit before first token *)
| ErrNoTerminal                  (* upstream stream ended without terminal event *)
| ErrStream (e : stream_error)
| ErrRead (e : read_error)
| ErrWrite.

(** One round of the loop: what the read returned, the clock, and whether the
    watch fires before and after the hold state is looked at. *)
Record copy_round := mkRound {
  rd_bytes : list Z;
  rd_err : option read_error;
  rd_now : time;
  rd_fires : bool * bool
}.

Record copy_state := mkCopy { cs_col : streamCollector; cs_tail : list Z; cs_writer : ginWriter }.

Definition writeTail (s : copy_state) : bool * copy_state :=
  match cs_tail s with
  | [] => (true, s)
  | t => let '(ok, w) := gin_Write t (cs_writer s) in
         (ok, mkCopy (cs_col s) [] (if ok then gin_Flush w else w))
  end.

Section copy.
Context `{GoLib}.

Definition release (status : Z) (s : copy_state) : copy_state :=
  let '(c, w) := releaseHeld status (cs_col s) (cs_writer s) in mkCopy c (cs_tail s) w.

(** Bytes that belong to the response: buffered while the response is held,
    otherwise appended to the tail and written at event boundaries. *)
Definition take_chunk (status : Z) (chunk : list Z) (fires : bool * bool) (s : copy_state)
    : result copy_error copy_state * copy_state :=
  let '(c, w) := maybe_fires fires.1 status (cs_col s) (cs_writer s) in
  let held := negb (hd_released (sc_hold c)) in
  let '(c, w) := maybe_fires fires.2 status c w in
  let s := mkCopy c (cs_tail s) w in
  if held then
    let '(ok, c) := holdBuffer chunk c in
    let s := mkCopy c (cs_tail s) w in
    if negb ok then (Err ErrPrefixLimit, s)
    else
      let s := if (0 <? tm_ttftMs (sc_timing c)) ||
                  sc_committable c && negb (sc_holdUntilToken c) && bool_decide (sc_terminalErr c = None)
               then release status s else s in
      (Ok s, s)
  else
    let s := mkCopy c (cs_tail s ++ chunk) w in
    if bool_decide (is_Some (sc_terminalErr c)) && String.eqb (sc_path c) "/v1/responses" && negb (upstreamTerminal c)
    then (match sc_terminalErr c with Some e => Err (ErrStream e) | None => Ok s end, s)
    else if negb (sc_strict c) || sc_terminal c || atEventBoundary c || (MaxSSEEventBytes <? zlen (cs_tail s)) then
      let '(ok, s) := writeTail s in ((if ok then Ok s else Err ErrWrite), s)
    else (Ok s, s).

(** The end of the loop on a read error. *)
Definition end_read (status : Z) (e : read_error) (s : copy_state) : option copy_error * copy_state :=
  let s := if bool_decide (e = ErrSSEEventTooLarge)
           then mkCopy (note_oversized (cs_col s)) (cs_tail s) (cs_writer s) else s in
  match e with
  | EOF => if sc_strict (cs_col s) && negb (sc_terminal (cs_col s)) then (Some ErrNoTerminal, s)
           else let '(ok, s) := writeTail (release status s) in ((if ok then None else Some ErrWrite), s)
  | _ => (Some (ErrRead e), s)
  end.

(** One round; [Some] ends the loop with copySSE's result. *)
Definition copy_step (status : Z) (r : copy_round) (s : copy_state) : option (option copy_error) * copy_state :=
  let '(stop, s) :=
    match rd_bytes r with
    | [] => (None, s)
    | p =>
        let '(n, c) := feed p (rd_now r) (cs_col s) in
        let s := mkCopy c (cs_tail s) (cs_writer s) in
        match take_chunk status (take (Z.to_nat n) p) (rd_fires r) s with
        | (Err e, s) => (Some (Some e), s)
        | (Ok s, _) =>
            if sc_terminal (cs_col s) then
              match sc_terminalErr (cs_col s) with
              | Some e => (Some (Some (ErrStream e)), s)
              | None => (Some None, release status s)
              end
            else (None, s)
        end
    end in
  match stop with
  | Some res => (Some res, s)
  | None => match rd_err r with
            | None => (None, s)
            | Some e => let '(res, s) := end_read status e s in (Some res, s)
            end
  end.

(** The rounds of the loop; [None] if the given reads do not end it. *)
Fixpoint copy_loop (status : Z) (rounds : list copy_round) (s : copy_state) : option (option copy_error) * copy_state :=
  match rounds with
  | [] => (None, s)
  | r :: rounds' => match copy_step status r s with
                    | (Some res, s) => (Some res, s)
                    | (None, s) => copy_loop status rounds' s
                    end
  end.

(** The deferred [holdDead.Store(true)]; the watch may fire just before it. *)
Definition kill_hold (status : Z) (fires : bool) (s : copy_state) : copy_state :=
  let '(c, w) := maybe_fires fires status (cs_col s) (cs_writer s) in
  let h := sc_hold c in
  mkCopy (set_hold (mkHold (hd_pending h) (hd_released h) true) c) (cs_tail s) w.

(** The reads of a strict stream: 32 KiB at a time through the [SSEReader]. *)
Fixpoint sse_reads (clocks : list (time * (bool * bool))) (r : SSEReader) : list copy_round :=
  match clocks with
  | [] => []
  | (now, fires) :: clocks' =>
      let '(p, err, r') := Read bufferSize r in
      mkRound p err now fires :: match err with Some _ => [] | None => sse_reads clocks' r' end
  end.

(** [copySSE] on a body that delivers [body] and then [e], for a strict
    collector; one clock reading and watch schedule per round, and whether the
    watch fires at the end. *)
Definition copySSE (status : Z) (body : list Z) (e : read_error) (clocks : list (time * (bool * bool)))
    (last_fires : bool) (c : streamCollector) (w : ginWriter) : option (option copy_error) * copy_state :=
  let '(res, s) := copy_loop status (sse_reads clocks (NewSSEReader (mkBufio body e))) (mkCopy c [] w) in
  (res, kill_hold status last_fires s).

(** For other collectors the reads are those of the body itself. *)
Definition copySSE_raw (status : Z) (rounds : list copy_round) (last_fires : bool) (c : streamCollector) (w : ginWriter)
    : option (option copy_error) * copy_state :=
  let '(res, s) := copy_loop status rounds (mkCopy c [] w) in (res, kill_hold status last_fires s).

End copy.
End writer.

(** A fresh collector, as forwardOnce makes it. *)
Definition newCollector (path : string) (strict holdUntilToken onFirstOutput : bool) (start attemptStart : time)
    : streamCollector :=
  mkCollector (mkValidator path strict false false "" None) (mkLines [] 0 "" [] 0 false)
    (mkTiming start attemptStart time_zero 0 0 "") (mkEvents ∅ 0 0 "" 0) (mkCapture [] 0 noUsage)
    (mkHold [] false false) false false holdUntilToken false false onFirstOutput [].

Definition newWriter : ginWriter := mkWriter 200 false false [] false 0.

(** ** Examples *)

#[export] Instance demo_lib : GoLib := {|
  Sscanf_float := fun _ => None; ParseMediaType := fun s => Some s; http_ParseTime := fun _ => None; http_StatusText := fun _ => EmptyString;
  strconv_IsPrint := fun _ => true |}.

Definition event_text (lines : list string) : list Z :=
  concat ((fun l => js l ++ [10]) <$> lines) ++ [10].

Definition demo_chat : list Z :=
  event_text ["data: {'choices':[{'delta':{'content':'Hi'}}]}"]
  ++ event_text ["data: {'choices':[{'delta':{},'finish_reason':'stop'}]}"]
  ++ event_text ["data: [DONE]"].

Definition demo_clocks (n : nat) : list (time * (bool * bool)) :=
  (fun i => (Z.of_nat i * Millisecond, (false, false))) <$> seq 1 n.

Definition demo_collector (path : string) : streamCollector := newCollector path true false true 0 0.

Example chat_forwarded :
  let '(res, s) := copySSE (fun _ => None) 200 (demo_chat ++ js "junk") EOF (demo_clocks 20) false (demo_collector "/v1/chat/completions") newWriter in
  res = Some None /\ gw_body (cs_writer s) = demo_chat /\ gw_written (cs_writer s) = true.
Proof. by vm_compute. Qed.

Example chat_cut :
  let '(res, s) := copySSE (fun _ => None) 200 (event_text ["data: {'choices':[{'delta':{'role':'assistant'}}]}"]) EOF
                     (demo_clocks 20) false (demo_collector "/v1/chat/completions") newWriter in
  res = Some (Some ErrNoTerminal) /\ gw_body (cs_writer s) = [] /\ gw_written (cs_writer s) = false.
Proof. by vm_compute. Qed.
