(* ===== verification/CollectorProps.v ===== *)
(** * What a client receives of an upstream stream

    Theorems about [copySSE]: the bytes written are a prefix of the repaired
    upstream stream for every schedule of the first-token watch, nothing is
    written as long as the response is held, and success means that a validated
    terminal event was seen. *)

From S2P Require Import Prelude GoFloat GoString Json JsonDecode Settings Domain Upstream Sse SseProps Collector.

Create Rewrite HintDb col.

(** ** What parsing leaves alone *)

(** The fields only the hold and the caller decide. *)
Definition base (c : streamCollector) : holdState * string * bool * bool :=
  (sc_hold c, sc_path c, sc_strict c, sc_holdUntilToken c).

(** The same, with the unread bytes. *)
Definition fixed (c : streamCollector) : holdState * string * bool * bool * list Z * nat :=
  (base c, ls_buf (sc_lines c), ls_lineScanOffset (sc_lines c)).

Lemma note_choices_keep cs v :
  let v' := fold_left note_choice cs v in
  sv_Path v' = sv_Path v /\ sv_Strict v' = sv_Strict v /\ sv_Err v' = sv_Err v /\ sv_ResponseID v' = sv_ResponseID v.
Proof.
  revert v. induction cs as [|[d f] cs IH]; intros v; [done|]. cbn [fold_left].
  destruct (IH (note_choice v (d, f))) as (-> & -> & -> & ->). by destruct d, f.
Qed.

Lemma responses_event_keeps name m v :
  sv_Path (responses_event name m v) = sv_Path v /\ sv_Strict (responses_event name m v) = sv_Strict v.
Proof. unfold responses_event. by repeat case_match. Qed.

Lemma chat_event_keeps name m v :
  sv_Path (chat_event name m v) = sv_Path v /\ sv_Strict (chat_event name m v) = sv_Strict v.
Proof.
  unfold chat_event. case_match; [done|]. destruct (decode_choices _ _) as [cs|]; [|by case_match].
  destruct (note_choices_keep cs v) as (E1 & E2 & _). by case_match.
Qed.

Lemma messages_event_keeps name m v :
  sv_Path (messages_event name m v) = sv_Path v /\ sv_Strict (messages_event name m v) = sv_Strict v.
Proof. unfold messages_event. by repeat case_match. Qed.

Lemma Event_path_strict name data v :
  sv_Path (Event name data v) = sv_Path v /\ sv_Strict (Event name data v) = sv_Strict v.
Proof.
  unfold Event. case_match; [done|]. case_match; [by case_match|]. case_match; [done|].
  destruct (unmarshal_raw (bytes data)) as [[m|]|]; [|done|done].
  destruct (match member "error" m with Some JNull | None => false | Some _ => true end); [done|].
  case_match; [apply responses_event_keeps|]. case_match; [apply chat_event_keeps|].
  case_match; [apply messages_event_keeps|done].
Qed.

Section parsing.
Context `{GoLib}.
Implicit Types (c : streamCollector).

Lemma fixed_validateEvent name data c : fixed (validateEvent name data c) = fixed c.
Proof. unfold fixed, base, sc_path, sc_strict, validateEvent. simpl. by destruct (Event_path_strict name data (sc_validator c)) as [-> ->]. Qed.

Lemma fixed_markTTFT now c : fixed (markTTFT now c) = fixed c.
Proof. unfold markTTFT. case_match; [done|]. simpl. by case_match. Qed.

Lemma fixed_noteEvent name data now c : fixed (noteEvent name data now c) = fixed c.
Proof. unfold noteEvent. by case_match. Qed.

Lemma fixed_note_text name data now c : fixed (note_text name data now c) = fixed c.
Proof. unfold note_text. case_match; [|done]. by rewrite fixed_markTTFT. Qed.

Lemma fixed_dispatch_event name data types now c : fixed (dispatch_event name data types now c) = fixed c.
Proof.
  unfold dispatch_event.
  match goal with |- context [if ?b then call OnCompaction (set_compaction c) else c] =>
    set (c1 := if b then call OnCompaction (set_compaction c) else c);
    assert (E1 : fixed c1 = fixed c) by (unfold c1; by case_match) end.
  case_match; [done|].
  set (c2 := note_text name (bytes data) now c1). assert (E2 : fixed c2 = fixed c) by (unfold c2; by rewrite fixed_note_text).
  by repeat case_match.
Qed.

Lemma fixed_finishEvent now c : fixed (finishEvent now c) = fixed c.
Proof.
  unfold finishEvent. transitivity (fixed (finish_event now c)); [done|]. unfold finish_event.
  case_match; [done|]. case_match; [done|]. case_match.
  { transitivity (fixed (validateEvent (ls_eventName (sc_lines c)) (TrimSpace (String.concat (of_bytes [10]) (ls_eventData (sc_lines c))))
      (noteEvent "done" (String.concat (of_bytes [10]) (ls_eventData (sc_lines c))) now c))); [done|].
    by rewrite fixed_validateEvent, fixed_noteEvent. }
  set (c1 := merge_usage _ (note_first_event now c)).
  assert (E1 : fixed c1 = fixed c) by (unfold c1, note_first_event; by case_match).
  match goal with |- context [validateEvent ?n ?d ?c0] => set (c2 := validateEvent n d c0);
    assert (E2 : fixed c2 = fixed c) by (unfold c2; by rewrite fixed_validateEvent, fixed_noteEvent) end.
  case_match; [done|]. by rewrite fixed_dispatch_event.
Qed.

Lemma fixed_take_field line c : fixed (take_field line c) = fixed c.
Proof. unfold take_field. by repeat case_match. Qed.

Lemma fixed_base c c' : fixed c' = fixed c -> base c' = base c.
Proof. intros E. exact (f_equal (fun x => x.1.1) E). Qed.

Lemma fixed_buf c c' : fixed c' = fixed c -> ls_buf (sc_lines c') = ls_buf (sc_lines c) /\ ls_lineScanOffset (sc_lines c') = ls_lineScanOffset (sc_lines c).
Proof. intros E. split; [exact (f_equal (fun x => x.1.2) E)|exact (f_equal snd E)]. Qed.

(** One line of [feed]'s loop: the line goes, the rest stays. *)
Lemma find_newline_app_None l p : find_newline l = None -> find_newline (l ++ p) = (fun i => length l + i)%nat <$> find_newline p.
Proof.
  induction l as [|b l IH]; simpl.
  - intros _. by destruct (find_newline p).
  - destruct (b =? 10); [done|]. destruct (find_newline l); [done|]. intros _. rewrite IH by done. by destruct (find_newline p).
Qed.

Lemma find_newline_lt l i : find_newline l = Some i -> (i < length l)%nat.
Proof.
  revert i. induction l as [|b l IH]; intros i; simpl; [done|]. destruct (b =? 10); [intros; simplify_eq; lia|].
  destruct (find_newline l); [|done]. intros E. simplify_eq/=. specialize (IH _ eq_refl). lia.
Qed.

Lemma find_newline_drop_None l : find_newline l = None -> forall n, find_newline (drop n l) = None.
Proof.
  induction l as [|b l IH]; intros E n; [by destruct n|]. destruct n as [|n]; [done|]. simpl in *.
  destruct (b =? 10); [done|]. destruct (find_newline l); [done|]. by apply IH.
Qed.

(** All complete lines have been taken off the buffer. *)
Definition drained c : Prop :=
  find_newline (ls_buf (sc_lines c)) = None /\ ls_lineScanOffset (sc_lines c) = length (ls_buf (sc_lines c)).

(** The state the loop starts a round in. *)
Definition scanned c : Prop :=
  (ls_lineScanOffset (sc_lines c) <= length (ls_buf (sc_lines c)))%nat
  /\ find_newline (take (ls_lineScanOffset (sc_lines c)) (ls_buf (sc_lines c))) = None.

Lemma feed_lines_spec fuel now c :
  (length (ls_buf (sc_lines c)) < fuel)%nat -> scanned c ->
  let '(c', d) := feed_lines fuel now c in
  base c' = base c
  /\ (d <= length (ls_buf (sc_lines c)) - ls_lineScanOffset (sc_lines c))%nat
  /\ (sc_terminal c' = true \/ d = 0%nat /\ drained c').
Proof.
  revert c. induction fuel as [|fuel IH]; intros c Hf [Ho Hs]; [lia|]. cbn [feed_lines].
  destruct (find_newline (drop (ls_lineScanOffset (sc_lines c)) (ls_buf (sc_lines c)))) as [i|] eqn:Ei.
  - apply find_newline_lt in Ei. rewrite length_drop in Ei.
    match goal with |- context [if String.eqb ?l "" then finishEvent now ?c0 else take_field ?l ?c0] =>
      set (line := l); set (c0' := c0);
      set (c1 := if String.eqb line "" then finishEvent now c0' else take_field line c0');
      assert (E1 : fixed c1 = fixed c0') by
        (unfold c1; case_match; [by rewrite fixed_finishEvent|by rewrite fixed_take_field]) end.
    pose proof (fixed_base _ _ E1) as Eb. destruct (fixed_buf _ _ E1) as [El Eo].
    assert (Hl : length (ls_buf (sc_lines c1)) = (length (ls_buf (sc_lines c)) - S (i + ls_lineScanOffset (sc_lines c)))%nat)
      by (rewrite El; apply length_drop).
    destruct (String.eqb line "" && sc_terminal c1) eqn:Et.
    { apply andb_true_iff in Et as [_ Et]. split_and!; [exact Eb|lia|by left]. }
    match goal with |- context [merge_usage ?u ?c0] => set (c2 := merge_usage u c0);
      assert (E2 : fixed c2 = fixed c1) by (unfold c2; transitivity (fixed c0); [done|]; case_match; [by rewrite fixed_markTTFT|done]) end.
    pose proof (fixed_base _ _ E2) as Eb2. destruct (fixed_buf _ _ E2) as [El2 Eo2].
    specialize (IH c2). destruct (feed_lines fuel now c2) as [c' d].
    destruct IH as (I1 & I2 & I3).
    + rewrite El2. lia.
    + split; rewrite ?El2, Eo2, Eo; [simpl; lia|done].
    + split_and!; [by rewrite I1, Eb2, Eb| |done]. rewrite El2, Eo2, Eo in I2. simpl in I2. lia.
  - assert (Hn : find_newline (ls_buf (sc_lines c)) = None).
    { rewrite <- (take_drop (ls_lineScanOffset (sc_lines c)) (ls_buf (sc_lines c))).
      rewrite find_newline_app_None by done. by rewrite Ei. }
    case_match; (split_and!; [done|lia|right; split; [done|]]); split; simpl; try done.
    by apply find_newline_drop_None.
Qed.

(** [feed] stays within its argument, and takes all of it unless the stream has ended. *)
Lemma feed_spec p now c :
  drained c ->
  let '(n, c') := feed p now c in
  base c' = base c /\ 0 <= n <= zlen p /\ (sc_terminal c' = true \/ n = zlen p /\ drained c').
Proof.
  intros [Hn Ho]. unfold feed.
  match goal with |- context [feed_lines ?f now ?c0] =>
    pose proof (feed_lines_spec f now c0) as F; assert (Eb : base c0 = base c) by (simpl; by case_match);
    assert (El : ls_buf (sc_lines c0) = ls_buf (sc_lines c) ++ p /\ ls_lineScanOffset (sc_lines c0) = ls_lineScanOffset (sc_lines c))
      by (simpl; by case_match);
    set (c1 := c0) in * end. clearbody c1. destruct El as [El Eo].
  destruct (feed_lines _ now c1) as [c2 d]. destruct F as (F1 & F2 & F3).
  { lia. }
  { split; rewrite El, Eo, Ho; [rewrite length_app; lia|by rewrite take_app_length]. }
  rewrite El, Eo, Ho, length_app in F2. unfold zlen.
  split_and!; [by rewrite <- Eb, <- F1|lia|lia|]. destruct F3 as [F3|[-> F3]]; [by left|right]. split; [lia|exact F3].
Qed.
(** ** Parsing does not look at the hold *)

Definition hold_blind (f : streamCollector -> streamCollector) : Prop := forall h c, f (set_hold h c) = set_hold h (f c).

Ltac blind := intros h [? ? ? ? ? ? ? ? ? ? ? ? ?]; cbn; repeat case_match; reflexivity.

Lemma blind_markTTFT now : hold_blind (markTTFT now).
Proof. unfold markTTFT, emitProgress, call, set_timing, sc_strict. blind. Qed.

Lemma blind_noteEvent name data now : hold_blind (noteEvent name data now).
Proof. unfold noteEvent, set_events. blind. Qed.

Lemma blind_note_text name data now : hold_blind (note_text name data now).
Proof. intros h c. unfold note_text. change (sc_timing (set_hold h c)) with (sc_timing c). case_match; [|done]. apply (blind_markTTFT now h (set_timing _ c)). Qed.

Lemma blind_dispatch name data types now : hold_blind (dispatch_event name data types now).
Proof.
  intros h c. unfold dispatch_event. change (sc_path (set_hold h c)) with (sc_path c). change (sc_timing (set_hold h c)) with (sc_timing c).
  change (sc_compaction (set_hold h c)) with (sc_compaction c).
  set (b := _ && _ && _ && _). assert (E : (if b then call OnCompaction (set_compaction (set_hold h c)) else set_hold h c) = set_hold h (if b then call OnCompaction (set_compaction c) else c)) by (destruct b; reflexivity).
  rewrite E. clear E. set (c1 := if b then _ else c). destruct (_ && IsResponsesMetadataEvent name); [done|]. rewrite blind_note_text. set (c2 := note_text _ _ _ c1).
  set (c3 := if one_of name ["message_stop"; "response.completed"] then set_terminal c2 else _).
  match goal with |- (if sc_strict ?x && _ && _ && _ then _ else _) = _ => assert (E : x = set_hold h c3) by (unfold c3; destruct (one_of name ["message_stop"; "response.completed"]), (one_of name ["error"; "response.failed"; "response.incomplete"]); reflexivity) end.
  rewrite E. change (sc_strict (set_hold h c3)) with (sc_strict c3). change (sc_terminalErr (set_hold h c3)) with (sc_terminalErr c3). destruct (sc_strict c3 && _ && _ && _); reflexivity.
Qed.

Lemma blind_finishEvent now : hold_blind (finishEvent now).
Proof.
  intros h c. unfold finishEvent. assert (E : finish_event now (set_hold h c) = set_hold h (finish_event now c)); [|by rewrite E].
  unfold finish_event. change (sc_lines (set_hold h c)) with (sc_lines c). case_match; [done|]. case_match; [done|]. case_match.
  { by rewrite blind_noteEvent. }
  assert (E : note_first_event now (set_hold h c) = set_hold h (note_first_event now c)).
  { unfold note_first_event. change (sc_timing (set_hold h c)) with (sc_timing c). by case_match. }
  rewrite E. clear E. set (c1 := note_first_event now c). set (u := ParseSSEUsageLine _).
  change (merge_usage u (set_hold h c1)) with (set_hold h (merge_usage u c1)). set (c2 := merge_usage u c1). rewrite blind_noteEvent.
  match goal with |- context [validateEvent ?n ?d (set_hold h ?x)] => change (validateEvent n d (set_hold h x)) with (set_hold h (validateEvent n d x)); set (c3 := validateEvent n d x) end.
  change (sc_terminalErr (set_hold h c3)) with (sc_terminalErr c3). case_match; [done|]. apply blind_dispatch.
Qed.

Lemma blind_take_field line : hold_blind (take_field line).
Proof. unfold take_field, set_lines. blind. Qed.

Lemma blind_feed_lines fuel now h c : feed_lines fuel now (set_hold h c) = (set_hold h (feed_lines fuel now c).1, (feed_lines fuel now c).2).
Proof.
  revert c. induction fuel as [|fuel IH]; intros c; [done|]. cbn [feed_lines]. change (sc_lines (set_hold h c)) with (sc_lines c). case_match; [|done].
  set (line := of_bytes _). set (l1 := mkLines _ 0 _ _ _ _). change (set_lines l1 (set_hold h c)) with (set_hold h (set_lines l1 c)). set (c1 := set_lines l1 c).
  assert (E : (if String.eqb line "" then finishEvent now (set_hold h c1) else take_field line (set_hold h c1))
              = set_hold h (if String.eqb line "" then finishEvent now c1 else take_field line c1)).
  { case_match; [apply blind_finishEvent|apply blind_take_field]. }
  rewrite E. clear E. set (c2 := if String.eqb line "" then _ else _). change (sc_terminal (set_hold h c2)) with (sc_terminal c2). case_match; [done|].
  change (sc_strict (set_hold h c2)) with (sc_strict c2). change (sc_timing (set_hold h c2)) with (sc_timing c2). rewrite <- IH. f_equal.
  case_match; [by rewrite blind_markTTFT|done].
Qed.

Lemma blind_feed p now h c : feed p now (set_hold h c) = ((feed p now c).1, set_hold h (feed p now c).2).
Proof.
  unfold feed. match goal with |- context [if 0 <? zlen p then set_sawBytes (set_hold h c) else set_hold h c] =>
    assert (E : (if 0 <? zlen p then set_sawBytes (set_hold h c) else set_hold h c) = set_hold h (if 0 <? zlen p then set_sawBytes c else c)) by (by case_match) end.
  rewrite E. clear E. set (c1 := if 0 <? zlen p then set_sawBytes c else c). change (sc_lines (set_hold h c1)) with (sc_lines c1).
  set (l1 := mkLines (_ ++ p) _ _ _ _ _). change (set_lines l1 (set_hold h c1)) with (set_hold h (set_lines l1 c1)). set (c2 := set_lines l1 c1).
  change (sc_lines (set_hold h c2)) with (sc_lines c2). rewrite blind_feed_lines. by destruct (feed_lines _ now c2) as [c3 d].
Qed.

(** ** What parsing only adds *)

(** A measured first token, a committable stream and bytes that were seen stay so. *)
Definition grows c c' : Prop :=
  (0 < tm_ttftMs (sc_timing c) -> 0 < tm_ttftMs (sc_timing c'))
  /\ (sc_committable c = true -> sc_committable c' = true)
  /\ (sc_sawBytes c = true -> sc_sawBytes c' = true).

Lemma grows_refl c : grows c c.
Proof. done. Qed.

Lemma grows_trans c1 c2 c3 : grows c1 c2 -> grows c2 c3 -> grows c1 c3.
Proof. unfold grows. naive_solver. Qed.

Lemma grows_same c c' :
  sc_timing c' = sc_timing c -> sc_committable c' = sc_committable c -> sc_sawBytes c' = sc_sawBytes c -> grows c c'.
Proof. unfold grows. intros -> -> ->. done. Qed.

Lemma grows_markTTFT now c : grows c (markTTFT now c).
Proof.
  unfold markTTFT. case_match; [done|]. set (c1 := set_timing _ c).
  apply (grows_trans _ c1); [split; [simpl; intros; lia|done]|]. by destruct (sc_strict c1 && _ && _).
Qed.

Lemma grows_noteEvent name data now c : grows c (noteEvent name data now c).
Proof. unfold noteEvent. by case_match. Qed.

Lemma grows_dispatch_event name data types now c : grows c (dispatch_event name data types now c).
Proof.
  unfold dispatch_event.
  match goal with |- context [if ?b then call OnCompaction (set_compaction c) else c] =>
    set (c1 := if b then call OnCompaction (set_compaction c) else c);
    assert (E1 : grows c c1) by (unfold c1; by case_match) end.
  case_match; [done|]. apply (grows_trans _ _ _ E1).
  set (c2 := note_text name (bytes data) now c1).
  assert (E2 : grows c1 c2).
  { unfold c2, note_text. case_match; [|done]. by eapply grows_trans; [|apply grows_markTTFT]. }
  apply (grows_trans _ _ _ E2). by repeat case_match.
Qed.

Lemma grows_finishEvent now c : grows c (finishEvent now c).
Proof.
  unfold finishEvent. apply (grows_trans _ (finish_event now c)); [|done]. unfold finish_event.
  case_match; [done|]. case_match; [done|]. case_match.
  { exact (grows_noteEvent "done" _ now c). }
  set (c1 := merge_usage _ (note_first_event now c)).
  assert (E1 : grows c c1) by (unfold c1, note_first_event; by case_match).
  match goal with |- context [validateEvent ?n ?d ?c0] => set (c2 := validateEvent n d c0);
    assert (E2 : grows c c2) by exact (grows_trans _ _ _ E1 (grows_noteEvent n d now c1)) end.
  case_match; [done|]. eapply grows_trans; [exact E2|apply grows_dispatch_event].
Qed.

Lemma grows_feed_lines fuel now c : grows c (feed_lines fuel now c).1.
Proof.
  revert c. induction fuel as [|fuel IH]; intros c; [done|]. cbn [feed_lines]. case_match; [|done].
  match goal with |- context [if String.eqb ?l "" then finishEvent now ?c0 else take_field ?l ?c0] =>
    set (c1 := if String.eqb l "" then finishEvent now c0 else take_field l c0);
    assert (E1 : grows c c1) by
      (unfold c1; case_match; [eapply (grows_trans _ c0); [done|apply grows_finishEvent]|unfold take_field; by repeat case_match]) end.
  case_match; [done|]. eapply grows_trans; [exact E1|]. eapply grows_trans; [|apply IH].
  case_match; [|done]. by eapply grows_trans; [apply (grows_markTTFT now)|].
Qed.

Lemma grows_feed p now c : grows c (feed p now c).2.
Proof.
  unfold feed. match goal with |- context [feed_lines ?f now ?c0] =>
    pose proof (grows_feed_lines f now c0) as G; assert (E : grows c c0) by (by case_match);
    destruct (feed_lines f now c0) as [c1 d] end.
  exact (grows_trans _ _ _ E G).
Qed.

(** ** What ends a stream *)

(** The data's members are named as the struct tags are, and decode. *)
Definition plain (data : string) : Prop :=
  is_Some (event_types (bytes data)) /\
  forall ms, parse (bytes data) = Some (JObj ms) ->
    Forall (fun m : string * json => fold_bytes (bytes m.1) = fold_bytes (bytes "type") -> m.1 = "type") ms.

(** The last event was accepted by the validator and is a terminal one. *)
Definition stream_ended (v : StreamValidator) : Prop :=
  exists name data v0, v = Event name data v0 /\ sv_Err v = None
    /\ (data = "[DONE]" \/ TrimSpace data <> "" /\ one_of name ["message_stop"; "response.completed"] = true
         /\ exists event, name = match event_types (bytes data) with
                                 | Some (typ, _) => if String.eqb typ "" then event else typ
                                 | None => event
                                 end).

Lemma markTTFT_core now c : sc_validator (markTTFT now c) = sc_validator c /\ sc_terminal (markTTFT now c) = sc_terminal c.
Proof. unfold markTTFT. case_match; [done|]. set (c1 := set_timing _ c). by destruct (sc_strict c1 && _ && _). Qed.

Lemma noteEvent_core name data now c :
  sc_validator (noteEvent name data now c) = sc_validator c /\ sc_terminal (noteEvent name data now c) = sc_terminal c.
Proof. unfold noteEvent. by case_match. Qed.

(** Dispatching an accepted event ends the stream only for a terminal name. *)
Lemma dispatch_event_ends name data types now c :
  let c' := dispatch_event name data types now c in
  sc_terminal c = false -> sc_terminal c' = true -> sc_terminalErr c' = None ->
  sc_validator c' = sc_validator c /\ one_of name ["message_stop"; "response.completed"] = true.
Proof.
  unfold dispatch_event.
  match goal with |- context [if ?b then call OnCompaction (set_compaction c) else c] =>
    set (c1 := if b then call OnCompaction (set_compaction c) else c);
    assert (E1 : sc_validator c1 = sc_validator c /\ sc_terminal c1 = sc_terminal c) by (unfold c1; by case_match) end.
  destruct E1 as [Ev Et]. intros Ht.
  destruct (String.eqb (sc_path c) "/v1/responses" && IsResponsesMetadataEvent name); [congruence|].
  set (c2 := note_text name (bytes data) now c1).
  assert (E2 : sc_validator c2 = sc_validator c /\ sc_terminal c2 = false).
  { unfold c2, note_text. case_match; [|by rewrite Ev, Et, Ht].
    destruct (markTTFT_core now (set_timing (mkTiming (tm_start (sc_timing c1)) (tm_attemptStart (sc_timing c1)) (tm_firstAt (sc_timing c1))
      (tm_ttftMs (sc_timing c1)) (tm_firstEventMs (sc_timing c1)) (if String.eqb name "" then "data" else name)) c1)) as [-> ->].
    simpl. by rewrite Ev, Et, Ht. }
  clearbody c2. destruct E2 as [Ev2 Et2].
  destruct (one_of name ["message_stop"; "response.completed"]).
  { intros _ _. split; [|done]. by destruct (sc_strict _ && _ && _ && _). }
  destruct (one_of name ["error"; "response.failed"; "response.incomplete"]).
  { destruct (sc_strict _ && _ && _ && _); done. }
  destruct (sc_strict _ && _ && _ && _); simpl; congruence.
Qed.

Lemma finishEvent_ends now c :
  sc_terminal c = false -> sc_terminal (finishEvent now c) = true -> sc_terminalErr (finishEvent now c) = None ->
  stream_ended (sc_validator (finishEvent now c)).
Proof.
  intros Ht. change (sc_terminal (finish_event now c) = true -> sc_terminalErr (finish_event now c) = None ->
                     stream_ended (sc_validator (finish_event now c))). unfold finish_event.
  destruct (ls_eventOversized _); [done|]. set (data := String.concat _ _). destruct (String.eqb_spec (TrimSpace data) "") as [_|Hblank]; [congruence|].
  destruct (String.eqb_spec (TrimSpace data) "[DONE]") as [Ed|_].
  { intros _ He. eexists _, (TrimSpace data), _. split; [reflexivity|]. split; [exact He|]. by left. }
  set (c1 := merge_usage _ _).
  assert (E1 : sc_validator c1 = sc_validator c /\ sc_terminal c1 = false)
    by (unfold c1, note_first_event; simpl; case_match; by rewrite <- Ht).
  clearbody c1. destruct E1 as [Ev1 Et1].
  set (name := match event_types (bytes data) with Some _ => _ | None => _ end).
  set (c2 := validateEvent name data _).
  assert (E2 : sc_validator c2 = Event name data (sc_validator c) /\ sc_terminal c2 = false).
  { unfold c2, validateEvent. destruct (noteEvent_core name data now c1) as [N1 N2]. split; simpl; congruence. }
  clearbody c2. destruct E2 as [Ev2 Et2].
  case_bool_decide as Ee; [intros _ He; change (sc_terminalErr c2 = None) in He; rewrite He in Ee; by destruct Ee|].
  intros T E. destruct (dispatch_event_ends name data _ now c2 Et2 T E) as [Hv Hn].
  exists name, data, (sc_validator c). unfold sc_terminalErr in E. rewrite Hv, Ev2 in *.
  split; [done|]. split; [done|]. right. split_and!; [done|done|]. by exists (ls_eventName (sc_lines c)).
Qed.

Lemma take_field_core line c : sc_validator (take_field line c) = sc_validator c /\ sc_terminal (take_field line c) = sc_terminal c.
Proof. unfold take_field. by repeat case_match. Qed.

Lemma feed_lines_ends fuel now c :
  let c' := (feed_lines fuel now c).1 in
  sc_terminal c = false -> sc_terminal c' = true -> sc_terminalErr c' = None -> stream_ended (sc_validator c').
Proof.
  revert c. induction fuel as [|fuel IH]; intros c; simpl; [congruence|]. intros Ht. case_match; [|simpl; congruence].
  match goal with |- context [if String.eqb ?l "" then finishEvent now ?c0 else take_field ?l ?c0] => set (line := l); set (c0' := c0) end.
  destruct (String.eqb line ""); cbn [andb].
  - destruct (sc_terminal (finishEvent now c0')) eqn:Et; [intros _; by apply finishEvent_ends|].
    apply IH. case_match; [|done]. by rewrite <- Et; apply markTTFT_core.
  - apply IH. destruct (take_field_core line c0') as [_ Et]. rewrite <- Ht.
    case_match; [|exact Et]. transitivity (sc_terminal (take_field line c0')); [apply markTTFT_core|exact Et].
Qed.

Lemma feed_ends p now c :
  let c' := (feed p now c).2 in
  sc_terminal c = false -> sc_terminal c' = true -> sc_terminalErr c' = None -> stream_ended (sc_validator c').
Proof.
  unfold feed. match goal with |- context [feed_lines ?f now ?c0] =>
    pose proof (feed_lines_ends f now c0) as G; assert (E : sc_terminal c0 = sc_terminal c) by (by case_match);
    destruct (feed_lines f now c0) as [c1 d] end.
  cbv zeta in G. rewrite E in G. exact G.
Qed.

End parsing.

(** ** Accepted terminal events *)

Definition text_apis : list string := ["/v1/responses"; "/v1/chat/completions"; "/v1/messages"].

(** The name the validator goes by. *)
Definition validator_name (name : string) (ms : Members) : string :=
  if String.eqb (raw_string "type" ms) "" then name else raw_string "type" ms.

Lemma string_field_step vs acc :
  (fold_left (fun acc v => match v with JStr s => (s, acc.2) | JNull => acc | _ => (acc.1, false) end) vs acc).2 = true ->
  acc.2 = true.
Proof.
  revert acc. induction vs as [|v vs IH]; intros acc E; [done|]. simpl in E. apply IH in E. by destruct v.
Qed.

Lemma raw_string_snoc k v ms : raw_string "type" (ms ++ [(k, v)]) = if String.eqb k "type" then default "" (as_text (Some v)) else raw_string "type" ms.
Proof.
  unfold raw_string. assert (E : member "type" (ms ++ [(k, v)]) = if String.eqb k "type" then Some v else member "type" ms).
  { induction ms as [|[k' v'] ms IH]; simpl; [by destruct (String.eqb k "type")|]. rewrite IH. by destruct (String.eqb k "type"). }
  rewrite E. by destruct (String.eqb k "type").
Qed.

(** With plainly named members both decoders agree on the type. *)
Lemma plain_type ms :
  Forall (fun m : string * json => fold_bytes (bytes m.1) = fold_bytes (bytes "type") -> m.1 = "type") ms ->
  (string_field "type" ms).2 = true ->
  raw_string "type" ms = "" \/ raw_string "type" ms = (string_field "type" ms).1.
Proof.
  induction ms as [|[k v] ms IH] using rev_ind; [by left|]. intros F Hok.
  apply Forall_app in F as [F Fk]. inversion Fk as [|? ? Hk _]; subst. simpl in Hk.
  unfold string_field, field_values in *. rewrite raw_string_snoc. rewrite List.filter_app, fmap_app, fold_left_app in *.
  simpl in *. destruct (String.eqb_spec k "type") as [->|Hne].
  - rewrite bool_decide_eq_true_2 in * by done. simpl in *. destruct v; try done; [by left|by right].
  - rewrite bool_decide_eq_false_2 in * by (intros E; by apply Hk in E). simpl in *. by apply IH.
Qed.

(** For such an event the validator goes by the collector's name. *)
Lemma validator_name_plain name event data ms :
  plain data -> parse (bytes data) = Some (JObj ms) ->
  name = match event_types (bytes data) with
         | Some (typ, _) => if String.eqb typ "" then event else typ
         | None => event
         end ->
  validator_name name ms = name.
Proof.
  intros [[[typ item] Ht] Hp] Em En. rewrite Ht in En. specialize (Hp ms Em). unfold event_types in Ht. rewrite Em in Ht. simpl in Ht.
  assert (Hok : (string_field "type" ms).2 = true /\ (string_field "type" ms).1 = typ).
  { destruct (string_field "type" ms) as [t ok]. destruct (struct_field "item" ms) as [it ok2].
    destruct (string_field "type" it) as [t3 ok3]. destruct ok, ok2, ok3; by simplify_eq/=. }
  destruct Hok as [Hok <-]. unfold validator_name. destruct (plain_type ms Hp Hok) as [E|E]; [by rewrite E|].
  destruct (String.eqb_spec (raw_string "type" ms) "") as [_|Hne]; [done|].
  rewrite E in Hne |- *. by destruct (String.eqb_spec (string_field "type" ms).1 "").
Qed.

(** A strict validator accepts objects only. *)
Lemma Event_object name data v :
  sv_Strict v = true -> data <> "[DONE]" -> TrimSpace data <> "" -> sv_Err (Event name data v) = None ->
  exists ms, parse (bytes data) = Some (JObj ms).
Proof.
  intros Hs Hd Hb. unfold Event, unmarshal_raw. rewrite Hs. simpl.
  destruct (String.eqb_spec data "[DONE]"); [done|]. destruct (String.eqb_spec (TrimSpace data) ""); [done|].
  destruct (parse (bytes data)) as [[]|]; try done. by eexists.
Qed.

(** A strict validator accepts a terminal event only of a valid stream. *)
Lemma Event_terminal name data v :
  sv_Strict v = true -> one_of (sv_Path v) text_apis = true -> sv_Err (Event name data v) = None ->
  data = "[DONE]" \/ TrimSpace data <> "" /\ (exists ms, parse (bytes data) = Some (JObj ms)
                        /\ one_of (validator_name name ms) ["message_stop"; "response.completed"] = true) ->
  sv_SawValid (Event name data v) = true
  /\ (sv_Path v = "/v1/chat/completions" -> sv_ChatFinished (Event name data v) = true).
Proof.
  intros Hs Hp He Hc. revert He. unfold Event. rewrite Hs. cbn [negb].
  destruct (String.eqb_spec data "[DONE]") as [->|Hd].
  { destruct (String.eqb (sv_Path v) "/v1/chat/completions"), (sv_SawValid v) eqn:E1, (sv_ChatFinished v) eqn:E2; try done. }
  destruct Hc as [?|(Hb & ms & Em & Hn)]; [done|]. destruct (String.eqb_spec (TrimSpace data) "") as [Eb|_]; [done|].
  unfold unmarshal_raw. rewrite Em. destruct (match member "error" ms with Some JNull | None => false | Some _ => true end); [done|].
  fold (validator_name name ms). set (n := validator_name name ms) in *. clearbody n.
  assert (n = "message_stop" \/ n = "response.completed") as Hn'.
  { unfold one_of in Hn. simpl in Hn. destruct (String.eqb_spec n "message_stop"); [by left|].
    destruct (String.eqb_spec n "response.completed"); [by right|done]. }
  unfold one_of, text_apis in Hp. simpl in Hp.
  destruct (String.eqb_spec (sv_Path v) "/v1/responses") as [->|_]; [|destruct (String.eqb_spec (sv_Path v) "/v1/chat/completions") as [->|_]].
  - unfold responses_event. destruct Hn' as [-> | ->]; [done|]. simpl.
    case_match; (case_match; [by case_match|done]) || done.
  - unfold chat_event. case_match; [done|]. by destruct Hn' as [-> | ->].
  - destruct (String.eqb_spec (sv_Path v) "/v1/messages") as [->|_]; [|done].
    destruct Hn' as [-> | ->]; [|done]. unfold messages_event. simpl. by destruct (sv_SawValid v) eqn:E.
Qed.


(** ** The answer in the stream

    [response] is the part of the reads that is the answer, and the collector after
    it: the reads are parsed one after the other up to the end of the terminal
    event, or to the read that ends the stream. *)

Definition fed `{GoLib} (r : copy_round) (c : streamCollector) : list Z * streamCollector :=
  match rd_bytes r with
  | [] => ([], c)
  | p => let '(n, c') := feed p (rd_now r) c in (take (Z.to_nat n) p, c')
  end.

Fixpoint response `{GoLib} (rounds : list copy_round) (c : streamCollector) : list Z * streamCollector :=
  match rounds with
  | [] => ([], c)
  | r :: rounds' =>
      let '(g, c') := fed r c in
      if sc_terminal c' || bool_decide (is_Some (rd_err r)) then (g, c')
      else let '(g', c'') := response rounds' c' in (g ++ g', c'')
  end.

Lemma response_prefix `{GoLib} rounds c : drained c -> sc_terminal c = false -> (response rounds c).1 `prefix_of` concat (rd_bytes <$> rounds).
Proof.
  revert c. induction rounds as [|r rounds IH]; intros c Hd Ht; [done|]. cbn [response fmap list_fmap concat]. unfold fed. destruct (rd_bytes r) as [|b p].
  - rewrite Ht. cbn [orb]. case_match; [apply prefix_nil|]. specialize (IH c Hd Ht). by destruct (response rounds c).
  - pose proof (feed_spec (b :: p) (rd_now r) c Hd) as F. destruct (feed (b :: p) (rd_now r) c) as [n c1]. destruct F as (_ & Fn & Ft).
    destruct (sc_terminal c1) eqn:Et; cbn [orb]; [apply prefix_app_r, prefix_take|]. destruct Ft as [Ft|[-> Fd]]; [congruence|].
    case_match; [apply prefix_app_r, prefix_take|]. specialize (IH c1 Fd Et). destruct (response rounds c1) as [g c2].
    rewrite take_ge by (unfold zlen; lia). by apply prefix_app.
Qed.

(** ** Delivery *)

Section delivery.
Context `{GoLib} (write_reply : nat -> option nat) (status : Z) (w0 : ginWriter).

(** Of the bytes [got] taken from the stream, either all are held and the writer
    is untouched, or the response is committed and the writer has a prefix of
    them, the rest being the tail unless the client is gone. *)
Definition delivered (got : list Z) (c : streamCollector) (tail : list Z) (w : ginWriter) : Prop :=
  let h := sc_hold c in
  hd_dead h = false /\
  if hd_released h then
    hd_pending h = []
    /\ exists rest, gw_body w ++ rest = gw_body w0 ++ got /\ (gw_broken w = false -> rest = tail)
  else w = w0 /\ tail = [] /\ hd_pending h = got.

Definition delivered_s (got : list Z) (s : copy_state) : Prop := delivered got (cs_col s) (cs_tail s) (cs_writer s).

Lemma commitHeaders_body w : gw_body (commitHeaders status w) = gw_body w /\ gw_broken (commitHeaders status w) = gw_broken w.
Proof. unfold commitHeaders. by case_match. Qed.

(** What a write adds to the body. *)
Lemma gin_Write_body p w :
  exists rest, gw_body (gin_Write write_reply p w).2 ++ rest = gw_body w ++ p
    /\ (gw_broken (gin_Write write_reply p w).2 = false -> rest = [] /\ gw_broken w = false)
    /\ ((gin_Write write_reply p w).1 = true -> gw_broken (gin_Write write_reply p w).2 = false).
Proof.
  unfold gin_Write. destruct (gw_broken w) eqn:E; [by exists p|]. destruct (write_reply _) as [k|]; simpl.
  - exists (drop k p). by rewrite <- app_assoc, take_drop.
  - exists []. by rewrite app_nil_r.
Qed.

Lemma releaseHeld_delivered got c tail w :
  delivered got c tail w ->
  let '(c', w') := releaseHeld write_reply status c w in
  delivered got c' tail w' /\ hd_released (sc_hold c') = true /\ set_hold (sc_hold c) c' = c.
Proof.
  intros [Hd D]. unfold releaseHeld. rewrite Hd, orb_false_r.
  destruct (hd_released (sc_hold c)) eqn:Er; [split_and!; [by split; rewrite ?Er| done|by destruct c]|].
  destruct D as (-> & -> & <-). destruct (commitHeaders_body w0) as [Eb Ek].
  destruct (hd_pending (sc_hold c)) as [|b p] eqn:Ep.
  - split_and!; [|done|by destruct c]. split; [done|]. simpl. split; [done|]. exists []. by rewrite Eb.
  - split_and!; [|done|by destruct c]. split; [done|]. simpl. split; [done|].
    destruct (gin_Write_body (b :: p) (commitHeaders status w0)) as (rest & E1 & E2 & _). rewrite Eb in E1.
    exists rest. split; [done|]. intros E. by destruct (E2 E).
Qed.

Lemma maybe_fires_delivered b got c tail w :
  delivered got c tail w ->
  let '(c', w') := maybe_fires write_reply b status c w in
  delivered got c' tail w' /\ set_hold (sc_hold c) c' = c
  /\ (b = false -> c' = c) /\ (hd_released (sc_hold c) = true -> hd_released (sc_hold c') = true).
Proof.
  intros D. unfold maybe_fires, watch_fires.
  destruct b; [|split_and!; [done|by destruct c|done|done]].
  destruct (sc_sawBytes c); [|split_and!; [done|by destruct c|done|done]].
  pose proof (releaseHeld_delivered got c tail w D) as R. destruct (releaseHeld _ _ _ _) as [c' w'].
  by destruct R as (? & ? & ?).
Qed.

Lemma writeTail_delivered got s :
  delivered_s got s ->
  let '(ok, s') := writeTail write_reply s in
  delivered_s got s' /\ cs_col s' = cs_col s /\ cs_tail s' = [].
Proof.
  intros [Hd D]. unfold writeTail. destruct (cs_tail s) as [|b t] eqn:Et; [split_and!; [by split; rewrite ?Et|done|done]|].
  destruct (hd_released (sc_hold (cs_col s))) eqn:Er; [|naive_solver]. destruct D as [Hp (rest & E1 & E2)].
  destruct (gin_Write_body (b :: t) (cs_writer s)) as (rest' & G1 & G2 & _).
  assert (Q : exists rest, gw_body (gin_Write write_reply (b :: t) (cs_writer s)).2 ++ rest = gw_body w0 ++ got
              /\ (gw_broken (gin_Write write_reply (b :: t) (cs_writer s)).2 = false -> rest = [])).
  { unfold gin_Write in *. destruct (gw_broken (cs_writer s)) eqn:Ek; [by exists rest|].
    rewrite (E2 eq_refl) in E1. destruct (write_reply _) as [k|]; simpl in *.
    - exists (drop k (b :: t)). split; [|done]. by rewrite <- app_assoc, take_drop.
    - exists []. by rewrite app_nil_r. }
  destruct (gin_Write write_reply (b :: t) (cs_writer s)) as [ok w]. simpl in Q.
  split_and!; [|done|done]. split; [done|]. simpl. rewrite Er. split; [done|].
  by destruct ok.
Qed.

(** The two collectors differ in the hold only. *)
Definition same_but_hold (c c' : streamCollector) : Prop := set_hold (sc_hold c) c' = c.

Lemma same_but_hold_trans c1 c2 c3 : same_but_hold c1 c2 -> same_but_hold c2 c3 -> same_but_hold c1 c3.
Proof. unfold same_but_hold. intros <- <-. by destruct c3. Qed.

Lemma same_but_hold_set h c : same_but_hold c (set_hold h c).
Proof. by destruct c. Qed.

Lemma same_but_hold_set' h c : same_but_hold (set_hold h c) c.
Proof. done. Qed.

Lemma same_but_hold_refl c : same_but_hold c c.
Proof. by destruct c. Qed.

Lemma release_delivered got s :
  delivered_s got s ->
  delivered_s got (release write_reply status s) /\ same_but_hold (cs_col s) (cs_col (release write_reply status s))
  /\ hd_released (sc_hold (cs_col (release write_reply status s))) = true
  /\ cs_tail (release write_reply status s) = cs_tail s.
Proof.
  intros D. unfold release. pose proof (releaseHeld_delivered got _ _ _ D) as R.
  destruct (releaseHeld _ _ _ _) as [c w]. by destruct R as (? & ? & ?).
Qed.

Lemma take_chunk_delivered chunk fires got s :
  delivered_s got s ->
  let '(r, s') := take_chunk write_reply status chunk fires s in
  same_but_hold (cs_col s) (cs_col s') /\
  match r with
  | Ok s1 => s1 = s' /\ delivered_s (got ++ chunk) s'
      /\ (sc_terminal (cs_col s') = true -> cs_tail s' = [])
  | Err _ => exists g, g `prefix_of` got ++ chunk /\ delivered_s g s'
  end.
Proof.
  intros D. unfold take_chunk.
  pose proof (maybe_fires_delivered fires.1 got _ _ _ D) as F1. destruct (maybe_fires _ fires.1 _ _ _) as [c1 w1].
  destruct F1 as (D1 & S1 & _ & _).
  pose proof (maybe_fires_delivered fires.2 got _ _ _ D1) as F2. destruct (maybe_fires _ fires.2 _ _ _) as [c2 w2].
  destruct F2 as (D2 & S2 & _ & R2). assert (S : same_but_hold (cs_col s) c2) by by eapply same_but_hold_trans.
  destruct (hd_released (sc_hold c1)) eqn:Er; simpl.
  - specialize (R2 eq_refl).
    assert (D3 : delivered_s (got ++ chunk) (mkCopy c2 (cs_tail s ++ chunk) w2)).
    { destruct D2 as [Hd D2]. unfold delivered_s, delivered in *. simpl. rewrite R2 in D2 |- *. split; [done|].
      destruct D2 as [Hp (rest & E1 & E2)]. split; [done|]. exists (rest ++ chunk).
      split; [by rewrite !app_assoc, E1|]. intros Ek. by rewrite E2. }
    destruct (bool_decide (is_Some (sc_terminalErr c2)) && _ && _) eqn:Eg.
    { destruct (sc_terminalErr c2); [|done]. split; [done|]. by eexists. }
    destruct (negb (sc_strict c2) || sc_terminal c2 || atEventBoundary c2 || _) eqn:Ew.
    + pose proof (writeTail_delivered _ _ D3) as W. destruct (writeTail _ _) as [ok s'].
      destruct W as (W1 & W2 & W3). rewrite W2. split; [done|]. destruct ok; [done|]. by eexists.
    + split; [done|]. split_and!; [done|done|]. simpl. intros Et. rewrite Et in Ew. by rewrite orb_true_r in Ew.
  - unfold holdBuffer. destruct (hd_released (sc_hold c2)) eqn:E2; simpl.
    { split; [done|]. exists got. split; [by eexists|done]. }
    destruct D2 as [Hd D2]. rewrite Hd. rewrite E2 in D2. destruct D2 as (-> & Et & Hp).
    destruct (MaxSSEEventBytes <? _); simpl.
    { split; [done|]. exists got. split; [by eexists|]. split; [done|]. simpl. by rewrite E2. }
    set (c3 := set_hold _ c2).
    assert (D3 : delivered_s (got ++ chunk) (mkCopy c3 (cs_tail s) w0)).
    { split; [done|]. simpl. split_and!; [done|done|by rewrite Hp]. }
    assert (S3 : same_but_hold (cs_col s) c3) by (eapply same_but_hold_trans; [done|apply same_but_hold_set]).
    destruct ((0 <? _) || _); [|split_and!; try done].
    destruct (release_delivered _ _ D3) as (R1 & R3 & _ & R4). rewrite R4.
    split; [by eapply same_but_hold_trans|]. done.
Qed.

(** What the loop keeps from one round to the next. *)
Record running (got : list Z) (s : copy_state) : Prop := {
  run_delivered : delivered_s got s;
  run_drained : drained (cs_col s);
  run_going : sc_terminal (cs_col s) = false
}.

Lemma same_but_hold_fields c c' :
  same_but_hold c c' -> sc_lines c' = sc_lines c /\ sc_terminal c' = sc_terminal c /\ sc_timing c' = sc_timing c
  /\ sc_validator c' = sc_validator c /\ sc_committable c' = sc_committable c /\ sc_holdUntilToken c' = sc_holdUntilToken c
  /\ sc_sawBytes c' = sc_sawBytes c.
Proof. unfold same_but_hold. intros <-. done. Qed.

(** How the loop ends: what was written, and that a success has written it all,
    after a terminal event if the stream is validated. *)
Definition copied (total : list Z) (parsed : streamCollector) (res : option copy_error) (s : copy_state) : Prop :=
  exists g, g `prefix_of` total /\ delivered_s g s
    /\ (res = None -> g = total /\ hd_released (sc_hold (cs_col s)) = true /\ cs_tail s = [] /\ (sc_terminal parsed = true \/ sc_strict parsed = false)).

Lemma end_read_copied got e s :
  delivered_s got s -> let '(res, s') := end_read write_reply status e s in copied got (cs_col s) res s'.
Proof.
  intros D. unfold end_read. set (s1 := if bool_decide (e = ErrSSEEventTooLarge) then _ else s).
  assert (D1 : delivered_s got s1) by (unfold s1; by case_match).
  assert (F : forall r, r <> None -> copied got (cs_col s) r s1).
  { intros r Hr. exists got. split_and!; [done|done|]. intros ->. done. }
  destruct e; [|by apply F|by apply F]. destruct (sc_strict (cs_col s1) && _) eqn:Es; [by apply F|].
  destruct (release_delivered _ _ D1) as (R1 & R2 & R3 & R4).
  pose proof (writeTail_delivered _ _ R1) as W. destruct (writeTail _ _) as [ok s'].
  destruct W as (W1 & W2 & W3). exists got. split_and!; [done|done|]. intros _. rewrite W2. split_and!; [done|done|done|].
  assert (E1 : cs_col s1 = cs_col s) by done. rewrite E1 in Es. destruct (sc_terminal (cs_col s)); [by left|right]. by rewrite andb_true_r in Es.
Qed.

Lemma fed_same r c c' : same_but_hold c c' -> (fed r c').1 = (fed r c).1 /\ same_but_hold (fed r c).2 (fed r c').2.
Proof.
  intros <-. unfold fed. destruct (rd_bytes r) as [|b p]; [done|]. rewrite blind_feed. destruct (feed (b :: p) (rd_now r) c') as [n c1].
  split; [done|]. apply same_but_hold_set'.
Qed.

Lemma response_same rounds c c' : same_but_hold c c' -> (response rounds c').1 = (response rounds c).1 /\ same_but_hold (response rounds c).2 (response rounds c').2.
Proof.
  revert c c'. induction rounds as [|r rounds IH]; intros c c' S; [done|]. cbn [response]. destruct (fed_same r c c' S) as [E1 E2].
  destruct (fed r c) as [g c1], (fed r c') as [g' c1']. cbn [fst snd] in *. subst g'. apply same_but_hold_fields in E2 as E3. destruct E3 as (_ & -> & _).
  case_match; [done|]. destruct (IH c1 c1' E2) as [I1 I2]. destruct (response rounds c1), (response rounds c1'). cbn [fst snd] in *. by subst.
Qed.

Lemma copy_step_spec r got s :
  running got s ->
  let '(g, c') := fed r (cs_col s) in
  match copy_step write_reply status r s with
  | (Some res, s') => copied (got ++ g) c' res s' /\ (res = None -> sc_terminal c' || bool_decide (is_Some (rd_err r)) = true)
  | (None, s') => running (got ++ g) s' /\ sc_terminal c' || bool_decide (is_Some (rd_err r)) = false /\ same_but_hold c' (cs_col s')
  end.
Proof.
  intros [D Hd Ht]. unfold copy_step, fed. destruct (rd_bytes r) as [|b p] eqn:Ep.
  { rewrite app_nil_r. destruct (rd_err r) as [e|]; [|rewrite Ht; split_and!; [by split|done|apply same_but_hold_refl]].
    pose proof (end_read_copied got e s D) as R. destruct (end_read _ _ _ _). split; [done|]. intros _. apply orb_true_r. }
  pose proof (feed_spec (b :: p) (rd_now r) (cs_col s) Hd) as F.
  destruct (feed (b :: p) (rd_now r) (cs_col s)) as [n c]. destruct F as (Fb & Fn & Ft).
  assert (D1 : delivered_s got (mkCopy c (cs_tail s) (cs_writer s))).
  { unfold delivered_s, delivered in *. simpl. assert (sc_hold c = sc_hold (cs_col s)) as -> by exact (f_equal (fun x => x.1.1.1) Fb). done. }
  pose proof (take_chunk_delivered (take (Z.to_nat n) (b :: p)) (rd_fires r) got _ D1) as T.
  destruct (take_chunk _ _ _ _ _) as [res s1]. destruct T as [S T]. pose proof S as S'. apply same_but_hold_fields in S as (Sl & St & _ & Sv & _). cbn [cs_col] in *.
  destruct res as [s2|e].
  - destruct T as (-> & D2 & Htail). destruct (sc_terminal (cs_col s1)) eqn:Et.
    + destruct (sc_terminalErr (cs_col s1)).
      * split; [|done]. exists (got ++ take (Z.to_nat n) (b :: p)). split_and!; [done|done|done].
      * destruct (release_delivered _ _ D2) as (R1 & R2 & R3 & R4). split; [|intros _; by rewrite <- St, ?Et]. exists (got ++ take (Z.to_nat n) (b :: p)).
        split_and!; [done|done|]. intros _. rewrite R3, R4, Htail by done. split_and!; [done|done|done|left; congruence].
    + rewrite <- St. cbn [orb]. destruct Ft as [Ft|[-> Fd]]; [congruence|].
      destruct (rd_err r) as [e|].
      * pose proof (end_read_copied _ e _ D2) as R. destruct (end_read _ _ _ _). split; [|done]. destruct R as (g & R1 & R2 & R3). exists g. split_and!; [done|done|].
        intros Hn. destruct (R3 Hn) as (? & ? & ? & R). split_and!; [done|done|done|]. destruct R as [R|R]; [congruence|right]. unfold sc_strict in *. by rewrite <- Sv.
      * split_and!; [|done|done]. split; [done| |done]. unfold drained in *. by rewrite Sl.
  - destruct T as (g & Hg & Dg). split; [|done]. by exists g.
Qed.

Lemma copy_loop_spec rounds got s :
  running got s ->
  let '(g, c') := response rounds (cs_col s) in
  let '(res, s') := copy_loop write_reply status rounds s in
  match res with
  | Some res => copied (got ++ g) c' res s'
  | None => running (got ++ g) s'
  end.
Proof.
  revert got s. induction rounds as [|r rounds IH]; intros got s R; cbn [response copy_loop]; [by rewrite app_nil_r|].
  pose proof (copy_step_spec r got s R) as C. destruct (fed r (cs_col s)) as [g c1]. destruct (copy_step _ _ r s) as [[res|] s1].
  - destruct C as [(x & Hx & Dx & Hn) Hs]. destruct (_ || _) eqn:Eo; [by exists x|]. destruct (response rounds c1) as [g' c2]. exists x. split_and!; [|done|].
    + etrans; [exact Hx|]. rewrite app_assoc. by eexists.
    + intros E. by specialize (Hs E).
  - destruct C as (C & -> & S). specialize (IH _ _ C). destruct (response_same rounds _ _ S) as [E1 E2].
    destruct (response rounds c1) as [g' c2], (response rounds (cs_col s1)) as [g'' c3]. cbn [fst snd] in *. subst g''.
    destruct (copy_loop _ _ rounds s1) as [[res|] s2]; [|by rewrite app_assoc]. destruct IH as (x & Hx & Dx & Hn). exists x. rewrite app_assoc. split_and!; [done|done|].
    intros E. destruct (Hn E) as (? & ? & ? & Ht). split_and!; [done|done|done|]. apply same_but_hold_fields in E2 as (_ & Et & _ & Ev & _). unfold sc_strict in *. by rewrite <- Et, <- Ev.
Qed.

(** What [delivered] means for the client. *)
Lemma delivered_writer g s :
  delivered_s g s ->
  (hd_released (sc_hold (cs_col s)) = false -> cs_writer s = w0)
  /\ gw_body (cs_writer s) `prefix_of` gw_body w0 ++ g
  /\ (hd_released (sc_hold (cs_col s)) = true -> cs_tail s = [] -> gw_broken (cs_writer s) = false ->
      gw_body (cs_writer s) = gw_body w0 ++ g).
Proof.
  intros [_ D]. destruct (hd_released _).
  - destruct D as [_ (rest & E1 & E2)]. split_and!; [done|by exists rest|]. intros _ Et Ek.
    rewrite <- E1, E2, Et by done. by rewrite app_nil_r.
  - destruct D as (-> & _ & _). split_and!; [done|by eexists|done].
Qed.

Lemma kill_hold_spec fires g s :
  delivered_s g s ->
  exists s1, delivered_s g s1 /\ same_but_hold (cs_col s) (cs_col s1) /\ cs_tail s1 = cs_tail s
    /\ (hd_released (sc_hold (cs_col s)) = true -> hd_released (sc_hold (cs_col s1)) = true)
    /\ (fires = false -> cs_col s1 = cs_col s)
    /\ hd_released (sc_hold (cs_col (kill_hold write_reply status fires s))) = hd_released (sc_hold (cs_col s1))
    /\ cs_writer (kill_hold write_reply status fires s) = cs_writer s1
    /\ same_but_hold (cs_col s) (cs_col (kill_hold write_reply status fires s)).
Proof.
  intros D. pose proof (maybe_fires_delivered fires g _ _ _ D) as F. unfold kill_hold.
  destruct (maybe_fires _ _ _ _ _) as [c w]. destruct F as (F1 & F2 & F3 & F4).
  exists (mkCopy c (cs_tail s) w). split_and!; try done.
Qed.

(** The response may be committed: a token was measured, or a lifecycle event
    was accepted and the stream need not be held for a token. *)
Definition may_commit (c : streamCollector) : Prop :=
  0 < tm_ttftMs (sc_timing c) \/ sc_committable c = true /\ sc_holdUntilToken c = false.

Definition justified (s : copy_state) : Prop := hd_released (sc_hold (cs_col s)) = true -> may_commit (cs_col s).

Lemma may_commit_grows c c' : grows c c' -> sc_holdUntilToken c' = sc_holdUntilToken c -> may_commit c -> may_commit c'.
Proof. unfold grows, may_commit. intros [G1 G2] ->. naive_solver. Qed.

Lemma writeTail_col s : cs_col (writeTail write_reply s).2 = cs_col s.
Proof. unfold writeTail. destruct (cs_tail s); [done|]. by destruct (gin_Write _ _ _). Qed.

(** Without the watch, a chunk commits the response only when that is justified. *)
Lemma take_chunk_justified chunk s :
  justified s -> justified (take_chunk write_reply status chunk (false, false) s).2.
Proof.
  intros J. unfold take_chunk. cbn [maybe_fires fst snd].
  destruct (hd_released (sc_hold (cs_col s))) eqn:Er; cbn [negb].
  - case_match; [done|]. case_match; [|done].
    pose proof (writeTail_col (mkCopy (cs_col s) (cs_tail s ++ chunk) (cs_writer s))) as W.
    destruct (writeTail _ _) as [ok s']. simpl in *. unfold justified. by rewrite W.
  - unfold holdBuffer. destruct (_ || _); [done|]. destruct (_ <? _); [done|]. cbn [negb].
    set (c := set_hold _ (cs_col s)). case_match eqn:Ec; [|intros E; simpl in E; congruence].
    intros _. cbn [snd]. assert (M : may_commit c).
    { apply orb_true_iff in Ec as [Ec|Ec]; [left; simpl in *; lia|right; bools; by destruct (sc_holdUntilToken c)]. }
    unfold release, releaseHeld. simpl. repeat case_match; simplify_eq/=; done.
Qed.

(** A strict copy that fails has committed the response only for a reason. *)
Lemma copy_step_justified r got s :
  rd_fires r = (false, false) -> running got s -> sc_strict (cs_col s) = true -> justified s ->
  let '(res, s') := copy_step write_reply status r s in
  (res <> Some None -> justified s') /\ sc_strict (cs_col s') = true /\ sc_holdUntilToken (cs_col s') = sc_holdUntilToken (cs_col s).
Proof.
  intros Hr [D Hd Ht] Hs J. unfold copy_step. destruct (rd_bytes r) as [|b p] eqn:Ep.
  - destruct (rd_err r) as [[| |]|]; simpl; rewrite ?Hs, ?Ht; done.
  - pose proof (feed_spec (b :: p) (rd_now r) (cs_col s) Hd) as F. pose proof (grows_feed (b :: p) (rd_now r) (cs_col s)) as G.
    destruct (feed (b :: p) (rd_now r) (cs_col s)) as [n c]. destruct F as (Fb & Fn & Ft). simpl in G.
    assert (Eh : sc_hold c = sc_hold (cs_col s)) by exact (f_equal (fun x => x.1.1.1) Fb).
    assert (Es : sc_strict c = true) by (rewrite <- Hs; exact (f_equal (fun x => x.1.2) Fb)).
    assert (Eu : sc_holdUntilToken c = sc_holdUntilToken (cs_col s)) by exact (f_equal snd Fb).
    assert (D1 : delivered_s got (mkCopy c (cs_tail s) (cs_writer s))).
    { unfold delivered_s, delivered in *. simpl. by rewrite Eh. }
    assert (J1 : justified (mkCopy c (cs_tail s) (cs_writer s))).
    { unfold justified. simpl. rewrite Eh. intros E. by apply (may_commit_grows (cs_col s)), J. }
    pose proof (take_chunk_delivered (take (Z.to_nat n) (b :: p)) (rd_fires r) got _ D1) as T.
    pose proof (take_chunk_justified (take (Z.to_nat n) (b :: p)) _ J1) as T2. rewrite Hr in *.
    destruct (take_chunk _ _ _ _ _) as [res s1]. destruct T as [S T]. simpl in T2.
    apply same_but_hold_fields in S as (_ & St & _ & Sv & _ & Su & _). simpl in *.
    assert (Es1 : sc_strict (cs_col s1) = true) by (unfold sc_strict in *; by rewrite Sv).
    destruct res as [s2|e]; [|by rewrite Su, Eu]. destruct T as (-> & D2 & _).
    destruct (sc_terminal (cs_col s1)) eqn:Et.
    + destruct (sc_terminalErr (cs_col s1)); [by rewrite Su, Eu|].
      destruct (release_delivered _ _ D2) as (_ & R2 & _). apply same_but_hold_fields in R2 as (_ & _ & _ & Rv & _ & Ru & _).
      unfold sc_strict in *. by rewrite Rv, Ru, Su, Eu.
    + destruct (rd_err r) as [[| |]|]; simpl; rewrite ?Es1, ?Et; simpl; by rewrite Su, Eu.
Qed.

Lemma copy_loop_justified rounds got s :
  Forall (fun r => rd_fires r = (false, false)) rounds -> running got s -> sc_strict (cs_col s) = true -> justified s ->
  let '(res, s') := copy_loop write_reply status rounds s in
  (res <> Some None -> justified s') /\ sc_holdUntilToken (cs_col s') = sc_holdUntilToken (cs_col s).
Proof.
  intros F. revert got s. induction F as [|r rounds Hr _ IH]; intros got s R Hs J; [done|]. cbn [copy_loop].
  pose proof (copy_step_justified r got s Hr R Hs J) as C. pose proof (copy_step_spec r got s R) as C'.
  destruct (fed r (cs_col s)) as [g c']. destruct (copy_step _ _ r s) as [[res|] s1]; destruct C as (C1 & C2 & C3); [done|]. destruct C' as [C' _].
  specialize (IH _ _ C' C2 (C1 ltac:(done))). destruct (copy_loop _ _ _ _) as [res s2]. by rewrite <- C3.
Qed.

(** A strict copy succeeds only at an accepted terminal event. *)
Lemma copy_step_ends r got s :
  running got s -> sc_strict (cs_col s) = true ->
  let '(res, s') := copy_step write_reply status r s in
  (res = Some None -> stream_ended (sc_validator (cs_col s')))
  /\ sc_strict (cs_col s') = true /\ sc_path (cs_col s') = sc_path (cs_col s).
Proof.
  intros [D Hd Ht] Hs. unfold copy_step. destruct (rd_bytes r) as [|b p] eqn:Ep.
  - destruct (rd_err r) as [[| |]|]; simpl; rewrite ?Hs, ?Ht; done.
  - pose proof (feed_spec (b :: p) (rd_now r) (cs_col s) Hd) as F. pose proof (feed_ends (b :: p) (rd_now r) (cs_col s)) as G.
    destruct (feed (b :: p) (rd_now r) (cs_col s)) as [n c]. destruct F as (Fb & Fn & Ft). simpl in G.
    assert (Eh : sc_hold c = sc_hold (cs_col s)) by exact (f_equal (fun x => x.1.1.1) Fb).
    assert (Es : sc_strict c = true) by (rewrite <- Hs; exact (f_equal (fun x => x.1.2) Fb)).
    assert (Eu : sc_path c = sc_path (cs_col s)) by exact (f_equal (fun x => x.1.1.2) Fb).
    assert (D1 : delivered_s got (mkCopy c (cs_tail s) (cs_writer s))).
    { unfold delivered_s, delivered in *. simpl. by rewrite Eh. }
    pose proof (take_chunk_delivered (take (Z.to_nat n) (b :: p)) (rd_fires r) got _ D1) as T.
    destruct (take_chunk _ _ _ _ _) as [res s1]. destruct T as [S T].
    apply same_but_hold_fields in S as (_ & St & _ & Sv & _). simpl in *.
    assert (Es1 : sc_strict (cs_col s1) = true) by (unfold sc_strict in *; by rewrite Sv).
    assert (Eu1 : sc_path (cs_col s1) = sc_path (cs_col s)) by (unfold sc_path in *; by rewrite Sv).
    destruct res as [s2|e]; [|by rewrite Eu1]. destruct T as (-> & D2 & _).
    destruct (sc_terminal (cs_col s1)) eqn:Et.
    + destruct (sc_terminalErr (cs_col s1)) eqn:Ex; [by rewrite Eu1|].
      destruct (release_delivered _ _ D2) as (_ & R2 & _). apply same_but_hold_fields in R2 as (_ & _ & _ & Rv & _).
      unfold sc_strict, sc_path in *. rewrite Rv, Sv in *. split_and!; [|done|done]. intros _.
      apply G; [done|by rewrite <- St|]. unfold sc_terminalErr in *. by rewrite Sv in Ex.
    + destruct (rd_err r) as [[| |]|]; simpl; rewrite ?Es1, ?Et; simpl; (split; [done|split; [first [exact Es1|done]|exact Eu1]]).
Qed.

Lemma copy_loop_ends rounds got s :
  running got s -> sc_strict (cs_col s) = true ->
  let '(res, s') := copy_loop write_reply status rounds s in
  (res = Some None -> stream_ended (sc_validator (cs_col s')))
  /\ sc_strict (cs_col s') = true /\ sc_path (cs_col s') = sc_path (cs_col s).
Proof.
  revert got s. induction rounds as [|r rounds IH]; intros got s R Hs; [done|]. cbn [copy_loop].
  pose proof (copy_step_ends r got s R Hs) as C. pose proof (copy_step_spec r got s R) as C'.
  destruct (fed r (cs_col s)) as [g c']. destruct (copy_step _ _ r s) as [[res|] s1]; destruct C as (C1 & C2 & C3); [done|]. destruct C' as [C' _].
  specialize (IH _ _ C' C2). destruct (copy_loop _ _ _ _) as [res s2]. by rewrite <- C3.
Qed.

(** The loop goes on only after reads without an error. *)
Lemma copy_loop_unfinished rounds s :
  (copy_loop write_reply status rounds s).1 = None -> Forall (fun r => rd_err r = None) rounds.
Proof.
  revert s. induction rounds as [|r rounds IH]; intros s; [constructor|]. cbn [copy_loop].
  destruct (copy_step _ _ r s) as [[res|] s1] eqn:E; [done|]. intros L. constructor; [|by eapply IH].
  unfold copy_step in E. destruct (rd_err r) as [e|]; [|done]. exfalso.
  match type of E with (let '(_, _) := ?x in _) = _ => destruct x as [[st|] s2]; [done|] end.
  by destruct (end_read _ _ e s2).
Qed.

End delivery.

(** The reads of [copySSE] are reads of the stream. *)
Lemma sse_reads_bytes clocks r :
  concat (rd_bytes <$> sse_reads clocks r) = (read_all (replicate (length clocks) bufferSize) r).1.1.
Proof.
  revert r. induction clocks as [|[now fires] clocks IH]; intros r; [done|]. cbn [sse_reads length replicate read_all].
  destruct (Read bufferSize r) as [[p [e|]] r']; cbn [fmap list_fmap concat rd_bytes]; [by rewrite app_nil_r|].
  rewrite IH. by destruct (read_all _ r') as [[? ?] ?].
Qed.

Lemma sse_reads_unfinished clocks r :
  Forall (fun x => rd_err x = None) (sse_reads clocks r) -> (read_all (replicate (length clocks) bufferSize) r).1.2 = None.
Proof.
  revert r. induction clocks as [|[now fires] clocks IH]; intros r; [done|]. cbn [sse_reads length replicate read_all].
  destruct (Read bufferSize r) as [[p [e|]] r']; intros F; inversion F as [|? ? F1 F2]; [done|]. subst.
  specialize (IH _ F2). by destruct (read_all _ r') as [[? ?] ?].
Qed.

Lemma sse_reads_fires clocks r :
  Forall (fun k => k.2 = (false, false)) clocks -> Forall (fun x => rd_fires x = (false, false)) (sse_reads clocks r).
Proof.
  intros F. revert r. induction F as [|[now fires] clocks Hk _ IH]; intros r; [constructor|]. cbn [sse_reads].
  destruct (Read bufferSize r) as [[p e] r']. constructor; [exact Hk|]. destruct e; [constructor|apply IH].
Qed.

(** A collector nothing has been fed to. *)
Record fresh (c : streamCollector) : Prop := {
  fr_lines : sc_lines c = mkLines [] 0 "" [] 0 false;
  fr_hold : sc_hold c = mkHold [] false false;
  fr_terminal : sc_terminal c = false;
  fr_ttft : tm_ttftMs (sc_timing c) = 0;
  fr_committable : sc_committable c = false
}.

Lemma newCollector_fresh path strict hold first start attempt : fresh (newCollector path strict hold first start attempt).
Proof. by split. Qed.

Lemma fresh_running w c : fresh c -> running w [] (mkCopy c [] w).
Proof. intros F. split; [split; simpl; by rewrite (fr_hold _ F)|split; simpl; by rewrite (fr_lines _ F)|apply F]. Qed.

Section theorems.
Context `{GoLib}.

(** C6: A client receives exactly the answer in the upstream's stream.  For every
    body, every failure of the client's connection and every schedule of the
    first-token watch: the answer, that is what parsing the reads finds up to the end
    of the terminal event, is a prefix of the repaired stream, and the bytes written
    are a prefix of it; as long as the response is held the writer is untouched, so
    that another upstream can be tried; and a copy that succeeds has met the
    terminal event of a validated stream and, over a connection that works, has
    written the whole answer. *)
Theorem copy_sse_delivers write_reply status body e clocks last_fires c w :
  e <> ErrSSEEventTooLarge -> fresh c ->
  let '(answer, parsed) := response (sse_reads clocks (NewSSEReader (mkBufio body e))) c in
  let '(res, s) := copySSE write_reply status body e clocks last_fires c w in
  answer `prefix_of` rendered (reframe [] (lines_of body) e).1
  /\ gw_body (cs_writer s) `prefix_of` gw_body w ++ answer
  /\ (hd_released (sc_hold (cs_col s)) = false -> cs_writer s = w)
  /\ (res = Some None -> (sc_terminal parsed = true \/ sc_strict parsed = false)
       /\ (gw_broken (cs_writer s) = false -> gw_body (cs_writer s) = gw_body w ++ answer)).
Proof.
  intros He Hf. unfold copySSE. set (rounds := sse_reads _ _). pose proof (fresh_running w c Hf) as Run.
  pose proof (copy_loop_spec write_reply status w rounds [] _ Run) as L. pose proof (response_prefix rounds c (run_drained _ _ _ Run) (run_going _ _ _ Run)) as P.
  cbn [cs_col] in L. unfold rounds in P. rewrite sse_reads_bytes in P. pose proof (read_all_new body e (replicate (length clocks) bufferSize) He) as R.
  assert (Hp : (read_all (replicate (length clocks) bufferSize) (NewSSEReader (mkBufio body e))).1.1
                 `prefix_of` rendered (reframe [] (lines_of body) e).1).
  { destruct (read_all _ _) as [[got [er|]] r']; simpl; [by destruct R as [_ ->]|by destruct R]. }
  fold rounds in P. destruct (response rounds c) as [answer parsed]. destruct (copy_loop _ _ _ _) as [res s]. cbn [fst app] in *.
  assert (exists g, g `prefix_of` answer /\ delivered_s w g s
            /\ (res = Some None -> g = answer /\ hd_released (sc_hold (cs_col s)) = true /\ cs_tail s = [] /\ (sc_terminal parsed = true \/ sc_strict parsed = false)))
    as (g & Hg & D & Hres).
  { destruct res as [res|]; [|exists answer; by destruct L].
    destruct L as (g & Hg & D & Hr). exists g. split_and!; [done|done|]. intros [=]. by apply Hr. }
  destruct (kill_hold_spec write_reply status w last_fires g s D) as (s1 & D1 & _ & Et & Er & _ & E1 & E2 & _).
  destruct (delivered_writer w g s1 D1) as (W1 & W2 & W3). rewrite E1, E2.
  split_and!; [by etrans|etrans; [exact W2|by apply prefix_app]|done|]. intros Hr. destruct (Hres Hr) as (-> & Hrel & Htail & Hend). split; [done|].
  intros Hk. apply W3; [by apply Er|by rewrite Et|done].
Qed.


(** C22: Failures before the first output stay invisible.  If the first-token
    watch does not fire and the copy of a validated stream fails before a token
    was measured, while the stream is held for its first token or no lifecycle
    event was accepted, the client's writer is exactly as before. *)
Theorem held_until_output write_reply status body e clocks c w :
  fresh c -> sc_strict c = true -> Forall (fun k => k.2 = (false, false)) clocks ->
  let '(res, s) := copySSE write_reply status body e clocks false c w in
  res <> Some None -> tm_ttftMs (sc_timing (cs_col s)) = 0 ->
  sc_holdUntilToken c = true \/ sc_committable (cs_col s) = false ->
  cs_writer s = w.
Proof.
  intros Hf Hs Hk. unfold copySSE. pose proof (fresh_running w c Hf) as R.
  set (rounds := sse_reads clocks _). assert (Hrf : Forall (fun x => rd_fires x = (false, false)) rounds) by by apply sse_reads_fires.
  pose proof (copy_loop_spec write_reply status w rounds [] _ R) as L.
  pose proof (copy_loop_justified write_reply status w rounds [] _ Hrf R Hs) as J.
  destruct (response _ _) as [g0 c0]. destruct (copy_loop _ _ _ _) as [res s]. destruct J as [J1 J2].
  { intros E. simpl in E. by rewrite (fr_hold _ Hf) in E. }
  assert (D : exists g, delivered_s w g s) by (destruct res; [destruct L as (g & _ & D & _); by exists g|by destruct L; eexists]).
  destruct D as [g D]. destruct (kill_hold_spec write_reply status w false g s D) as (s1 & D1 & _ & _ & _ & Ec & _ & E2 & Eh).
  apply same_but_hold_fields in Eh as (_ & _ & Et & _ & Em & _). rewrite E2, Et, Em. specialize (Ec eq_refl).
  intros Hres Hz Hcase. apply (proj1 (delivered_writer w g s1 D1)). rewrite Ec.
  destruct (hd_released (sc_hold (cs_col s))) eqn:Er; [|done]. exfalso. specialize (J1 Hres Er).
  simpl in J2. destruct J1 as [J1|[J1 J3]]; [lia|]. destruct Hcase; congruence.
Qed.

(** C17: A stream counts as a success only after a valid end.  When the copy of a
    strictly validated stream of one of the text APIs returns without an error,
    the last event was a terminal event the validator accepted; if it is [DONE],
    or its members are named as the protocol names them, then the stream carried
    a valid response: a completed and well-formed response object, chat deltas
    with a finish reason, or a message. *)
Theorem success_is_validated write_reply status body e clocks last_fires c w :
  fresh c -> sc_strict c = true -> one_of (sc_path c) text_apis = true ->
  let '(res, s) := copySSE write_reply status body e clocks last_fires c w in
  res = Some None ->
  exists name data v0, sc_validator (cs_col s) = Event name data v0 /\ sv_Err (Event name data v0) = None
    /\ (data = "[DONE]" \/ one_of name ["message_stop"; "response.completed"] = true)
    /\ (data = "[DONE]" \/ plain data ->
        sv_SawValid (Event name data v0) = true
        /\ (sc_path c = "/v1/chat/completions" -> sv_ChatFinished (Event name data v0) = true)).
Proof.
  intros Hf Hs Hp. unfold copySSE. pose proof (fresh_running w c Hf) as R. set (rounds := sse_reads clocks _).
  pose proof (copy_loop_spec write_reply status w rounds [] _ R) as L.
  pose proof (copy_loop_ends write_reply status w rounds [] _ R Hs) as E.
  destruct (response _ _) as [g0 c0]. destruct (copy_loop _ _ _ _) as [res s]. destruct E as (E1 & E2 & E3). intros ->. simpl in L, E3.
  destruct L as (g & _ & D & _).
  destruct (kill_hold_spec write_reply status w last_fires g s D) as (s1 & _ & _ & _ & _ & _ & _ & _ & Eh).
  apply same_but_hold_fields in Eh as (_ & _ & _ & Ev & _). rewrite Ev.
  destruct (E1 eq_refl) as (name & data & v0 & E4 & E5 & E6). exists name, data, v0. rewrite E4 in *.
  destruct (Event_path_strict name data v0) as [P1 P2]. unfold sc_strict, sc_path in *. rewrite E4 in E2, E3.
  split_and!; [done|done|by destruct E6 as [?|(_ & ? & _)]; [left|right]|].
  assert (Hpv : sv_Path v0 = sv_Path (sc_validator c)) by congruence.
  assert (Hsv : sv_Strict v0 = true) by congruence.
  intros Hpl. rewrite <- Hpv. apply Event_terminal; [done|by rewrite Hpv|done|].
  destruct E6 as [?|(Hb & Hn & event & En)]; [by left|].
  destruct (decide (data = "[DONE]")) as [?|Hd]; [by left|]. destruct Hpl as [?|Hpl]; [done|]. right. split; [done|].
  destruct (Event_object name data v0 Hsv Hd Hb E5) as [ms Em]. exists ms. split; [done|].
  by rewrite (validator_name_plain _ event data).
Qed.

End theorems.

(** ** Witnesses *)

Definition works : nat -> option nat := fun _ => None.

Definition demo_chat_col : streamCollector := demo_collector "/v1/chat/completions".

Lemma demo_chat_fresh : fresh demo_chat_col.
Proof. by split. Qed.

Lemma copy_sse_delivers_witness :
  let '(answer, parsed) := response (sse_reads (demo_clocks 20) (NewSSEReader (mkBufio (demo_chat ++ js "junk") EOF))) demo_chat_col in
  let '(res, s) := copySSE works 200 (demo_chat ++ js "junk") EOF (demo_clocks 20) false demo_chat_col newWriter in
  answer = demo_chat /\ res = Some None /\ gw_body (cs_writer s) = answer.
Proof.
  pose proof (copy_sse_delivers works 200 (demo_chat ++ js "junk") EOF (demo_clocks 20) false demo_chat_col newWriter ltac:(discriminate) demo_chat_fresh) as H.
  destruct (response _ _) as [answer parsed] eqn:Ea. destruct (copySSE _ _ _ _ _ _ _ _) as [res s] eqn:E.
  assert (Er : res = Some None) by (change res with (fst (res, s)); rewrite <- E; vm_compute; reflexivity).
  split; [change answer with (fst (answer, parsed)); rewrite <- Ea; vm_compute; reflexivity|]. split; [exact Er|].
  destruct H as (_ & _ & _ & H). destruct (H Er) as [_ Hb]. apply Hb. change s with (snd (res, s)). rewrite <- E. vm_compute. reflexivity.
Defined.


(** A chat stream that breaks off before its first token. *)
Definition demo_cut : list Z := event_text ["data: {'choices':[{'delta':{'role':'assistant'}}]}"].

Lemma held_until_output_witness :
  let '(res, s) := copySSE works 200 demo_cut EOF (demo_clocks 9) false demo_chat_col newWriter in
  res = Some (Some ErrNoTerminal) /\ cs_writer s = newWriter.
Proof.
  pose proof (held_until_output works 200 demo_cut EOF (demo_clocks 9) demo_chat_col newWriter
                demo_chat_fresh eq_refl ltac:(vm_compute; by repeat constructor)) as H.
  destruct (copySSE works 200 demo_cut EOF (demo_clocks 9) false demo_chat_col newWriter) as [res s] eqn:E.
  assert (E1 : res = Some (Some ErrNoTerminal)) by (change res with (fst (res, s)); rewrite <- E; vm_compute; reflexivity).
  split; [exact E1|]. apply H.
  - rewrite E1. discriminate.
  - change s with (snd (res, s)). rewrite <- E. vm_compute. reflexivity.
  - right. change s with (snd (res, s)). rewrite <- E. vm_compute. reflexivity.
Defined.

Lemma success_is_validated_witness :
  let '(res, s) := copySSE works 200 demo_chat EOF (demo_clocks 20) false demo_chat_col newWriter in
  exists name data v0, sc_validator (cs_col s) = Event name data v0 /\ sv_Err (Event name data v0) = None
    /\ (data = "[DONE]" \/ one_of name ["message_stop"; "response.completed"] = true)
    /\ (data = "[DONE]" \/ plain data ->
        sv_SawValid (Event name data v0) = true
        /\ (sc_path demo_chat_col = "/v1/chat/completions" -> sv_ChatFinished (Event name data v0) = true)).
Proof.
  pose proof (success_is_validated works 200 demo_chat EOF (demo_clocks 20) false demo_chat_col newWriter
                demo_chat_fresh eq_refl eq_refl) as H.
  destruct (copySSE works 200 demo_chat EOF (demo_clocks 20) false demo_chat_col newWriter) as [res s] eqn:E.
  apply H. change res with (fst (res, s)). rewrite <- E. vm_compute. reflexivity.
Defined.

(** ** Two flaws *)

Lemma feed_hold p now c : sc_hold (feed p now c).2 = sc_hold c.
Proof.
  assert (E : c = set_hold (sc_hold c) c) by (by destruct c). rewrite E at 1. by rewrite blind_feed.
Qed.

Lemma feed_sees b p now c : sc_sawBytes (feed (b :: p) now c).2 = true.
Proof.
  unfold feed. assert (L : (0 <? zlen (b :: p)) = true) by (apply Z.ltb_lt; unfold zlen; cbn [length]; lia). rewrite L.
  match goal with |- context [feed_lines ?f now ?c0] =>
    pose proof (grows_feed_lines f now c0) as (_ & _ & G); specialize (G eq_refl); destruct (feed_lines f now c0) as [c1 d] end.
  exact G.
Qed.

(** The rounds of a copy with the watch firing just before the look at the hold instead
    of just after it. *)
Definition earlier (r : copy_round) : copy_round := mkRound (rd_bytes r) (rd_err r) (rd_now r) (true, false).


(** A stream whose first chunk measures no token, with the race in its second round. *)
Definition demo_slow : list Z := event_text ["data: {'choices':[{'delta':{'role':'assistant'}}]}"].
Definition demo_held : copy_state := mkCopy demo_chat_col [] newWriter.
Definition racing_round : copy_round := mkRound demo_slow None (2 * Millisecond) (false, true).


(** The same race inside a run of copySSE on a stream that is otherwise delivered. *)
Example race_in_stream :
  let body := demo_slow ++ demo_chat in
  let race := (Millisecond, (false, false)) :: (2 * Millisecond, (false, true)) :: demo_clocks 20 in
  let early := (Millisecond, (false, false)) :: (2 * Millisecond, (true, false)) :: demo_clocks 20 in
  (copySSE works 200 body EOF race false demo_chat_col newWriter).1 = Some (Some ErrPrefixLimit)
  /\ (copySSE works 200 body EOF early false demo_chat_col newWriter).1 = Some None.
Proof. vm_compute. done. Qed.

(** A Responses stream whose only event is accepted under one name and dispatched
    under another: the validator reads the member [type], the collector also [Type]. *)
Example variant_name_ends_stream :
  let body := event_text ["data: {'type':'response.created','Type':'response.completed'}"] in
  let '(res, s) := copySSE works 200 body EOF (demo_clocks 9) false (demo_collector "/v1/responses") newWriter in
  res = Some None /\ sv_SawValid (sc_validator (cs_col s)) = false.
Proof. by vm_compute. Qed.
