(* ===== verification/GatewayBase.v ===== *)
(** * Gateway: authentication, limits, failures (handler/gateway.go)

    The parts of the proxy that look at one request or one upstream answer: the
    consumer's limits, the error body, the classification of failures. *)

From S2P Require Import Prelude GoFloat GoString Json JsonDecode Settings Domain Capacity Upstream Sse Collector.

(** ** Error responses *)

(** [gin.H{"message", "type", "code"}] as encoding/json writes it, keys sorted. *)
Definition error_fields (code message typ : string) : list Z :=
  [123] ++ json_string "code" ++ [58] ++ json_string code ++ [44] ++ json_string "message" ++ [58] ++ json_string message
  ++ [44] ++ json_string "type" ++ [58] ++ json_string typ ++ [125].

Definition error_body (path typ message code : string) : list Z :=
  if HasPrefix path "/v1/messages"
  then [123] ++ json_string "error" ++ [58] ++ error_fields code message typ ++ [44] ++ json_string "type" ++ [58]
       ++ json_string "error" ++ [125]
  else [123] ++ json_string "error" ++ [58] ++ error_fields code message typ ++ [125].

(** [c.JSON(status, body)]: the status counts unless the header is out already. *)
Definition gin_JSON (write_reply : nat -> option nat) (status : Z) (body : list Z) (w : ginWriter) : ginWriter :=
  let w := if gw_written w then w
           else mkWriter status (gw_headers w) (gw_written w) (gw_body w) (gw_broken w) (gw_writes w) in
  (gin_Write write_reply body w).2.

Definition gatewayError (write_reply : nat -> option nat) (path : string) (status : Z) (typ message : string) (code : option string)
    (w : ginWriter) : ginWriter :=
  gin_JSON write_reply status (error_body path typ message (default typ code)) w.

(** ** Consumer limits *)

Definition rpmWindows : Type := gmap Z (list time).

(** [rpmLimiter.Allow]: hits of the last minute, the new one included if allowed. *)
Definition Allow (id rpm : Z) (now : time) (windows : rpmWindows) : bool * rpmWindows :=
  if rpm <=? 0 then (true, windows)
  else
    let alive := filter (fun t => now - Minute < t) (default [] (windows !! id)) in
    if rpm <=? Z.of_nat (length alive) then (false, <[id := alive]> windows)
    else (true, <[id := alive ++ [now]]> windows).

Definition concCounts : Type := gmap Z Z.

Definition conc_Acquire (id limit : Z) (inflight : concCounts) : bool * concCounts :=
  if limit <=? 0 then (true, inflight)
  else if limit <=? default 0 (inflight !! id) then (false, inflight)
  else (true, <[id := default 0 (inflight !! id) + 1]> inflight).

Definition conc_Release (id limit : Z) (inflight : concCounts) : concCounts :=
  if limit <=? 0 then inflight
  else
    let n := default 0 (inflight !! id) - 1 in
    if n <=? 0 then delete id inflight else <[id := n]> inflight.

Record ConsumerKey := mkConsumer {
  ck_ID : Z;
  ck_Key : string;
  ck_Status : string;
  ck_QuotaUSD : f64;
  ck_QuotaUsed : f64;
  ck_RPM : Z
}.

(** [authConsumer]: the key, or the status, type and message of the refusal.
    [find] is the lookup by key. *)
Definition authConsumer (find : string -> option ConsumerKey) (raw : string) (enforceLimits : bool) (now : time)
    (windows : rpmWindows) : result (Z * string * string) ConsumerKey * rpmWindows :=
  if String.eqb raw "" then (Err (401, "authentication_error", "Missing API key"), windows)
  else match find raw with
       | None => (Err (401, "authentication_error", "Invalid API key"), windows)
       | Some k =>
           if negb (String.eqb (ck_Status k) StatusEnabled) then (Err (403, "permission_error", "API key disabled"), windows)
           else if enforceLimits then
             if fgt (ck_QuotaUSD k) f0 && fge (ck_QuotaUsed k) (ck_QuotaUSD k)
             then (Err (429, "rate_limit_error", "Quota exhausted"), windows)
             else if 0 <? ck_RPM k then
               let '(ok, windows) := Allow (ck_ID k) (ck_RPM k) now windows in
               if ok then (Ok k, windows) else (Err (429, "rate_limit_error", "RPM exceeded"), windows)
             else (Ok k, windows)
           else (Ok k, windows)
       end.

(** ** Outcomes of an attempt *)

Record forwardOutcome := mkForward {
  fo_neutral : bool;
  fo_retryAfter : duration;
  fo_validSuccess : bool;
  fo_responseID : string;
  fo_ok : bool;
  fo_failOver : bool;
  fo_retrySame : bool;
  fo_capacityBusy : bool;
  fo_status : Z;
  fo_scope : string;
  fo_action : string;
  fo_msg : string
}.

Definition zeroOutcome : forwardOutcome := mkForward false 0 false "" false false false false 0 "" "" "".

Definition failureScopeKey : string := "key".
Definition failureScopeKeyModel : string := "key_model".
Definition failureScopeProvider : string := "provider".
Definition ProbeSkipDisabled : string := "probe_disabled".

(** [forwardOutcome{failOver: true, retrySame, status, scope, action, retryAfter, msg}]. *)
Definition failure_of (retrySame : bool) (status : Z) (scope action : string) (retryAfter : duration) (msg : string) : forwardOutcome :=
  mkForward false retryAfter false "" false true retrySame false status scope action msg.

(** [forwardOutcome{msg}]. *)
Definition broken_off (msg : string) : forwardOutcome := mkForward false 0 false "" false false false false 0 "" "" msg.

Definition quotaErrorCodes : list string :=
  ["insufficient_user_quota"; "pre_consume_token_quota_failed"; "insufficient_quota"].

Definition isQuotaExhaustedBody (body : list Z) : bool :=
  String.eqb (Kind (ParseError body)) "quota" ||
  match parse body ≫= struct_members with
  | None => false
  | Some ms =>
      let '(err, ok1) := struct_field "error" ms in
      let '(code, ok2) := any_field "code" err in
      let '(typ, ok3) := string_field "type" err in
      let '(_, ok4) := string_field "message" err in
      ok1 && ok2 && ok3 && ok4 &&
      (one_of (default "" (as_text code)) quotaErrorCodes || one_of typ quotaErrorCodes)
  end.

Definition unsupportedCapability (body : list Z) : bool := String.eqb (Kind (ParseError body)) "capability".

Definition authenticationFailure (body : list Z) : bool :=
  let kind := Kind (ParseError body) in
  String.eqb kind "authentication" || String.eqb kind "credential_disabled".

Definition classifyHTTPFailure (code : Z) (body : list Z) : forwardOutcome :=
  if ((code =? 401) || (code =? 403)) && String.eqb (Kind (ParseError body)) "credential_disabled"
  then failure_of false code failureScopeKey ActionCredentialDisabled Hour ""
  else if (code =? 402) || (code =? 403) && isQuotaExhaustedBody body
  then failure_of false code failureScopeKey ActionKeyQuotaExhausted (15 * Minute) ""
  else if (code =? 401) || (code =? 403) && authenticationFailure body
  then failure_of false code failureScopeKey "cooldown_key" 0 ""
  else if (code =? 429) && isQuotaExhaustedBody body
  then failure_of false code failureScopeKeyModel ActionQuotaRateLimited 0 ""
  else if code =? 429
  then failure_of false code failureScopeKeyModel "cooldown_key_model" 0 ""
  else if ((code =? 400) || (code =? 404) || (code =? 503)) && unsupportedCapability body
  then failure_of false code failureScopeKeyModel "capability_unsupported" (15 * Minute) ""
  else if (code =? 403) || (code =? 404) || (code =? 529) || (500 <=? code)
  then failure_of (500 <=? code) code failureScopeKeyModel "request_scope_failure" 0 ""
  else mkForward ((400 <=? code) && (code <? 500)) 0 false "" false false false false code "" "request_rejected" "".

Definition shouldFailoverStatus (code : Z) : bool := fo_failOver (classifyHTTPFailure code []).

Definition isTransientFailureAction (action : string) : bool :=
  one_of action ["first_token_timeout"; "transport_failure"; "upstream_timeout"].

(** [truncateErr]: at most 1000 bytes of valid text without NUL. *)
Definition truncateErr (s : string) : string := of_bytes (drop_nul (to_valid_utf8 0 (take 1000 (bytes s)))).

Definition isTextAPI (path : string) : bool :=
  String.eqb path "/v1/responses" || String.eqb path "/v1/chat/completions" || String.eqb path "/v1/messages".

Definition isJSONContentType `{GoLib} (ct : string) : bool :=
  match ParseMediaType ct with Some mt => String.eqb mt "application/json" | None => false end.

(** The result a [RequestAttempt] is recorded with. *)
Definition attempt_result (sent cancelled : bool) (out : forwardOutcome) : string :=
  if String.eqb (fo_action out) ProbeSkipDisabled then ProbeSkipDisabled
  else if fo_neutral out then "request_rejected"
  else if fo_capacityBusy out then "capacity_rejected"
  else if cancelled && negb (fo_validSuccess out) then "client_cancelled"
  else if negb sent then "local_failure"
  else if fo_validSuccess out then "success"
  else "upstream_failure".

Definition shouldCountScore (result failureAction : string) : bool :=
  String.eqb result "success" || negb (IsAvailabilityFailureAction failureAction).

(** Whether an attempt enters the score windows: only one whose body was read. *)
Definition counts_in_windows (sent cancelled read : bool) (out : forwardOutcome) : bool :=
  let result := attempt_result sent cancelled out in
  read && (String.eqb result "success" || String.eqb result "upstream_failure") && shouldCountScore result (fo_action out).

(** ** Attempt phases (attempt_capture.go) *)

Definition phaseRank (s : string) : Z :=
  if String.eqb s "connecting" then 1 else if String.eqb s "dns" then 2 else if String.eqb s "tls" then 3
  else if String.eqb s "sending_request" then 4 else if String.eqb s "awaiting_headers" then 5
  else if String.eqb s "awaiting_first_output" then 6 else if String.eqb s "streaming" then 7
  else if String.eqb s "compacting" then 8 else 0.

Definition set_phase (s phase : string) : string := if phaseRank phase <=? phaseRank s then s else phase.

(** ** Examples *)

Example classified :
  map (fun x : Z * string => let o := classifyHTTPFailure x.1 (js x.2) in (fo_failOver o, fo_retrySame o, fo_scope o))
    [(429, "{}"); (403, "{'error':{'type':'insufficient_quota'}}"); (500, ""); (400, "{}"); (401, "")]
  = [(true, false, "key_model"); (true, false, "key"); (true, true, "key_model"); (false, false, ""); (true, false, "key")].
Proof. by vm_compute. Qed.
