(* ===== verification/LiveLog.v ===== *)
(** * The request log (handler/gateway.go: liveLog, writeLog, persistLog, logUpdates, finishLog)

    Each write to a request's log gets the next revision and carries everything
    written so far; all but the last are saved by goroutines of their own, so they
    reach the database in any order or not at all.  [persistLog] updates the row
    only while it is in flight and older than the write.  A row is a map from
    column to value. *)

From S2P Require Import Prelude GoFloat GoString Settings Domain Upstream GatewayBase.

(** ** Columns *)

(** The JSON of the selection trace is kept as the list it encodes. *)
Record selectionTraceEvent := mkTraceEvent {
  te_HasDecision : bool;
  te_KeyID : Z;
  te_KeyName : string;
  te_UpstreamName : string;
  te_Result : string;
  te_Reason : string;
  te_RetryCount : Z;
  te_At : time
}.

Inductive logval : Type :=
| VStr (s : string)
| VInt (n : Z)
| VBool (b : bool)
| VCost (c : option f64)
| VTime (t : time)
| VNull
| VTrace (l : list selectionTraceEvent).

Abbreviation Updates := (gmap string logval).

Definition in_flight (row : Updates) : bool :=
  match row !! "in_flight" with Some (VBool b) => b | _ => false end.
Definition log_revision (row : Updates) : Z :=
  match row !! "log_revision" with Some (VInt n) => n | _ => 0 end.

(** ** What a request's log records *)

Record ioCapture := mkIO {
  ic_TTFTStatus : string;
  ic_TTFTEvent : string;
  ic_FirstEventMs : Z;
  ic_StartedAt : time;
  ic_ReqStream : bool;
  ic_StreamKnown : bool;
  ic_ReqCompaction : bool;
  ic_ReqHeaders : string;
  ic_ReqBody : string;
  ic_ReqTrunc : bool;
  ic_RespHeaders : string;
  ic_RespBody : string;
  ic_RespTrunc : bool
}.

Record logIdentity := mkIdentity {
  li_pk : option Z;
  li_up : option Z;
  li_protocol : string;
  li_model : string;
  li_path : string;
  li_reqID : string;
  li_clientIP : string
}.

Definition log_ttft_status (snap : ioCapture) (ttft : Z) (inFlight success : bool) : string :=
  if String.eqb (ic_TTFTStatus snap) "" then
    if 0 <? ttft then "measured" else if inFlight then "pending" else if success then "no_output" else "interrupted"
  else ic_TTFTStatus snap.

Definition put_if (b : bool) (kvs : list (string * logval)) : list (string * logval) := if b then kvs else [].
Definition put_id (k : string) (id : option Z) : list (string * logval) := match id with Some n => [(k, VInt n)] | None => [] end.

Definition logUpdates (ids : logIdentity) (status : Z) (success : bool) (usage : TokenUsage) (ttft dur : Z) (errMsg : string)
    (snap : ioCapture) (inFlight : bool) : Updates :=
  list_to_map (
    [("ttft_status", VStr (log_ttft_status snap ttft inFlight success)); ("protocol", VStr (li_protocol ids));
     ("model", VStr (li_model ids)); ("path", VStr (li_path ids)); ("request_id", VStr (li_reqID ids));
     ("client_ip", VStr (li_clientIP ids)); ("status_code", VInt status); ("success", VBool success);
     ("input_tokens", VInt (tu_InputTokens usage)); ("output_tokens", VInt (tu_OutputTokens usage));
     ("cache_read_tokens", VInt (tu_CacheReadTokens usage)); ("cache_creation_tokens", VInt (tu_CacheCreationTokens usage));
     ("duration_ms", VInt dur); ("ttft_ms", VInt ttft); ("cost_usd", VCost (tu_CostUSD usage)); ("in_flight", VBool inFlight);
     ("error_message", VStr (truncateErr errMsg))]
    ++ put_if (negb (String.eqb (ic_TTFTEvent snap) "")) [("ttft_event", VStr (ic_TTFTEvent snap))]
    ++ put_if (0 <? ic_FirstEventMs snap) [("first_event_ms", VInt (ic_FirstEventMs snap))]
    ++ put_if (negb (String.eqb (ic_ReqHeaders snap) ""))
         [("request_headers", VStr (ic_ReqHeaders snap)); ("request_body", VStr (ic_ReqBody snap)); ("request_body_trunc", VBool (ic_ReqTrunc snap))]
    ++ put_if (negb (String.eqb (ic_RespHeaders snap) "") || negb (String.eqb (ic_RespBody snap) ""))
         [("response_headers", VStr (ic_RespHeaders snap)); ("response_body", VStr (ic_RespBody snap)); ("response_body_trunc", VBool (ic_RespTrunc snap))]
    ++ put_id "platform_key_id" (li_pk ids) ++ put_id "upstream_id" (li_up ids)).

(** The last write of [finishLog]; [detail] is the encoded cost receipt. *)
Definition finish_updates (ids : logIdentity) (status : Z) (success : bool) (usage : TokenUsage) (ttft dur : Z) (errMsg : string)
    (snap : ioCapture) (detail : option string) (compaction : bool) (now : time) : Updates :=
  list_to_map (
    [("completed_at", VTime now); ("stream", VBool (ic_ReqStream snap)); ("stream_known", VBool (ic_StreamKnown snap));
     ("compaction", VBool (compaction || ic_ReqCompaction snap))]
    ++ put_if success [("failure_scope", VStr ""); ("failure_action", VStr "")]
    ++ match detail with Some d => [("cost_detail", VStr d)] | None => [] end)
  ∪ logUpdates ids status success usage ttft dur errMsg snap false.

(** [interrupted] of [finishLog]. *)
Definition log_interrupted (success : bool) (errMsg : string) : bool :=
  negb success && (Contains (ToLower errMsg) "cancel" || Contains (ToLower errMsg) "interrupt").

(** [beginLog]: the row as it is created. *)
Definition beginLog (consumer : option Z) (ids : logIdentity) (snap : ioCapture) : Updates :=
  list_to_map (
    [("request_id", VStr (li_reqID ids)); ("protocol", VStr (li_protocol ids)); ("model", VStr (li_model ids)); ("path", VStr (li_path ids));
     ("client_ip", VStr (li_clientIP ids)); ("in_flight", VBool true); ("ttft_status", VStr "pending"); ("stream", VBool (ic_ReqStream snap));
     ("stream_known", VBool (ic_StreamKnown snap)); ("created_at", VTime (ic_StartedAt snap)); ("request_headers", VStr (ic_ReqHeaders snap));
     ("request_body", VStr (ic_ReqBody snap)); ("request_body_trunc", VBool (ic_ReqTrunc snap))]
    ++ put_id "consumer_key_id" consumer).

(** ** The live log *)

Record liveLog := mkLive {
  lv_lastFlush : option time;
  lv_ttftSent : bool;
  lv_revision : Z;
  lv_closed : bool;
  lv_updates : Updates;
  lv_trace : list selectionTraceEvent
}.

Definition newLive : liveLog := mkLive None false 0 false ∅ [].

(** [writeLog] up to the save: the new log, and the revision and snapshot to save. *)
Definition writeLog (lg : liveLog) (updates : Updates) (final : bool) : liveLog * option (Z * Updates) :=
  if bool_decide (updates = ∅) || lv_closed lg then (lg, None)
  else
    let revision := lv_revision lg + 1 in
    let all := updates ∪ lv_updates lg in
    (mkLive (lv_lastFlush lg) (lv_ttftSent lg) revision final all (lv_trace lg),
     Some (revision, <["log_revision" := VInt revision]> all)).

(** What the database answers to an attempt to save: an error may come before or
    after the update took effect, or from the query that checks a final update. *)
Inductive db_reply : Type := DbOk | DbError (applied : bool) | DbReadError.

(** [persistLog]: the row afterwards, and whether it reports success. *)
Definition persistLog (row : Updates) (revision : Z) (updates : Updates) (reply : db_reply) : Updates * bool :=
  let hit := in_flight row && (log_revision row <? revision) in
  let row' := if hit then updates ∪ row else row in
  let terminal := match updates !! "in_flight" with Some (VBool b) => negb b | _ => false end in
  match reply with
  | DbError applied => (if applied then row' else row, false)
  | DbReadError => (row', negb (terminal && negb hit))
  | DbOk => (row', if terminal && negb hit then negb (in_flight row') else true)
  end.

Definition set_trace (lg : liveLog) (trace : list selectionTraceEvent) (updates : Updates) : liveLog :=
  mkLive (lv_lastFlush lg) (lv_ttftSent lg) (lv_revision lg) (lv_closed lg) updates trace.

(** The trace after an event: a retry or selection of the same key is folded into
    the last entry. *)
Definition add_event (trace : list selectionTraceEvent) (keyID : Z) (name provider result reason : string) (now : time)
    : list selectionTraceEvent :=
  match reverse trace with
  | e :: before =>
      if (te_KeyID e =? keyID) && String.eqb (te_KeyName e) name && one_of result ["retry"; "selected"] then
        reverse before ++ [mkTraceEvent (te_HasDecision e) (te_KeyID e) (te_KeyName e) (te_UpstreamName e) result
                             (if te_HasDecision e then te_Reason e else reason)
                             (if String.eqb result "retry" then te_RetryCount e + 1 else te_RetryCount e) (te_At e)]
      else trace ++ [mkTraceEvent false keyID name provider result reason 0 now]
  | [] => [mkTraceEvent false keyID name provider result reason 0 now]
  end.

Definition traceEvent (lg : liveLog) (pk : option PlatformKey) (up : option Upstream) (result reason : string) (now : time)
    : liveLog * option (Z * Updates) :=
  let trace := add_event (lv_trace lg) (match pk with Some k => pk_ID k | None => 0 end) (match pk with Some k => pk_Name k | None => "" end)
                 (match up with Some u => up_Name u | None => "" end) result reason now in
  let u := <["selection_trace" := VTrace trace]> ∅ in
  writeLog (set_trace lg trace (u ∪ lv_updates lg)) u false.

(** [recordDecision]: the decision is attached to the last entry.  Of the decision the
    trace keeps here that it is there, and its reason. *)
Definition with_decision_note (reason : string) (trace : list selectionTraceEvent) : list selectionTraceEvent :=
  match reverse trace with
  | e :: before => reverse before ++ [mkTraceEvent true (te_KeyID e) (te_KeyName e) (te_UpstreamName e) (te_Result e) reason
                                        (te_RetryCount e) (te_At e)]
  | [] => []
  end.

Definition recordDecision (lg : liveLog) (selectedKeyID : Z) (reason : string) : liveLog * option (Z * Updates) :=
  if (selectedKeyID =? 0) && negb (String.eqb reason "no_available_route") then (lg, None)
  else
    let trace := with_decision_note reason (lv_trace lg) in
    writeLog (set_trace lg trace (lv_updates lg)) (<["selection_trace" := VTrace trace]> ∅) false.

(** The first write of [proxy]. *)
Definition origin_updates (dashUUID source : string) (groupID : option Z) (groupName : string) (probeRule : option string) : Updates :=
  list_to_map [("dash_uuid", VStr dashUUID); ("source", VStr source);
    ("route_group_id", match groupID with Some n => VInt n | None => VNull end); ("route_group_name", VStr groupName);
    ("external_probe_rule", match probeRule with Some r => VStr r | None => VNull end)].

Definition markFailure (lg : liveLog) (scope action : string) : liveLog * option (Z * Updates) :=
  if String.eqb scope "" && String.eqb action "" then (lg, None)
  else writeLog lg (<["failure_scope" := VStr scope]> (<["failure_action" := VStr action]> ∅)) false.

Definition attachRoute (lg : liveLog) (pk up : option Z) : liveLog * option (Z * Updates) :=
  writeLog lg (list_to_map (put_id "platform_key_id" pk ++ put_id "upstream_id" up)) false.

(** [patchLog]: at most every 500 ms unless forced or the first token is new. *)
Definition patchLog (lg : liveLog) (ids : logIdentity) (status : Z) (success : bool) (usage : TokenUsage) (ttft dur : Z) (errMsg : string)
    (snap : ioCapture) (inFlight force : bool) (now : time) : liveLog * option (Z * Updates) :=
  let force := force || (0 <? ttft) && negb (lv_ttftSent lg) in
  if negb force && match lv_lastFlush lg with Some t => now - t <? 500 * Millisecond | None => false end then (lg, None)
  else
    let lg := mkLive (Some now) (lv_ttftSent lg || (0 <? ttft)) (lv_revision lg) (lv_closed lg) (lv_updates lg) (lv_trace lg) in
    writeLog lg (logUpdates ids status success usage ttft dur errMsg snap inFlight) false.

(** [finishLog] of a log that has a row. *)
Definition finishLog (lg : liveLog) (ids : logIdentity) (status : Z) (success : bool) (usage : TokenUsage) (ttft dur : Z) (errMsg : string)
    (snap : ioCapture) (detail : option string) (compaction : bool) (now : time) : liveLog * option (Z * Updates) :=
  writeLog lg (finish_updates ids status success usage ttft dur errMsg snap detail compaction now) true.
