(* ===== verification/LiveLogProps.v ===== *)
(** * Writes of the request log, in any order

    The log as a transition system: the handler's writes, the goroutines that save
    them whenever they are scheduled, the tries of the final save, and a database
    that may fail.  However they interleave, the row shows a prefix of the writes,
    applied in order, and after a successful final save all of them. *)

From S2P Require Import Prelude GoFloat GoString Settings Domain Upstream GatewayBase LiveLog.

(** ** Calls of the handler while the request is in flight *)

(** All of them are made by the request's own goroutine, so no other call comes between
    the two critical sections of [traceEvent] or of [recordDecision]. *)
Inductive log_op : Type :=
| OpOrigin (dashUUID source : string) (groupID : option Z) (groupName : string) (probeRule : option string)
| OpDecision (selectedKeyID : Z) (reason : string)
| OpTrace (pk : option PlatformKey) (up : option Upstream) (result reason : string) (now : time)
| OpFailure (scope action : string)
| OpRoute (pk up : option Z)
| OpPatch (ids : logIdentity) (status : Z) (success : bool) (usage : TokenUsage) (ttft dur : Z) (msg : string) (snap : ioCapture)
    (force : bool) (now : time).

Definition run_op (lg : liveLog) (op : log_op) : liveLog * option (Z * Updates) :=
  match op with
  | OpOrigin dashUUID source groupID groupName probeRule => writeLog lg (origin_updates dashUUID source groupID groupName probeRule) false
  | OpDecision selectedKeyID reason => recordDecision lg selectedKeyID reason
  | OpTrace pk up result reason now => traceEvent lg pk up result reason now
  | OpFailure scope action => markFailure lg scope action
  | OpRoute pk up => attachRoute lg pk up
  | OpPatch ids status success usage ttft dur msg snap force now =>
      patchLog lg ids status success usage ttft dur msg snap true force now
  end.

(** What a call writes. *)
Definition op_updates (lg : liveLog) (op : log_op) : Updates :=
  match op with
  | OpOrigin dashUUID source groupID groupName probeRule => origin_updates dashUUID source groupID groupName probeRule
  | OpDecision selectedKeyID reason => <["selection_trace" := VTrace (with_decision_note reason (lv_trace lg))]> ∅
  | OpTrace pk up result reason now =>
      <["selection_trace" := VTrace (add_event (lv_trace lg) (match pk with Some k => pk_ID k | None => 0 end)
                                      (match pk with Some k => pk_Name k | None => "" end)
                                      (match up with Some u => up_Name u | None => "" end) result reason now)]> ∅
  | OpFailure scope action => <["failure_scope" := VStr scope]> (<["failure_action" := VStr action]> ∅)
  | OpRoute pk up => list_to_map (put_id "platform_key_id" pk ++ put_id "upstream_id" up)
  | OpPatch ids status success usage ttft dur msg snap force now => logUpdates ids status success usage ttft dur msg snap true
  end.

(** ** The system *)

Record log_system := mkLogSystem {
  sy_log : liveLog;
  sy_row : Updates;
  sy_pending : list (Z * Updates);                (* goroutines not yet run *)
  sy_final : option (Z * Updates * nat);          (* the final save, with the tries left *)
  sy_saved : bool;                                (* the final save has succeeded *)
  sy_written : list Updates                       (* the writes so far, in order *)
}.

Definition fresh_log (row : Updates) : log_system := mkLogSystem newLive row [] None false [].

Inductive log_step : log_system -> log_system -> Prop :=
| step_write st op lg' rev snap :
    run_op (sy_log st) op = (lg', Some (rev, snap)) ->
    log_step st (mkLogSystem lg' (sy_row st) (sy_pending st ++ [(rev, snap)]) (sy_final st) (sy_saved st)
                   (sy_written st ++ [op_updates (sy_log st) op]))
| step_no_write st op lg' :
    run_op (sy_log st) op = (lg', None) ->
    log_step st (mkLogSystem lg' (sy_row st) (sy_pending st) (sy_final st) (sy_saved st) (sy_written st))
| step_finish st ids status success usage ttft dur msg snap detail compaction now lg' rev all :
    finishLog (sy_log st) ids status success usage ttft dur msg snap detail compaction now = (lg', Some (rev, all)) ->
    log_step st (mkLogSystem lg' (sy_row st) (sy_pending st) (Some (rev, all, 3%nat)) (sy_saved st)
                   (sy_written st ++ [finish_updates ids status success usage ttft dur msg snap detail compaction now]))
| step_save st before rev snap after reply row' ok :
    sy_pending st = before ++ (rev, snap) :: after -> persistLog (sy_row st) rev snap reply = (row', ok) ->
    log_step st (mkLogSystem (sy_log st) row' (before ++ after) (sy_final st) (sy_saved st) (sy_written st))
| step_try st rev snap tries reply row' ok :
    sy_final st = Some (rev, snap, S tries) -> persistLog (sy_row st) rev snap reply = (row', ok) ->
    log_step st (mkLogSystem (sy_log st) row' (sy_pending st) (if ok then None else Some (rev, snap, tries)) (sy_saved st || ok)
                   (sy_written st)).

(** ** The reference: the first [r] writes, applied in order *)

Definition apply_writes (writes : list Updates) : Updates := fold_left (fun m u => u ∪ m) writes ∅.

Definition row_at (row0 : Updates) (writes : list Updates) (r : nat) : Updates :=
  if decide (r = 0%nat) then row0 else <["log_revision" := VInt (Z.of_nat r)]> (apply_writes (take r writes)) ∪ row0.

Definition write_ok (final : bool) (u : Updates) : Prop :=
  u !! "log_revision" = None
  /\ if final then u !! "in_flight" = Some (VBool false) else u !! "in_flight" = None \/ u !! "in_flight" = Some (VBool true).

(** ** Writes *)

Lemma writeLog_spec lg u final lg' w :
  writeLog lg u final = (lg', w) ->
  (w = None /\ lg' = lg /\ (u = ∅ \/ lv_closed lg = true))
  \/ (u <> ∅ /\ lv_closed lg = false /\ lv_revision lg' = lv_revision lg + 1 /\ lv_closed lg' = final /\ lv_updates lg' = u ∪ lv_updates lg
      /\ w = Some (lv_revision lg + 1, <["log_revision" := VInt (lv_revision lg + 1)]> (u ∪ lv_updates lg))).
Proof.
  unfold writeLog. case_bool_decide as E; [intros [= <- <-]; auto|]. destruct (lv_closed lg) eqn:Ec; intros [= <- <-]; [auto|].
  right. split_and!; done.
Qed.

(** The value a list of assignments gives a column. *)
Lemma lookup_assigned k (kvs : list (string * logval)) :
  (list_to_map kvs : Updates) !! k = snd <$> find (fun kv => String.eqb kv.1 k) kvs.
Proof.
  induction kvs as [|[c v] kvs IH]; [done|]. change (list_to_map ((c, v) :: kvs) : Updates) with (<[c := v]> (list_to_map kvs : Updates)).
  cbn [find fst]. destruct (String.eqb_spec c k) as [->|N]; [by rewrite lookup_insert_eq|by rewrite lookup_insert_ne].
Qed.

Lemma logUpdates_log_revision ids status success usage ttft dur msg snap fl :
  logUpdates ids status success usage ttft dur msg snap fl !! "log_revision" = None.
Proof. unfold logUpdates. rewrite lookup_assigned. unfold put_if, put_id. by repeat case_match. Qed.

Lemma logUpdates_in_flight ids status success usage ttft dur msg snap fl :
  logUpdates ids status success usage ttft dur msg snap fl !! "in_flight" = Some (VBool fl).
Proof. unfold logUpdates. by rewrite lookup_assigned. Qed.

Lemma finish_updates_ok ids status success usage ttft dur msg snap detail compaction now :
  write_ok true (finish_updates ids status success usage ttft dur msg snap detail compaction now).
Proof.
  unfold finish_updates, write_ok. rewrite !lookup_union_r, logUpdates_log_revision, logUpdates_in_flight; [done| |].
  all: rewrite lookup_assigned; unfold put_if; by destruct success, detail.
Qed.

Lemma op_updates_ok lg op : write_ok false (op_updates lg op).
Proof.
  destruct op; unfold write_ok, op_updates.
  - unfold origin_updates. rewrite !lookup_assigned. cbn. auto.
  - by rewrite !lookup_insert_ne, !lookup_empty; auto.
  - by rewrite !lookup_insert_ne, !lookup_empty; auto.
  - by rewrite !lookup_insert_ne, !lookup_empty; auto.
  - rewrite !lookup_assigned. unfold put_id. destruct pk, up; auto.
  - rewrite logUpdates_log_revision, logUpdates_in_flight. auto.
Qed.

Lemma run_op_write lg op lg' rev snap :
  run_op lg op = (lg', Some (rev, snap)) ->
  lv_closed lg = false /\ lv_closed lg' = false /\ lv_revision lg' = lv_revision lg + 1 /\ lv_updates lg' = op_updates lg op ∪ lv_updates lg
  /\ rev = lv_revision lg + 1 /\ snap = <["log_revision" := VInt rev]> (lv_updates lg').
Proof.
  destruct op; cbn [run_op op_updates].
  - intros [(? & _)|(_ & C & R & C' & U & W)]%writeLog_spec; [done|]. simplify_eq. by rewrite U.
  - unfold recordDecision. case_match; [done|]. intros [(? & _)|(_ & C & R & C' & U & W)]%writeLog_spec; [done|]. cbn in C, R, U, W.
    simplify_eq. by rewrite U.
  - unfold traceEvent. intros [(? & _)|(_ & C & R & C' & U & W)]%writeLog_spec; [done|]. cbn in C, R, U, W. simplify_eq.
    rewrite U, (assoc_L (∪)), (idemp_L (∪)). done.
  - unfold markFailure. case_match; [done|]. intros [(? & _)|(_ & C & R & C' & U & W)]%writeLog_spec; [done|]. simplify_eq. by rewrite U.
  - unfold attachRoute. intros [(? & _)|(_ & C & R & C' & U & W)]%writeLog_spec; [done|]. simplify_eq. by rewrite U.
  - unfold patchLog. case_match; [done|]. intros [(? & _)|(_ & C & R & C' & U & W)]%writeLog_spec; [done|]. cbn in C, R, U, W.
    simplify_eq. by rewrite U.
Qed.

Lemma run_op_no_write lg op lg' :
  run_op lg op = (lg', None) -> lv_closed lg' = lv_closed lg /\ lv_revision lg' = lv_revision lg /\ (lv_closed lg = false -> lv_updates lg' = lv_updates lg).
Proof.
  destruct op; cbn [run_op].
  - intros [(_ & -> & _)|(_ & _ & _ & _ & _ & ?)]%writeLog_spec; done.
  - unfold recordDecision. case_match; [by intros [= <-]|]. intros [(_ & -> & _)|(_ & _ & _ & _ & _ & ?)]%writeLog_spec; done.
  - unfold traceEvent. intros [(_ & -> & [E|E])|(_ & _ & _ & _ & _ & ?)]%writeLog_spec; [| |done]; cbn in *.
    + apply insert_non_empty in E as [].
    + by rewrite E.
  - unfold markFailure. case_match; [by intros [= <-]|]. intros [(_ & -> & _)|(_ & _ & _ & _ & _ & ?)]%writeLog_spec; done.
  - unfold attachRoute. intros [(_ & -> & _)|(_ & _ & _ & _ & _ & ?)]%writeLog_spec; done.
  - unfold patchLog. case_match; [by intros [= <-]|]. intros [(_ & -> & _)|(_ & _ & _ & _ & _ & ?)]%writeLog_spec; done.
Qed.

(** ** Applying writes *)

Lemma apply_snoc ws u : apply_writes (ws ++ [u]) = u ∪ apply_writes ws.
Proof. unfold apply_writes. by rewrite fold_left_app. Qed.

Lemma take_snoc {A} (l : list A) x r : (r <= length l)%nat -> take r (l ++ [x]) = take r l.
Proof. intros. rewrite take_app_le; [done|lia]. Qed.

Lemma apply_take_dom ws r r' : (r <= r')%nat -> dom (apply_writes (take r ws)) ⊆ dom (apply_writes (take r' ws)).
Proof.
  intros Hr. replace r' with (r + (r' - r))%nat by lia. generalize (r' - r)%nat as d. clear Hr r'. intros d. revert r.
  induction d as [|d IH]; intros r; [by rewrite Nat.add_0_r|]. etransitivity; [apply IH|].
  replace (r + S d)%nat with (S (r + d)) by lia. destruct (ws !! (r + d)%nat) as [u|] eqn:E.
  - rewrite (take_S_r _ _ u E), apply_snoc, dom_union_L. set_solver.
  - apply lookup_ge_None_1 in E. by rewrite !take_ge by lia.
Qed.

Lemma union_absorb (m1 m2 : Updates) : dom m2 ⊆ dom m1 -> m1 ∪ m2 = m1.
Proof.
  intros D. apply map_eq. intros k. rewrite lookup_union. destruct (m1 !! k) eqn:E1; [by destruct (m2 !! k)|].
  destruct (m2 !! k) eqn:E2; [|done]. apply elem_of_dom_2 in E2. apply not_elem_of_dom in E1. set_solver.
Qed.

Lemma row_at_later row0 ws r r' : (r < r')%nat ->
  <["log_revision" := VInt (Z.of_nat r')]> (apply_writes (take r' ws)) ∪ row_at row0 ws r = row_at row0 ws r'.
Proof.
  intros Hr. unfold row_at. destruct (decide (r' = 0%nat)) as [|_]; [lia|]. case_decide as E; [done|]. rewrite (assoc_L (∪)). f_equal.
  apply union_absorb. rewrite !dom_insert_L. pose proof (apply_take_dom ws r r' ltac:(lia)). set_solver.
Qed.

Section rows.
Context (row0 : Updates) (fresh : in_flight row0 = true) (unrevised : row0 !! "log_revision" = None).

(** Writes, of which the last is final exactly if the log is closed. *)
Definition writes_ok (closed : bool) (ws : list Updates) : Prop :=
  forall i u, ws !! i = Some u -> write_ok (closed && (S i =? length ws)%nat) u.

Lemma row_at_revision ws r : log_revision (row_at row0 ws r) = Z.of_nat r.
Proof.
  unfold row_at, log_revision. case_decide as E; [by rewrite unrevised, E|]. by rewrite (lookup_union_Some_l _ _ _ (VInt (Z.of_nat r))) by apply lookup_insert_eq.
Qed.

Definition shows_final (closed : bool) (ws : list Updates) (r : nat) : bool := closed && (r =? length ws)%nat && negb (r =? 0)%nat.

Lemma apply_in_flight closed ws r :
  writes_ok closed ws -> (r <= length ws)%nat ->
  let v : option logval := apply_writes (take r ws) !! "in_flight" in
  if shows_final closed ws r then v = Some (VBool false) else v = None \/ v = Some (VBool true).
Proof.
  intros W. cbv zeta. unfold shows_final. induction r as [|r IH]; intros Hr; [rewrite andb_false_r; by left|].
  destruct (lookup_lt_is_Some_2 ws r ltac:(lia)) as [u E]. rewrite (take_S_r _ _ u E), apply_snoc.
  destruct (W r u E) as [_ Hu]. rewrite andb_true_r. destruct (closed && (S r =? length ws)%nat) eqn:C; [by apply lookup_union_Some_l|].
  specialize (IH ltac:(lia)). destruct (Nat.eqb_spec r (length ws)); [lia|]. rewrite andb_false_r in IH.
  destruct Hu as [Hu|Hu]; [by rewrite lookup_union_r by done|right; by apply lookup_union_Some_l].
Qed.

(** A row is in flight until it shows the final write. *)
Lemma row_at_in_flight closed ws r :
  writes_ok closed ws -> (r <= length ws)%nat -> (closed = true -> ws <> []) ->
  in_flight (row_at row0 ws r) = negb (closed && (r =? length ws)%nat).
Proof.
  intros W Hr Ne. unfold row_at. case_decide as E0.
  { subst r. rewrite fresh. destruct closed; [|done]. destruct ws; [by specialize (Ne eq_refl)|done]. }
  pose proof (apply_in_flight closed ws r W Hr) as F. cbv zeta in F. unfold shows_final in F.
  assert (negb (r =? 0)%nat = true) as N by (destruct r; done). rewrite N, andb_true_r in F. unfold in_flight.
  destruct (closed && (r =? length ws)%nat).
  - rewrite (lookup_union_Some_l _ _ _ (VBool false)); [done|]. by rewrite lookup_insert_ne.
  - destruct F as [F|F].
    + rewrite lookup_union_r by (by rewrite lookup_insert_ne). exact fresh.
    + rewrite (lookup_union_Some_l _ _ _ (VBool true)); [done|]. by rewrite lookup_insert_ne.
Qed.
(** Saving the snapshot of revision [r'] over the row of revision [r]. *)
Definition snapshot_at (ws : list Updates) (r : nat) : Updates := <["log_revision" := VInt (Z.of_nat r)]> (apply_writes (take r ws)).

Lemma persist_row closed ws r r' reply row' ok :
  writes_ok closed ws -> (closed = true -> ws <> []) -> (r <= length ws)%nat -> (r' <= length ws)%nat ->
  persistLog (row_at row0 ws r) (Z.of_nat r') (snapshot_at ws r') reply = (row', ok) ->
  exists r'', row' = row_at row0 ws r'' /\ (r <= r'' <= length ws)%nat /\ (ok = true -> closed = true -> r' = length ws -> r'' = length ws).
Proof using fresh unrevised.
  intros W Ne Hr Hr'. unfold persistLog. rewrite row_at_revision, (row_at_in_flight closed) by done.
  set (hit := negb _ && _). assert (Hit : (if hit then snapshot_at ws r' ∪ row_at row0 ws r else row_at row0 ws r)
    = row_at row0 ws (if hit then r' else r) /\ (r <= if hit then r' else r)%nat).
  { destruct hit eqn:E; [|done]. apply andb_true_iff in E as [_ E]. split; [apply row_at_later; lia|lia]. }
  destruct Hit as [-> Hle]. set (r1 := if hit then r' else r) in *.
  assert (Hr1 : (r1 <= length ws)%nat) by (subst r1; by destruct hit).
  assert (Top : closed = true -> r' = length ws -> r1 = length ws).
  { intros -> E. subst r1. destruct hit eqn:Eh; [done|]. subst hit. apply andb_false_iff in Eh as [Eh|Eh]; [|lia].
    apply negb_false_iff, andb_true_iff in Eh as [_ Eh]. by apply Nat.eqb_eq in Eh. }
  destruct reply as [|applied|]; intros [= <- <-]; [by exists r1; auto| |by exists r1; auto].
  destruct applied; [by exists r1|by exists r].
Qed.

(** ** The invariant *)

Record log_inv (st : log_system) : Prop := {
  lo_revision : lv_revision (sy_log st) = Z.of_nat (length (sy_written st));
  lo_updates : lv_closed (sy_log st) = false -> lv_updates (sy_log st) = apply_writes (sy_written st);
  lo_writes : writes_ok (lv_closed (sy_log st)) (sy_written st);
  lo_closed : lv_closed (sy_log st) = true -> sy_written st <> [];
  lo_pending : forall rev snap, (rev, snap) ∈ sy_pending st -> exists r, (r <= length (sy_written st))%nat
                 /\ rev = Z.of_nat r /\ snap = snapshot_at (sy_written st) r;
  lo_final : forall rev snap tries, sy_final st = Some (rev, snap, tries) -> lv_closed (sy_log st) = true
               /\ rev = Z.of_nat (length (sy_written st)) /\ snap = snapshot_at (sy_written st) (length (sy_written st));
  lo_saved : sy_saved st = true -> lv_closed (sy_log st) = true;
  lo_row : exists r, sy_row st = row_at row0 (sy_written st) r /\ (r <= length (sy_written st))%nat
             /\ (sy_saved st = true -> r = length (sy_written st))
}.

Lemma writes_ok_snoc final ws u : writes_ok false ws -> write_ok final u -> writes_ok final (ws ++ [u]).
Proof using.
  intros W Hu i x Hx. rewrite length_app. change (length [u]) with 1%nat. apply lookup_app_Some in Hx as [Hx|[Hl Hx]].
  - pose proof (lookup_lt_Some _ _ _ Hx). destruct (Nat.eqb_spec (S i) (length ws + 1)); [lia|]. rewrite andb_false_r. exact (W i x Hx).
  - apply list_lookup_singleton_Some in Hx as [E <-]. replace i with (length ws) by lia.
    destruct (Nat.eqb_spec (S (length ws)) (length ws + 1)); [|lia]. by rewrite andb_true_r.
Qed.

Lemma row_at_snoc ws u r : (r <= length ws)%nat -> row_at row0 (ws ++ [u]) r = row_at row0 ws r.
Proof using. intros. unfold row_at. by rewrite take_snoc. Qed.

Lemma snapshot_at_snoc ws u r : (r <= length ws)%nat -> snapshot_at (ws ++ [u]) r = snapshot_at ws r.
Proof using. intros. unfold snapshot_at. by rewrite take_snoc. Qed.

(** Accepting a write keeps what was known of earlier ones. *)
Lemma log_inv_write st lg' u final pending tries :
  log_inv st -> lv_closed (sy_log st) = false -> lv_closed lg' = final -> lv_revision lg' = lv_revision (sy_log st) + 1 ->
  lv_updates lg' = u ∪ lv_updates (sy_log st) -> write_ok final u ->
  let ws := sy_written st ++ [u] in
  (forall rev snap, (rev, snap) ∈ pending -> (rev, snap) ∈ sy_pending st \/ rev = lv_revision lg' /\ snap = <["log_revision" := VInt rev]> (lv_updates lg')) ->
  (forall rev snap t, tries = Some (rev, snap, t) -> final = true /\ rev = lv_revision lg' /\ snap = <["log_revision" := VInt rev]> (lv_updates lg')) ->
  log_inv (mkLogSystem lg' (sy_row st) pending tries (sy_saved st) ws).
Proof using.
  intros [I1 I2 I3 I4 I5 I6 I7 (r & R1 & R2 & R3)] C Cf Rv Up Hu ws Hp Ht. rewrite C in I3, I4, I7. specialize (I2 C).
  assert (Len : length ws = S (length (sy_written st))) by (unfold ws; rewrite length_app; cbn; lia).
  assert (Snap : forall rev snap, rev = lv_revision lg' /\ snap = <["log_revision" := VInt rev]> (lv_updates lg') ->
            rev = Z.of_nat (length ws) /\ snap = snapshot_at ws (length ws)).
  { intros rev snap [-> ->]. assert (E : lv_revision lg' = Z.of_nat (length ws)) by lia. split; [done|].
    unfold snapshot_at. by rewrite firstn_all, E, Up, I2, <- apply_snoc. }
  split; cbn [sy_log sy_row sy_pending sy_final sy_saved sy_written].
  - rewrite Rv, I1, Len. lia.
  - intros _. unfold ws. by rewrite Up, I2, apply_snoc.
  - rewrite Cf. by apply writes_ok_snoc.
  - intros _. unfold ws. by destruct (sy_written st).
  - intros rev snap Hin. destruct (Hp _ _ Hin) as [H|H].
    + destruct (I5 _ _ H) as (q & Q1 & -> & ->). exists q. split_and!; [lia|done|by unfold ws; rewrite snapshot_at_snoc].
    + apply Snap in H as [-> ->]. by exists (length ws).
  - intros rev snap t Et. destruct (Ht _ _ _ Et) as [-> H]. split; [done|]. by apply Snap.
  - intros Hs. by specialize (I7 Hs).
  - exists r. split_and!; [by unfold ws; rewrite R1, row_at_snoc|lia|]. intros Hs. by specialize (I7 Hs).
Qed.
Lemma log_inv_step st st' : log_inv st -> log_step st st' -> log_inv st'.
Proof using fresh unrevised.
  intros I. destruct 1 as [st op lg' rev snap Hop|st op lg' Hop|st ids status success usage ttft dur msg snap detail compaction now lg' rev all Hf
    |st before rev snap after reply row' ok Hp Hs|st rev snap tries reply row' ok Hf Hs].
  - apply run_op_write in Hop as (C & C' & R & U & -> & ->).
    apply (log_inv_write st lg' _ false); try done; [apply op_updates_ok| |].
    + intros rev snap [H|H%list_elem_of_singleton]%elem_of_app; [by left|right]. simplify_eq. by rewrite R.
    + intros rev snap t Ht. destruct I as [_ _ _ _ _ I6 _ _]. destruct (I6 _ _ _ Ht) as [C2 _]. congruence.
  - apply run_op_no_write in Hop as (C & R & U). destruct I as [I1 I2 I3 I4 I5 I6 I7 I8].
    split; cbn; try rewrite C; try rewrite R; try done. intros C2. rewrite U by done. by apply I2.
  - apply writeLog_spec in Hf as [(? & _)|(_ & C & R & C' & U & W)]; [done|]. simplify_eq.
    apply (log_inv_write st lg' _ true); try done; [apply finish_updates_ok|by left|].
    intros rev snap' t [= <- <- <-]. rewrite R, U. done.
  - destruct I as [I1 I2 I3 I4 I5 I6 I7 (r & R1 & R2 & R3)].
    destruct (I5 rev snap) as (r' & Hr' & -> & ->); [rewrite Hp; apply elem_of_app; right; by left|]. rewrite R1 in Hs.
    destruct (persist_row _ _ _ _ _ _ _ I3 I4 R2 Hr' Hs) as (r'' & -> & Hr'' & _).
    split; cbn; try done; [intros rev snap Hin; apply I5; rewrite Hp; set_solver|]. exists r''. split_and!; [done|lia|].
    intros Hsv. specialize (R3 Hsv). lia.
  - destruct I as [I1 I2 I3 I4 I5 I6 I7 (r & R1 & R2 & R3)]. destruct (I6 _ _ _ Hf) as (C & -> & ->). rewrite R1 in Hs.
    destruct (persist_row _ _ _ _ _ _ _ I3 I4 R2 (le_n _) Hs) as (r'' & -> & Hr'' & Top).
    split; cbn; try done.
    + intros rev snap t Ht. destruct ok; [done|]. by injection Ht as <- <- <-.
    + exists r''. split_and!; [done|lia|]. intros [Hsv|Hok]%orb_true_iff; [specialize (R3 Hsv); lia|by apply Top].
Qed.

Lemma log_inv_fresh : log_inv (fresh_log row0).
Proof using. split; cbn; try done; [intros ? ? H; by apply not_elem_of_nil in H|]. by exists 0%nat. Qed.

Lemma log_inv_reachable st : rtc log_step (fresh_log row0) st -> log_inv st.
Proof using fresh unrevised.
  intros R. pose proof log_inv_fresh as I. induction R as [x|x y z Hxy _ IH]; [done|]. by apply IH, (log_inv_step x).
Qed.
End rows.

(** ** The property *)

(** C9: However the saves are scheduled and whichever fail, a request's log row
    always shows a prefix of the writes applied in order, never a mixture: the
    prefix its revision names.  It is in flight exactly as long as the final write
    is not in the prefix, and once the final save has reported success the row shows
    every write and no later save changes it. *)
Theorem log_row_is_prefix row0 st :
  in_flight row0 = true -> row0 !! "log_revision" = None -> rtc log_step (fresh_log row0) st ->
  exists r, sy_row st = row_at row0 (sy_written st) r /\ (r <= length (sy_written st))%nat
    /\ log_revision (sy_row st) = Z.of_nat r
    /\ in_flight (sy_row st) = negb (lv_closed (sy_log st) && (r =? length (sy_written st))%nat)
    /\ (sy_saved st = true -> in_flight (sy_row st) = false /\ r = length (sy_written st)).
Proof.
  intros Fr Un Hr. destruct (log_inv_reachable row0 Fr Un st Hr) as [_ _ W C _ _ Sv (r & R1 & R2 & R3)].
  assert (F : in_flight (sy_row st) = negb (lv_closed (sy_log st) && (r =? length (sy_written st))%nat))
    by (rewrite R1; by apply row_at_in_flight).
  exists r. split_and!; [done|done|by rewrite R1, row_at_revision|done|]. intros Hs. specialize (R3 Hs). split; [|done].
  by rewrite F, (Sv Hs), R3, Nat.eqb_refl.
Qed.

(** Two writes and the end, saved in the order 2, 3, 1, with a lost reply. *)
Definition demo_ids : logIdentity := mkIdentity (Some 7) (Some 3) "openai" "gpt-4o" "/v1/chat/completions" "r" "ip".
Definition demo_snap : ioCapture := mkIO "" "" 0 0 false true false "" "" false "" "" false.
Definition demo_log_row0 : Updates := beginLog (Some 1) demo_ids demo_snap.

Definition demo_log_run : log_system :=
  let '(l1, w1) := attachRoute newLive (Some 7) (Some 3) in
  let '(l2, w2) := markFailure l1 "key_model" "invalid_response" in
  let '(l3, w3) := finishLog l2 demo_ids 200 true noUsage 5 9 "" demo_snap None false 100 in
  match w1, w2, w3 with
  | Some (v1, s1), Some (v2, s2), Some (v3, s3) =>
      let row := (persistLog demo_log_row0 v2 s2 DbOk).1 in
      let row := (persistLog row v3 s3 (DbError true)).1 in
      let row := (persistLog row v3 s3 DbOk).1 in
      mkLogSystem l3 (persistLog row v1 s1 DbOk).1 [] None true [∅; ∅; ∅]
  | _, _, _ => fresh_log demo_log_row0
  end.

Example demo_log_row :
  in_flight (sy_row demo_log_run) = false /\ log_revision (sy_row demo_log_run) = 3 /\ sy_row demo_log_run !! "upstream_id" = Some (VInt 3)
  /\ sy_row demo_log_run !! "failure_scope" = Some (VStr "").
Proof. by vm_compute. Qed.

Lemma demo_first_write : exists lg v s, run_op newLive (OpRoute (Some 7) (Some 3)) = (lg, Some (v, s)).
Proof.
  destruct (run_op newLive (OpRoute (Some 7) (Some 3))) as [lg [[v s]|]] eqn:E; [by exists lg, v, s|].
  exfalso. assert (H : is_Some (run_op newLive (OpRoute (Some 7) (Some 3))).2) by by eexists. rewrite E in H. by destruct H.
Qed.

Lemma log_row_is_prefix_witness :
  exists st, rtc log_step (fresh_log demo_log_row0) st /\ sy_written st <> []
    /\ exists r, sy_row st = row_at demo_log_row0 (sy_written st) r /\ (r <= length (sy_written st))%nat.
Proof.
  destruct demo_first_write as (l1 & v & s & E1).
  pose (st := mkLogSystem l1 demo_log_row0 ([] ++ [(v, s)]) None false ([] ++ [op_updates newLive (OpRoute (Some 7) (Some 3))])).
  assert (R : rtc log_step (fresh_log demo_log_row0) st) by (eapply rtc_l; [exact (step_write (fresh_log demo_log_row0) _ _ _ _ E1)|apply rtc_refl]).
  exists st. split; [exact R|]. split; [discriminate|].
  destruct (log_row_is_prefix demo_log_row0 st eq_refl eq_refl R) as (r & H1 & H2 & _). exists r. exact (conj H1 H2).
Defined.
