(* ===== verification/Gateway.v ===== *)
(** * The proxy: one request through the failover loop (handler/gateway.go, recovery_wait.go)

    [proxy_loop] is the attempt loop of [proxy], [forwardOnce] one send,
    [pickWithRecoveryWait] the pick that waits for a recovery in progress; they
    work on the modelled picker, capacity counters and circuit store.  Everything
    outside (clock, database reads, upstream answers, the client, other requests
    in between) is the environment: its n-th reading is consumed by the n-th
    step.  What the handler does is recorded in [g_effects], the writes to the
    request log and to the metrics included. *)

From S2P Require Import Prelude GoFloat GoString Json JsonDecode Settings Domain Capacity Window Score Database Circuit Picker Stable.
From S2P Require Import Upstream Sse Collector GatewayBase.

(** ** Environment and state *)

Record response := mkResponse {
  rs_StatusCode : Z;
  rs_ContentType : string;
  rs_RetryAfter : string;
  rs_body : list Z;
  rs_end : read_error
}.

Inductive upstream_reply : Type :=
| DoErr (msg : string)
| DoOk (r : response).

(** What one send meets: the decrypted key, the request, the probe switch read
    again, the upstream's answer, and how the copy of a stream is scheduled. *)
Record sendEnv := mkSend {
  sn_decrypts : bool;
  sn_newRequest : option string;
  sn_current : option PlatformKey;
  sn_reply : upstream_reply;
  sn_reads : list copy_round;                    (* how a body that is not validated is read *)
  sn_clock : nat -> time * (bool * bool);
  sn_lastFires : bool;
  sn_firstTimedOut : bool
}.

Inductive wait_end : Type := WaitDeadline | WaitFailed (msg : string).

Record gatewayEnv := mkEnvironment {
  ge_now : nat -> time;
  ge_world : nat -> World;
  ge_uuid : nat -> string;
  ge_send : nat -> sendEnv;
  ge_polls : nat -> list (time * Tables) * wait_end;
  ge_cancelled : nat -> bool;
  ge_others : nat -> BandPicker * Tables -> BandPicker * Tables;
  ge_write : nat -> option nat;
  ge_timeout : string -> bool;
  ge_cost : TokenUsage -> option f64
}.

Inductive effect : Type :=
| EAcquire (a : attempt)
| EFinish (a : attempt) (sent : bool)
| ESend (key : Z)
| EAdmit (d : Dimension) (recovery : bool) (a : Admission)
| EReleaseOnOutput (d : Dimension) (changed : bool)
| EObserve (d : Dimension) (token : string) (o : Outcome)
| ECommitSuccess (key : Z) (responseID : string)
| EProviderSuccess (provider : Z)
| EAddQuota (usd : f64)
| EAttempt (key : Z) (result : string) (counted : bool)
| ETrace (result reason : string)
| ERecordDecision (reason : string)
| EMarkFailure (scope action : string)
| EBeginLog
| EPatchLog (status : Z) (msg : string)
| EFinishLog (status : Z) (success : bool) (msg : string)
| EError (status : Z) (msg : string).

Record gstate := mkG {
  g_step : nat;
  g_picker : BandPicker;
  g_tables : Tables;
  g_writer : ginWriter;
  g_admission : Admission;
  g_effects : list effect
}.

(** ** A state monad *)

Definition G (A : Type) : Type := gstate -> A * gstate.

#[global] Instance G_ret : MRet G := fun A a s => (a, s).
#[global] Instance G_bind : MBind G := fun A B f m s => let '(a, s) := m s in f a s.

Definition emit (e : effect) : G unit := fun s =>
  (tt, mkG (g_step s) (g_picker s) (g_tables s) (g_writer s) (g_admission s) (g_effects s ++ [e])).

Definition get_writer : G ginWriter := fun s => (g_writer s, s).
Definition set_writer (w : ginWriter) : G unit := fun s => (tt, mkG (g_step s) (g_picker s) (g_tables s) w (g_admission s) (g_effects s)).
Definition get_picker : G BandPicker := fun s => (g_picker s, s).
Definition set_picker (p : BandPicker) : G unit := fun s => (tt, mkG (g_step s) p (g_tables s) (g_writer s) (g_admission s) (g_effects s)).

(** The admission of the current attempt, which the output callback updates. *)
Definition get_admission : G Admission := fun s => (g_admission s, s).
Definition set_admission (a : Admission) : G unit := fun s => (tt, mkG (g_step s) (g_picker s) (g_tables s) (g_writer s) a (g_effects s)).

Section gateway.
Context `{GoLib} (env : gatewayEnv).

(** The next reading of the environment, before which other requests may act. *)
Definition tick : G nat := fun s =>
  let '(p, tb) := ge_others env (g_step s) (g_picker s, g_tables s) in
  (g_step s, mkG (S (g_step s)) p tb (g_writer s) (g_admission s) (g_effects s)).

(** [time.Now()] *)
Definition Now : G time := n ← tick; mret (ge_now env n).

(** A transaction of the circuit store. *)
Definition store {A} (p : prog A) : G (result rherr A) := fun s =>
  let '(r, tb) := transaction p (g_tables s) in
  (r, mkG (g_step s) (g_picker s) tb (g_writer s) (g_admission s) (g_effects s)).

Definition isTimeoutErr (e : copy_error) : bool :=
  match e with ErrRead (ErrTransport m) => ge_timeout env m | _ => false end.

Definition read_error_text (e : read_error) : string :=
  match e with
  | EOF => "EOF"
  | ErrSSEEventTooLarge => "upstream SSE event exceeds 16 MiB limit"
  | ErrTransport m => m
  end.

Definition stream_error_text (e : stream_error) : string :=
  match e with
  | ErrStreamTerminal => "invalid upstream stream terminal"
  | ErrStreamPayload => "invalid upstream SSE payload"
  | ErrUpstream s => s
  | ErrResponsesEvent name => "unexpected upstream Responses event: " +:+ quote128 name
  | ErrInvalidJSON => "invalid upstream JSON response"
  | ErrUnexpectedTerminal => "unexpected upstream terminal"
  | ErrChatEvent => "unexpected upstream chat event"
  | ErrMessagesEvent => "unexpected upstream Messages event"
  | ErrMessageStream => "invalid upstream message stream"
  | ErrEventTooLarge => "upstream SSE event exceeds 16 MiB limit"
  end.

Definition copy_error_text (e : copy_error) : string :=
  match e with
  | ErrPrefixLimit => "stream prefix exceeded limit before first token"
  | ErrNoTerminal => "upstream stream ended without terminal event"
  | ErrStream e => stream_error_text e
  | ErrRead e => read_error_text e
  | ErrWrite => "write failed"
  end.

Definition proxyTimeoutMessage (timeout firstToken : bool) (text : string) : string :=
  if firstToken && timeout then "first token timeout" else if timeout then "upstream timeout" else text.

(** ** Forwarding *)

(** The request as the loop passes it on. *)
Record proxyReq := mkProxyReq {
  px_consumer : Z;
  px_protocol : string;
  px_model : string;
  px_path : string;
  px_stream : bool;
  px_start : time;
  px_needsProbe : bool
}.

Definition proxyOverallTimeout : duration := 300 * Second.
Definition maxErrorInspectBytes : Z := Z.shiftl 64 10.
Definition maxJSONResponse : Z := Z.shiftl 16 20.

(** [io.ReadAll(io.LimitReader(body, limit+1))]. *)
Definition read_limited (limit : Z) (body : list Z) : list Z := take (Z.to_nat (limit + 1)) body.

Definition writeResponsesStreamError (msg : string) (w : ginWriter) : ginWriter :=
  let data := [123] ++ json_string "code" ++ [58] ++ json_string "upstream_stream_error" ++ [44] ++ json_string "message" ++ [58]
              ++ json_string msg ++ [44] ++ json_string "param" ++ [58] ++ bytes "null" ++ [44] ++ json_string "type" ++ [58]
              ++ json_string "error" ++ [125] in
  gin_Flush (gin_Write (ge_write env) (bytes "event: error" ++ [10] ++ bytes "data: " ++ data ++ [10; 10]) w).2.

(** A status of 400 or above: classified; a rejection is passed on as it is. *)
Definition http_failure (r : response) : G forwardOutcome :=
  let peek := read_limited maxErrorInspectBytes (rs_body r) in
  let f := classifyHTTPFailure (rs_StatusCode r) peek in
  now ← Now;
  let after := Z.max (fo_retryAfter f) (RetryAfter (rs_RetryAfter r) now) in
  let msg := Summary (ParseError peek) (http_StatusText (rs_StatusCode r)) in
  _ ← emit (EPatchLog (rs_StatusCode r) msg);
  _ ← emit (EMarkFailure (fo_scope f) (fo_action f));
  if fo_failOver f then
    mret (mkForward (fo_neutral f) after false "" false true (fo_retrySame f) false (fo_status f) (fo_scope f) (fo_action f) msg)
  else
    _ ← emit (ETrace "failed" (fo_action f));
    w ← get_writer;
    let w := commitHeaders (rs_StatusCode r) w in
    let '(ok, w) := match rs_body r with [] => (true, w) | b => gin_Write (ge_write env) b w end in
    _ ← set_writer w;
    let msg := if ok then match rs_end r with EOF => msg | e => read_error_text e end else "write failed" in
    _ ← emit (EFinishLog (rs_StatusCode r) false msg);
    mret (mkForward (fo_neutral f) after false "" true false (fo_retrySame f) false (fo_status f) (fo_scope f) (fo_action f) msg).

(** An answer that cannot be used, before anything was sent to the client. *)
Definition unusable (r : response) (failOver retrySame : bool) (action msg : string) : G forwardOutcome :=
  _ ← emit (EPatchLog (rs_StatusCode r) msg);
  _ ← emit (EMarkFailure failureScopeKeyModel action);
  mret (mkForward false 0 false "" false failOver retrySame false 0 failureScopeKeyModel action msg).

(** The end of an attempt whose answer has reached the client: cost, log, quota. *)
Definition settle (up : Upstream) (r : response) (err : option (string * bool)) (usage : TokenUsage) (responseID : string)
    (compacting : bool) : G forwardOutcome :=
  let success := (200 <=? rs_StatusCode r) && (rs_StatusCode r <? 300) && bool_decide (err = None) in
  let '(errMsg, failAction) :=
    match err with
    | Some (text, timeout) =>
        if timeout then
          if compacting then ("compaction timeout", "compaction_timeout") else ("upstream timeout", "upstream_timeout")
        else (text, "response_failure")
    | None => (if success then "" else http_StatusText (rs_StatusCode r), "response_failure")
    end in
  let cost := ge_cost env usage in
  _ ← emit (if success then ETrace "selected" "success" else ETrace "failed" errMsg);
  _ ← emit (EFinishLog (rs_StatusCode r) success errMsg);
  _ ← (if success then
         _ ← emit (EProviderSuccess (up_ID up));
         match cost with Some c => emit (EAddQuota c) | None => mret tt end
       else mret tt);
  mret (mkForward false 0 success responseID true false false false 0
          (if success then "" else failureScopeKeyModel) (if success then "" else failAction) errMsg).

Definition is_first_output (k : callback) : bool := match k with OnFirstOutput => true | _ => false end.

(** Enough clock readings: the repaired stream has at most twice as many bytes. *)
Definition stream_clocks (sn : sendEnv) (r : response) : list (time * (bool * bool)) :=
  sn_clock sn <$> seq 0 (2 * length (rs_body r) + 1).

(** A streamed answer.  The callback of the first output, which releases a recovery lease,
    runs here when the copy is over, if the collector called it: other requests act on
    the circuit store only at readings of the environment, and the copy makes none. *)
Definition stream_answer (px : proxyReq) (up : Upstream) (r : response) (sn : sendEnv) (attemptStart : time) (hold : bool)
    (onFirstOutput : G unit) : G forwardOutcome :=
  w ← get_writer;
  let text2xx := isTextAPI (px_path px) && (200 <=? rs_StatusCode r) && (rs_StatusCode r <? 300) in
  let col := newCollector (px_path px) (isTextAPI (px_path px)) hold text2xx (px_start px) attemptStart in
  let '(res, cs) :=
    if isTextAPI (px_path px)
    then copySSE (ge_write env) (rs_StatusCode r) (rs_body r) (rs_end r) (stream_clocks sn r) (sn_lastFires sn) col w
    else copySSE_raw (ge_write env) (rs_StatusCode r) (sn_reads sn) (sn_lastFires sn) col w in
  let err := default (Some ErrNoTerminal) res in
  let col := cs_col cs in
  _ ← set_writer (cs_writer cs);
  _ ← (if existsb is_first_output (sc_calls col) then onFirstOutput else mret tt);
  n ← tick;
  match err with
  | Some e =>
      if negb (gw_written (cs_writer cs)) then
        let timeout := isTimeoutErr e in
        let action := if timeout then
                        if sn_firstTimedOut sn then FailureFirstTokenTimeout
                        else if sc_compaction col then "compaction_timeout" else "upstream_timeout"
                      else "invalid_response" in
        let msg := if timeout && negb (sn_firstTimedOut sn) && sc_compaction col then "compaction timeout"
                   else proxyTimeoutMessage timeout (sn_firstTimedOut sn) (copy_error_text e) in
        unusable r (ge_now env n <? px_start px + proxyOverallTimeout) false action msg
      else
        _ ← (if String.eqb (px_path px) "/v1/responses" && negb (upstreamTerminal col) && negb (ge_cancelled env n)
             then set_writer (writeResponsesStreamError (proxyTimeoutMessage (isTimeoutErr e) false (copy_error_text e)) (cs_writer cs))
             else mret tt);
        settle up r (Some (copy_error_text e, isTimeoutErr e)) (cp_usage (sc_capture col)) (sv_ResponseID (sc_validator col))
               (sc_compaction col && (tm_ttftMs (sc_timing col) =? 0))
  | None => settle up r None (cp_usage (sc_capture col)) (sv_ResponseID (sc_validator col)) false
  end.

(** A JSON answer of a text API. *)
Definition json_answer (px : proxyReq) (up : Upstream) (r : response) : G forwardOutcome :=
  let raw := read_limited maxJSONResponse (rs_body r) in
  let invalid := if maxJSONResponse <? zlen raw then Some "upstream JSON response exceeds limit"
                 else match rs_end r with
                      | EOF => match ValidateJSONResponse (px_path px) raw with
                               | Some _ => None
                               | None => Some "invalid upstream JSON response"
                               end
                      | e => Some (read_error_text e)
                      end in
  match invalid with
  | Some msg => unusable r true false "invalid_response" msg
  | None =>
      w ← get_writer;
      let '(ok, w) := gin_Write (ge_write env) raw (commitHeaders (rs_StatusCode r) w) in
      _ ← set_writer w;
      settle up r (if ok then None else Some ("write failed", false)) (MergeUsage noUsage (ParseUsageJSON raw))
             (default "" (ValidateJSONResponse (px_path px) raw)) false
  end.

(** Any other answer is passed through. *)
Definition raw_answer (px : proxyReq) (up : Upstream) (r : response) : G forwardOutcome :=
  w ← get_writer;
  let w := commitHeaders (rs_StatusCode r) w in
  let '(ok, w) := match rs_body r with [] => (true, w) | b => gin_Write (ge_write env) b w end in
  let err := if ok then match rs_end r with EOF => None | ErrTransport m => Some (m, ge_timeout env m) | e => Some (read_error_text e, false) end
             else Some ("write failed", false) in
  let usage := match err with
               | None => if bool_decide (rs_body r = []) || (maxJSONResponse <? zlen (rs_body r)) then noUsage
                         else MergeUsage noUsage (ParseUsageJSON (rs_body r))
               | Some _ => noUsage
               end in
  _ ← set_writer (gin_Flush w);
  settle up r err usage "" false.

(** The attempt's own [committed] flag starts out false. *)
Definition new_commit (w : ginWriter) : ginWriter :=
  mkWriter (gw_status w) false (gw_written w) (gw_body w) (gw_broken w) (gw_writes w).

(** What follows a response. *)
Definition answer (px : proxyReq) (up : Upstream) (r : response) (sn : sendEnv) (attemptStart : time) (onFirstOutput : G unit)
    : G forwardOutcome :=
  w ← get_writer;
  _ ← set_writer (new_commit w);
  if (400 <=? rs_StatusCode r) && negb (gw_written w) then http_failure r
  else
    p ← get_picker;
    let ok2xx := (200 <=? rs_StatusCode r) && (rs_StatusCode r <? 300) in
    let ct := ToLower (rs_ContentType r) in
    let streaming := IsSSEContentType ct in
    if isTextAPI (px_path px) && ok2xx && negb streaming && (px_stream px || negb (isJSONContentType ct))
    then unusable r true false "invalid_response" "invalid upstream response protocol"
    else if streaming then stream_answer px up r sn attemptStart (StreamHoldUntilToken (bp_cfg p)) onFirstOutput
    else if isTextAPI (px_path px) && ok2xx then json_answer px up r
    else raw_answer px up r.

(** The check right before a diagnostic request is sent. *)
Definition probe_refusal (px : proxyReq) (sn : sendEnv) : option forwardOutcome :=
  if px_needsProbe px then
    match sn_current sn with
    | None => Some (broken_off "failed to check probe settings")
    | Some k => if AllowsProbe (Some k) then None
                else Some (mkForward false 0 false "" false true false true 0 failureScopeKey ProbeSkipDisabled ProbeSkipDisabled)
    end
  else None.

(** The attempt between the reservation and its release: whether the request was
    sent, whether a body was read, and the outcome. *)
Definition send (px : proxyReq) (pk : PlatformKey) (up : Upstream) (onFirstOutput : G unit) : G (bool * bool * forwardOutcome) :=
  n ← tick;
  let sn := ge_send env n in
  if negb (sn_decrypts sn) then mret (false, false, broken_off "failed to decrypt platform key")
  else match sn_newRequest sn, probe_refusal px sn with
       | Some msg, _ => mret (false, false, broken_off msg)
       | None, Some o => mret (false, false, o)
       | None, None =>
           start ← Now;
           _ ← emit (ESend (pk_ID pk));
           match sn_reply sn with
           | DoErr m =>
               let timeout := ge_timeout env m in
               let msg := proxyTimeoutMessage timeout (sn_firstTimedOut sn) m in
               _ ← emit (EPatchLog 0 msg);
               _ ← emit (EMarkFailure failureScopeKeyModel "transport_failure");
               mret (true, false, failure_of (negb (sn_firstTimedOut sn) && negb timeout) 0 failureScopeKeyModel "transport_failure" 0 msg)
           | DoOk r =>
               w ← get_writer;
               o ← answer px up r sn start onFirstOutput;
               mret (true, negb ((400 <=? rs_StatusCode r) && negb (gw_written w)), o)
           end
       end.

(** The deferred rewriting of the outcome when the client has gone. *)
Definition cancel_outcome (o : forwardOutcome) : forwardOutcome :=
  mkForward (fo_neutral o) (fo_retryAfter o) (fo_validSuccess o) (fo_responseID o) (fo_ok o) false false (fo_capacityBusy o)
    (fo_status o) "" "client_cancelled" (fo_msg o).

(** The deferred calls of [forwardOnce], after the release of the reservation; the
    request's context is read for the outcome and again for the attempt's result. *)
Definition complete (pk : PlatformKey) (sent read : bool) (o : forwardOutcome) : G forwardOutcome :=
  n ← tick;
  let cancelled := ge_cancelled env n && negb (fo_validSuccess o) in
  let o := if cancelled then cancel_outcome o else o in
  _ ← (if cancelled then emit (EMarkFailure "client" "client_cancelled") else mret tt);
  n' ← tick;
  let gone := ge_cancelled env n' in
  _ ← emit (EAttempt (pk_ID pk) (attempt_result sent gone o) (counts_in_windows sent gone read o));
  mret o.

Definition forwardOnce (px : proxyReq) (pk : PlatformKey) (up : Upstream) (onFirstOutput : G unit) : G forwardOutcome :=
  now ← Now;
  p ← get_picker;
  let '(reservation, scope, rt) := TryAcquireAttempt (Some pk) (Some up) now (bp_runtime p) in
  _ ← set_picker (set_runtime p rt);
  match reservation with
  | None =>
      let msg := if String.eqb scope failureScopeProvider then "upstream concurrency exceeded" else "key capacity exceeded" in
      _ ← emit (EMarkFailure scope "exclude_busy_resource");
      complete pk false false (mkForward false 0 false "" false true false true 0 scope "exclude_busy_resource" msg)
  | Some a =>
      _ ← emit (EAcquire a);
      x ← send px pk up onFirstOutput;
      let '(sent, read, o) := x in
      p ← get_picker;
      _ ← set_picker (set_runtime p (finish_attempt a sent (bp_runtime p)));
      _ ← emit (EFinish a sent);
      complete pk sent read o
  end.

(** ** Waiting for a recovery *)

Record recoveryWaitState := mkWait {
  ws_deadline : option time;
  ws_timedOut : bool;
  ws_budgetReady : bool;
  ws_explorationSlot : bool
}.

Record recoveryGateState := mkGate {
  rg_Generation : Z;
  rg_Open : bool;
  rg_Until : time;
  rg_LeaseUntil : time;
  rg_CheckUntil : time;
  rg_NextCheckAt : time;
  rg_CheckOK : bool
}.

#[global] Instance recoveryGateState_eq_dec : EqDecision recoveryGateState.
Proof. solve_decision. Defined.

(** What the poller reads of a gate; a missing row reads as the zero row. *)
Definition gate_state (tb : Tables) (scope : string) : recoveryGateState :=
  match circuits tb !! scope with
  | Some r => mkGate (rc_Generation r) (rc_Open r) (rc_Until r) (rc_LeaseUntil r) (default time_zero (rc_CheckUntil r))
                     (default time_zero (rc_NextCheckAt r)) (rc_CheckOK r)
  | None => mkGate 0 false time_zero time_zero time_zero time_zero false
  end.

Definition gate_active (now : time) (g : recoveryGateState) : bool :=
  rg_Open g && (After (rg_LeaseUntil g) now || After (rg_CheckUntil g) now).

(** [waitRecoveryChange]: polls until no gate is active or one has changed. *)
Fixpoint waitRecoveryChange (scopes : list string) (before : option (list recoveryGateState)) (polls : list (time * Tables))
    (fin : wait_end) : bool * option wait_end :=
  match polls with
  | [] => (false, Some fin)
  | (now, tb) :: polls' =>
      let states := gate_state tb <$> scopes in
      if negb (existsb (gate_active now) states) then (true, None)
      else if match before with Some b => negb (bool_decide (b = states)) | None => false end then (true, None)
      else waitRecoveryChange scopes (Some states) polls' fin
  end.

Definition dim_of (px : proxyReq) (key : Z) : Dimension :=
  mkDim key (px_protocol px) (px_model px) (px_path px) (px_stream px).

(** The scopes to wait for, each once, in order. *)
Definition recoveryWaitScopes (px : proxyReq) (d : Decision) : list string :=
  fold_left (fun scopes c =>
    if String.eqb (cd_SkipReason c) "recovery_inflight" || String.eqb (cd_SkipReason c) "recovery_check_inflight" then
      fold_left (fun scopes s => if existsb (String.eqb s) scopes then scopes else scopes ++ [s])
        (KeyScope (cd_KeyID c) :: Scope (dim_of px (cd_KeyID c)) :: ci_RecoveryScopes (cd_Info c)) scopes
    else scopes) (de_Candidates d) [].

Definition with_session (req : Request) (session : string) : Request :=
  mkRequest (rq_MutateRecovery req) (rq_Diagnostic req) (rq_BudgetReady req) (rq_ExplorationSlot req) (rq_ConsumerID req)
    (rq_Path req) (rq_Stream req) (rq_SessionSource req) (rq_Protocol req) (rq_Model req) session (rq_Exclude req)
    (rq_ExcludeProviders req) (rq_ExcludeKeyModels req) (rq_AllowKeys req) (rq_DriftKeys req) (rq_RouteReasons req).

Definition set_budget (req : Request) (ready slot : bool) : Request :=
  mkRequest (rq_MutateRecovery req) (rq_Diagnostic req) ready slot (rq_ConsumerID req)
    (rq_Path req) (rq_Stream req) (rq_SessionSource req) (rq_Protocol req) (rq_Model req) (rq_Session req) (rq_Exclude req)
    (rq_ExcludeProviders req) (rq_ExcludeKeyModels req) (rq_AllowKeys req) (rq_DriftKeys req) (rq_RouteReasons req).

Inductive pick_result : Type :=
| Picked (c : Candidate)
| NoUpstream
| PickFailed (msg : string)
| PickCancelled.

Definition perr_text (e : perr) : string :=
  match e with
  | ErrNoUpstream => "no upstream"
  | PStore (ErrDB m) => m
  | PStore ErrUnavailable => "routing circuit unavailable"
  | PStore _ => "routing state"
  | PStable _ => "stable routing state"
  end.

(** [dp.PickDecision(ctx, req)]. *)
Definition pick_at (n : nat) (req : Request) : G (pick_result * Decision) := fun s =>
  let '(r, d, p, tb) := PickDecision (g_picker s) (ge_world env n) req (ge_now env n) (g_tables s) in
  ((match r with
    | Ok c => Picked c
    | Err ErrNoUpstream => NoUpstream
    | Err e => if ge_cancelled env n then PickCancelled else PickFailed (perr_text e)
    end, d), mkG (g_step s) p tb (g_writer s) (g_admission s) (g_effects s)).

Definition pick (req : Request) : G (pick_result * Decision) := n ← tick; pick_at n req.

Definition recoveryWaitLimit : duration := 5 * Second.

(** The loop of [pickWithRecoveryWait]; [None] when the fuel is used up. *)
Fixpoint pick_loop (fuel : nat) (px : proxyReq) (req : Request) (wait : recoveryWaitState)
    : G (option (pick_result * Decision * Request * recoveryWaitState)) :=
  match fuel with
  | O => mret None
  | S fuel' =>
      x ← pick req;
      let '(r, d) := x in
      let req := set_budget req (de_BudgetReady d) (de_ExplorationSlot d) in
      let wait := mkWait (ws_deadline wait) (ws_timedOut wait) (de_BudgetReady d) (de_ExplorationSlot d) in
      match r with
      | NoUpstream =>
          let scopes := recoveryWaitScopes px d in
          let wait := mkWait (ws_deadline wait) false (ws_budgetReady wait) (ws_explorationSlot wait) in
          if bool_decide (scopes = []) then mret (Some (NoUpstream, d, req, wait))
          else
            now ← Now;
            deadline ← match ws_deadline wait with
                       | Some t => mret t
                       | None => _ ← emit (ETrace "waiting" "recovery_in_progress");
                                 mret (Z.min (now + recoveryWaitLimit) (px_start px + proxyOverallTimeout))
                       end;
            let wait := mkWait (Some deadline) false (ws_budgetReady wait) (ws_explorationSlot wait) in
            now ← Now;
            if negb (now <? deadline) then
              _ ← emit (ETrace "wait_finished" "recovery_wait_timeout");
              mret (Some (NoUpstream, d, req, mkWait (Some deadline) true (ws_budgetReady wait) (ws_explorationSlot wait)))
            else
              n ← tick;
              let '(changed, err) := waitRecoveryChange scopes None (ge_polls env n).1 (ge_polls env n).2 in
              if ge_cancelled env n then
                _ ← emit (ETrace "wait_finished" "client_cancelled");
                mret (Some (PickCancelled, d, req, wait))
              else match err with
                   | Some (WaitFailed m) => mret (Some (PickFailed m, d, req, wait))
                   | _ =>
                       if negb changed then
                         x ← pick req;
                         let '(r, d) := x in
                         let timedOut := match r with NoUpstream => negb (bool_decide (recoveryWaitScopes px d = [])) | _ => false end in
                         _ ← emit (ETrace "wait_finished" (if timedOut then "recovery_wait_timeout" else "recovery_state_changed"));
                         mret (Some (r, d, req, mkWait (Some deadline) timedOut (ws_budgetReady wait) (ws_explorationSlot wait)))
                       else
                         _ ← emit (ETrace "wait_finished" "recovery_state_changed");
                         pick_loop fuel' px req wait
                   end
      | _ => mret (Some (r, d, req, wait))
      end
  end.

Definition pickWithRecoveryWait (fuel : nat) (px : proxyReq) (req : Request) (previous : string) (wait : recoveryWaitState)
    : G (option (pick_result * Decision * Request * recoveryWaitState)) :=
  req ← (if String.eqb previous "" then mret req
         else n ← tick; p ← get_picker; mret (with_session req (ResolvePrevious p (ge_world env n) req previous (ge_now env n))));
  pick_loop fuel px (if ws_budgetReady wait then set_budget req true (ws_explorationSlot wait) else req) wait.

(** ** The attempt loop *)

(** [gatewayError(c, status, typ, msg, code)]. *)
Definition refuse (path : string) (status : Z) (typ msg : string) (code : option string) : G unit :=
  w ← get_writer;
  _ ← set_writer (gatewayError (ge_write env) path status typ msg code w);
  emit (EError status msg).

Definition fail (px : proxyReq) (status : Z) (msg : string) (code : option string) : G unit :=
  refuse (px_path px) status "api_error" msg code.

Definition fail_unless_written (px : proxyReq) (msg : string) : G unit :=
  w ← get_writer;
  if gw_written w then mret tt else fail px 502 msg None.

(** [recordNoRoute]; the candidates it explains are for the log only. *)
Definition recordNoRoute (req : Request) : G unit :=
  _ ← emit (ETrace "rejected" "no_available_route");
  _ ← emit (ERecordDecision "no_available_route");
  if bool_decide (rq_Exclude req = []) && bool_decide (rq_ExcludeProviders req = []) && bool_decide (rq_ExcludeKeyModels req = [])
  then emit (EMarkFailure "route" "no_available_route") else mret tt.

(** How the handler ended: a forwarded answer, an error written, or nothing
    because the client is gone. *)
Inductive proxy_end : Type := Settled | Answered | Gone.

Record proxyCfg := mkProxyCfg {
  pc_attempts : Z;
  pc_retries : Z;
  pc_bound : bool;
  pc_drift : gset Z;
  pc_previous : string;
  pc_sessionSource : string;
  pc_requestID : string
}.

Record loopState := mkLoop {
  lp_attempt : Z;
  lp_exclude : list Z;
  lp_excludeProviders : list Z;
  lp_excludeKeyModels : list Z;
  lp_wait : recoveryWaitState;
  lp_lastResort : bool;
  lp_lastFailAction : string;
  lp_lastMsg : string;
  lp_session : string;
  lp_allow : option (gset Z)
}.

Definition pick_request (cfg : proxyCfg) (px : proxyReq) (l : loopState) : Request :=
  mkRequest false false false false (px_consumer px) (px_path px) (px_stream px) (pc_sessionSource cfg) (px_protocol px)
    (px_model px) (lp_session l) (lp_exclude l) (lp_excludeProviders l) (lp_excludeKeyModels l) (lp_allow l) (pc_drift cfg) ∅.

(** [finishRouting]: the outcome is observed under the admission. *)
Definition finishRouting (cfg : proxyCfg) (d : Dimension) (startedAt : time) (o : forwardOutcome) : G unit :=
  n ← tick;
  a ← get_admission;
  p ← get_picker;
  let neutral := fo_capacityBusy o || fo_neutral o || negb (fo_validSuccess o) && ge_cancelled env n
                 || negb (fo_validSuccess o) && String.eqb (fo_action o) "" in
  let out := mkOutcome (Some a) (pc_requestID cfg) startedAt (fo_validSuccess o) neutral (String.eqb (fo_scope o) failureScopeKey)
               (fo_status o =? 429) (String.eqb (fo_action o) "capability_unsupported") (fo_retryAfter o) (fo_action o) in
  _ ← store (Circuit.Observe (bp_cfg p) d (ad_Token a) out (ge_now env n));
  emit (EObserve d (ad_Token a) out).

Definition note_release (d : Dimension) (r : result rherr (option Admission * bool)) : G unit :=
  match r with
  | Ok (Some a', changed) =>
      _ ← set_admission a';
      _ ← emit (EReleaseOnOutput d changed);
      if changed then emit (ETrace "recovered" "first_valid_output") else mret tt
  | _ => mret tt
  end.

(** [onOutput]: the first valid output of a recovery request closes its gates. *)
Definition onOutput (d : Dimension) (decision : Decision) : G unit :=
  if negb (String.eqb (de_Reason decision) "recovery_validation") then mret tt
  else
    n ← tick;
    a ← get_admission;
    r ← store (ReleaseOnOutput d (Some a) (ge_now env n));
    note_release d r.

Definition commit_success (n : nat) (req : Request) (decision : Decision) (pk : PlatformKey) (o : forwardOutcome) : G unit :=
  p ← get_picker;
  _ ← set_picker (CommitSuccess p (ge_world env n) req decision (pk_ID pk) (fo_responseID o) (ge_now env n));
  emit (ECommitSuccess (pk_ID pk) (fo_responseID o)).

(** The sends on one key: the outcome of the last, or how the handler ended.
    [left] is the number of retries left. *)
Fixpoint retry_loop (left : nat) (cfg : proxyCfg) (px : proxyReq) (more : bool) (req : Request) (decision : Decision)
    (pk : PlatformKey) (up : Upstream) (startedAt : time) : G (forwardOutcome * option proxy_end) :=
  let d := dim_of px (pk_ID pk) in
  o ← forwardOnce px pk up (onOutput d decision);
  let retrySame := fo_retrySame o && negb (String.eqb (de_Reason decision) "recovery_validation") in
  if fo_ok o then
    _ ← finishRouting cfg d startedAt o;
    n ← tick;
    _ ← (if fo_validSuccess o then commit_success n req decision pk o else mret tt);
    mret (o, Some Settled)
  else
    match left, retrySame with
    | S left', true =>
        n ← tick;
        if ge_cancelled env n then
          _ ← fail_unless_written px (fo_msg o);
          _ ← finishRouting cfg d startedAt o;
          mret (o, Some Answered)
        else
          _ ← emit (ETrace "retry" (fo_action o));
          retry_loop left' cfg px more req decision pk up startedAt
    | _, _ =>
        _ ← emit (if fo_failOver o && more then ETrace "switch" (fo_action o) else ETrace "failed" (fo_msg o));
        _ ← finishRouting cfg d startedAt o;
        mret (o, None)
    end.

Definition noUpstream : Upstream := mkUpstream 0 "" "" "" "" "" 0 0 "" None "" None None.

(** The exclusions after an attempt. *)
Definition exclude_failed (pk : PlatformKey) (up : Upstream) (o : forwardOutcome) (l : loopState) : loopState :=
  mkLoop (lp_attempt l)
    (if String.eqb (fo_scope o) failureScopeKey then lp_exclude l ++ [pk_ID pk] else lp_exclude l)
    (if String.eqb (fo_scope o) failureScopeProvider then lp_excludeProviders l ++ [up_ID up] else lp_excludeProviders l)
    (if String.eqb (fo_scope o) failureScopeKeyModel then lp_excludeKeyModels l ++ [pk_ID pk] else lp_excludeKeyModels l)
    (lp_wait l) (lp_lastResort l) (fo_action o) (fo_msg o) (lp_session l) (lp_allow l).

Definition no_exclusions (l : loopState) : bool :=
  bool_decide (lp_exclude l = []) && bool_decide (lp_excludeProviders l = []) && bool_decide (lp_excludeKeyModels l = []).

(** One round: go on with a new state, or the end. *)
Inductive round_end : Type := Next (l : loopState) | End_ (e : proxy_end).

(** No key can be picked. *)
Definition no_upstream (cfg : proxyCfg) (px : proxyReq) (req : Request) (l : loopState) : G round_end :=
  now ← Now;
  if (0 <? lp_attempt l) && negb (lp_lastResort l) && isTransientFailureAction (lp_lastFailAction l) && negb (no_exclusions l)
     && (now - px_start px <? proxyOverallTimeout - 15 * Second)
  then mret (Next (mkLoop (lp_attempt l) [] [] [] (lp_wait l) true (lp_lastFailAction l) (lp_lastMsg l) (lp_session l) (lp_allow l)))
  else
    _ ← recordNoRoute req;
    _ ← (if (lp_attempt l =? 0) || String.eqb (lp_lastMsg l) ProbeSkipDisabled then
           fail px 503 (if ws_timedOut (lp_wait l) then "route recovery is still in progress; retry shortly"
                        else if pc_bound cfg then "no healthy key in bound route groups"
                        else "no enabled upstream for protocol") (Some "no_available_route")
         else fail px 502 (lp_lastMsg l) None);
    mret (End_ Answered).

(** The gate was taken between the pick and the admission. *)
Definition lost_admission (px : proxyReq) (req : Request) (l : loopState) : G round_end :=
  n ← tick;
  let now := ge_now env n in
  if (proxyOverallTimeout <=? now - px_start px) || match ws_deadline (lp_wait l) with Some t => t <=? now | None => false end then
    _ ← recordNoRoute req;
    _ ← (if 0 <? lp_attempt l then fail px 502 (lp_lastMsg l) None
         else fail px 503 "route recovery is still in progress; retry shortly" (Some "no_available_route"));
    mret (End_ Answered)
  else if ge_cancelled env n then mret (End_ Gone)
  else mret (Next l).

(** An admitted attempt, its retries and what follows. *)
Definition attempt_key (cfg : proxyCfg) (px : proxyReq) (req : Request) (decision : Decision) (pk : PlatformKey) (l : loopState)
    : G round_end :=
  startedAt ← Now;
  let up := default noUpstream (pk_Upstream pk) in
  x ← retry_loop (Z.to_nat (pc_retries cfg)) cfg px (lp_attempt l + 1 <? pc_attempts cfg) req decision pk up startedAt;
  match x with
  | (_, Some e) => mret (End_ e)
  | (o, None) =>
      let l := exclude_failed pk up o l in
      if String.eqb (fo_action o) ProbeSkipDisabled then
        let allow := (fun a => a ∖ {[pk_ID pk]}) <$> lp_allow l in
        if bool_decide (default ∅ allow = ∅)
        then _ ← fail px 503 ProbeSkipDisabled None; mret (End_ Answered)
        else mret (Next (mkLoop (lp_attempt l) (lp_exclude l) (lp_excludeProviders l) (lp_excludeKeyModels l) (lp_wait l)
                          (lp_lastResort l) (lp_lastFailAction l) (lp_lastMsg l) (lp_session l) allow))
      else if negb (fo_failOver o) then _ ← fail_unless_written px (fo_msg o); mret (End_ Answered)
      else mret (Next (mkLoop (lp_attempt l + 1) (lp_exclude l) (lp_excludeProviders l) (lp_excludeKeyModels l) (lp_wait l)
                        (lp_lastResort l) (lp_lastFailAction l) (lp_lastMsg l) (lp_session l) (lp_allow l)))
  end.

Definition set_wait (l : loopState) (session : string) (w : recoveryWaitState) : loopState :=
  mkLoop (lp_attempt l) (lp_exclude l) (lp_excludeProviders l) (lp_excludeKeyModels l) w (lp_lastResort l)
    (lp_lastFailAction l) (lp_lastMsg l) session (lp_allow l).

(** A picked key: admission, then the attempt. *)
Definition admit_and_send (cfg : proxyCfg) (px : proxyReq) (req : Request) (decision : Decision) (c : Candidate) (l : loopState)
    : G round_end :=
  let pk := cd_Key c in
  let d := dim_of px (pk_ID pk) in
  let recovery := String.eqb (de_Reason decision) "recovery_validation" in
  _ ← emit (ETrace "selected" (if 0 <? lp_attempt l then "failover" else "picker"));
  _ ← emit (ERecordDecision (de_Reason decision));
  n ← tick;
  r ← store (AdmitRequest d recovery (ge_uuid env n) (ge_now env n));
  match r with
  | Ok a =>
      _ ← set_admission a;
      _ ← emit (EAdmit d recovery a);
      attempt_key cfg px req decision pk l
  | Err ErrUnavailable =>
      lost_admission px req (set_wait l (lp_session l) (mkWait (ws_deadline (lp_wait l)) (ws_timedOut (lp_wait l))
                                                         (de_BudgetReady decision) (de_ExplorationSlot decision)))
  | Err _ => _ ← fail px 503 "routing state unavailable" None; mret (End_ Answered)
  end.

(** [c.Status(code)]: without effect once something was written. *)
Definition set_status (code : Z) (w : ginWriter) : ginWriter :=
  if gw_written w then w else mkWriter code (gw_headers w) (gw_written w) (gw_body w) (gw_broken w) (gw_writes w).

(** One round of the loop; [None] when the pick runs out of fuel. *)
Definition proxy_round (fuel : nat) (cfg : proxyCfg) (px : proxyReq) (l : loopState) : G (option round_end) :=
  x ← pickWithRecoveryWait fuel px (pick_request cfg px l) (pc_previous cfg) (lp_wait l);
  match x with
  | None => mret None
  | Some (r, d, req, w) =>
      let l := set_wait l (rq_Session req) w in
      e ← match r with
          | Picked c => admit_and_send cfg px req d c l
          | NoUpstream => no_upstream cfg px req l
          | PickFailed msg => _ ← fail px 500 msg None; mret (End_ Answered)
          | PickCancelled =>
              _ ← emit (EMarkFailure "client" "client_cancelled");
              w ← get_writer;
              _ ← set_writer (set_status 499 w);
              mret (End_ Gone)
          end;
      mret (Some e)
  end.

Fixpoint proxy_loop (fuel : nat) (cfg : proxyCfg) (px : proxyReq) (l : loopState) : G (option proxy_end) :=
  match fuel with
  | O => mret None
  | S fuel' =>
      if lp_attempt l <? pc_attempts cfg then
        x ← proxy_round fuel cfg px l;
        match x with
        | None => mret None
        | Some (End_ e) => mret (Some e)
        | Some (Next l) => proxy_loop fuel' cfg px l
        end
      else _ ← fail_unless_written px (lp_lastMsg l); mret (Some Answered)
  end.

(** The loop's bounds from the settings. *)
Definition loop_bounds (s : SchedulerSettings) (bound : bool) (allow : gset Z) : Z * Z :=
  let attempts := if 0 <? FailoverMax s then FailoverMax s else 2 in
  let retries := if 0 <=? RetryMax s then RetryMax s else 1 in
  (if FailoverExhaustPool s && bound && (0 <? Z.of_nat (size allow)) then Z.of_nat (size allow) else attempts, retries).

Definition first_loop (session : string) (allow : option (gset Z)) : loopState :=
  mkLoop 0 [] [] [] (mkWait None false false false) false "" "no enabled upstream for protocol" session allow.

End gateway.
