(* ===== verification/GatewayTrace.v ===== *)
(** * The protocol of the proxy loop

    [protocol_step] is an abstract machine over the effects of a request: every
    attempt is admitted, reserves capacity, is sent, releases what it reserved and
    is observed under its admission; the request's log is finished or an error is
    answered, once, and nothing is sent afterwards.  [does] is a small program
    logic for the handler's monad; with it the loop is shown to implement the
    machine, whatever the environment does. *)

From S2P Require Import Prelude GoFloat GoString Json JsonDecode Settings Domain Capacity Window Score Database Circuit Picker PickerProps Stable StableProps.
From S2P Require Import Upstream Sse Collector GatewayBase Gateway.

(** ** The machine *)

Inductive phase : Type :=
| Routing
| Entered (d : Dimension) (token : string)
| Reserved (d : Dimension) (token : string) (a : attempt) (sent : bool)
| Recorded (d : Dimension) (success : bool).

(** [pt_logged] is the success the finished log reports. *)
Record protocol := mkProtocol {
  pt_phase : phase;
  pt_logged : option bool;
  pt_answered : bool
}.

Definition open_ended (q : protocol) : bool := bool_decide (pt_logged q = None) && negb (pt_answered q).
Definition to_phase (q : protocol) (p : phase) : protocol := mkProtocol p (pt_logged q) (pt_answered q).
Definition to_logged (q : protocol) (success : bool) : protocol := mkProtocol (pt_phase q) (Some success) (pt_answered q).
Definition guard_to (b : bool) (q : protocol) : option protocol := if b then Some q else None.

(** What a release depends on: key, upstream and the time of the reservation. *)
Definition reservation (a : attempt) : Z * Z * time := (pk_ID (at_key a), up_ID (at_up a), at_time a).

#[export] Instance dimension_eq_dec : EqDecision Dimension.
Proof. solve_decision. Defined.

Definition protocol_step (q : protocol) (e : effect) : option protocol :=
  match e, pt_phase q with
  | EAdmit d _ a, (Routing | Recorded _ _) => guard_to (open_ended q) (to_phase q (Entered d (ad_Token a)))
  | EAcquire a, Entered d t => guard_to (open_ended q) (to_phase q (Reserved d t a false))
  | ESend k, Reserved d t a false => guard_to (open_ended q && (k =? dm_KeyID d)) (to_phase q (Reserved d t a true))
  | EReleaseOnOutput d' _, Reserved d _ _ true => guard_to (bool_decide (d' = d)) q
  | EFinishLog _ success _, Reserved _ _ _ true => guard_to (open_ended q) (to_logged q success)
  | (EProviderSuccess _ | EAddQuota _), Reserved _ _ _ true => guard_to (bool_decide (pt_logged q = Some true)) q
  | EFinish a' sent', Reserved d t a sent => guard_to (bool_decide (reservation a' = reservation a) && Bool.eqb sent' sent) (to_phase q (Entered d t))
  | EAttempt k _ _, Entered d _ => guard_to (k =? dm_KeyID d) q
  | EObserve d' t' o, Entered d t =>
      guard_to (bool_decide (d' = d) && String.eqb t' t && implb (oc_Success o) (bool_decide (pt_logged q = Some true)))
        (to_phase q (Recorded d (oc_Success o)))
  | ECommitSuccess k _, Recorded d true => guard_to (k =? dm_KeyID d) q
  | EError _ _, (Routing | Entered _ _ | Recorded _ _) => guard_to (open_ended q) (mkProtocol (pt_phase q) (pt_logged q) true)
  | EBeginLog, Routing => guard_to (open_ended q) q
  | (EPatchLog _ _ | EMarkFailure _ _ | ETrace _ _ | ERecordDecision _), _ => Some q
  | _, _ => None
  end.

Definition protocol_start : protocol := mkProtocol Routing None false.

Definition protocol_run (es : list effect) : option protocol :=
  fold_left (fun q e => q ≫= fun q => protocol_step q e) es (Some protocol_start).

Lemma protocol_run_snoc es e : protocol_run (es ++ [e]) = protocol_run es ≫= fun q => protocol_step q e.
Proof. unfold protocol_run. by rewrite fold_left_app. Qed.

(** ** A logic for the handler's monad

    Assertions speak about an observation of the state; each analysis has its own. *)

Class Observes (V : Type) := sees : gstate -> V -> Prop.

Definition does {V A} `{Observes V} (m : G A) (v : V) (Q : A -> V -> Prop) : Prop :=
  forall s, sees s v -> exists v', sees (m s).2 v' /\ Q (m s).1 v'.

Section structural.
Context {V : Type} `{Observes V}.

Lemma does_ret {A} (a : A) (v : V) (Q : A -> V -> Prop) : Q a v -> does (mret a) v Q.
Proof. intros HQ s Hs. by exists v. Qed.

Lemma does_bind {A B} (m : G A) (f : A -> G B) (v : V) Q : does m v (fun a v' => does (f a) v' Q) -> does (m ≫= f) v Q.
Proof.
  intros Hm s Hs. destruct (Hm s Hs) as (v' & Hs' & Hf). unfold mbind, G_bind. destruct (m s) as [a s'] eqn:E.
  exact (Hf s' Hs').
Qed.

Lemma does_mono {A} (m : G A) (v : V) (P Q : A -> V -> Prop) : does m v P -> (forall a v', P a v' -> Q a v') -> does m v Q.
Proof. intros Hm HPQ s Hs. destruct (Hm s Hs) as (v' & Hs' & HP). eauto. Qed.
End structural.

(** ** Observing the protocol *)

(** What a step can rely on: the machine's state, whether anything was sent to
    the client, and the token of the current admission. *)
Record view := mkView {
  vw_protocol : protocol;
  vw_written : bool;
  vw_token : string
}.

#[export] Instance view_observation : Observes view := fun s v =>
  protocol_run (g_effects s) = Some (vw_protocol v) /\ gw_written (g_writer s) = vw_written v /\ ad_Token (g_admission s) = vw_token v.

Definition with_protocol (v : view) (q : protocol) : view := mkView q (vw_written v) (vw_token v).

Section rules.
Context `{GoLib} (env : gatewayEnv).

Lemma does_emit e v q (Q : unit -> view -> Prop) :
  protocol_step (vw_protocol v) e = Some q -> Q tt (with_protocol v q) -> does (emit e) v Q.
Proof.
  intros Hq HQ s (H1 & H2 & H3). eexists. split; [|exact HQ]. split; [|done].
  change (protocol_run (g_effects s ++ [e]) = Some q). by rewrite protocol_run_snoc, H1.
Qed.

Lemma does_tick v (Q : nat -> view -> Prop) : (forall n, Q n v) -> does (tick env) v Q.
Proof. intros HQ s Hs. exists v. unfold tick. destruct (ge_others env _ _). by split. Qed.

Lemma does_now v (Q : time -> view -> Prop) : (forall t, Q t v) -> does (Now env) v Q.
Proof. intros HQ. apply does_bind, does_tick. intros n. by apply does_ret. Qed.

Lemma does_store {A} (p : prog A) v (Q : result rherr A -> view -> Prop) :
  (forall tb, Q (transaction p tb).1 v) -> does (store p) v Q.
Proof. intros HQ s Hs. exists v. unfold store. specialize (HQ (g_tables s)). destruct (transaction p (g_tables s)). by split. Qed.

Lemma does_get_writer v (Q : ginWriter -> view -> Prop) : (forall w, gw_written w = vw_written v -> Q w v) -> does get_writer v Q.
Proof. intros HQ s Hs. exists v. split; [done|]. apply HQ, Hs. Qed.

Lemma does_set_writer w v (Q : unit -> view -> Prop) :
  Q tt (mkView (vw_protocol v) (gw_written w) (vw_token v)) -> does (set_writer w) v Q.
Proof. intros HQ s (H1 & H2 & H3). eexists. split; [|exact HQ]. done. Qed.

Lemma does_get_picker v (Q : BandPicker -> view -> Prop) : (forall p, Q p v) -> does get_picker v Q.
Proof. intros HQ s Hs. exists v. split; [done|]. apply HQ. Qed.

Lemma does_set_picker p v (Q : unit -> view -> Prop) : Q tt v -> does (set_picker p) v Q.
Proof. intros HQ s Hs. by exists v. Qed.

Lemma does_get_admission v (Q : Admission -> view -> Prop) : (forall a, ad_Token a = vw_token v -> Q a v) -> does get_admission v Q.
Proof. intros HQ s Hs. exists v. split; [done|]. apply HQ, Hs. Qed.

Lemma does_set_admission a v (Q : unit -> view -> Prop) :
  Q tt (mkView (vw_protocol v) (vw_written v) (ad_Token a)) -> does (set_admission a) v Q.
Proof. intros HQ s (H1 & H2 & H3). eexists. split; [|exact HQ]. done. Qed.

Lemma does_pick req v (Q : pick_result * Decision -> view -> Prop) : (forall r, Q r v) -> does (pick env req) v Q.
Proof.
  intros HQ. apply does_bind, does_tick. intros n s Hs. exists v. unfold pick_at.
  destruct (PickDecision _ _ _ _ _) as [[[r d] p] tb]. by split.
Qed.
End rules.

(** Runs a handler forward to the next choice; what an effect allows is computed. *)
Ltac effect_ok := cbn; unfold guard_to, open_ended; cbn; rewrite ?Z.eqb_refl, ?String.eqb_refl, ?Bool.eqb_reflx, ?bool_decide_true by done; reflexivity.
Ltac go1 :=
  lazymatch goal with
  | |- does (mret _) _ _ => apply does_ret
  | |- does (_ ≫= _) _ _ => apply does_bind
  | |- does (emit _) _ _ => eapply does_emit; [first [reflexivity | effect_ok]|]
  | |- does (tick _) _ _ => apply does_tick; intros ?
  | |- does (Now _) _ _ => apply does_now; intros ?
  | |- does (store _) _ _ => apply does_store; intros ?
  | |- does get_writer _ _ => apply does_get_writer; intros ? ?
  | |- does (set_writer _) _ _ => apply does_set_writer
  | |- does get_picker _ _ => apply does_get_picker; intros ?
  | |- does (set_picker _) _ _ => apply does_set_picker
  | |- does get_admission _ _ => apply does_get_admission; intros ? ?
  | |- does (set_admission _) _ _ => apply does_set_admission
  | |- does (pick _ _) _ _ => apply does_pick; intros ?
  end.
Ltac go := repeat go1; cbn beta iota zeta.

(** The same, up to an effect that needs an argument of its own. *)
Ltac go_to_emit := repeat (lazymatch goal with |- does (emit _) _ _ => fail | _ => go1 end).

(** ** The attempt *)

Section attempts.
Context `{GoLib} (env : gatewayEnv).

(** An attempt that is not the last word leaves everything as it was; one that is
    finishes the log with the success it reports. *)
Definition settles (v : view) (o : forwardOutcome) (v' : view) : Prop :=
  vw_token v' = vw_token v
  /\ if fo_ok o then vw_protocol v' = to_logged (vw_protocol v) (fo_validSuccess o)
     else v' = v /\ fo_validSuccess o = false.

(** A request that was sent and nothing of whose answer reached the client. *)
Definition sent_view (d : Dimension) (a : attempt) (t : string) : view :=
  mkView (mkProtocol (Reserved d t a true) None false) false t.

Lemma does_settle up r err usage id compacting d a t w :
  does (settle env up r err usage id compacting) (mkView (mkProtocol (Reserved d t a true) None false) w t) (fun o v' => settles (sent_view d a t) o v').
Proof.
  unfold settle. cbv zeta. set (success := _ && bool_decide (err = None)). case_match.
  destruct success; go; [destruct (ge_cost env usage)|]; go; by split.
Qed.

Lemma does_http_failure r d a t : does (http_failure env r) (sent_view d a t) (settles (sent_view d a t)).
Proof. unfold http_failure. go. case_match; go; [by split|]. case_match. go. by split. Qed.

Lemma does_unusable r failOver retrySame action msg d a t :
  does (unusable r failOver retrySame action msg) (sent_view d a t) (settles (sent_view d a t)).
Proof. unfold unusable. go. by split. Qed.

(** The output callback emits at most its own effects. *)
Definition sent_written (d : Dimension) (a : attempt) (t : string) (w : bool) : view :=
  mkView (mkProtocol (Reserved d t a true) None false) w t.
Definition harmless (k : G unit) (d : Dimension) (t : string) : Prop :=
  forall a w, does k (sent_written d a t w) (fun _ v' => v' = sent_written d a t w).

Lemma does_stream_answer px up r sn start hold k d a t :
  harmless k d t -> does (stream_answer env px up r sn start hold k) (sent_view d a t) (settles (sent_view d a t)).
Proof.
  intros Hk. unfold stream_answer. go. destruct (if isTextAPI (px_path px) then _ else _) as [res c]. go.
  set (wr := gw_written (cs_writer c)).
  assert (Hif : forall b : bool, does (if b then k else mret tt) (sent_written d a t wr) (fun _ v' => v' = sent_written d a t wr)).
  { intros []; [apply Hk|by apply does_ret]. }
  eapply does_mono; [apply Hif|]. intros [] v' ->. go. destruct (default _ _) as [e|].
  - destruct (negb _) eqn:Ew; [apply negb_true_iff in Ew; subst wr; rewrite Ew; by apply does_unusable|].
    apply does_bind. destruct (String.eqb _ _ && _ && _); go; by apply does_settle.
  - by apply does_settle.
Qed.

Lemma does_json_answer px up r d a t : does (json_answer env px up r) (sent_view d a t) (settles (sent_view d a t)).
Proof.
  unfold json_answer. cbv zeta. destruct (if maxJSONResponse <? _ then _ else _); [apply does_unusable|]. go.
  destruct (gin_Write _ _ _). go. by apply does_settle.
Qed.

Lemma does_raw_answer px up r d a t : does (raw_answer env px up r) (sent_view d a t) (settles (sent_view d a t)).
Proof. unfold raw_answer. go. destruct (match rs_body r with [] => _ | _ => _ end). go. by apply does_settle. Qed.

Lemma does_answer px up r sn start k d a t :
  harmless k d t -> does (answer env px up r sn start k) (sent_view d a t) (settles (sent_view d a t)).
Proof.
  intros Hk. unfold answer. do 3 go1. apply does_set_writer.
  replace (gw_written (new_commit w)) with false by done. change (mkView _ _ _) with (sent_view d a t).
  case_match; [apply does_http_failure|]. go.
  repeat case_match; auto using does_unusable, does_stream_answer, does_json_answer, does_raw_answer.
Qed.

(** The attempt's reservation, and whether the request has gone out. *)
Definition held_view (d : Dimension) (a : attempt) (t : string) (sent : bool) : view :=
  mkView (mkProtocol (Reserved d t a sent) None false) false t.
Definition admitted_view (d : Dimension) (t : string) : view := mkView (mkProtocol (Entered d t) None false) false t.

Lemma does_send px pk up k d a t :
  dm_KeyID d = pk_ID pk -> harmless k d t ->
  does (send env px pk up k) (held_view d a t false) (fun x v' => settles (held_view d a t x.1.1) x.2 v').
Proof.
  intros Hd Hk. unfold send. go. destruct (negb _); go; [by split|].
  destruct (sn_newRequest _) as [msg|]; [go; by split|]. destruct (probe_refusal _ _) as [o|] eqn:Ep; go.
  - unfold probe_refusal in Ep. repeat case_match; simplify_eq; by split.
  - eapply does_emit; [cbn; by rewrite <- Hd, Z.eqb_refl|]. destruct (sn_reply _) as [m|r]; go; [by split|].
    eapply does_mono; [by apply does_answer|]. intros o v' Ho. go. done.
Qed.

(** [settles] by the phase the attempt is in. *)
Lemma settles_spec ph t o v' :
  settles (mkView (mkProtocol ph None false) false t) o v' <->
  exists w, v' = mkView (mkProtocol ph (if fo_ok o then Some (fo_validSuccess o) else None) false) w t
            /\ (fo_ok o = false -> w = false /\ fo_validSuccess o = false).
Proof.
  unfold settles. destruct v' as [q w t']. cbn. destruct (fo_ok o); split.
  - intros [-> ->]. by exists w.
  - intros (w' & [= -> -> ->] & _). done.
  - intros (-> & [= -> ->] & ->). by exists false.
  - intros (w' & [= -> -> ->] & Hw). destruct (Hw eq_refl) as [-> ->]. done.
Qed.

Lemma does_complete pk sent read d t o l w :
  dm_KeyID d = pk_ID pk ->
  does (complete env pk sent read o) (mkView (mkProtocol (Entered d t) l false) w t)
    (fun o' v' => v' = mkView (mkProtocol (Entered d t) l false) w t /\ fo_ok o' = fo_ok o /\ fo_validSuccess o' = fo_validSuccess o).
Proof.
  intros Hd. unfold complete. go. rewrite <- Hd. destruct (_ && _); by go.
Qed.

Lemma does_forwardOnce px pk up k d t :
  dm_KeyID d = pk_ID pk -> harmless k d t ->
  does (forwardOnce env px pk up k) (admitted_view d t) (settles (admitted_view d t)).
Proof.
  intros Hd Hk. unfold forwardOnce. go. destruct (TryAcquireAttempt _ _ _ _) as [[res scope] rt]. go.
  destruct res as [a|]; go.
  - eapply does_mono; [by apply does_send|]. intros [[sent read] o] v' Ho. apply settles_spec in Ho as (w & -> & Hw). go.
    eapply does_mono; [by apply does_complete|]. intros o' v' (-> & E1 & E2). apply settles_spec. rewrite E1, E2. eauto.
  - eapply does_mono; [by apply does_complete|]. intros o' v' (-> & E1 & E2). apply settles_spec. rewrite E1, E2. eauto.
Qed.
End attempts.

(** ** The loop *)

Section loop.
Context `{GoLib} (env : gatewayEnv).

Lemma release_gate_token d a now tb a' b :
  (transaction (ReleaseOnOutput d (Some a) now) tb).1 = Ok (Some a', b) -> ad_Token a' = ad_Token a.
Proof.
  unfold transaction, ReleaseOnOutput. destruct (String.eqb _ ""); [intros [= <- _]; done|]. rewrite run_mbind.
  destruct (run (release_gate _ _ _ _ _) tb) as [[c1 tb1]|e]; [|done]. rewrite run_mbind.
  destruct (run (release_gate _ _ _ _ _) tb1) as [[c2 tb2]|e]; [|done]. by intros [= <- _].
Qed.

Lemma onOutput_harmless d decision t : harmless (onOutput env d decision) d t.
Proof.
  intros a w. unfold onOutput. case_match; go; [done|]. unfold note_release.
  destruct (transaction _ _).1 as [[[a'|] changed]|e] eqn:E; go; try done.
  apply release_gate_token in E. cbn in *. assert (Et : ad_Token a' = t) by congruence.
  destruct changed; go; unfold sent_written, with_protocol; cbn; by rewrite Et.
Qed.

(** A view between two attempts: nothing is pending, nothing was answered. *)
Definition idle (v : view) : Prop :=
  vw_written v = false /\ pt_logged (vw_protocol v) = None /\ pt_answered (vw_protocol v) = false
  /\ match pt_phase (vw_protocol v) with Routing | Recorded _ _ => True | _ => False end.

(** How a request may end. *)
Definition ended (e : proxy_end) (v : view) : Prop :=
  let q := vw_protocol v in
  match pt_phase q with Routing | Recorded _ _ => True | _ => False end
  /\ match e with
     | Settled => is_Some (pt_logged q) /\ pt_answered q = false
     | Answered => pt_logged q = None /\ pt_answered q = true
     | Gone => pt_logged q = None /\ pt_answered q = false
     end.

Lemma does_fail px status msg code v :
  pt_logged (vw_protocol v) = None -> pt_answered (vw_protocol v) = false ->
  match pt_phase (vw_protocol v) with Reserved _ _ _ _ => False | _ => True end ->
  does (fail env px status msg code) v (fun _ v' => vw_token v' = vw_token v
    /\ vw_protocol v' = mkProtocol (pt_phase (vw_protocol v)) None true).
Proof.
  destruct v as [[ph lg an] w t]. cbn. intros -> -> Hp. unfold fail, refuse. go_to_emit.
  eapply does_emit; [cbn; by destruct ph|]. done.
Qed.

Lemma does_fail_unless_written px msg v :
  vw_written v = false -> pt_logged (vw_protocol v) = None -> pt_answered (vw_protocol v) = false ->
  match pt_phase (vw_protocol v) with Reserved _ _ _ _ => False | _ => True end ->
  does (fail_unless_written env px msg) v (fun _ v' => vw_token v' = vw_token v
    /\ vw_protocol v' = mkProtocol (pt_phase (vw_protocol v)) None true).
Proof. intros Hw Hl Ha Hp. unfold fail_unless_written. go. rewrite H0, Hw. by apply does_fail. Qed.

Lemma does_finishRouting cfg d started o l an w t :
  implb (fo_validSuccess o) (bool_decide (l = Some true)) = true ->
  does (finishRouting env cfg d started o) (mkView (mkProtocol (Entered d t) l an) w t)
    (fun _ v' => v' = mkView (mkProtocol (Recorded d (fo_validSuccess o)) l an) w t).
Proof.
  intros Hs. unfold finishRouting. go. cbn in H0. rewrite H0. eapply does_emit; [|reflexivity].
  cbn. rewrite String.eqb_refl, bool_decide_true by done. cbn. by rewrite Hs.
Qed.
(** After the sends on one key: the request ended, or the attempt is recorded as
    a failure and the loop goes on. *)
Definition attempted (r : option proxy_end) (v : view) : Prop :=
  match r with
  | Some e => ended e v
  | None => idle v
  end.

Lemma does_retry_loop left_ cfg px more req decision pk up started t :
  does (retry_loop env left_ cfg px more req decision pk up started) (admitted_view (dim_of px (pk_ID pk)) t)
    (fun x v' => attempted x.2 v').
Proof.
  set (d := dim_of px (pk_ID pk)). induction left_ as [|left_ IH]; cbn [retry_loop]; fold d.
  all: apply does_bind; eapply does_mono; [apply does_forwardOnce; [done|apply onOutput_harmless]|];
    intros o v' Ho; apply settles_spec in Ho as (w & -> & Hw); cbv zeta; destruct (fo_ok o).
  1,3: apply does_bind; eapply does_mono; [apply does_finishRouting; by destruct (fo_validSuccess o)|];
    intros [] v' ->; go; destruct (fo_validSuccess o); unfold commit_success; go; split; cbn; try done; by eexists.
  all: destruct (Hw eq_refl) as [-> Hv]; clear Hw.
  - destruct (fo_failOver o && more); go; (eapply does_mono; [apply does_finishRouting; by rewrite Hv|]); intros [] v' ->; by go.
  - destruct (fo_retrySame o && _).
    + go. destruct (ge_cancelled _ _); go; [|apply IH].
      eapply does_mono; [by apply does_fail_unless_written|]. intros _ [q w t'] [Et Eq]. cbn in Et, Eq. subst q t'. go.
      eapply does_mono; [apply does_finishRouting; by rewrite Hv|]. intros [] v' ->. by go.
    + destruct (fo_failOver o && more); go; (eapply does_mono; [apply does_finishRouting; by rewrite Hv|]); intros [] v' ->; by go.
Qed.

Definition rounded (r : round_end) (v : view) : Prop :=
  match r with
  | Next _ => idle v
  | End_ e => ended e v
  end.

Lemma ended_answered (v v' : view) :
  idle v -> vw_token v' = vw_token v /\ vw_protocol v' = mkProtocol (pt_phase (vw_protocol v)) None true -> ended Answered v'.
Proof. intros (_ & _ & _ & P) [_ E]. unfold ended. by rewrite E. Qed.

Lemma does_fail_idle px status msg code v : idle v -> does (fail env px status msg code) v (fun _ v' => ended Answered v').
Proof.
  intros I. eapply does_mono; [apply does_fail; [apply I|apply I|]|intros [] v' E; by apply (ended_answered v)].
  destruct I as (_ & _ & _ & P). by destruct (pt_phase (vw_protocol v)).
Qed.

Lemma does_fail_unless_written_idle px msg v : idle v -> does (fail_unless_written env px msg) v (fun _ v' => ended Answered v').
Proof. intros I. unfold fail_unless_written. go. rewrite H0, (proj1 I). by apply does_fail_idle. Qed.

Lemma does_recordNoRoute req v : idle v -> does (recordNoRoute req) v (fun _ v' => idle v').
Proof. intros I. unfold recordNoRoute. go. destruct (_ && _); by go. Qed.

Lemma does_no_upstream cfg px req l v : idle v -> does (no_upstream env cfg px req l) v rounded.
Proof.
  intros I. unfold no_upstream. go. destruct (_ && _ && _ && _ && _); go; [done|].
  eapply does_mono; [by apply does_recordNoRoute|]. intros [] v' I'. go.
  destruct (_ || _); (eapply does_mono; [by apply does_fail_idle|]); intros [] v'' E; by go.
Qed.

Lemma does_lost_admission px req l v : idle v -> does (lost_admission env px req l) v rounded.
Proof.
  intros I. unfold lost_admission. go. destruct (_ || _); [go|destruct (ge_cancelled _ _); go; [|done]].
  - eapply does_mono; [by apply does_recordNoRoute|]. intros [] v' I'. go.
    destruct (0 <? _); (eapply does_mono; [by apply does_fail_idle|]); intros [] v'' E; by go.
  - destruct I as (_ & E1 & E2 & P). by split.
Qed.

Lemma does_attempt_key cfg px req decision pk l t :
  does (attempt_key env cfg px req decision pk l) (admitted_view (dim_of px (pk_ID pk)) t) rounded.
Proof.
  unfold attempt_key. go. eapply does_mono; [apply does_retry_loop|]. intros [o [e|]] v' Ho; cbn in Ho; [by go|].
  repeat case_match; go; try done; (eapply does_mono; [first [by apply does_fail_idle|by apply does_fail_unless_written_idle]|]);
    intros [] v'' E; by go.
Qed.

Lemma does_admit_and_send cfg px req decision c l v : idle v -> does (admit_and_send env cfg px req decision c l) v rounded.
Proof.
  intros I. unfold admit_and_send. go. destruct (transaction _ _).1 as [ad|e].
  2: destruct e; try (by apply does_lost_admission); go; (eapply does_mono; [by apply does_fail_idle|]); intros [] v' E; by go.
  destruct v as [[ph lg an] w t]. destruct I as (W & L & A & P). cbn in W, L, A, P. subst w lg an.
  go_to_emit.
  eapply does_emit; [cbn; by destruct ph|]. apply does_attempt_key.
Qed.
Lemma does_pick_loop fuel px req wait v : idle v -> does (pick_loop env fuel px req wait) v (fun _ v' => idle v').
Proof.
  revert req wait v. induction fuel as [|fuel IH]; intros req wait v I; cbn [pick_loop]; [by go|]. go. destruct r as [r dec].
  destruct r; go; try done. case_bool_decide; go; [done|].
  match goal with |- does (match ?d with Some _ => _ | None => _ end) _ _ => destruct d end; go.
  all: destruct (negb _); go; [done|]; destruct (waitRecoveryChange _ _ _ _) as [changed err];
    destruct (ge_cancelled _ _); go; [done|]; destruct err as [[|m]|]; go; try done;
    destruct (negb changed); go; try (by apply IH); destruct r as [r2 dec2]; go; done.
Qed.

Lemma does_pickWithRecoveryWait fuel px req previous wait v :
  idle v -> does (pickWithRecoveryWait env fuel px req previous wait) v (fun _ v' => idle v').
Proof. intros I. unfold pickWithRecoveryWait. destruct (String.eqb previous ""); go; by apply does_pick_loop. Qed.

Lemma does_proxy_round fuel cfg px l v :
  idle v -> does (proxy_round env fuel cfg px l) v (fun r v' => match r with Some r => rounded r v' | None => True end).
Proof.
  intros I. unfold proxy_round. go. eapply does_mono; [by apply does_pickWithRecoveryWait|].
  intros [[[[r d] req] w]|] v' I'; [|by go]. cbv zeta. apply does_bind. destruct r.
  - eapply does_mono; [by apply does_admit_and_send|]. intros r v'' R. by go.
  - eapply does_mono; [by apply does_no_upstream|]. intros r v'' R. by go.
  - go. eapply does_mono; [by apply does_fail_idle|]. intros [] v'' E. by go.
  - go. destruct I' as (_ & E1 & E2 & P). by split.
Qed.

Lemma does_proxy_loop fuel cfg px l v :
  idle v -> does (proxy_loop env fuel cfg px l) v (fun r v' => forall e, r = Some e -> ended e v').
Proof.
  revert l v. induction fuel as [|fuel IH]; intros l v I; cbn [proxy_loop]; [by go|]. destruct (_ <? _).
  - go. eapply does_mono; [by apply does_proxy_round|]. intros [[l'|e]|] v' R; [by apply IH| |by go]. go. by intros ? [= <-].
  - go. eapply does_mono; [by apply does_fail_unless_written_idle|]. intros [] v' E. go. by intros ? [= <-].
Qed.
End loop.

(** From a state in which nothing was sent. *)
Lemma loop_ends `{GoLib} env fuel cfg px l s r s' :
  g_effects s = [] -> gw_written (g_writer s) = false -> proxy_loop env fuel cfg px l s = (r, s') ->
  exists v', protocol_run (g_effects s') = Some (vw_protocol v') /\ forall e, r = Some e -> ended e v'.
Proof.
  intros He Hw Hr. set (v := mkView protocol_start false (ad_Token (g_admission s))).
  assert (Sv : sees s v) by (split_and!; [by rewrite He|done|done]).
  destruct (does_proxy_loop env fuel cfg px l v ltac:(done) s Sv) as (v' & (E & _) & R). rewrite Hr in E, R. eauto.
Qed.

(** ** Counting *)

(** How often effects of a kind occur. *)
Definition count (p : effect -> bool) (es : list effect) : nat := length (filter (fun e => p e = true) es).

Definition is_acquire (e : effect) : bool := match e with EAcquire _ => true | _ => false end.
Definition is_finish (e : effect) : bool := match e with EFinish _ _ => true | _ => false end.
Definition is_admit (e : effect) : bool := match e with EAdmit _ _ _ => true | _ => false end.
Definition is_observe (e : effect) : bool := match e with EObserve _ _ _ => true | _ => false end.
Definition is_answer (e : effect) : bool := match e with EFinishLog _ _ _ | EError _ _ => true | _ => false end.
Definition is_finish_log (e : effect) : bool := match e with EFinishLog _ _ _ => true | _ => false end.
Definition is_error (e : effect) : bool := match e with EError _ _ => true | _ => false end.
Definition is_send (e : effect) : bool := match e with ESend _ => true | _ => false end.

Lemma count_snoc p es e : count p (es ++ [e]) = (count p es + if p e then 1 else 0)%nat.
Proof. unfold count. rewrite list.filter_app, length_app, filter_cons. case_decide; destruct (p e); done. Qed.

(** What the machine's state says about the numbers so far. *)
Record tally (es : list effect) (q : protocol) : Prop := {
  ta_reserved : count is_acquire es = (count is_finish es + match pt_phase q with Reserved _ _ _ _ => 1 | _ => 0 end)%nat;
  ta_admitted : count is_admit es
                = (count is_observe es + match pt_phase q with Entered _ _ | Reserved _ _ _ _ => 1 | _ => 0 end)%nat;
  ta_logged : count is_finish_log es = match pt_logged q with Some _ => 1%nat | None => 0%nat end;
  ta_errors : count is_error es = if pt_answered q then 1%nat else 0%nat;
  ta_answered : count is_answer es = (match pt_logged q with Some _ => 1 | None => 0 end + if pt_answered q then 1 else 0)%nat
}.

Lemma tally_step es q e q' : tally es q -> protocol_step q e = Some q' -> tally (es ++ [e]) q'.
Proof.
  destruct q as [ph lg an]. intros [T1 T2 T3 T4 T5] Hs. cbn in T1, T2, T3, T4, T5.
  destruct e, ph; cbn in Hs; unfold guard_to, open_ended in Hs; cbn in Hs; repeat (case_match; try discriminate);
    simplify_eq/=; bools; repeat case_bool_decide; simplify_eq/=; split; rewrite !count_snoc; cbn; rewrite ?T1, ?T2, ?T3, ?T4, ?T5; lia.
Qed.

Lemma protocol_tally es q : protocol_run es = Some q -> tally es q.
Proof.
  revert q. induction es as [|e es IH] using rev_ind; [intros q [= <-]; by split|]. intros q. rewrite protocol_run_snoc.
  destruct (protocol_run es) as [q0|]; [|done]. cbn. intros Hs. by eapply tally_step; [apply IH|].
Qed.

(** ** A request that fails over

    Key 7 answers 500 twice (the second time to the retry), key 8 then answers. *)

Definition demo_reply (ok : bool) : upstream_reply :=
  DoOk (if ok
        then mkResponse 200 "application/json" ""
               (js "{'id':'r1','choices':[{'index':0,'message':{'role':'assistant','content':'hi'},'finish_reason':'stop'}]}") EOF
        else mkResponse 500 "application/json" "" (js "{'error':{'message':'boom'}}") EOF).

Definition demo_env : gatewayEnv :=
  mkEnvironment (fun n => (1010 + Z.of_nat n) * Second) (fun _ => two_key_world) (fun n => "token")
    (fun n => mkSend true None None (demo_reply (12 <? Z.of_nat n)) [] (fun _ => (0, (false, false))) false false)
    (fun _ => ([], WaitDeadline)) (fun _ => false) (fun _ x => x) (fun _ => None) (fun _ => false) (fun _ => Some f1).

Definition demo_cfg : proxyCfg := mkProxyCfg 2 1 false ∅ "" "none" "req".
Definition demo_px : proxyReq := mkProxyReq 1 "openai" "gpt-4o" "/v1/chat/completions" false (1010 * Second) false.
Definition demo_state : gstate :=
  mkG 0 (mkPicker DefaultSchedulerSettings ∅ new_runtime ∅) (mkTables ∅ ∅ ∅) newWriter (mkAdmission "" ∅) [].

Example demo_fails_over :
  let '(r, s) := proxy_loop demo_env 10 demo_cfg demo_px (first_loop "" None) demo_state in
  r = Some Settled /\ gw_status (g_writer s) = 200
  /\ filter (fun e => is_send e = true) (g_effects s) = [ESend 7; ESend 7; ESend 8].
Proof. vm_compute. done. Qed.

(** ** The properties *)

(** C2: The proxy loop implements the protocol machine in every environment: the
    effects of a request that starts with nothing sent are a run of the machine.
    So every attempt is admitted before it reserves capacity and observed under its
    own admission token, each reservation is released once with the truth about
    whether the request was sent, requests go only to the admitted key while its
    reservation is held, successes are observed, committed and charged only after
    the log says success, and no attempt starts after the request was answered.
    When the loop returns nothing is pending, and exactly one of these holds: the
    upstream's answer was passed on and logged, an error was answered, or the
    client had gone. *)
Theorem proxy_follows_protocol `{GoLib} env fuel cfg px l s r s' :
  g_effects s = [] -> gw_written (g_writer s) = false -> proxy_loop env fuel cfg px l s = (r, s') ->
  exists q, protocol_run (g_effects s') = Some q
    /\ forall e, r = Some e ->
         match pt_phase q with Routing | Recorded _ _ => True | _ => False end
         /\ match e with
            | Settled => is_Some (pt_logged q) /\ pt_answered q = false
            | Answered => pt_logged q = None /\ pt_answered q = true
            | Gone => pt_logged q = None /\ pt_answered q = false
            end.
Proof.
  intros He Hw Hr. destruct (loop_ends env fuel cfg px l s r s' He Hw Hr) as (v' & E & R). by exists (vw_protocol v').
Qed.

Lemma proxy_follows_protocol_witness :
  exists r s' q, proxy_loop demo_env 10 demo_cfg demo_px (first_loop "" None) demo_state = (r, s')
    /\ protocol_run (g_effects s') = Some q.
Proof.
  destruct (proxy_loop demo_env 10 demo_cfg demo_px (first_loop "" None) demo_state) as [r s'] eqn:E.
  destruct (proxy_follows_protocol demo_env 10 demo_cfg demo_px (first_loop "" None) demo_state r s' eq_refl eq_refl E) as (q & Q & _).
  exists r, s', q. exact (conj eq_refl Q).
Defined.

(** C14: Nothing leaks and every client gets one answer: when the loop returns,
    every reservation of capacity was released, every admission to a circuit was
    observed, and, unless the client has gone, exactly one answer was given (an
    upstream answer passed on, or an error). *)
Theorem proxy_balanced `{GoLib} env fuel cfg px l s e s' :
  g_effects s = [] -> gw_written (g_writer s) = false -> proxy_loop env fuel cfg px l s = (Some e, s') ->
    count is_acquire (g_effects s') = count is_finish (g_effects s')
    /\ count is_admit (g_effects s') = count is_observe (g_effects s')
    /\ count is_answer (g_effects s') = match e with Gone => 0%nat | _ => 1%nat end.
Proof.
  intros He Hw Hr. destruct (loop_ends env fuel cfg px l s _ s' He Hw Hr) as (v' & E & R). destruct (R e eq_refl) as [P Q].
  destruct (protocol_tally _ _ E) as [-> -> _ _ ->]. destruct (pt_phase (vw_protocol v')); try done.
  all: destruct e, Q as [Q ->]; [destruct Q as [b ->]|rewrite Q|rewrite Q]; split_and!; lia.
Qed.

Lemma proxy_balanced_witness :
  exists s', proxy_loop demo_env 10 demo_cfg demo_px (first_loop "" None) demo_state = (Some Settled, s')
    /\ count is_acquire (g_effects s') = count is_finish (g_effects s').
Proof.
  pose proof demo_fails_over as D.
  destruct (proxy_loop demo_env 10 demo_cfg demo_px (first_loop "" None) demo_state) as [r s'] eqn:E. destruct D as [-> _].
  exists s'. split; [reflexivity|].
  exact (proj1 (proxy_balanced demo_env 10 demo_cfg demo_px (first_loop "" None) demo_state Settled s' eq_refl eq_refl E)).
Defined.

(** ** What enters the score windows *)

Lemma bind_run {A B} (m : G A) (f : A -> G B) s : (m ≫= f) s = f (m s).1 (m s).2.
Proof. unfold mbind, G_bind. by destruct (m s). Qed.

Lemma complete_last `{GoLib} env pk sent read o s :
  exists gone o', list.last (g_effects (complete env pk sent read o s).2)
    = Some (EAttempt (pk_ID pk) (attempt_result sent gone o') (counts_in_windows sent gone read o')).
Proof.
  unfold complete. rewrite bind_run. cbv zeta. set (n := (tick env s).1). set (s1 := (tick env s).2). rewrite bind_run.
  destruct (ge_cancelled env n && negb (fo_validSuccess o)); rewrite !bind_run; eexists _, _; apply last_snoc.
Qed.

(** Observing only whether anything was written. *)
Definition written_observation : Observes bool := fun s b => gw_written (g_writer s) = b.

Lemma tick_index env s : (tick env s).1 = g_step s.
Proof. unfold tick. by destruct (ge_others env _ _). Qed.

Lemma tick_state env s : g_step (tick env s).2 = S (g_step s) /\ g_writer (tick env s).2 = g_writer s.
Proof. unfold tick. by destruct (ge_others env _ _). Qed.

Lemma send_read `{GoLib} env px pk up k s :
  gw_written (g_writer s) = false -> (send env px pk up k s).1.1.2 = true ->
  exists r, sn_reply (ge_send env (g_step s)) = DoOk r /\ rs_StatusCode r < 400.
Proof.
  intros Hw. pose (V := written_observation). unfold send. rewrite bind_run, tick_index. set (s1 := (tick env s).2). set (n := g_step s).
  assert (Hw1 : gw_written (g_writer s1) = false) by (unfold s1; by rewrite (proj2 (tick_state env s))).
  match goal with |- (?m s1).1.1.2 = true -> _ =>
    enough (D : does m false (fun x _ => x.1.2 = true -> exists r, sn_reply (ge_send env n) = DoOk r /\ rs_StatusCode r < 400)) end.
  { destruct (D s1 Hw1) as (_ & _ & Q). exact Q. }
  assert (T : forall (Q : nat -> bool -> Prop), (forall n, Q n false) -> does (tick env) false Q).
  { intros Q HQ s' Hs. exists false. unfold tick. destruct (ge_others env _ _). by split. }
  repeat case_match; try (by apply does_ret).
  - apply does_bind, does_bind, T. intros n'. apply does_ret, does_bind. intros s' Hs. exists false. split; [done|].
    apply does_bind. intros s2 Hs2. exists false. split; [done|]. apply does_bind. intros s3 Hs3. exists false. split; [done|].
    by apply does_ret.
  - apply does_bind, does_bind, T. intros n'. apply does_ret, does_bind. intros s' Hs. exists false. split; [done|].
    apply does_bind. intros s2 Hs2. exists false. split; [done|]. apply does_bind. intros s3 Hs3. eexists. split; [done|].
    apply does_ret. cbn. rewrite Hs2, andb_true_r. intros Hr. exists r. split; [done|]. apply negb_true_iff in Hr. lia.
Qed.


