(* ===== verification/GatewayTerm.v ===== *)
(** * The proxy loop returns, and how often it sends

    The same logic with another observation: the number of environment steps
    taken, the number of requests sent, and that the settings stay in their ranges.
    A pick that waits and an admission lost to another request repeat only while the
    overall deadline has not passed; every other repetition uses up an attempt, the
    last resort, or a key of the allowed set. *)

From S2P Require Import Prelude GoFloat GoString Json JsonDecode Settings Domain Capacity Window Score Database Circuit Picker PickerProps Stable StableProps.
From S2P Require Import Upstream Sse Collector GatewayBase Gateway GatewayTrace.

(** ** The picked key is allowed *)

Definition world_ok (w : World) : Prop := forall k model, window_ok (wd_window w k model).

Lemma prepareBudget_allow cfg req mutate tb req' tb' :
  prepareBudget cfg req mutate tb = Ok (req', tb') -> rq_AllowKeys req' = rq_AllowKeys req.
Proof. unfold prepareBudget. repeat case_match; intros; by simplify_eq. Qed.

Lemma pass_env p w req now tb cands p1 tb1 :
  pass p w req now tb = Ok (cands, p1, tb1) ->
  exists env rt', evaluate (bp_cfg p) env req now (bp_runtime p) tb = Ok (cands, rt', tb1) /\ en_window env = wd_window w.
Proof. unfold pass. repeat case_match; intros; simplify_eq. eexists _, _. split; [done|]. done. Qed.

Lemma selectable_allowed cfg env req now rt tb c allow :
  selectable cfg env req now rt tb c -> rq_AllowKeys req = Some allow -> pk_ID (cd_Key c) ∈ allow.
Proof. intros [P _] Ha. exact (ro_route _ _ _ _ _ _ _ _ P _ Ha). Qed.

Lemma PickDecision_allowed p w req now tb c d p' tb' allow :
  settings_ok (bp_cfg p) -> world_ok w -> PickDecision p w req now tb = (Ok c, d, p', tb') ->
  rq_AllowKeys req = Some allow -> pk_ID (cd_Key c) ∈ allow.
Proof.
  intros So Wo E Ha. unfold PickDecision in E. destruct (prepareBudget _ _ _ _) as [[req1 tb1]|] eqn:Eb; [|done].
  apply prepareBudget_allow in Eb. rewrite <- Eb in Ha. clear Eb.
  assert (K : forall cands p1 tb2 i c0, pass p w req1 now tb1 = Ok (cands, p1, tb2) -> cands !! i = Some c0 ->
            cd_Eligible c0 = true \/ cd_Selected c0 = true -> pk_ID (cd_Key c0) ∈ allow).
  { intros cands p1 tb2 i c0 Hp Hi [He|He]; apply pass_env in Hp as (env & rt' & Ev & Ew);
      assert (Eo : env_ok env (rq_Model req1)) by (intros k; rewrite Ew; apply Wo);
      eapply selectable_allowed; try exact Ha.
    - by apply (evaluate_eligible _ _ _ _ _ _ _ _ _ i c0 So Eo Ev Hi).
    - by apply (evaluate_selected _ _ _ _ _ _ _ _ _ i c0 So Eo Ev Hi). }
  case_match.
  - destruct (pass p w req1 now tb1) as [[[cands p1] tb2]|e] eqn:Ep.
    + pose proof (stableDecision_spec p w req1 true now tb1 cands p1 tb2 Ep) as S. rewrite E in S.
      destruct S as (_ & _ & i & c0 & Hi & -> & _ & [He|[He _]]); eapply K; eauto.
    + unfold stableDecision in E. by rewrite Ep in E.
  - destruct (pass p w req1 now tb1) as [[[cands p1] tb2]|e] eqn:Ep; [|done].
    destruct (find cd_Selected cands) as [c0|] eqn:Ef; [|done]. simplify_eq.
    apply find_spec in Ef as [Hin Hs]. apply list_elem_of_lookup in Hin as [i Hi]. eapply K; eauto.
Qed.

Lemma PickDecision_cfg p w req now tb : bp_cfg (PickDecision p w req now tb).1.2 = bp_cfg p.
Proof.
  unfold PickDecision. destruct (prepareBudget _ _ _ _) as [[req1 tb1]|]; [|done]. case_match.
  - unfold stableDecision. destruct (pass p w req1 now tb1) as [[[cands p1] tb2]|e] eqn:Ep; [|done].
    apply pass_cfg in Ep. repeat case_match; try done.
  - destruct (pass p w req1 now tb1) as [[[cands p1] tb2]|e] eqn:Ep; [|done]. apply pass_cfg in Ep. by case_match.
Qed.

Lemma CommitSuccess_cfg p w req d key id now : bp_cfg (CommitSuccess p w req d key id now) = bp_cfg p.
Proof. unfold CommitSuccess. repeat case_match; done. Qed.

(** ** The observation *)

(** [mt_keys] are the keys that may be sent to. *)
Record meter := mkMeter { mt_steps : nat; mt_sends : nat; mt_keys : Z -> Prop }.

#[export] Instance meter_observation : Observes meter := fun s m =>
  g_step s = mt_steps m /\ count is_send (g_effects s) = mt_sends m /\ settings_ok (bp_cfg (g_picker s))
  /\ forall k, ESend k ∈ g_effects s -> mt_keys m k.

(** Progress of a run: steps only grow, sends by at most [k]. *)
Definition within (m : meter) (k : nat) (m' : meter) : Prop :=
  (mt_steps m <= mt_steps m')%nat /\ (mt_sends m <= mt_sends m' <= mt_sends m + k)%nat /\ mt_keys m' = mt_keys m.

Section meter.
Context `{GoLib} (env : gatewayEnv).
Context (others_ok : forall n p tb, settings_ok (bp_cfg p) -> settings_ok (bp_cfg (ge_others env n (p, tb)).1)).
Context (worlds_ok : forall n, world_ok (ge_world env n)).

Definition stepped (m : meter) : meter := mkMeter (S (mt_steps m)) (mt_sends m) (mt_keys m).

Definition noted (e : effect) (m : meter) : meter := if is_send e then mkMeter (mt_steps m) (mt_sends m + 1) (mt_keys m) else m.

Lemma meter_emit e m (Q : unit -> meter -> Prop) : (forall k, e = ESend k -> mt_keys m k) -> Q tt (noted e m) -> does (emit e) m Q.
Proof.
  intros He HQ s (H1 & H2 & H3 & H4). exists (noted e m). split; [|exact HQ]. split_and!; [by unfold noted; destruct (is_send e)| |done|].
  - change (count is_send (g_effects s ++ [e]) = mt_sends (noted e m)). rewrite count_snoc, H2. unfold noted.
    destruct (is_send e); cbn; lia.
  - intros k. change (ESend k ∈ g_effects s ++ [e] -> mt_keys (noted e m) k). rewrite elem_of_app, list_elem_of_singleton.
    assert (mt_keys (noted e m) = mt_keys m) as -> by (unfold noted; by destruct (is_send e)). intros [Hk|Hk]; [by apply H4|by apply He].
Qed.

Lemma meter_tick m (Q : nat -> meter -> Prop) : Q (mt_steps m) (stepped m) -> does (tick env) m Q.
Proof using others_ok.
  intros HQ s (H1 & H2 & H3 & H5). exists (stepped m). unfold tick. pose proof (others_ok (g_step s) (g_picker s) (g_tables s) H3) as H4.
  destruct (ge_others env _ _) as [p tb]. cbn in *. rewrite H1. split; [|done]. split_and!; cbn; congruence || done.
Qed.

Lemma meter_now m (Q : time -> meter -> Prop) : Q (ge_now env (mt_steps m)) (stepped m) -> does (Now env) m Q.
Proof using others_ok. intros HQ. apply does_bind, meter_tick. by apply does_ret. Qed.

Lemma meter_store {A} (p : prog A) m (Q : result rherr A -> meter -> Prop) : (forall r, Q r m) -> does (store p) m Q.
Proof. intros HQ s Hs. exists m. unfold store. destruct (transaction p (g_tables s)). by split. Qed.

Lemma meter_get_writer m (Q : ginWriter -> meter -> Prop) : (forall w, Q w m) -> does get_writer m Q.
Proof. intros HQ s Hs. exists m. split; [done|]. apply HQ. Qed.

Lemma meter_set_writer w m (Q : unit -> meter -> Prop) : Q tt m -> does (set_writer w) m Q.
Proof. intros HQ s Hs. by exists m. Qed.

Lemma meter_get_picker m (Q : BandPicker -> meter -> Prop) : (forall p, settings_ok (bp_cfg p) -> Q p m) -> does get_picker m Q.
Proof. intros HQ s Hs. exists m. split; [done|]. apply HQ, Hs. Qed.

Lemma meter_set_picker p m (Q : unit -> meter -> Prop) : settings_ok (bp_cfg p) -> Q tt m -> does (set_picker p) m Q.
Proof. intros So HQ s (H1 & H2 & H3 & H4). by exists m. Qed.

Lemma meter_get_admission m (Q : Admission -> meter -> Prop) : (forall a, Q a m) -> does get_admission m Q.
Proof. intros HQ s Hs. exists m. split; [done|]. apply HQ. Qed.

Lemma meter_set_admission a m (Q : unit -> meter -> Prop) : Q tt m -> does (set_admission a) m Q.
Proof. intros HQ s Hs. by exists m. Qed.

(** A pick, with what is known of the key it returns. *)
Lemma meter_pick req m (Q : pick_result * Decision -> meter -> Prop) :
  (forall r d, (forall c allow, r = Picked c -> rq_AllowKeys req = Some allow -> pk_ID (cd_Key c) ∈ allow) -> Q (r, d) (stepped m)) ->
  does (pick env req) m Q.
Proof using others_ok worlds_ok.
  intros HQ. apply does_bind, meter_tick. intros s (H1 & H2 & H3 & H4). exists (stepped m). unfold pick_at.
  set (n := mt_steps m). pose proof (PickDecision_cfg (g_picker s) (ge_world env n) req (ge_now env n) (g_tables s)) as Ec.
  destruct (PickDecision _ _ _ _ _) as [[[r d] p] tb] eqn:E. cbn in Ec.
  split; [split_and!; [done|done|by cbn; rewrite Ec|done]|]. apply HQ. intros c allow Hr Ha.
  destruct r as [c'|[]]; simplify_eq; [|by destruct (ge_cancelled env n)..].
  by eapply (PickDecision_allowed _ _ _ _ _ _ _ _ _ _ H3 (worlds_ok n) E).
Qed.
End meter.

Ltac mgo1 O W :=
  lazymatch goal with
  | |- does (mret _) _ _ => apply does_ret
  | |- does (_ ≫= _) _ _ => apply does_bind
  | |- does (emit (if _ then _ else _)) _ _ => fail
  | |- does (emit _) _ _ => apply meter_emit; [try done|unfold noted; cbn [is_send]]
  | |- does (tick _) _ _ => apply (meter_tick _ O)
  | |- does (Now _) _ _ => apply (meter_now _ O)
  | |- does (store _) _ _ => apply meter_store; intros ?
  | |- does get_writer _ _ => apply meter_get_writer; intros ?
  | |- does (set_writer _) _ _ => apply meter_set_writer
  | |- does get_picker _ _ => apply meter_get_picker; intros ? ?
  | |- does (set_picker _) _ _ => apply meter_set_picker; [try done|]
  | |- does get_admission _ _ => apply meter_get_admission; intros ?
  | |- does (set_admission _) _ _ => apply meter_set_admission
  | |- does (pick _ _) _ _ => apply (meter_pick _ O W); intros ? ? ?
  end.
Ltac counts := unfold within, stepped in *; cbn in *; destruct_and?; split_and?; first [lia | congruence].

Section meters.
Context `{GoLib} (env : gatewayEnv).
Context (others_ok : forall n p tb, settings_ok (bp_cfg p) -> settings_ok (bp_cfg (ge_others env n (p, tb)).1)).
Context (worlds_ok : forall n, world_ok (ge_world env n)).
Local Ltac mgo := repeat mgo1 others_ok worlds_ok; cbn beta iota zeta.
Local Ltac mcall t := eapply does_mono; [apply t; try done|].

(** Runs that send nothing. *)
Definition quiet {A} (k : G A) : Prop := forall m, does k m (fun _ m' => within m 0 m').

(** What an outcome may say about a probe switched off, and the sends behind it. *)
Definition metered (px : proxyReq) (m : meter) (k : nat) (o : forwardOutcome) (m' : meter) : Prop :=
  within m k m' /\ (fo_action o = ProbeSkipDisabled -> px_needsProbe px = true).

Lemma meter_settle px up r err usage id compacting m : does (settle env up r err usage id compacting) m (metered px m 0).
Proof.
  unfold settle. cbv zeta. set (success := _ && bool_decide (err = None)).
  destruct (match err with Some _ => _ | None => _ end) as [msg action] eqn:Ea.
  assert (action <> ProbeSkipDisabled) by (repeat case_match; simplify_eq; done).
  destruct success; mgo; [destruct (ge_cost env usage)|]; mgo; split; try counts; done.
Qed.

Lemma classify_not_probe code body : fo_action (classifyHTTPFailure code body) <> ProbeSkipDisabled.
Proof. unfold classifyHTTPFailure. repeat case_match; done. Qed.

Lemma meter_http_failure px r m : does (http_failure env r) m (metered px m 0).
Proof using others_ok.
  unfold http_failure. pose proof (classify_not_probe (rs_StatusCode r) (read_limited maxErrorInspectBytes (rs_body r))) as N.
  mgo. case_match; mgo; [|case_match; mgo]; (split; [counts|done]).
Qed.

Lemma meter_unusable px r failOver retrySame action msg m :
  action <> ProbeSkipDisabled -> does (unusable r failOver retrySame action msg) m (metered px m 0).
Proof. intros N. unfold unusable. mgo. split; [counts|done]. Qed.

Lemma metered_trans px m k m1 k1 o m2 : within m k m1 -> metered px m1 k1 o m2 -> metered px m (k + k1) o m2.
Proof. intros W [W' N]. split; [counts|done]. Qed.

Lemma meter_stream_answer px up r sn start hold k m :
  quiet k -> does (stream_answer env px up r sn start hold k) m (metered px m 0).
Proof using others_ok.
  intros Hk. unfold stream_answer. mgo. destruct (if isTextAPI (px_path px) then _ else _) as [res c]. mgo.
  assert (Hif : forall b : bool, does (if b then k else mret tt) m (fun _ m' => within m 0 m')).
  { intros []; [apply Hk|apply does_ret; counts]. }
  mcall Hif. intros [] m1 W1. mgo.
  assert (W2 : within m 0 (stepped m1)) by counts.
  destruct (default _ _) as [e|].
  - destruct (negb _).
    + eapply does_mono; [apply meter_unusable; by repeat case_match|]. intros o m2. by apply (metered_trans px m 0).
    + apply does_bind. destruct (String.eqb _ _ && _ && _); mgo; (mcall meter_settle); intros o m2; by apply (metered_trans px m 0).
  - mcall meter_settle. intros o m2. by apply (metered_trans px m 0).
Qed.

Lemma meter_answer px up r sn start k m : quiet k -> does (answer env px up r sn start k) m (metered px m 0).
Proof using others_ok.
  intros Hk. unfold answer. mgo. case_match; [apply meter_http_failure|]. mgo.
  repeat case_match; try (by apply meter_unusable); try (by apply meter_stream_answer).
  - unfold json_answer. cbv zeta. destruct (if maxJSONResponse <? _ then _ else _); [by apply meter_unusable|]. mgo.
    destruct (gin_Write _ _ _). mgo. apply meter_settle.
  - unfold raw_answer. mgo. destruct (match rs_body r with [] => _ | _ => _ end). mgo. apply meter_settle.
Qed.
Lemma probe_refusal_needs px sn o : probe_refusal px sn = Some o -> px_needsProbe px = true.
Proof. unfold probe_refusal. by case_match. Qed.

Lemma meter_send px pk up k m : mt_keys m (pk_ID pk) -> quiet k -> does (send env px pk up k) m (fun x m' => metered px m 1 x.2 m').
Proof using others_ok.
  intros Hp Hk. unfold send. mgo. destruct (negb _); mgo; [split; [counts|done]|].
  destruct (sn_newRequest _) as [msg|]; [mgo; split; [counts|done]|].
  destruct (probe_refusal _ _) as [o|] eqn:Ep; mgo; [split; [counts|intros _; by apply probe_refusal_needs in Ep]|by intros ? [= <-]|].
  destruct (sn_reply _) as [msg|r]; mgo; [split; [counts|done]|].
  eapply does_mono; [by apply meter_answer|]. intros o m' [W N]. mgo. split; [counts|done].
Qed.

Lemma meter_complete px pk sent read o m k m0 :
  metered px m0 k o m -> does (complete env pk sent read o) m (metered px m0 k).
Proof using others_ok.
  intros [W N]. unfold complete. mgo. destruct (_ && _); mgo; (split; [counts|done]).
Qed.

Lemma meter_forwardOnce px pk up k m : mt_keys m (pk_ID pk) -> quiet k -> does (forwardOnce env px pk up k) m (metered px m 1).
Proof using others_ok.
  intros Hp Hk. unfold forwardOnce. mgo. destruct (TryAcquireAttempt _ _ _ _) as [[res scope] rt]. mgo. destruct res as [a|]; mgo.
  - eapply does_mono; [by apply meter_send|]. intros [[sent read] o] m' W. mgo. apply meter_complete.
    destruct W as [W N]. split; [counts|done].
  - apply meter_complete. split; [counts|done].
Qed.

Lemma onOutput_quiet d decision : quiet (onOutput env d decision).
Proof using others_ok.
  intros m. unfold onOutput. case_match; mgo; [counts|]. unfold note_release. repeat case_match; mgo; counts.
Qed.

Lemma finishRouting_quiet cfg d started o : quiet (finishRouting env cfg d started o).
Proof using others_ok. intros m. unfold finishRouting. mgo. counts. Qed.

Lemma fail_quiet px status msg code : quiet (fail env px status msg code).
Proof. intros m. unfold fail, refuse. mgo. counts. Qed.

Lemma fail_unless_written_quiet px msg : quiet (fail_unless_written env px msg).
Proof. intros m. unfold fail_unless_written. mgo. case_match; [mgo; counts|apply fail_quiet]. Qed.

Lemma recordNoRoute_quiet req : quiet (recordNoRoute req).
Proof. intros m. unfold recordNoRoute. mgo. destruct (_ && _); mgo; counts. Qed.

(** The sends on one key. *)
Lemma meter_retry_loop left_ cfg px more req decision pk up started m :
  mt_keys m (pk_ID pk) -> does (retry_loop env left_ cfg px more req decision pk up started) m (fun x m' => metered px m (S left_) x.1 m').
Proof using others_ok.
  revert m. induction left_ as [|left_ IH]; intros m Hp; cbn [retry_loop]; apply does_bind;
    (eapply does_mono; [apply meter_forwardOnce; [done|apply onOutput_quiet]|]); intros o m1 [W1 N]; cbv zeta; destruct (fo_ok o); mgo.
  1,3: eapply does_mono; [apply finishRouting_quiet|]; intros [] m2 W2; mgo; destruct (fo_validSuccess o); unfold commit_success;
    mgo; try (by rewrite CommitSuccess_cfg); (split; [counts|done]).
  - destruct (fo_failOver o && more); mgo; (eapply does_mono; [apply finishRouting_quiet|]); intros [] m2 W2; mgo; (split; [counts|done]).
  - destruct (fo_retrySame o && _); mgo.
    + destruct (ge_cancelled _ _); mgo.
      * eapply does_mono; [apply fail_unless_written_quiet|]. intros [] m2 W2. mgo.
        eapply does_mono; [apply finishRouting_quiet|]. intros [] m3 W3. mgo. split; [counts|done].
      * eapply does_mono; [apply IH; by cbn; destruct W1 as (_ & _ & ->)|]. intros x m2 [W2 N2]. split; [counts|done].
    + destruct (fo_failOver o && more); mgo; (eapply does_mono; [apply finishRouting_quiet|]); intros [] m2 W2; mgo; (split; [counts|done]).
Qed.
(** ** Waiting *)

Context (px : proxyReq) (steps : nat).

(** From its reading [steps] on the clock is past the overall deadline. *)
Definition clock_passes : Prop := forall n, (steps <= n)%nat -> px_start px + proxyOverallTimeout <= ge_now env n.

(** A wait ends by the overall deadline. *)
Definition due (w : recoveryWaitState) : Prop := forall t, ws_deadline w = Some t -> t <= px_start px + proxyOverallTimeout.

Lemma not_yet n t : t <= px_start px + proxyOverallTimeout -> (ge_now env n <? t) = true -> clock_passes -> (n < steps)%nat.
Proof using.
  intros Ht Hn C. apply Z.ltb_lt in Hn. destruct (Nat.lt_ge_cases n steps) as [|G]; [done|]. specialize (C n G). lia.
Qed.

(** What a pick leaves: out of fuel only if the clock has not come far enough. *)
Definition picked_ok (fuel : nat) (req : Request) (m : meter) (x : option (pick_result * Decision * Request * recoveryWaitState))
    (m' : meter) : Prop :=
  within m 0 m'
  /\ match x with
     | None => clock_passes -> (fuel <= steps - mt_steps m)%nat
     | Some (r, _, _, w) =>
         (mt_steps m < mt_steps m')%nat /\ due w
         /\ forall c allow, r = Picked c -> rq_AllowKeys req = Some allow -> pk_ID (cd_Key c) ∈ allow
     end.

Lemma picked_ok_again fuel req req' m m1 x m' k :
  rq_AllowKeys req' = rq_AllowKeys req -> within m 0 m1 -> (clock_passes -> k < steps)%nat -> (mt_steps m <= k < mt_steps m1)%nat ->
  picked_ok fuel req' m1 x m' -> picked_ok (S fuel) req m x m'.
Proof using.
  intros Er W K1 K2 [W' P]. split; [counts|]. destruct x as [[[[r d] rq] w]|].
  - destruct P as (P1 & P2 & P3). split_and!; [counts|done|by rewrite <- Er].
  - intros C. specialize (P C). specialize (K1 C). lia.
Qed.

Lemma due_set t b r e : t <= px_start px + proxyOverallTimeout -> due (mkWait (Some t) b r e).
Proof using. by intros Ht ? [= <-]. Qed.

Lemma meter_pick_loop fuel req wait m : due wait -> does (pick_loop env fuel px req wait) m (picked_ok fuel req m).
Proof using others_ok worlds_ok.
  revert req wait m. induction fuel as [|fuel IH]; intros req wait m D; cbn [pick_loop]; [mgo; split; [counts|intros _; lia]|].
  mgo. destruct r; mgo; try (by split; [counts|split_and!; [counts|done|]]).
  case_bool_decide; mgo; [by split; [counts|split_and!; [counts|done|]]|].
  set (m1 := stepped (stepped m)).
  assert (Dl : does (match ws_deadline wait with
                     | Some t => mret t
                     | None => _ ← emit (ETrace "waiting" "recovery_in_progress");
                               mret (Z.min (ge_now env (mt_steps (stepped m)) + recoveryWaitLimit) (px_start px + proxyOverallTimeout))
                     end) m1 (fun t m' => m' = m1 /\ t <= px_start px + proxyOverallTimeout)).
  { destruct (ws_deadline wait) as [t|] eqn:Ed; mgo; [split; [done|by apply D]|split; [done|lia]]. }
  eapply does_mono; [exact Dl|]. intros t m' [-> Ht]. mgo. destruct (negb _) eqn:En; mgo; [split; [counts|]; split_and!; [counts|by apply due_set|done]|].
  apply negb_false_iff in En. pose proof (not_yet _ _ Ht En) as K.
  destruct (waitRecoveryChange _ _ _ _) as [changed err].
  destruct (ge_cancelled _ _); mgo; [split; [counts|]; split_and!; [counts|by apply due_set|done]|].
  destruct err as [[|msg]|]; [|mgo; split; [counts|]; split_and!; [counts|by apply due_set|done]|];
    (destruct (negb changed); mgo;
     [destruct r; mgo; (split; [counts|]; split_and!; [counts|by apply due_set|done])
     |eapply does_mono; [apply IH; by apply due_set|]; intros x m';
      eapply (picked_ok_again fuel req _ m _ x m' (mt_steps m1)); [done|counts|done|counts]]).
Qed.
Lemma meter_pickWithRecoveryWait fuel req previous wait m :
  due wait -> does (pickWithRecoveryWait env fuel px req previous wait) m (picked_ok fuel req m).
Proof using others_ok worlds_ok.
  intros D. unfold pickWithRecoveryWait. apply does_bind.
  destruct (String.eqb previous ""); mgo; (eapply does_mono; [by apply meter_pick_loop|]); intros x m' [W P];
    (split; [counts|]); destruct x as [[[[r d] rq] w]|]; try (by intros C; specialize (P C); counts);
    destruct P as (P1 & P2 & P3); split_and!; try done; try counts; intros c allow Hr Ha; apply (P3 c allow Hr); by case_match.
Qed.

(** ** Rounds *)

Context (cfg : proxyCfg).

(** Keys that may still be picked, as far as a switched-off probe can remove them. *)
Definition allowed (l : loopState) : nat := size (default ∅ (lp_allow l)).
Definition attempts_left (l : loopState) : nat := Z.to_nat (pc_attempts cfg - lp_attempt l).
Definition sends_per_key : nat := S (Z.to_nat (pc_retries cfg)).

(** Keys that may still be sent to. *)
Definition budget (l : loopState) : nat := attempts_left l + if px_needsProbe px then allowed l else 0.

(** What every repetition uses up. *)
Definition reserve (l : loopState) (m : meter) : nat :=
  attempts_left l + (if lp_lastResort l then 0 else 1) + allowed l + (steps - mt_steps m).

(** The keys the loop's state allows. *)
Definition allows (l : loopState) (k : Z) : Prop := forall a, lp_allow l = Some a -> k ∈ a.

(** A round against the state it began in. *)
Definition round_ok (l : loopState) (m : meter) (r : round_end) (m' : meter) : Prop :=
  (mt_steps m <= mt_steps m')%nat /\ mt_keys m' = mt_keys m
  /\ match r with
     | End_ _ => (mt_sends m' <= mt_sends m + sends_per_key * budget l)%nat
     | Next l' => due (lp_wait l') /\ (forall k, allows l' k -> allows l k) /\ (clock_passes -> reserve l' m' < reserve l m)%nat
                  /\ (mt_sends m' + sends_per_key * budget l' <= mt_sends m + sends_per_key * budget l)%nat
     end.

Lemma meter_no_upstream req l m : due (lp_wait l) -> does (no_upstream env cfg px req l) m (round_ok l m).
Proof using others_ok.
  intros D. unfold no_upstream. mgo. destruct (_ && _ && _ && _ && _) eqn:E; mgo.
  - bools. split; [counts|]. split; [counts|]. split; [done|]. split; [done|]. unfold reserve, budget, attempts_left, allowed. cbn.
    destruct (lp_lastResort l); [done|]. counts.
  - eapply does_mono; [apply recordNoRoute_quiet|]. intros [] m1 W1. mgo.
    destruct (_ || _); (eapply does_mono; [apply fail_quiet|]); intros [] m2 W2; mgo; (split; counts).
Qed.

Lemma meter_lost_admission req l m : due (lp_wait l) -> does (lost_admission env px req l) m (round_ok l m).
Proof using others_ok.
  intros D. unfold lost_admission. mgo. destruct (_ || _) eqn:E; mgo.
  - eapply does_mono; [apply recordNoRoute_quiet|]. intros [] m1 W1. mgo.
    destruct (0 <? _); (eapply does_mono; [apply fail_quiet|]); intros [] m2 W2; mgo; (split; counts).
  - apply orb_false_iff in E as [E _].
    assert (K : clock_passes -> (mt_steps m < steps)%nat). { apply (not_yet _ (px_start px + proxyOverallTimeout)); lia. }
    destruct (ge_cancelled _ _); mgo; (split; [counts|]); [counts|]. split; [counts|]. split; [done|]. split; [done|].
    split; [|counts]. intros C. specialize (K C). unfold reserve. counts.
Qed.

Lemma allowed_removed k a l :
  lp_allow l = Some a -> k ∈ a -> (size (a ∖ {[k]} : gset Z) < allowed l)%nat.
Proof using. intros Ha Hk. unfold allowed. rewrite Ha. cbn. apply subset_size. clear -Hk. set_solver. Qed.

Lemma spend (k x y c c' : nat) : (c' <= c + k -> x < y -> c' + k * x <= c + k * y)%nat.
Proof using. nia. Qed.

Lemma meter_attempt_key req decision pk l m :
  lp_attempt l < pc_attempts cfg -> due (lp_wait l) -> mt_keys m (pk_ID pk) -> allows l (pk_ID pk) ->
  does (attempt_key env cfg px req decision pk l) m (round_ok l m).
Proof using others_ok.
  intros At D Kp Al. unfold attempt_key. mgo. eapply does_mono; [by apply meter_retry_loop|]. intros [o e] m1 [W1 N].
  assert (B : (1 <= budget l)%nat) by (unfold budget, attempts_left; lia).
  assert (S1 : (mt_sends m1 <= mt_sends m + sends_per_key)%nat) by (unfold sends_per_key; counts).
  assert (S2 : (mt_sends m1 <= mt_sends m + sends_per_key * budget l)%nat) by nia.
  destruct e as [e|]; mgo; [split; counts|]. cbv zeta. destruct (String.eqb_spec (fo_action o) ProbeSkipDisabled) as [Ea|Ea].
  - cbn [exclude_failed lp_allow]. case_bool_decide as Hb; mgo.
    + eapply does_mono; [apply fail_quiet|]. intros [] m2 W2. mgo. split; counts.
    + destruct (lp_allow l) as [a|] eqn:Ela; [|by destruct Hb].
      pose proof (allowed_removed (pk_ID pk) a l Ela (Al a Ela)) as Rm. specialize (N Ea).
      split; [counts|]. split; [counts|]. split; [done|].
      split; [intros k Hk a' Ha'; rewrite Ela in Ha'; injection Ha' as <-; specialize (Hk _ eq_refl); clear -Hk; set_solver|].
      split; [|apply spend; [done|]];
        unfold reserve, budget, attempts_left in *; rewrite ?N in *; unfold allowed at 1; cbn; counts.
  - destruct (negb _); mgo.
    + eapply does_mono; [apply fail_unless_written_quiet|]. intros [] m2 W2. mgo. split; counts.
    + split; [counts|]. split; [counts|]. split; [done|]. split; [done|].
      split; [|apply spend; [done|]]; unfold reserve, budget, attempts_left, allowed in *; cbn; counts.
Qed.
Lemma round_ok_later l m m1 r m' :
  (mt_steps m <= mt_steps m1)%nat -> mt_sends m1 = mt_sends m -> mt_keys m1 = mt_keys m -> round_ok l m1 r m' -> round_ok l m r m'.
Proof using.
  intros W1 W2 W3 (S & K & R). split; [lia|]. split; [congruence|]. destruct r as [l'|e]; [|lia]. destruct R as (D & A & R & B). split; [done|]. split; [done|].
  split; [intros C; specialize (R C); unfold reserve in *; lia|lia].
Qed.

Lemma meter_admit_and_send req decision c l m :
  lp_attempt l < pc_attempts cfg -> due (lp_wait l) -> mt_keys m (pk_ID (cd_Key c)) -> allows l (pk_ID (cd_Key c)) ->
  does (admit_and_send env cfg px req decision c l) m (round_ok l m).
Proof using others_ok.
  intros At D Kp Al. unfold admit_and_send. mgo.
  assert (Later : forall r m', round_ok l (stepped m) r m' -> round_ok l m r m') by (intros r' m'; apply round_ok_later; counts).
  destruct r as [a|[]]; mgo; try (eapply does_mono; [apply fail_quiet|]; intros [] m' W; mgo; split; counts).
  - eapply does_mono; [by apply meter_attempt_key|]. apply Later.
  - eapply does_mono; [by apply meter_lost_admission|]. apply Later.
Qed.

Lemma meter_proxy_round fuel l m :
  lp_attempt l < pc_attempts cfg -> due (lp_wait l) -> (forall k, allows l k -> mt_keys m k) ->
  does (proxy_round env fuel cfg px l) m
    (fun r m' => match r with
                 | Some r => round_ok l m r m'
                 | None => mt_sends m' = mt_sends m /\ mt_keys m' = mt_keys m /\ (clock_passes -> (fuel <= steps - mt_steps m)%nat)
                 end).
Proof using others_ok worlds_ok.
  intros At D Ks. unfold proxy_round. mgo. eapply does_mono; [by apply meter_pickWithRecoveryWait|].
  intros [[[[r d] req] w]|] m1 [W P]; [|mgo; split_and!; [counts|counts|done]]. destruct P as (P1 & P2 & P3). cbv zeta. apply does_bind.
  set (l1 := set_wait l (rq_Session req) w).
  assert (Later : forall r m', round_ok l1 m1 r m' -> round_ok l m r m') by (intros r' m'; apply (round_ok_later l); counts).
  destruct r as [c| |msg|].
  - assert (Al : allows l1 (pk_ID (cd_Key c))) by (intros a Ha; by apply (P3 c a eq_refl)).
    eapply does_mono; [apply meter_admit_and_send; [done|done| |done]|intros r m' R; mgo; by apply Later].
    destruct W as (_ & _ & ->). by apply Ks.
  - eapply does_mono; [by apply meter_no_upstream|]. intros r m' R. mgo. by apply Later.
  - mgo. eapply does_mono; [apply fail_quiet|]. intros [] m' W'. mgo. split; counts.
  - mgo. split; counts.
Qed.

Lemma meter_proxy_loop fuel l m :
  due (lp_wait l) -> (forall k, allows l k -> mt_keys m k) ->
  does (proxy_loop env fuel cfg px l) m (fun r m' => mt_keys m' = mt_keys m /\
    (clock_passes -> (reserve l m < fuel)%nat -> is_Some r) /\ (mt_sends m' <= mt_sends m + sends_per_key * budget l)%nat).
Proof using others_ok worlds_ok.
  revert l m. induction fuel as [|fuel IH]; intros l m D Ks; cbn [proxy_loop]; [mgo; split_and!; [done|lia|counts]|].
  destruct (lp_attempt l <? pc_attempts cfg) eqn:At; mgo.
  - apply Z.ltb_lt in At. eapply does_mono; [by apply meter_proxy_round|]. intros [[l'|e]|] m1 R.
    + destruct R as (S1 & K & D' & A & R & B). eapply does_mono; [apply IH; [done|]|].
      { intros k Hk. rewrite K. by apply Ks, A. }
      intros r m' (T0 & T1 & T2). split_and!; [congruence| |lia]. intros C F. specialize (R C). apply T1; [done|lia].
    + mgo. destruct R as (S1 & K & R). split_and!; [done|by eexists|lia].
    + mgo. destruct R as (R1 & K & R2). split_and!; [done| |lia]. intros C F. specialize (R2 C). unfold reserve in F. lia.
  - eapply does_mono; [apply fail_unless_written_quiet|]. intros [] m' W. mgo. split_and!; [counts|by eexists|counts].
Qed.
End meters.

(** The loop from its first state. *)
Lemma loop_returns `{GoLib} env fuel cfg px session allow s steps :
  (forall n p tb, settings_ok (bp_cfg p) -> settings_ok (bp_cfg (ge_others env n (p, tb)).1)) ->
  (forall n, world_ok (ge_world env n)) -> settings_ok (bp_cfg (g_picker s)) ->
  (forall n, (steps <= n)%nat -> px_start px + proxyOverallTimeout <= ge_now env n) ->
  (Z.to_nat (pc_attempts cfg) + 1 + size (default ∅ allow) + steps < fuel)%nat ->
  is_Some (proxy_loop env fuel cfg px (first_loop session allow) s).1.
Proof.
  intros Oo Wo So C F. set (m := mkMeter (g_step s) (count is_send (g_effects s)) (fun _ => True)).
  destruct (meter_proxy_loop env Oo Wo px steps cfg fuel (first_loop session allow) m ltac:(done) ltac:(done) s ltac:(done))
    as (m' & _ & _ & R & _).
  apply R; [exact C|]. unfold reserve, attempts_left, allowed. cbn. rewrite Z.sub_0_r. lia.
Qed.

(** ** The properties *)


Lemma demo_worlds_ok : world_ok two_key_world.
Proof. intros k model. apply (two_keys_ok model k). Qed.


(** C15: No retry storms: one client request causes at most (attempts) x (retries +
    1) upstream requests; when the request needs probe permission, each allowed key
    switched off in between adds one key's worth.  The last resort and lost
    admissions add nothing. *)
Theorem proxy_sends_bounded `{GoLib} env fuel cfg px session allow s :
  (forall n p tb, settings_ok (bp_cfg p) -> settings_ok (bp_cfg (ge_others env n (p, tb)).1)) ->
  (forall n, world_ok (ge_world env n)) -> settings_ok (bp_cfg (g_picker s)) -> g_effects s = [] ->
  (count is_send (g_effects (proxy_loop env fuel cfg px (first_loop session allow) s).2)
   <= (Z.to_nat (pc_attempts cfg) + if px_needsProbe px then size (default ∅ allow) else 0) * S (Z.to_nat (pc_retries cfg)))%nat.
Proof.
  intros Oo Wo So E. set (m := mkMeter (g_step s) 0 (fun _ => True)).
  destruct (meter_proxy_loop env Oo Wo px 0 cfg fuel (first_loop session allow) m ltac:(done) ltac:(done) s) as (m' & (_ & -> & _) & _ & _ & R).
  - by split_and!; [|rewrite E| |].
  - unfold budget, attempts_left, allowed, sends_per_key in R. cbn in R. rewrite Z.sub_0_r in R. lia.
Qed.

Lemma proxy_sends_bounded_witness :
  (count is_send (g_effects (proxy_loop demo_env 10 demo_cfg demo_px (first_loop "" None) demo_state).2) <= 4)%nat.
Proof.
  apply (proxy_sends_bounded demo_env 10 demo_cfg demo_px "" None demo_state).
  - by intros n p tb So.
  - intros n. exact demo_worlds_ok.
  - exact default_settings_ok.
  - reflexivity.
Defined.
