(* ===== verification/Proxy.v ===== *)
(** * The proxy handler from the client's request to the end of its log

    [proxy] of handler/gateway.go around the attempt loop: authentication and
    limits, the consumer's route group, the body, the request log, the keys the
    request may use, and the deferred end of the log.  What the database returns
    is an argument; the settings are those of the picker. *)

From S2P Require Import Prelude GoFloat GoString Json JsonDecode Settings Domain Capacity Window Score Database Circuit Picker Stable Routes.
From S2P Require Import Upstream Inbound Sse Collector GatewayBase Gateway.

(** [SourceFrom]: requests that carry no source are business requests. *)
Definition SourceFrom (source : option string) : string :=
  match source with Some s => if String.eqb s "" then SourceBusiness else s | None => SourceBusiness end.

Record inbound := mkInbound {
  ib_path : string;
  ib_apiKey : string;
  ib_header : string -> string;
  ib_sent : list Z;                (* the body the client sends *)
  ib_complete : bool;              (* whether it can be read to its end *)
  ib_source : option string
}.

(** What the handler reads from the database before the loop. *)
Record proxyReads := mkReads {
  rd_find : string -> option ConsumerKey;
  rd_binding : result string RouteTables;
  rd_routes : result string RouteTables;
  rd_keys : result string (list PlatformKey)
}.

(** ** The body *)

Definition maxImageRequestBytes : Z := Z.shiftl 64 20.
Definition isImagePath (path : string) : bool := HasPrefix path "/v1/images/".

(** [io.ReadAll], through [http.MaxBytesReader] on image paths. *)
Definition read_body (ib : inbound) : result (Z * string) (list Z) :=
  if isImagePath (ib_path ib) && (maxImageRequestBytes <? zlen (ib_sent ib)) then Err (413, "request body too large")
  else if ib_complete ib then Ok (ib_sent ib)
  else Err (400, "failed to read body").

(** ** The route group and the keys *)

(** [snapshotConsumerBinding]: the group of the consumer's first link. *)
Definition snapshotConsumerBinding (t : RouteTables) (consumer : Z) : result string (option Z) :=
  match List.filter (fun l => cl_ConsumerKeyID l =? consumer) (rt_links t) with
  | [] => Ok None
  | l :: _ => if bool_decide (is_Some (rt_groups t !! cl_RouteGroupID l)) then Ok (Some (cl_RouteGroupID l)) else Err "record not found"
  end.

Definition requiresProbePermission (source rule : string) : bool :=
  String.eqb source SourceAdminTest || negb (String.eqb rule "").

(** The keys that allow probes, and whether the switch blocked all of them. *)
Definition restrictProbeEnabled (keys : list PlatformKey) (allow : option (gset Z)) (bound : bool) : gset Z * bool :=
  let restricted := if bound then allow else None in
  match restricted with
  | Some a =>
      if bool_decide (a = ∅) then (a, true)
      else
        let keys := List.filter (fun k => String.eqb (pk_Status k) StatusEnabled && bool_decide (pk_ID k ∈ a)) keys in
        let out := list_to_set (pk_ID <$> List.filter (fun k => AllowsProbe (Some k)) keys) in
        (out, negb (bool_decide (keys = [])) && bool_decide (out = ∅))
  | None =>
      let keys := List.filter (fun k => String.eqb (pk_Status k) StatusEnabled) keys in
      let out := list_to_set (pk_ID <$> List.filter (fun k => AllowsProbe (Some k)) keys) in
      (out, negb (bool_decide (keys = [])) && bool_decide (out = ∅))
  end.

(** ** The handler *)

(** The deferred end of the log: the message is the one the client was answered. *)
Definition last_error (es : list effect) : option string :=
  fold_left (fun acc e => match e with EError _ msg => Some msg | _ => acc end) es None.

Section handler.
Context `{GoLib} `{GoMime} (env : gatewayEnv).

Definition finish_unsettled (r : option proxy_end) : G unit :=
  match r with
  | Some Settled => mret tt
  | _ => fun s =>
      let msg := default "context canceled" (last_error (g_effects s)) in
      emit (EFinishLog (gw_status (g_writer s)) false (if String.eqb msg "" then "request ended" else msg)) s
  end.

(** What the probe switch leaves of the keys, or the refusal. *)
Definition probe_keys (rd : proxyReads) (needsProbe : bool) (allow : option (gset Z)) (bound : bool)
    : result (Z * string) (option (gset Z)) :=
  if needsProbe then
    match rd_keys rd with
    | Err _ => Err (500, "failed to check probe settings")
    | Ok keys =>
        let '(filtered, empty) := restrictProbeEnabled keys allow bound in
        if empty then Err (503, ProbeSkipDisabled) else Ok (Some filtered)
    end
  else Ok allow.

Definition empty_route_message (drift : gset Z) : string :=
  if bool_decide (drift = ∅) then "route group has no available key for this protocol/model"
  else "route group members' rate multipliers are all outside the group's rate range".

(** After the log has begun: the keys, then the loop. *)
Definition route_and_send (fuel : nat) (rd : proxyReads) (ib : inbound) (px : proxyReq) (group : option Z) (session source previous : string)
    (uuid : string) : G (option proxy_end) :=
  match rd_routes rd with
  | Err msg => _ ← fail env px 500 msg None; mret (Some Answered)
  | Ok t =>
      let a := ResolveSnapshotAllowKeys t group (px_protocol px) (px_model px) in
      if al_bound a && bool_decide (al_allow a = ∅) then
        let req := mkRequest false false false false (px_consumer px) (px_path px) (px_stream px) "" (px_protocol px) (px_model px) ""
                     [] [] [] (Some (al_allow a)) (al_drift a) ∅ in
        _ ← recordNoRoute req;
        _ ← fail env px 503 (empty_route_message (al_drift a)) (Some "no_available_route");
        mret (Some Answered)
      else
        let allow := if al_bound a then Some (al_allow a) else None in
        let drift := if al_bound a then al_drift a else ∅ in
        match probe_keys rd (px_needsProbe px) allow (al_bound a) with
        | Err (status, msg) => _ ← fail env px status msg None; mret (Some Answered)
        | Ok allow =>
            p ← get_picker;
            let '(attempts, retries) := loop_bounds (bp_cfg p) (al_bound a) (default ∅ allow) in
            proxy_loop env fuel (mkProxyCfg attempts retries (al_bound a) drift previous source uuid) px (first_loop session allow)
        end
  end.

Definition proxy (fuel : nat) (rd : proxyReads) (protocol : string) (ib : inbound) (windows : rpmWindows)
    : G (option proxy_end * rpmWindows) :=
  start ← Now env;
  let '(auth, windows) := authConsumer (rd_find rd) (ib_apiKey ib) true start windows in
  match auth with
  | Err (status, typ, msg) => _ ← refuse env (ib_path ib) status typ msg None; mret (Some Answered, windows)
  | Ok ck =>
      match rd_binding rd with
      | Err msg => _ ← refuse env (ib_path ib) 500 "api_error" msg None; mret (Some Answered, windows)
      | Ok t =>
          match snapshotConsumerBinding t (ck_ID ck) with
          | Err msg => _ ← refuse env (ib_path ib) 500 "api_error" msg None; mret (Some Answered, windows)
          | Ok group =>
              match read_body ib with
              | Err (status, msg) => _ ← refuse env (ib_path ib) status "invalid_request_error" msg None; mret (Some Answered, windows)
              | Ok body =>
                  let ct := ib_header ib "Content-Type" in
                  let '(session, sessionSource, previous) := RequestSession (ib_header ib) body in
                  let source := SourceFrom (ib_source ib) in
                  let rule := if String.eqb source SourceBusiness then Classify (ib_path ib) (ib_header ib "User-Agent") body else "" in
                  let px := mkProxyReq (ck_ID ck) protocol (peekModelFrom ct body) (ib_path ib) (RequestStream ct body).1 start
                              (requiresProbePermission source rule) in
                  _ ← emit EBeginLog;
                  n ← tick env;
                  r ← route_and_send fuel rd ib px group session sessionSource previous (ge_uuid env n);
                  _ ← finish_unsettled r;
                  mret (r, windows)
              end
          end
      end
  end.

(** The endpoints. *)
Definition Messages := fun fuel rd => proxy fuel rd ProtocolAnthropic.
Definition ChatCompletions := fun fuel rd => proxy fuel rd ProtocolOpenAI.
Definition Responses := fun fuel rd => proxy fuel rd ProtocolOpenAI.
Definition Images := fun fuel rd => proxy fuel rd ProtocolOpenAI.

End handler.
