(* ===== verification/ProxyProps.v ===== *)
(** * Properties of the whole handler *)

From S2P Require Import Prelude GoFloat GoString Json JsonDecode Settings Domain Capacity Window Score Database Circuit Picker PickerProps Stable StableProps Routes RouteProps.
From S2P Require Import Upstream Inbound Sse Collector GatewayBase Gateway GatewayTrace GatewayTerm Proxy.

(** ** Who may be sent to *)

(** A consumer that may use the gateway now. *)
Definition accepted (rd : proxyReads) (ib : inbound) (ck : ConsumerKey) : Prop :=
  ib_apiKey ib <> "" /\ rd_find rd (ib_apiKey ib) = Some ck /\ ck_Status ck = StatusEnabled
  /\ (fgt (ck_QuotaUSD ck) f0 && fge (ck_QuotaUsed ck) (ck_QuotaUSD ck)) = false.

Lemma authConsumer_accepted rd ib now windows ck windows' :
  authConsumer (rd_find rd) (ib_apiKey ib) true now windows = (Ok ck, windows') -> accepted rd ib ck.
Proof.
  unfold authConsumer. destruct (String.eqb_spec (ib_apiKey ib) ""); [done|]. destruct (rd_find rd _) as [k|] eqn:Ef; [|done].
  destruct (String.eqb_spec (ck_Status k) StatusEnabled) as [Hs|]; [|done]. simpl. destruct (_ && _) eqn:Eq; [done|].
  intros Hk. assert (k = ck) as <- by (destruct (0 <? _); [destruct (Allow _ _ _ _) as [[] ?]|]; by simplify_eq). done.
Qed.

(** The key serves the group: a member of it, for the protocol and model, with its rate in range. *)
Definition served_by (t : RouteTables) (group : Z) (protocol model : string) (k : Z) : Prop :=
  exists g rate, serves t [group] protocol model k g /\ rt_rates t !! k = Some rate /\ RateInRange (Some g) rate = true.

Definition probe_enabled (rd : proxyReads) (k : Z) : Prop :=
  exists keys key, rd_keys rd = Ok keys /\ key ∈ keys /\ pk_ID key = k /\ pk_Status key = StatusEnabled /\ AllowsProbe (Some key) = true.

(** What the database said when the handler allowed key [k] for the request. *)
Definition may_reach (rd : proxyReads) (px : proxyReq) (group : option Z) (k : Z) : Prop :=
  (forall g, group = Some g -> exists t, rd_routes rd = Ok t /\ served_by t g (px_protocol px) (px_model px) k)
  /\ (px_needsProbe px = true -> probe_enabled rd k).

Lemma enabled_elem (P : PlatformKey -> bool) keys k :
  k ∈ (list_to_set (pk_ID <$> List.filter (fun k => AllowsProbe (Some k)) (List.filter P keys)) : gset Z) ->
  exists key, key ∈ keys /\ pk_ID key = k /\ P key = true /\ AllowsProbe (Some key) = true.
Proof.
  rewrite elem_of_list_to_set, list_elem_of_fmap. intros (key & -> & Hk). exists key.
  apply list_elem_of_In, filter_In in Hk as [Hk Ha]. apply filter_In in Hk as [Hk Hp]. apply list_elem_of_In in Hk. done.
Qed.

Lemma probe_keys_spec rd needs allow bound allow' k :
  probe_keys rd needs allow bound = Ok allow' -> (forall a, allow' = Some a -> k ∈ a) -> (bound = true -> is_Some allow) ->
  (needs = true -> probe_enabled rd k) /\ (bound = true -> forall a, allow = Some a -> k ∈ a).
Proof.
  unfold probe_keys. destruct needs; [|intros [= <-] Hk _; by split].
  destruct (rd_keys rd) as [keys|] eqn:Er; [|done]. unfold restrictProbeEnabled.
  destruct bound.
  - intros H Hk Hs. destruct (Hs eq_refl) as [a ->]. case_bool_decide as Ea; [done|]. destruct (_ && _) in H; [done|].
    injection H as <-. specialize (Hk _ eq_refl). apply enabled_elem in Hk as (key & H1 & <- & H2 & H3).
    apply andb_true_iff in H2 as [H2 H4]. apply String.eqb_eq in H2. apply bool_decide_eq_true in H4.
    split; [intros _; by exists keys, key|by intros _ ? [= <-]].
  - destruct (_ && _); [done|]. intros [= <-] Hk _. specialize (Hk _ eq_refl). apply enabled_elem in Hk as (key & H1 & <- & H2 & H3).
    apply String.eqb_eq in H2. split; [intros _; by exists keys, key|done].
Qed.

Section reach.
Context `{GoLib} `{GoMime} (env : gatewayEnv).
Context (others_ok : forall n p tb, settings_ok (bp_cfg p) -> settings_ok (bp_cfg (ge_others env n (p, tb)).1)).
Context (worlds_ok : forall n, world_ok (ge_world env n)).
Local Ltac mgo := repeat mgo1 others_ok worlds_ok; cbn beta iota zeta.

Lemma meter_route_and_send fuel rd ib px group session source previous uuid m :
  (forall k, may_reach rd px group k -> mt_keys m k) ->
  does (route_and_send env fuel rd ib px group session source previous uuid) m (fun _ m' => mt_keys m' = mt_keys m).
Proof using others_ok worlds_ok.
  intros Hm. unfold route_and_send.
  assert (Fail : forall status msg code m1, mt_keys m1 = mt_keys m ->
    does (_ ← fail env px status msg code; mret (Some Answered)) m1 (fun _ m' => mt_keys m' = mt_keys m)).
  { intros status msg code m1 E. mgo. eapply does_mono; [apply fail_quiet|]. intros [] m' W. mgo. destruct W as (_ & _ & ->). done. }
  destruct (rd_routes rd) as [t|] eqn:Er; [|by apply Fail]. set (a := ResolveSnapshotAllowKeys t group _ _). cbv zeta.
  destruct (al_bound a && _).
  { apply does_bind. eapply does_mono; [apply recordNoRoute_quiet|]. intros [] m1 (_ & _ & W). by apply Fail. }
  destruct (probe_keys rd _ _ _) as [allow|[status msg]] eqn:Ep; [|by apply Fail]. mgo.
  destruct (loop_bounds _ _ _) as [attempts retries]. eapply does_mono.
  - apply (meter_proxy_loop env others_ok worlds_ok px 0 _ fuel); [done|]. intros k Hk. apply Hm.
    destruct (probe_keys_spec _ _ _ _ _ k Ep Hk) as [P1 P2]; [intros ->; by eexists|]. split; [|done].
    intros g ->. exists t. split; [done|]. subst a. cbn in P1, P2.
    pose proof (resolve_spec t [g] (px_protocol px) (px_model px) k) as (B & Al & _). rewrite B in P2. by apply Al, (P2 eq_refl _ eq_refl).
  - intros r m' (-> & _). done.
Qed.
(** Everything that must hold before a request may be sent to key [k]. *)
Definition authorised (rd : proxyReads) (protocol : string) (ib : inbound) (k : Z) : Prop :=
  exists ck body group, accepted rd ib ck /\ read_body ib = Ok body
    /\ (exists t, rd_binding rd = Ok t /\ snapshotConsumerBinding t (ck_ID ck) = Ok group)
    /\ (forall g, group = Some g -> exists t, rd_routes rd = Ok t
          /\ served_by t g protocol (peekModelFrom (ib_header ib "Content-Type") body) k)
    /\ (requiresProbePermission (SourceFrom (ib_source ib))
          (if String.eqb (SourceFrom (ib_source ib)) SourceBusiness
           then Classify (ib_path ib) (ib_header ib "User-Agent") body else "") = true -> probe_enabled rd k).

Lemma meter_proxy fuel rd protocol ib windows m :
  (forall k, authorised rd protocol ib k -> mt_keys m k) ->
  does (proxy env fuel rd protocol ib windows) m (fun _ m' => mt_keys m' = mt_keys m).
Proof using others_ok worlds_ok.
  intros Hm. unfold proxy. mgo. set (start := ge_now env (mt_steps m)).
  destruct (authConsumer _ _ _ _ _) as [auth windows'] eqn:Ea.
  assert (Refuse : forall path status typ msg code,
    does (_ ← refuse env path status typ msg code; mret (Some Answered, windows')) (stepped m)
      (fun (_ : option proxy_end * rpmWindows) m' => mt_keys m' = mt_keys m)) by (intros; unfold refuse; mgo; done).
  destruct auth as [ck|[[status typ] msg]]; [|by apply Refuse]. apply authConsumer_accepted in Ea.
  destruct (rd_binding rd) as [t|] eqn:Eb; [|by apply Refuse].
  destruct (snapshotConsumerBinding t (ck_ID ck)) as [group|] eqn:Eg; [|by apply Refuse].
  destruct (read_body ib) as [body|[status msg]] eqn:Er; [|by apply Refuse]. cbv zeta.
  destruct (RequestSession _ _) as [[session src] previous]. mgo. eapply does_mono.
  - apply meter_route_and_send; try done. intros k [R1 R2]. apply Hm. exists ck, body, group. split_and!; [done|done|by exists t|done|done].
  - intros r m1 E. apply does_bind. unfold finish_unsettled.
    assert (Fin : forall st, does (fun s => emit (EFinishLog (gw_status (g_writer s)) false (st s)) s) m1 (fun _ m' => mt_keys m' = mt_keys m)).
    { intros st s Hs. exact (meter_emit (EFinishLog (gw_status (g_writer s)) false (st s)) m1 (fun _ m' => mt_keys m' = mt_keys m) ltac:(done) E s Hs). }
    destruct r as [[| |]|]; [by mgo|eapply does_mono; [apply Fin|]..]; intros [] m2 E2; by mgo.
Qed.
End reach.

(** ** The log *)

Section log.
Context `{GoLib} `{GoMime} (env : gatewayEnv).

Lemma does_route_and_send fuel rd ib px group session source previous uuid v :
  idle v -> does (route_and_send env fuel rd ib px group session source previous uuid) v (fun r v' => forall e, r = Some e -> ended e v').
Proof.
  intros I. unfold route_and_send.
  assert (Fail : forall status msg code v1, idle v1 ->
    does (_ ← fail env px status msg code; mret (Some Answered)) v1 (fun r v' => forall e, r = Some e -> ended e v')).
  { intros status msg code v1 I1. go. eapply does_mono; [by apply does_fail_idle|]. intros [] v' E. go. by intros ? [= <-]. }
  destruct (rd_routes rd) as [t|]; [|by apply Fail]. cbv zeta. destruct (al_bound _ && _).
  { apply does_bind. eapply does_mono; [by apply does_recordNoRoute|]. intros [] v1 I1. by apply Fail. }
  destruct (probe_keys rd _ _ _) as [allow|[status msg]]; [|by apply Fail]. go.
  destruct (loop_bounds _ _ _) as [attempts retries]. by apply does_proxy_loop.
Qed.
Lemma finish_counts e s v :
  protocol_run (g_effects s) = Some (vw_protocol v) -> ended e v ->
  count is_finish_log (g_effects (finish_unsettled (Some e) s).2) = 1%nat
  /\ count is_error (g_effects (finish_unsettled (Some e) s).2) = match e with Answered => 1%nat | _ => 0%nat end.
Proof.
  intros Hr [_ He]. destruct (protocol_tally _ _ Hr) as [_ _ T1 T2 _]. destruct e; cbn -[count]; rewrite ?count_snoc, T1, T2.
  - destruct He as [[b ->] ->]. done.
  - destruct He as [-> ->]. done.
  - destruct He as [-> ->]. done.
Qed.

Lemma refuse_effects path status typ msg code s : g_effects (refuse env path status typ msg code s).2 = g_effects s ++ [EError status msg].
Proof. done. Qed.

Lemma now_keeps s : g_effects (Now env s).2 = g_effects s /\ gw_written (g_writer (Now env s).2) = gw_written (g_writer s).
Proof. unfold Now. rewrite bind_run. unfold tick. by destruct (ge_others env _ _). Qed.

(** How the handler ends, by whether the log was begun. *)
Lemma proxy_ends fuel rd protocol ib windows s e windows' s' :
  g_effects s = [] -> gw_written (g_writer s) = false -> proxy env fuel rd protocol ib windows s = (Some e, windows', s') ->
  (exists status msg, g_effects s' = [EError status msg] /\ e = Answered)
  \/ (count is_finish_log (g_effects s') = 1%nat
      /\ count is_error (g_effects s') = match e with Answered => 1%nat | _ => 0%nat end).
Proof.
  intros He Hw. unfold proxy. rewrite bind_run. set (start := (Now env s).1). set (s1 := (Now env s).2).
  destruct (now_keeps s) as [He1 Hw1]. fold s1 in He1, Hw1. rewrite He in He1. rewrite Hw in Hw1.
  clearbody start s1. destruct (authConsumer _ _ _ _ _) as [auth win].
  assert (Refuse : forall path status typ msg code,
    (_ ← refuse env path status typ msg code; mret (Some Answered, win)) s1 = (Some e, windows', s') ->
    exists status msg, g_effects s' = [EError status msg] /\ e = Answered).
  { intros path status typ msg code. rewrite bind_run. intros [= <- _ <-]. exists status, msg. cbn. by rewrite He1. }
  destruct auth as [ck|[[status typ] msg]]; [|left; by eapply Refuse].
  destruct (rd_binding rd) as [t|]; [|left; by eapply Refuse].
  destruct (snapshotConsumerBinding t (ck_ID ck)) as [group|]; [|left; by eapply Refuse].
  destruct (read_body ib) as [body|[status msg]]; [|left; by eapply Refuse]. cbv zeta.
  destruct (RequestSession _ _) as [[session src] previous]. rewrite !bind_run.
  set (v := mkView protocol_start false (ad_Token (g_admission s1))). set (s2 := (emit EBeginLog s1).2).
  assert (S2 : sees s2 v) by (split_and!; [unfold s2; cbn; by rewrite He1|done|done]).
  destruct (does_tick env v (fun _ v' => v' = v) ltac:(done) s2 S2) as (v3 & S3 & ->). set (s3 := (tick env s2).2) in *.
  set (uuid := ge_uuid env _). clearbody uuid.
  match goal with |- context [route_and_send env fuel rd ib ?px group session src previous uuid s3] =>
    destruct (does_route_and_send fuel rd ib px group session src previous uuid v ltac:(done) s3 S3) as (v4 & (S4 & _) & R);
    destruct (route_and_send env fuel rd ib px group session src previous uuid s3) as [r s4] end.
  cbn [fst snd] in *. intros Hq. right. injection Hq as -> _ <-. exact (finish_counts e s4 v4 S4 (R e eq_refl)).
Qed.
End log.

(** ** Ending *)

Section ending.
Context `{GoLib} `{GoMime} (env : gatewayEnv).
Context (others_ok : forall n p tb, settings_ok (bp_cfg p) -> settings_ok (bp_cfg (ge_others env n (p, tb)).1)).
Context (worlds_ok : forall n, world_ok (ge_world env n)).
Context (clock_goes_on : forall t, exists n, forall m, (n <= m)%nat -> t <= ge_now env m).

Lemma route_and_send_returns rd ib px group session source previous uuid s :
  settings_ok (bp_cfg (g_picker s)) ->
  exists enough, forall fuel, (enough <= fuel)%nat -> is_Some (route_and_send env fuel rd ib px group session source previous uuid s).1.
Proof using others_ok worlds_ok clock_goes_on.
  intros So. unfold route_and_send. destruct (rd_routes rd) as [t|]; [|by exists 0%nat].
  cbv zeta. destruct (al_bound _ && _); [by exists 0%nat|].
  destruct (probe_keys rd _ _ _) as [allow|[status msg]]; [|by exists 0%nat].
  destruct (clock_goes_on (px_start px + proxyOverallTimeout)) as [steps C].
  set (b := loop_bounds (bp_cfg (g_picker s)) (al_bound (ResolveSnapshotAllowKeys t group (px_protocol px) (px_model px))) (default ∅ allow)).
  exists (S (Z.to_nat b.1 + 1 + size (default ∅ allow) + steps)). intros fuel Hf. rewrite bind_run. cbn [get_picker fst snd].
  fold b. destruct b as [attempts retries]. apply (loop_returns env fuel _ px session allow s steps); done.
Qed.

Lemma tick_settings s : settings_ok (bp_cfg (g_picker s)) -> settings_ok (bp_cfg (g_picker (tick env s).2)).
Proof using others_ok.
  intros S0. unfold tick. pose proof (others_ok (g_step s) (g_picker s) (g_tables s) S0). by destruct (ge_others env _ _).
Qed.

Lemma handler_returns rd protocol ib windows s :
  settings_ok (bp_cfg (g_picker s)) ->
  exists enough, forall fuel, (enough <= fuel)%nat -> is_Some (proxy env fuel rd protocol ib windows s).1.1.
Proof using others_ok worlds_ok clock_goes_on.
  intros So. set (s1 := (Now env s).2).
  assert (So1 : settings_ok (bp_cfg (g_picker s1))) by (unfold s1, Now; rewrite bind_run; by apply tick_settings).
  unfold proxy. cbv delta [mbind G_bind]. cbv beta. fold s1. destruct (Now env s) as [start s1'] eqn:En. subst s1. cbn [snd] in *.
  destruct (authConsumer _ _ _ _ _) as [[ck|[[status typ] msg]] win]; [|by exists 0%nat].
  destruct (rd_binding rd) as [t|]; [|by exists 0%nat].
  destruct (snapshotConsumerBinding t (ck_ID ck)) as [group|]; [|by exists 0%nat].
  destruct (read_body ib) as [body|[status msg]]; [|by exists 0%nat]. cbv zeta.
  destruct (RequestSession _ _) as [[session src] previous]. destruct (emit EBeginLog s1') as [u s2] eqn:E2.
  pose proof (tick_settings s2) as So2. destruct (tick env s2) as [n s3]. cbn [snd] in So2.
  match goal with |- context [route_and_send env _ rd ib ?px group session src previous ?uuid s3] =>
    destruct (route_and_send_returns rd ib px group session src previous uuid s3) as [enough Hn] end.
  { apply So2. by injection E2 as <- <-. }
  exists enough. intros fuel Hf. specialize (Hn fuel Hf). destruct (route_and_send _ _ _ _ _ _ _ _ _ _ s3) as [r s4].
  cbn in Hn. by destruct (finish_unsettled r s4).
Qed.
End ending.

(** ** The properties *)

(** C1: End to end, a request leaves the gateway only for a key its consumer may
    use: the consumer is known, enabled and within its quota, the body was read
    whole, and when the consumer is bound to a route group the key is an enabled
    member of it that serves the protocol and model with its rate in range; a
    diagnostic request (of an administrator, or recognised as an external probe)
    goes only to enabled keys that allow probes. *)
Theorem sends_are_authorised `{GoLib} `{GoMime} env fuel rd protocol ib windows s k :
  (forall n p tb, settings_ok (bp_cfg p) -> settings_ok (bp_cfg (ge_others env n (p, tb)).1)) ->
  (forall n, world_ok (ge_world env n)) -> settings_ok (bp_cfg (g_picker s)) -> g_effects s = [] ->
  ESend k ∈ g_effects (proxy env fuel rd protocol ib windows s).2 -> authorised rd protocol ib k.
Proof.
  intros Oo Wo So E Hk. set (m := mkMeter (g_step s) 0 (authorised rd protocol ib)).
  assert (Sm : sees s m). { split_and!; [done|by rewrite E|done|]. rewrite E. intros j Hj. by apply not_elem_of_nil in Hj. }
  destruct (meter_proxy env Oo Wo fuel rd protocol ib windows m (fun j Hj => Hj) s Sm) as (m' & (_ & _ & _ & K) & Em).
  specialize (K k Hk). by rewrite Em in K.
Qed.

(** C16: Every request has exactly one end: it is refused before its log begins,
    with one error and nothing else done, or its log is finished exactly once, and
    the client is answered with one error unless an upstream's answer was passed on
    or the client has gone. *)
Theorem request_ends_once `{GoLib} `{GoMime} env fuel rd protocol ib windows s e windows' s' :
  g_effects s = [] -> gw_written (g_writer s) = false -> proxy env fuel rd protocol ib windows s = (Some e, windows', s') ->
  (exists status msg, g_effects s' = [EError status msg] /\ e = Answered)
  \/ (count is_finish_log (g_effects s') = 1%nat
      /\ count is_error (g_effects s') = match e with Answered => 1%nat | _ => 0%nat end).
Proof. intros He Hw Hp. by eapply proxy_ends. Qed.


(** ** Witnesses: a request of a consumer bound to group 5 *)

Definition demo_reads : proxyReads :=
  mkReads (fun k => if String.eqb k "sk-1" then Some (mkConsumer 1 "sk-1" StatusEnabled f0 f0 0) else None)
    (Ok demo_routes) (Ok demo_routes) (Ok []).

Definition demo_inbound : inbound :=
  mkInbound "/v1/chat/completions" "sk-1" (fun _ => "") (js "{'model':'gpt-4o','messages':[{'role':'user','content':'hello'}]}") true None.

Definition sends_to (k : Z) (e : effect) : bool := match e with ESend k' => k' =? k | _ => false end.

Lemma demo_request_sends : existsb (sends_to 7) (g_effects (proxy demo_env 20 demo_reads "openai" demo_inbound ∅ demo_state).2) = true.
Proof. vm_compute. reflexivity. Qed.

Lemma sends_are_authorised_witness : authorised demo_reads "openai" demo_inbound 7.
Proof.
  pose proof demo_request_sends as D. apply existsb_exists in D as (e & Hin & He).
  assert (Hk : e = ESend 7) by (destruct e; try discriminate He; cbn in He; f_equal; lia).
  apply (sends_are_authorised demo_env 20 demo_reads "openai" demo_inbound ∅ demo_state 7).
  - by intros n p tb So.
  - intros n. exact demo_worlds_ok.
  - exact default_settings_ok.
  - reflexivity.
  - rewrite <- Hk. apply list_elem_of_In. exact Hin.
Defined.

Definition demo_request_end : option proxy_end := (proxy demo_env 20 demo_reads "openai" demo_inbound ∅ demo_state).1.1.
Lemma demo_request_settles : demo_request_end = Some Settled.
Proof. vm_compute. reflexivity. Qed.

Lemma request_ends_once_witness :
  exists s', (exists status msg, g_effects s' = [EError status msg] /\ Settled = Answered)
    \/ (count is_finish_log (g_effects s') = 1%nat /\ count is_error (g_effects s') = 0%nat).
Proof.
  pose proof demo_request_settles as D. unfold demo_request_end in D.
  destruct (proxy demo_env 20 demo_reads "openai" demo_inbound ∅ demo_state) as [[r w] s'] eqn:E. cbn in D. subst r. exists s'.
  exact (request_ends_once demo_env 20 demo_reads "openai" demo_inbound ∅ demo_state Settled w s' eq_refl eq_refl E).
Defined.

