(* ===== verification/Billing.v ===== *)
(** * Amounts and surcharge rules (internal/dashboard/money.go, billing_rules.go)

    Amounts in units of 10^-8 USD, the rounding of prices, and the surcharge
    rules of the configuration: peak-hour windows in a time zone and multipliers
    of the reasoning effort.  A [*time.Location] is its offset from UTC, in
    seconds, at each instant; the zone database and the local zone of the machine
    are the parameters of [GoZones].  The rule tables, global variables of the
    program, are the record [BillingRules]. *)

From S2P Require Import Prelude GoFloat GoString Json JsonDecode.

(** ** Amounts *)

Definition Amount : Type := Z.

Definition amountScale : f64 := f_of_Z 100000000.

Definition AmountFromFloat (v : f64) : Amount :=
  if is_fin v then f_to_int (fround (fmul v amountScale)) else 0.
Definition amount_Float (a : Amount) : f64 := fdiv (f_of_Z a) amountScale.
Definition amount_Add (a b : Amount) : Amount := wrap_i64 (a + b).
Definition amount_Sub (a b : Amount) : Amount := wrap_i64 (a - b).
Definition MulFloat (a : Amount) (f : f64) : Amount :=
  if is_fin f then f_to_int (fround (fmul (f_of_Z a) f)) else 0.

Definition round8 (v : f64) : f64 := fdiv (fround (fmul v amountScale)) amountScale.

(** ** Numbers in configuration strings *)

(** [strconv.Atoi]: an optional sign and decimal digits that fit an int. *)
Definition Atoi (s : string) : option Z :=
  let '(sign, ds) := match bytes s with
                     | 43 :: r => (1, r)
                     | 45 :: r => (-1, r)
                     | r => (1, r)
                     end in
  if bool_decide (ds = []) || negb (forallb is_digit ds) then None
  else let n := sign * digits_value ds in
       if (- 2 ^ 63 <=? n) && (n <? 2 ^ 63) then Some n else None.

Definition twoDigits (s : list Z) : option Z :=
  match s with
  | [a; b] => if is_digit a && is_digit b then Some ((a - 48) * 10 + (b - 48)) else None
  | _ => None
  end.

Definition fixedOffset (name : string) : option Z :=
  match bytes name with
  | [s; a; b; c; d; e] =>
      if ((s =? 43) || (s =? 45)) && (c =? 58) then
        match twoDigits [a; b], twoDigits [d; e] with
        | Some h, Some m => Some ((if s =? 45 then -1 else 1) * (h * 3600 + m * 60))
        | _, _ => None
        end
      else None
  | _ => None
  end.

Definition parseRuleClock (s : string) : option Z :=
  match Split (TrimSpace s) 58 with
  | [h; m] =>
      match Atoi h, Atoi m with
      | Some h, Some m => if (0 <=? h) && (h <=? 23) && (0 <=? m) && (m <=? 59) then Some (h * 60 + m) else None
      | _, _ => None
      end
  | _ => None
  end.

(** Days of the week, Sunday being 0. *)
Definition ruleWeekdays : list (string * Z) :=
  [("sunday", 0); ("sun", 0); ("monday", 1); ("mon", 1); ("tuesday", 2); ("tue", 2); ("tues", 2);
   ("wednesday", 3); ("wed", 3); ("thursday", 4); ("thu", 4); ("thur", 4); ("thurs", 4);
   ("friday", 5); ("fri", 5); ("saturday", 6); ("sat", 6)].

Definition parseRuleWeekday (s : string) : option Z :=
  snd <$> List.find (fun kv => String.eqb kv.1 (ToLower (TrimSpace s))) ruleWeekdays.

(** ** Zones and the civil time of an instant *)

Definition Location : Type := time -> Z.

Class GoZones : Type := {
  LoadLocation : string -> option Location;
  Local_zone : Location
}.

Definition UTC : Location := fun _ => 0.
Definition FixedZone (offset : Z) : Location := fun _ => offset.

Definition local_seconds (loc : Location) (t : time) : Z := t / Second + loc t.
Definition Weekday (loc : Location) (t : time) : Z := (local_seconds loc t / 86400 + 4) mod 7.
Definition minute_of_day (loc : Location) (t : time) : Z := local_seconds loc t mod 86400 / 60.

Definition loadRuleLocation `{GoZones} (name : string) (fallback : Location) : Location :=
  let name := TrimSpace name in
  if String.eqb name "" then fallback
  else if EqualFold name "UTC" then UTC
  else if EqualFold name "Local" then Local_zone
  else match fixedOffset name with
       | Some offset => FixedZone offset
       | None => default fallback (LoadLocation name)
       end.

(** ** Rules of the configuration (internal/config/config.go) *)

Record cfgWindow := mkCfgWindow { cw_Days : list string; cw_Start : string; cw_End : string; cw_Multiplier : f64 }.
Record cfgTimeRule := mkCfgTimeRule {
  cr_ModelMatch : string; cr_TZ : string; cr_WeekendTZ : string; cr_SkipWeekend : bool; cr_Windows : list cfgWindow
}.
(** The multipliers in the order in which the map is ranged over. *)
Record cfgEffortRule := mkCfgEffortRule { ce_ModelMatch : string; ce_Multipliers : list (string * f64) }.

Record TimeWindow := mkWindow { tw_Days : list Z; tw_StartMin : Z; tw_EndMin : Z; tw_Multiplier : f64 }.
Record TimeRule := mkTimeRule {
  tr_Match : string; tr_TZ : Location; tr_WeekendTZ : Location; tr_SkipWeekend : bool; tr_Windows : list TimeWindow
}.
Record EffortRule := mkEffortRule { er_Match : string; er_Multipliers : gmap string f64 }.
Record BillingRules := mkRules { billingTimeRules : list TimeRule; billingEffortRules : list EffortRule }.

Definition parse_window (w : cfgWindow) : option TimeWindow :=
  match parseRuleClock (cw_Start w), parseRuleClock (cw_End w) with
  | Some start, Some end_ =>
      if fle (cw_Multiplier w) f0 then None
      else Some (mkWindow (omap parseRuleWeekday (cw_Days w)) start end_ (cw_Multiplier w))
  | _, _ => None
  end.

Definition parseTimeRule `{GoZones} (r : cfgTimeRule) : option TimeRule :=
  let match_ := ToLower (TrimSpace (cr_ModelMatch r)) in
  if String.eqb match_ "" || bool_decide (length (cr_Windows r) = 0%nat) then None
  else
    let tz := loadRuleLocation (cr_TZ r) UTC in
    let windows := omap parse_window (cr_Windows r) in
    if bool_decide (length windows = 0%nat) then None
    else Some (mkTimeRule match_ tz (loadRuleLocation (cr_WeekendTZ r) tz) (cr_SkipWeekend r) windows).

Definition effort_levels (ms : list (string * f64)) : gmap string f64 :=
  fold_left (fun acc kv => let level := ToLower (TrimSpace kv.1) in
    if String.eqb level "" || fle kv.2 f0 then acc else <[level := kv.2]> acc) ms ∅.

Definition parse_effort (r : cfgEffortRule) : option EffortRule :=
  if String.eqb (ce_ModelMatch r) "" || bool_decide (length (ce_Multipliers r) = 0%nat) then None
  else let mult := effort_levels (ce_Multipliers r) in
       if bool_decide (mult = ∅) then None else Some (mkEffortRule (ToLower (ce_ModelMatch r)) mult).

Definition ConfigureBillingRules `{GoZones} (times : list cfgTimeRule) (efforts : list cfgEffortRule) : BillingRules :=
  mkRules (omap parseTimeRule times) (omap parse_effort efforts).

Definition builtinDeepSeekTimeRules : list TimeRule :=
  [mkTimeRule "deepseek" UTC (FixedZone (8 * 3600)) true
     [mkWindow [] 60 240 (f_of_Z 2); mkWindow [] 360 600 (f_of_Z 2)]].

Definition snapshotRules (r : BillingRules) : list TimeRule * list EffortRule :=
  (if bool_decide (length (billingTimeRules r) = 0%nat) then builtinDeepSeekTimeRules else billingTimeRules r, billingEffortRules r).

(** ** Surcharges *)

Definition in_day_window (w : TimeWindow) (minute : Z) : bool :=
  if tw_StartMin w <=? tw_EndMin w then (tw_StartMin w <=? minute) && (minute <? tw_EndMin w)
  else (tw_StartMin w <=? minute) || (minute <? tw_EndMin w).

Definition window_hit (loc : Location) (at_ : time) (w : TimeWindow) : bool :=
  (bool_decide (tw_Days w = []) || bool_decide (Weekday loc at_ ∈ tw_Days w)) && in_day_window w (minute_of_day loc at_).

Definition rule_multiplier (rule : TimeRule) (at_ : time) : f64 :=
  let weekend := Weekday (tr_WeekendTZ rule) at_ in
  if tr_SkipWeekend rule && ((weekend =? 6) || (weekend =? 0)) then f1
  else match List.find (window_hit (tr_TZ rule) at_) (tr_Windows rule) with
       | Some w => tw_Multiplier w
       | None => f1
       end.

Definition time_rule_matches (name : string) (rule : TimeRule) : bool :=
  String.eqb (tr_Match rule) "" || Contains name (tr_Match rule).

(** [now] is read when no instant is given. *)
Definition TimeMultiplier (r : BillingRules) (model : string) (at_ now : time) : f64 :=
  let at_ := if IsZero at_ then now else at_ in
  match List.find (time_rule_matches (ToLower model)) (snapshotRules r).1 with
  | Some rule => rule_multiplier rule at_
  | None => f1
  end.

Definition EffortMultiplier (r : BillingRules) (model effort : string) : f64 :=
  let rules := (snapshotRules r).2 in
  if bool_decide (length rules = 0%nat) || String.eqb (TrimSpace effort) "" then f1
  else
    match List.find (fun rule => Contains (ToLower model) (er_Match rule)) rules with
    | Some rule =>
        match er_Multipliers rule !! ToLower (TrimSpace effort) with
        | Some m => if fgt m f0 then m else f1
        | None => f1
        end
    | None => f1
    end.
