(* ===== verification/Cost.v ===== *)
(** * Price cards and costs (internal/dashboard/catalog.go, handler/dash_hooks.go)

    The merge of the two price sources into the rows of a catalog version, the
    lookup of a model's card, and the itemised cost of a request with its receipt.
    Prices and costs are float64; token counts are int64. *)

From S2P Require Import Prelude GoFloat GoString Json JsonDecode Settings Domain Upstream Billing.

(** ** Rows *)

Record CatalogModel := mkCatalogModel { cm_Vendor : string; cm_ModelID : string; cm_InputCost : f64; cm_OutputCost : f64 }.

Record LiteLLMPrice := mkLiteLLM {
  ll_ModelKey : string;
  ll_Vendor : string;
  ll_InputPricePerToken : f64;
  ll_OutputPricePerToken : f64;
  ll_CacheRead : option f64;
  ll_CacheWrite5m : option f64;
  ll_CacheWrite1h : option f64;
  ll_InputPriority : option f64;
  ll_OutputPriority : option f64;
  ll_CacheReadPriority : option f64;
  ll_CacheWrite5mPriority : option f64;
  ll_LongCtxThreshold : Z;
  ll_LongCtxInputMult : f64;
  ll_LongCtxOutputMult : f64
}.

Record CatalogVersionPrice := mkPriceRow {
  pr_Vendor : string;
  pr_ModelID : string;
  pr_InputCost : f64;             (* per million tokens *)
  pr_OutputCost : f64;
  pr_CacheReadCoeff : f64;
  pr_CacheWriteCoeff : f64;
  pr_CacheReadPrice : option f64; (* per token, like the following prices *)
  pr_CacheWrite5mPrice : option f64;
  pr_CacheWrite1hPrice : option f64;
  pr_InputPriorityPrice : option f64;
  pr_OutputPriorityPrice : option f64;
  pr_CacheReadPriorityPrice : option f64;
  pr_CacheWrite5mPriorityPrice : option f64;
  pr_LongCtxThreshold : option Z;
  pr_LongCtxInputMult : option f64;
  pr_LongCtxOutputMult : option f64
}.

Record ModelPrice := mkPrice {
  mp_Input : f64;
  mp_Output : f64;
  mp_CacheReadCoeff : f64;
  mp_CacheWriteCoeff : f64;
  mp_Matched : string;
  mp_OK : bool;
  mp_CacheRead : option f64;
  mp_CacheWrite5m : option f64;
  mp_CacheWrite1h : option f64;
  mp_InputPriority : option f64;
  mp_OutputPriority : option f64;
  mp_CacheReadPriority : option f64;
  mp_CacheWrite5mPriority : option f64;
  mp_LongCtxThreshold : Z;
  mp_LongCtxInputMult : f64;
  mp_LongCtxOutputMult : f64
}.

Definition LegacyCacheReadCoeff : f64 := f_dec 1 1.
Definition LegacyCacheWriteCoeff : f64 := f_dec 125 2.

(** ** Publishing: one row per model id *)

Definition price_id (s : string) : string := ToLower (TrimSpace s).

Definition add_catalog_row (chosen : gmap string CatalogVersionPrice) (r : CatalogModel) : gmap string CatalogVersionPrice :=
  let id := price_id (cm_ModelID r) in
  if String.eqb id "" then chosen
  else match chosen !! id with
       | Some _ => chosen
       | None => <[id := mkPriceRow (cm_Vendor r) (cm_ModelID r) (cm_InputCost r) (cm_OutputCost r)
                          LegacyCacheReadCoeff LegacyCacheWriteCoeff None None None None None None None None None None]> chosen
       end.

Definition litellm_row (r : LiteLLMPrice) : CatalogVersionPrice :=
  let ladder {A} (v : A) := if 0 <? ll_LongCtxThreshold r then Some v else None in
  mkPriceRow (ll_Vendor r) (ll_ModelKey r) (fmul (ll_InputPricePerToken r) (f_of_Z 1000000))
    (fmul (ll_OutputPricePerToken r) (f_of_Z 1000000)) LegacyCacheReadCoeff LegacyCacheWriteCoeff
    (ll_CacheRead r) (ll_CacheWrite5m r) (ll_CacheWrite1h r) (ll_InputPriority r) (ll_OutputPriority r)
    (ll_CacheReadPriority r) (ll_CacheWrite5mPriority r)
    (ladder (ll_LongCtxThreshold r)) (ladder (ll_LongCtxInputMult r)) (ladder (ll_LongCtxOutputMult r)).

Definition add_litellm_row (chosen : gmap string CatalogVersionPrice) (r : LiteLLMPrice) : gmap string CatalogVersionPrice :=
  let id := price_id (ll_ModelKey r) in
  if String.eqb id "" then chosen else <[id := litellm_row r]> chosen.

(** The rows of the version; the order of the map's values does not matter to
    the table they are inserted into. *)
Definition mergeCatalogPrices (catalogRows : list CatalogModel) (litellmRows : list LiteLLMPrice) : gmap string CatalogVersionPrice :=
  fold_left add_litellm_row litellmRows (fold_left add_catalog_row catalogRows ∅).

(** ** Lookup *)

(** [strings.LastIndex(id, "/")] and the part behind it, unless it is empty. *)
Fixpoint after_slash (l : list Z) : option (list Z) :=
  match l with
  | [] => None
  | b :: r => match after_slash r with
              | Some t => Some t
              | None => if b =? 47 then Some r else None
              end
  end.

Definition catalogModelID (model : string) : string :=
  let id := ToLower (TrimSpace model) in
  match after_slash (bytes id) with
  | Some ((_ :: _) as tail) => of_bytes tail
  | _ => id
  end.

(** [priceDateSuffixPattern]: a dash and eight digits at the end are dropped. *)
Definition drop_date (s : string) : string :=
  let l := bytes s in
  let suffix := drop (length l - 9) l in
  match suffix with
  | 45 :: ds => if (length ds =? 8)%nat && forallb is_digit ds then of_bytes (take (length l - 9) l) else s
  | _ => s
  end.

(** [priceDigitDashPattern]: the first -d-d becomes -d.d. *)
Fixpoint dot_version (l : list Z) : option (list Z) :=
  match l with
  | 45 :: ((a :: 45 :: b :: r) as rest) =>
      if is_digit a && is_digit b then Some (45 :: a :: 46 :: b :: r)
      else cons 45 <$> dot_version rest
  | x :: rest => cons x <$> dot_version rest
  | [] => None
  end.

Definition add_candidate (out : list string) (v : string) : list string :=
  let v := TrimSpace v in
  if String.eqb v "" || bool_decide (v ∈ out) then out else out ++ [v].

Definition dotted_candidates (c : string) : list string :=
  match dot_version (bytes c) with
  | Some l => [of_bytes l; drop_date (of_bytes l)]
  | None => []
  end.

Definition priceLookupCandidates (model : string) : list string :=
  let base := catalogModelID model in
  let full := ToLower (TrimSpace model) in
  take 8 (fold_left add_candidate ([base; full; drop_date base; drop_date full] ++ dotted_candidates base ++ dotted_candidates full) []).

Definition modelPriceFromRow (row : CatalogVersionPrice) : ModelPrice :=
  let coeff c fallback := if fle c f0 then fallback else c in
  mkPrice (pr_InputCost row) (pr_OutputCost row) (coeff (pr_CacheReadCoeff row) LegacyCacheReadCoeff)
    (coeff (pr_CacheWriteCoeff row) LegacyCacheWriteCoeff) (pr_ModelID row) true
    (pr_CacheReadPrice row) (pr_CacheWrite5mPrice row) (pr_CacheWrite1hPrice row)
    (pr_InputPriorityPrice row) (pr_OutputPriorityPrice row) (pr_CacheReadPriorityPrice row) (pr_CacheWrite5mPriorityPrice row)
    (default 0 (pr_LongCtxThreshold row)) (default f0 (pr_LongCtxInputMult row)) (default f0 (pr_LongCtxOutputMult row)).

Definition fallback_price : ModelPrice :=
  mkPrice f0 f0 LegacyCacheReadCoeff LegacyCacheWriteCoeff "" false None None None None None None None 0 f0 f0.

(** The row of a query: priced, with the candidate as its lowercased id, and the
    first by vendor. *)
Definition first_by_vendor (rows : list CatalogVersionPrice) : option CatalogVersionPrice :=
  fold_left (fun best r => match best with
    | Some b => if String.ltb (pr_Vendor r) (pr_Vendor b) then Some r else best
    | None => Some r end) rows None.

Definition query_price (rows : list CatalogVersionPrice) (candidate : string) : option CatalogVersionPrice :=
  first_by_vendor (List.filter (fun r => String.eqb (ToLower (pr_ModelID r)) candidate
    && (fgt (pr_InputCost r) f0 || fgt (pr_OutputCost r) f0)) rows).

Fixpoint first_card (rows : list CatalogVersionPrice) (candidates : list string) : option CatalogVersionPrice :=
  match candidates with
  | [] => None
  | c :: rest => match query_price rows c with Some r => Some r | None => first_card rows rest end
  end.

(** [rows] are the rows of the version, [None] for version 0; a failing query
    gives no row. *)
Definition LookupVersionPrice (rows : option (list CatalogVersionPrice)) (model : string) : ModelPrice :=
  match rows with
  | Some rows =>
      if String.eqb (TrimSpace model) "" then fallback_price
      else match first_card rows (priceLookupCandidates model) with
           | Some r => modelPriceFromRow r
           | None => fallback_price
           end
  | None => fallback_price
  end.

(** ** Usage and unit prices *)

Record UsageTokens := mkTokens {
  ut_Input : Z;
  ut_Output : Z;
  ut_CacheRead : Z;
  ut_CacheWrite : Z;
  ut_CacheWrite5m : Z;
  ut_CacheWrite1h : Z;
  ut_ServiceTier : string;
  ut_UsageKnown : bool
}.

Definition usageTokensOf (u : TokenUsage) : UsageTokens :=
  mkTokens (tu_InputTokens u) (tu_OutputTokens u) (tu_CacheReadTokens u) (tu_CacheCreationTokens u)
    (tu_CacheCreation5mTokens u) (tu_CacheCreation1hTokens u) (tu_ServiceTier u) (tu_UsageKnown u).

Record CostOptions := mkOptions { co_Protocol : string; co_Model : string; co_At : time; co_Effort : string }.

Definition given {A} (o : option A) : bool := match o with Some _ => true | None => false end.

Definition orOne (v : f64) : f64 := if fle v f0 then f1 else v.
Definition orCoeff (v fallback : f64) : f64 := if fle v f0 then fallback else v.
Definition orFirst (a b : option f64) : f64 := match a with Some x => x | None => default f0 b end.

Definition normalizeTier (tier : string) : string := ToLower (TrimSpace tier).
Definition isPriorityTier (tier : string) : bool := one_of (normalizeTier tier) ["priority"; "fast"; "ultrafast"].
Definition hasPriorityPrices (p : ModelPrice) : bool :=
  given (mp_InputPriority p) || given (mp_OutputPriority p) || given (mp_CacheReadPriority p) || given (mp_CacheWrite5mPriority p).

Definition tierMultiplierFor (p : ModelPrice) (tier : string) : f64 :=
  if isPriorityTier tier then (if hasPriorityPrices p then f1 else f_of_Z 2)
  else if String.eqb (normalizeTier tier) "flex" then f_dec 5 1
  else f1.

Definition totalContextTokens (protocol : string) (u : UsageTokens) : Z :=
  if String.eqb protocol ProtocolOpenAI then ut_Input u
  else wrap_i64 (ut_Input u + ut_CacheRead u + ut_CacheWrite u).

(** Unit prices per token: input, output, cache read; whether cache writes are
    billed by lifetime, at the prices [5m] and [1h], or at one price. *)
Record ItemPrices := mkItems {
  ip_In : f64;
  ip_Out : f64;
  ip_Read : f64;
  ip_Breakdown : bool;
  ip_W5 : f64;
  ip_W1 : f64;
  ip_WriteAgg : f64
}.

Definition million : f64 := f_of_Z 1000000.

Definition base_prices (p : ModelPrice) : ItemPrices :=
  let in_ := fdiv (mp_Input p) million in
  let read := match mp_CacheRead p with
              | Some r => r
              | None => fmul in_ (orCoeff (mp_CacheReadCoeff p) LegacyCacheReadCoeff)
              end in
  let writeAgg := fmul in_ (orCoeff (mp_CacheWriteCoeff p) LegacyCacheWriteCoeff) in
  if given (mp_CacheWrite5m p) || given (mp_CacheWrite1h p) then
    let w5 := orFirst (mp_CacheWrite5m p) (mp_CacheWrite1h p) in
    let w1 := match mp_CacheWrite1h p with Some w => if fgt w w5 then w else w5 | None => w5 end in
    mkItems in_ (fdiv (mp_Output p) million) read true w5 w1 writeAgg
  else mkItems in_ (fdiv (mp_Output p) million) read false writeAgg writeAgg writeAgg.

Definition resolveItemPrices (p : ModelPrice) (tier : string) : ItemPrices :=
  let b := base_prices p in
  if isPriorityTier tier && hasPriorityPrices p then
    let in_ := match mp_InputPriority p with Some v => fdiv v million | None => ip_In b end in
    let out := match mp_OutputPriority p with Some v => fdiv v million | None => ip_Out b end in
    let read := default (ip_Read b) (mp_CacheReadPriority p) in
    let writeAgg := match mp_CacheWrite5mPriority p with
                    | Some v => v
                    | None => fmul in_ (orCoeff (mp_CacheWriteCoeff p) LegacyCacheWriteCoeff)
                    end in
    mkItems in_ out read (ip_Breakdown b) (ip_W5 b) (ip_W1 b) writeAgg
  else b.

(** Contradictory details of cache writes are capped at the aggregate, keeping
    their ratio. *)
Definition normalizeCacheWrite (u : UsageTokens) : Z * Z :=
  let n5 := Z.max 0 (ut_CacheWrite5m u) in
  let n1 := Z.max 0 (ut_CacheWrite1h u) in
  let agg := ut_CacheWrite u in
  if (agg <=? 0) || (n5 <=? agg) && (n1 <=? agg - n5) then (n5, n1)
  else
    let detailTotal := fadd (f_of_Z n5) (f_of_Z n1) in
    if fle detailTotal f0 then (0, 0)
    else
      let scaled := f_to_int (fround (fdiv (fmul (f_of_Z agg) (f_of_Z n5)) detailTotal)) in
      let n5 := if agg <=? scaled then agg else scaled in
      (n5, wrap_i64 (agg - n5)).

(** The cache writes that are billed at the 5m and the 1h price. *)
Definition billed_writes (u : UsageTokens) : Z * Z :=
  let '(n5, n1) := normalizeCacheWrite u in
  if (n5 =? 0) && (n1 =? 0) && (0 <? ut_CacheWrite u) then (ut_CacheWrite u, 0) else (n5, n1).

Definition uncachedInput (protocol : string) (u : UsageTokens) : Z :=
  if String.eqb protocol ProtocolOpenAI then Z.max 0 (wrap_i64 (ut_Input u - ut_CacheRead u - ut_CacheWrite u)) else ut_Input u.

(** ** The receipt *)

Record LongCtxDetail := mkLongCtx {
  lx_Threshold : Z; lx_TotalTokens : Z; lx_Applied : bool; lx_InputMultiplier : f64; lx_OutputMultiplier : f64
}.

Record CostDetail := mkDetail {
  rd_Source : string;
  rd_Model : string;
  rd_Matched : string;
  rd_Protocol : string;
  rd_Usage : UsageTokens;            (* the token counts of the receipt *)
  rd_InputUncachedTokens : Z;
  rd_Prices : ItemPrices;            (* the unit prices shown, and the mode of cache writes *)
  rd_InputCost : f64;
  rd_OutputCost : f64;
  rd_CacheReadCost : f64;
  rd_CacheWriteCost : f64;
  rd_ServiceTier : string;
  rd_TierMultiplier : f64;
  rd_LongCtx : LongCtxDetail;
  rd_TimeMultiplier : f64;
  rd_Effort : string;
  rd_EffortMultiplier : f64;
  rd_Total : f64;
  rd_RateMultiplier : f64;
  rd_Final : f64
}.

Definition long_context (p : ModelPrice) (protocol : string) (u : UsageTokens) (i : ItemPrices) : ItemPrices * LongCtxDetail :=
  if 0 <? mp_LongCtxThreshold p then
    let total := totalContextTokens protocol u in
    if mp_LongCtxThreshold p <? total then
      let m := orOne (mp_LongCtxInputMult p) in
      let o := orOne (mp_LongCtxOutputMult p) in
      (mkItems (fmul (ip_In i) m) (fmul (ip_Out i) o) (fmul (ip_Read i) m) (ip_Breakdown i) (fmul (ip_W5 i) m) (fmul (ip_W1 i) m)
         (fmul (ip_WriteAgg i) m), mkLongCtx (mp_LongCtxThreshold p) total true m o)
    else (i, mkLongCtx (mp_LongCtxThreshold p) total false f1 f1)
  else (i, mkLongCtx (mp_LongCtxThreshold p) 0 false f1 f1).

(** Input, output, cache-read and cache-write costs. *)
Record Costs := mkCosts { c_In : f64; c_Out : f64; c_Read : f64; c_Write : f64 }.

Definition item_costs (protocol : string) (u : UsageTokens) (i : ItemPrices) : Costs :=
  let '(n5, n1) := billed_writes u in
  mkCosts (fmul (f_of_Z (uncachedInput protocol u)) (ip_In i)) (fmul (f_of_Z (ut_Output u)) (ip_Out i))
    (fmul (f_of_Z (ut_CacheRead u)) (ip_Read i))
    (if ip_Breakdown i then fadd (fmul (f_of_Z n5) (ip_W5 i)) (fmul (f_of_Z n1) (ip_W1 i))
     else fmul (f_of_Z (ut_CacheWrite u)) (ip_WriteAgg i)).

(** A multiplier that is 1 changes nothing; the time rules leave cache writes alone. *)
Definition scale_costs (m : f64) (writes : bool) (c : Costs) : Costs :=
  if feq m f1 then c
  else mkCosts (fmul (c_In c) m) (fmul (c_Out c) m) (fmul (c_Read c) m) (if writes then fmul (c_Write c) m else c_Write c).

Definition total_cost (c : Costs) : f64 := fadd (fadd (fadd (c_In c) (c_Out c)) (c_Read c)) (c_Write c).

(** A multiplier is shown on the receipt when it is not 1. *)
Definition shown (m : f64) : f64 := if feq m f1 then f0 else m.

Record CostResult := mkResult { res_TotalUSD : option f64; res_Detail : option CostDetail }.

Definition ComputeCost (rules : BillingRules) (now : time) (p : ModelPrice) (opt : CostOptions) (u : UsageTokens) : CostResult :=
  if negb (mp_OK p) || negb (ut_UsageKnown u) then mkResult None None
  else
    let tierMult := tierMultiplierFor p (ut_ServiceTier u) in
    let '(i, longCtx) := long_context p (co_Protocol opt) u (resolveItemPrices p (ut_ServiceTier u)) in
    let uncached := uncachedInput (co_Protocol opt) u in
    let timeMult := TimeMultiplier rules (co_Model opt) (co_At opt) now in
    let effortMult := EffortMultiplier rules (co_Model opt) (co_Effort opt) in
    let c := scale_costs effortMult true (scale_costs timeMult false (scale_costs tierMult true (item_costs (co_Protocol opt) u i))) in
    let all := fmul (fmul tierMult timeMult) effortMult in
    let writes := fmul tierMult effortMult in
    let prices := mkItems (fmul (ip_In i) all) (fmul (ip_Out i) all) (fmul (ip_Read i) all) (ip_Breakdown i)
                    (fmul (ip_W5 i) writes) (fmul (ip_W1 i) writes) (ip_WriteAgg i) in
    let total := total_cost c in
    if negb (is_fin total) then mkResult None None
    else
      let v := round8 total in
      mkResult (Some v) (Some (mkDetail "" (co_Model opt) (mp_Matched p) (co_Protocol opt) u
        (if String.eqb (co_Protocol opt) ProtocolOpenAI && negb (uncached =? ut_Input u) then uncached else 0) prices
        (c_In c) (c_Out c) (c_Read c) (c_Write c) (TrimSpace (ut_ServiceTier u)) (shown tierMult) longCtx
        (shown timeMult) (if feq effortMult f1 then "" else TrimSpace (co_Effort opt)) (shown effortMult) v f0 f0)).

(** The estimate from the coefficients alone, for price cards of older versions. *)
Definition BaseCostUSD (rules : BillingRules) (now : time) (p : ModelPrice) (protocol : string)
    (input cacheRead cacheWrite output : Z) (usageKnown : bool) : option f64 :=
  let legacy := mkPrice (mp_Input p) (mp_Output p) (mp_CacheReadCoeff p) (mp_CacheWriteCoeff p) (mp_Matched p) (mp_OK p)
                  None None None None None None None 0 f0 f0 in
  res_TotalUSD (ComputeCost rules now legacy (mkOptions protocol "" time_zero "")
    (mkTokens input output cacheRead cacheWrite 0 0 "" usageKnown)).

Definition with_final (d : CostDetail) (source : string) (rate final : f64) : CostDetail :=
  mkDetail source (rd_Model d) (rd_Matched d) (rd_Protocol d) (rd_Usage d) (rd_InputUncachedTokens d) (rd_Prices d)
    (rd_InputCost d) (rd_OutputCost d) (rd_CacheReadCost d) (rd_CacheWriteCost d) (rd_ServiceTier d) (rd_TierMultiplier d)
    (rd_LongCtx d) (rd_TimeMultiplier d) (rd_Effort d) (rd_EffortMultiplier d) (rd_Total d) rate final.

Definition CostSourceReported : string := "reported".
Definition CostSourceEstimated : string := "estimated".
Definition CostSourceNone : string := "none".

Definition ReportedCostDetail (res : CostResult) (rate reported : f64) : option CostDetail :=
  (fun d => with_final d CostSourceReported rate (round8 reported)) <$> res_Detail res.

(** ** Settlement of a request (handler/dash_hooks.go) *)

Definition key_rate (pk : option PlatformKey) : f64 :=
  match pk with Some k => if fgt (pk_RateMultiplier k) f0 then pk_RateMultiplier k else f1 | None => f1 end.

(** [price] and [effort] are the card and the effort kept with the request's log. *)
Definition settleCost (rules : BillingRules) (now : time) (price : ModelPrice) (effort : string) (pk : option PlatformKey)
    (protocol model : string) (usage : TokenUsage) : option f64 * option CostDetail :=
  let rate := key_rate pk in
  let res := ComputeCost rules now price (mkOptions protocol model now effort) (usageTokensOf usage) in
  match tu_CostUSD usage with
  | Some cost => let cost := round8 cost in (Some cost, ReportedCostDetail res rate cost)
  | None =>
      match res_TotalUSD res, res_Detail res with
      | Some total, Some d =>
          let final := round8 (fmul total rate) in
          (Some final, Some (with_final d CostSourceEstimated rate final))
      | _, _ => (None, None)
      end
  end.

(** ** Examples *)

Definition demo_rules : BillingRules := mkRules [] [].
Definition demo_claude : LiteLLMPrice :=
  mkLiteLLM "claude-opus-4.5" "anthropic" (f_dec 5 6) (f_dec 25 6) (Some (f_dec 5 7)) (Some (f_dec 625 8)) (Some (f_dec 1 5))
    None None None None 200000 (f_of_Z 2) (f_dec 15 1).
Definition demo_rows : list CatalogVersionPrice := snd <$> map_to_list (mergeCatalogPrices [] [demo_claude]).
Definition demo_tokens : UsageTokens := mkTokens 1000 200 50000 3000 2000 1000 "" true.

Example card_found : mp_Matched (LookupVersionPrice (Some demo_rows) "Anthropic/claude-opus-4-5-20251101") = "claude-opus-4.5".
Proof. by vm_compute. Qed.

Example priced :
  res_TotalUSD (ComputeCost demo_rules 0 (LookupVersionPrice (Some demo_rows) "claude-opus-4.5")
    (mkOptions "anthropic" "claude-opus-4.5" Second "") demo_tokens) = Some (f_dec 575 4).
Proof. vm_compute. reflexivity. Qed.

Example peak_hours :
  TimeMultiplier demo_rules "deepseek-chat" (1767578400 * Second) 0 = f_of_Z 2 (* Monday 2026-01-05 02:00 UTC *)
  /\ TimeMultiplier demo_rules "deepseek-chat" ((1767578400 - 86400) * Second) 0 = f1
  /\ TimeMultiplier demo_rules "gpt-4o" (1767578400 * Second) 0 = f1.
Proof. by vm_compute. Qed.
