(* ===== verification/CostProps.v ===== *)
(** * Properties of costs and price cards

    Costs are never negative and receipts add up, contradictory cache details
    never bill more tokens than were written, peak windows are intervals of the
    day's circle, and a published LiteLLM card is what a lookup finds.  The
    priority prices of such a card are scaled down by a million. *)

From Stdlib Require Import QArith Qround Lqa.
From S2P Require Import Prelude GoFloat GoString Json JsonDecode Settings Domain Upstream Billing Cost.

Local Open Scope Z_scope.

(** ** Values that are not negative, NaN included *)

Definition nn (x : f64) : Prop := x = F_nan \/ fle f0 x = true.

Lemma nn_fin q : nn (F_fin q) <-> (0 <= q)%Q.
Proof. unfold nn. rewrite fle0_fin. split; [by intros [?|?]|auto]. Qed.

Lemma fle_0_rnd q : (0 <= q)%Q -> fle f0 (rnd q) = true.
Proof. intros Hq. unfold f0. rewrite <- (rnd_0 0) by lra. by apply rnd_mono. Qed.

Lemma nn_rnd q : (0 <= q)%Q -> nn (rnd q).
Proof. right. by apply fle_0_rnd. Qed.

Lemma nn_f_of_Z n : 0 <= n -> nn (f_of_Z n).
Proof. intros. right. by apply f_of_Z_nonneg. Qed.

Lemma nn_fadd x y : nn x -> nn y -> nn (fadd x y).
Proof.
  intros [->|Hx] [->|Hy]; [by left|by left|left; by destruct x as [|[]|]|]. right. by apply fadd_nonneg.
Qed.

Lemma q_neg_nonneg a : (0 <= a)%Q -> q_neg a = false.
Proof. intros Ha. unfold q_neg. apply Qle_bool_iff in Ha. by rewrite Ha. Qed.

Lemma nn_fmul x y : nn x -> nn y -> nn (fmul x y).
Proof.
  destruct x as [a|[]|], y as [b|[]|]; rewrite ?nn_fin; intros Hx Hy; simpl fmul;
    try (by left); try (by destruct Hx); try (by destruct Hy); try (by right).
  - apply nn_rnd. by apply Qmult_le_0_compat.
  - case_match; [by left|]. rewrite q_neg_nonneg by done. by right.
  - case_match; [by left|]. rewrite q_neg_nonneg by done. by right.
Qed.

Lemma nn_fdiv x y : nn x -> nn y -> nn (fdiv x y).
Proof.
  destruct x as [a|[]|], y as [b|[]|]; rewrite ?nn_fin; intros Hx Hy; simpl fdiv;
    try (by left); try (by destruct Hx); try (by destruct Hy); try (by right).
  - destruct (Qeq_bool b 0) eqn:E; [case_match; [by left|rewrite q_neg_nonneg by done; by right]|].
    apply nn_rnd, Qle_shift_div_l; [|lra]. apply Qeq_bool_neq in E. lra.
  - rewrite q_neg_nonneg by done. by right.
Qed.

Lemma nn_fround x : nn x -> nn (fround x).
Proof.
  destruct x as [a|[]|]; rewrite ?nn_fin; intros Hx; simpl fround; try done. apply nn_rnd.
  unfold round_half_away. apply Qle_bool_iff in Hx as E. rewrite E.
  change 0%Q with (inject_Z 0). rewrite <- Zle_Qle. rewrite <- (Qfloor_Z 0). apply Qfloor_resp_le. unfold inject_Z. lra.
Qed.

Lemma nn_round8 x : nn x -> nn (round8 x).
Proof. intros. apply nn_fdiv; [apply nn_fround, nn_fmul; [done|]|]; right; vm_compute; reflexivity. Qed.

Lemma nn_finite x : nn x -> is_fin x = true -> fle f0 x = true.
Proof. by intros [->|?]. Qed.

Lemma nn_not_below x : fle x f0 = false -> nn x.
Proof. destruct x as [a|[]|]; simpl; intros H; try (by left); try (by right); try done. apply Qle_bool_false in H. apply nn_fin. lra. Qed.

Lemma nn_const n k : 0 <= n -> nn (f_dec n k).
Proof. intros. apply nn_rnd. unfold Qle. simpl. lia. Qed.

Lemma nn_1 : nn f1.
Proof. by right. Qed.
Create HintDb nn.
#[export] Hint Resolve nn_fadd nn_fmul nn_fdiv nn_round8 nn_f_of_Z nn_const nn_1 nn_not_below : nn.

(** ** Cache writes *)

Lemma trunc_round x n :
  0 <= n <= 2 ^ 53 -> fle f0 x = true -> fle x (f_of_Z n) = true -> 0 <= f_to_int (fround x) <= n.
Proof.
  intros Hn H0 H. unfold f_of_Z in H. rewrite rnd_int in H by lia. destruct x as [q|[]|]; try done.
  apply fle0_fin in H0. apply fle_fin in H. simpl fround. unfold round_half_away.
  apply Qle_bool_iff in H0 as E. rewrite E. set (z := Qfloor (q + (1 # 2))).
  assert (Z0 : 0 <= z) by (unfold z; rewrite <- (Qfloor_Z 0); apply Qfloor_resp_le; unfold inject_Z; lra).
  assert (Z1 : z <= n).
  { unfold z. assert (L : (q + (1 # 2) < inject_Z (n + 1))%Q) by (rewrite inject_Z_plus; change (inject_Z 1) with 1%Q; lra).
    pose proof (Qfloor_le (q + (1 # 2))) as F. assert (G : (inject_Z (Qfloor (q + (1 # 2))) < inject_Z (n + 1))%Q) by lra.
    rewrite <- Zlt_Qlt in G. lia. }
  rewrite rnd_int by lia. unfold f_to_int. rewrite Qfloor_Z.
  assert (P : Qle_bool 0 (inject_Z z) = true) by (apply Qle_bool_iff; change 0%Q with (inject_Z 0); by rewrite <- Zle_Qle).
  rewrite P. case_match; lia.
Qed.

Definition usage_ok (u : UsageTokens) : Prop :=
  0 <= ut_Input u <= 2 ^ 53 /\ 0 <= ut_Output u <= 2 ^ 53 /\ 0 <= ut_CacheRead u <= 2 ^ 53 /\ 0 <= ut_CacheWrite u <= 2 ^ 53
  /\ ut_CacheWrite5m u <= 2 ^ 53 /\ ut_CacheWrite1h u <= 2 ^ 53.

(** The share of an aggregate is at most the bound on the aggregate. *)
Lemma share_bound agg n5 n1 :
  0 <= agg <= 2 ^ 53 -> 0 <= n5 <= 2 ^ 53 -> 0 <= n1 <= 2 ^ 53 -> 0 < n5 + n1 ->
  let x := fdiv (fmul (f_of_Z agg) (f_of_Z n5)) (fadd (f_of_Z n5) (f_of_Z n1)) in
  fle f0 x = true /\ fle x (f_of_Z (2 ^ 53)) = true.
Proof.
  intros Ha H5 H1 Hs. unfold f_of_Z. rewrite !(rnd_int agg), !(rnd_int n5), !(rnd_int n1) by lia. simpl fmul. simpl fadd.
  assert (T : fle (F_fin (inject_Z n5)) (rnd (inject_Z n5 + inject_Z n1)) = true).
  { rewrite <- (rnd_int n5) by lia. apply rnd_mono. assert (0 <= inject_Z n1)%Q by (change 0%Q with (inject_Z 0); rewrite <- Zle_Qle; lia). lra. }
  assert (T1 : fle f1 (rnd (inject_Z n5 + inject_Z n1)) = true).
  { rewrite <- inject_Z_plus. apply f_of_Z_pos. lia. }
  assert (TF : is_fin (rnd (inject_Z n5 + inject_Z n1)) = true).
  { rewrite <- inject_Z_plus. apply f_of_Z_fin. unfold in_i64. lia. }
  assert (M : fle (rnd (inject_Z agg * inject_Z n5)) (rnd (inject_Z (2 ^ 53) * inject_Z n5)) = true).
  { apply rnd_mono. rewrite <- !inject_Z_mult. apply inject_le. nia. }
  assert (Rep : rnd (inject_Z (2 ^ 53) * inject_Z n5) = F_fin (Qred (inject_Z (2 ^ 53) * inject_Z n5))).
  { destruct (Z.eq_dec n5 0) as [->|N]; [vm_compute; reflexivity|]. apply rnd_representable.
    - rewrite <- inject_Z_mult. change 0%Q with (inject_Z 0). rewrite <- Zle_Qle. nia.
    - right. assert (C : (inject_Z (2 ^ 53) * inject_Z n5 == inject_Z n5 * p2 53)%Q) by (rewrite (p2_nonneg_Z 53) by lia; lra).
      assert (Pos : (0 < inject_Z (2 ^ 53) * inject_Z n5)%Q) by (rewrite <- inject_Z_mult; change 0%Q with (inject_Z 0); rewrite <- Zlt_Qlt; lia).
      rewrite (rnd_mag_eq _ _ Pos C), C. apply rnd_mag_exact; lia.
    - unfold f_overflow. rewrite <- inject_Z_mult, <- Zlt_Qlt. apply Z.le_lt_trans with (2 ^ 106); [|reflexivity].
      change (2 ^ 106) with (2 ^ 53 * 2 ^ 53). nia. }
  rewrite Rep in M. destruct (rnd (inject_Z n5 + inject_Z n1)) as [t|[]|]; try done.
  assert (M0 : nn (rnd (inject_Z agg * inject_Z n5))).
  { apply nn_rnd. rewrite <- inject_Z_mult. change 0%Q with (inject_Z 0). rewrite <- Zle_Qle. nia. }
  destruct (rnd (inject_Z agg * inject_Z n5)) as [p|[]|] eqn:P; try done; [|by destruct M0].
  apply nn_fin in M0. apply fle_fin in M, T. unfold f1 in T1. apply fle_fin in T1. rewrite Qred_correct in M. simpl fdiv.
  destruct (Qeq_bool t 0) eqn:E; [apply Qeq_bool_iff in E; lra|]. split.
  - apply fle_0_rnd, Qle_shift_div_l; lra.
  - apply rnd_mono, Qle_shift_div_r; [lra|]. apply Qle_trans with (inject_Z (2 ^ 53) * inject_Z n5)%Q; [done|].
    apply Qmult_le_l; [reflexivity|done].
Qed.

Lemma normalizeCacheWrite_bounds u :
  usage_ok u ->
  let '(n5, n1) := normalizeCacheWrite u in
  0 <= n5 <= 2 ^ 53 /\ 0 <= n1 <= 2 ^ 53 /\ (0 < ut_CacheWrite u -> n5 + n1 <= ut_CacheWrite u)
  /\ (0 < ut_CacheWrite u < Z.max 0 (ut_CacheWrite5m u) + Z.max 0 (ut_CacheWrite1h u) -> n5 + n1 = ut_CacheWrite u).
Proof.
  intros (_ & _ & _ & Hw & H5 & H1). unfold normalizeCacheWrite.
  assert (B5 : 0 <= Z.max 0 (ut_CacheWrite5m u) <= 2 ^ 53) by lia. assert (B1 : 0 <= Z.max 0 (ut_CacheWrite1h u) <= 2 ^ 53) by lia.
  generalize dependent (Z.max 0 (ut_CacheWrite5m u)). generalize dependent (Z.max 0 (ut_CacheWrite1h u)). intros n1 B1 n5 B5.
  set (agg := ut_CacheWrite u) in *. clearbody agg.
  destruct (Z.leb_spec agg 0); cbn [orb]; [split_and!; lia|].
  destruct ((n5 <=? agg) && (n1 <=? agg - n5)) eqn:E; [apply andb_true_iff in E as [?%Z.leb_le ?%Z.leb_le]; lia|].
  assert (Over : agg < n5 + n1) by (apply andb_false_iff in E as [?%Z.leb_gt|?%Z.leb_gt]; lia). clear E.
  destruct (share_bound agg n5 n1) as [S0 S1]; [lia..|].
  destruct (fle (fadd (f_of_Z n5) (f_of_Z n1)) f0) eqn:E; [|].
  { exfalso. unfold f_of_Z in E. rewrite !rnd_int in E by lia. simpl fadd in E. rewrite <- inject_Z_plus in E.
    assert (P : fle f1 (f_of_Z (n5 + n1)) = true) by (apply f_of_Z_pos; lia). by pose proof (fle_trans _ _ _ P E). }
  destruct (trunc_round _ (2 ^ 53) ltac:(lia) S0 S1) as [T0 T1].
  case_match eqn:C; apply Z.leb_le in C || apply Z.leb_gt in C; rewrite wrap_i64_id by (unfold in_i64; lia); lia.
Qed.

Lemma billed_writes_nonneg u : usage_ok u -> 0 <= (billed_writes u).1 /\ 0 <= (billed_writes u).2.
Proof.
  intros H. pose proof (normalizeCacheWrite_bounds u H) as B. destruct H as (_ & _ & _ & Hw & _). unfold billed_writes.
  destruct (normalizeCacheWrite u) as [n5 n1]. case_match; simpl; lia.
Qed.

(** ** Multipliers and unit prices *)

Definition multipliers_ok (r : BillingRules) : Prop :=
  Forall (fun rule => Forall (fun w => nn (tw_Multiplier w)) (tr_Windows rule)) (billingTimeRules r)
  /\ Forall (fun rule => map_Forall (fun _ m => nn m) (er_Multipliers rule)) (billingEffortRules r).

Lemma omap_Forall {A B} (f : A -> option B) (P : B -> Prop) l :
  (forall a b, f a = Some b -> P b) -> Forall P (omap f l).
Proof.
  intros Hf. apply Forall_forall. intros b (a & _ & Ha)%list_elem_of_In%list_elem_of_omap. by eapply Hf.
Qed.

Lemma effort_levels_ok ms : map_Forall (fun _ m => nn m) (effort_levels ms).
Proof.
  unfold effort_levels. assert (G : map_Forall (fun _ m => nn m) (∅ : gmap string f64)) by apply map_Forall_empty.
  revert G. generalize (∅ : gmap string f64). induction ms as [|[k m] ms IH]; intros acc G; [done|]. simpl. apply IH.
  destruct (_ || _) eqn:E; [done|]. apply orb_false_iff in E as [_ E]. apply map_Forall_insert_2; auto with nn.
Qed.

Lemma configured_ok `{GoZones} times efforts : multipliers_ok (ConfigureBillingRules times efforts).
Proof.
  split; apply omap_Forall.
  - intros r t Hr. unfold parseTimeRule in Hr. repeat case_match; simplify_eq. simpl. apply omap_Forall.
    intros w w' Hw. unfold parse_window in Hw. repeat case_match; simplify_eq. simpl. auto with nn.
  - intros r e Hr. unfold parse_effort in Hr. repeat case_match; simplify_eq. apply effort_levels_ok.
Qed.

Lemma TimeMultiplier_nn r model at_ now : multipliers_ok r -> nn (TimeMultiplier r model at_ now).
Proof.
  intros [Ht _]. unfold TimeMultiplier.
  assert (F : Forall (fun rule => Forall (fun w => nn (tw_Multiplier w)) (tr_Windows rule)) (snapshotRules r).1).
  { unfold snapshotRules. case_bool_decide; [|done]. repeat constructor; right; vm_compute; reflexivity. }
  destruct (List.find _ _) as [rule|] eqn:E; [|apply nn_1]. apply List.find_some in E as [Hin _].
  rewrite Forall_forall in F. specialize (F _ Hin). unfold rule_multiplier.
  case_match; [apply nn_1|]. destruct (List.find _ (tr_Windows rule)) as [w|] eqn:E; [|apply nn_1].
  apply List.find_some in E as [Hw _]. rewrite Forall_forall in F. by apply F.
Qed.

Lemma EffortMultiplier_nn r model effort : multipliers_ok r -> nn (EffortMultiplier r model effort).
Proof.
  intros [_ He]. unfold EffortMultiplier. case_match; [apply nn_1|].
  destruct (List.find _ _) as [rule|] eqn:E; [|apply nn_1]. apply List.find_some in E as [Hin _].
  rewrite Forall_forall in He. specialize (He _ Hin).
  case_match; [|apply nn_1]. case_match; [|apply nn_1]. by eapply He.
Qed.

(** A price card without negative prices. *)
Definition card_ok (p : ModelPrice) : Prop :=
  nn (mp_Input p) /\ nn (mp_Output p)
  /\ Forall (fun o => forall v, o = Some v -> nn v) [mp_CacheRead p; mp_CacheWrite5m p; mp_CacheWrite1h p; mp_InputPriority p;
       mp_OutputPriority p; mp_CacheReadPriority p; mp_CacheWrite5mPriority p].

Definition items_ok (i : ItemPrices) : Prop :=
  nn (ip_In i) /\ nn (ip_Out i) /\ nn (ip_Read i) /\ nn (ip_W5 i) /\ nn (ip_W1 i) /\ nn (ip_WriteAgg i).

Lemma orOne_nn v : nn (orOne v).
Proof. unfold orOne. case_match; auto with nn. Qed.
Lemma orCoeff_nn v d : nn d -> nn (orCoeff v d).
Proof. unfold orCoeff. case_match; auto with nn. Qed.
Lemma million_nn : nn million.
Proof. apply nn_f_of_Z. lia. Qed.
Lemma legacy_read_nn : nn LegacyCacheReadCoeff.
Proof. apply nn_const; lia. Qed.
Lemma legacy_write_nn : nn LegacyCacheWriteCoeff.
Proof. apply nn_const; lia. Qed.
#[export] Hint Resolve orOne_nn orCoeff_nn million_nn legacy_read_nn legacy_write_nn : nn.

Lemma base_prices_ok p : card_ok p -> items_ok (base_prices p).
Proof.
  intros (Hi & Ho & Hf). decompose_Forall. assert (Rd : forall o d, (forall v, o = Some v -> nn v) -> nn d -> nn (match o with Some v => v | None => d end)).
  { intros [v|] d Hv Hd; auto. }
  unfold base_prices. case_match; unfold items_ok; simpl; split_and!; auto with nn.
  - unfold orFirst. apply Rd; [done|]. destruct (mp_CacheWrite1h p); simpl; [auto|by right].
  - unfold orFirst. destruct (mp_CacheWrite1h p) as [w|]; [case_match; auto|]; apply Rd; auto; by right.
Qed.

Lemma resolveItemPrices_ok p tier : card_ok p -> items_ok (resolveItemPrices p tier).
Proof.
  intros H. pose proof (base_prices_ok p H) as (B1 & B2 & B3 & B4 & B5 & B6). destruct H as (Hi & Ho & Hf). decompose_Forall.
  unfold resolveItemPrices. case_match; [|by split_and!].
  unfold items_ok; simpl; split_and!; auto.
  - destruct (mp_InputPriority p); auto with nn.
  - destruct (mp_OutputPriority p); auto with nn.
  - destruct (mp_CacheReadPriority p); simpl; auto.
  - destruct (mp_CacheWrite5mPriority p); [auto|]. destruct (mp_InputPriority p); auto with nn.
Qed.

Lemma long_context_ok p protocol u i : items_ok i -> items_ok (long_context p protocol u i).1.
Proof.
  intros (B1 & B2 & B3 & B4 & B5 & B6). unfold long_context.
  case_match; [case_match|]; unfold items_ok; simpl; split_and!; auto with nn.
Qed.

(** ** Costs *)

Definition costs_ok (c : Costs) : Prop := nn (c_In c) /\ nn (c_Out c) /\ nn (c_Read c) /\ nn (c_Write c).

Lemma item_costs_ok protocol u i : usage_ok u -> items_ok i -> costs_ok (item_costs protocol u i).
Proof.
  intros Hu (B1 & B2 & B3 & B4 & B5 & B6). pose proof (billed_writes_nonneg u Hu) as [W5 W1].
  destruct Hu as (Hi & Ho & Hr & Hw & _). unfold item_costs. destruct (billed_writes u) as [n5 n1]. simpl in W5, W1.
  assert (U : 0 <= uncachedInput protocol u) by (unfold uncachedInput; case_match; lia).
  unfold costs_ok; simpl; split_and!; [(apply nn_fmul; [apply nn_f_of_Z; lia|done])..|].
  case_match; [apply nn_fadd|]; (apply nn_fmul; [apply nn_f_of_Z; lia|done]).
Qed.

Lemma scale_costs_ok m writes c : nn m -> costs_ok c -> costs_ok (scale_costs m writes c).
Proof.
  intros Hm (C1 & C2 & C3 & C4). unfold scale_costs. case_match; [by split_and!|].
  unfold costs_ok; simpl; split_and!; auto with nn. case_match; auto with nn.
Qed.

Lemma tierMultiplierFor_nn p tier : nn (tierMultiplierFor p tier).
Proof. unfold tierMultiplierFor. repeat case_match; try apply nn_1; [apply nn_f_of_Z|apply nn_const]; lia. Qed.

Definition receipt_total (d : CostDetail) : f64 :=
  fadd (fadd (fadd (rd_InputCost d) (rd_OutputCost d)) (rd_CacheReadCost d)) (rd_CacheWriteCost d).

Definition receipt_ok (d : CostDetail) : Prop :=
  rd_Total d = round8 (receipt_total d)
  /\ Forall (fun x => fle f0 x = true) [rd_InputCost d; rd_OutputCost d; rd_CacheReadCost d; rd_CacheWriteCost d; rd_Total d].

Lemma fin_fadd x y : is_fin (fadd x y) = true -> is_fin x = true /\ is_fin y = true.
Proof. destruct x as [|[]|], y as [|[]|]; done. Qed.

Lemma fround_not_nan x : is_nan x = false -> is_nan (fround x) = false.
Proof. destruct x; simpl; [intros _; apply rnd_not_nan|done|done]. Qed.

Lemma amountScale_val : amountScale = F_fin 100000000.
Proof. vm_compute. reflexivity. Qed.

Lemma round8_not_nan x : is_nan x = false -> is_nan (round8 x) = false.
Proof.
  intros Hx. assert (M : is_nan (fmul x amountScale) = false).
  { rewrite amountScale_val. destruct x as [a| |]; [apply rnd_not_nan|done|done]. }
  apply fround_not_nan in M. unfold round8. destruct (fround _) as [a|s|]; [|by rewrite amountScale_val|done].
  rewrite amountScale_val. apply rnd_not_nan.
Qed.

Lemma nn_number x : nn x -> is_nan x = false -> fle f0 x = true.
Proof. by intros [->|?]. Qed.

Lemma ComputeCost_ok rules now p opt u v d :
  multipliers_ok rules -> card_ok p -> usage_ok u ->
  ComputeCost rules now p opt u = mkResult v d ->
  match v, d with
  | Some v, Some d => v = rd_Total d /\ receipt_ok d
  | None, None => True
  | _, _ => False
  end.
Proof.
  intros Hr Hp Hu. unfold ComputeCost. destruct (_ || _); [by intros [= <- <-]|].
  pose proof (long_context_ok p (co_Protocol opt) u _ (resolveItemPrices_ok p (ut_ServiceTier u) Hp)) as Hi.
  destruct (long_context _ _ _ _) as [i lx]. simpl in Hi. set (c := scale_costs _ _ _).
  assert (Hc : costs_ok c).
  { unfold c. repeat (apply scale_costs_ok; [auto using EffortMultiplier_nn, TimeMultiplier_nn, tierMultiplierFor_nn|]).
    by apply item_costs_ok. }
  destruct Hc as (C1 & C2 & C3 & C4). destruct (is_fin (total_cost c)) eqn:Fin; simpl; [|by intros [= <- <-]].
  intros [= <- <-]. split; [done|]. unfold receipt_ok. split; [done|]. simpl. pose proof Fin as Fs. unfold total_cost in Fin.
  apply fin_fadd in Fin as [Fin F4]. apply fin_fadd in Fin as [Fin F3]. apply fin_fadd in Fin as [F1 F2].
  repeat constructor; try (by apply nn_finite). apply nn_number; [unfold total_cost; auto with nn|].
  apply round8_not_nan. by destruct (total_cost c).
Qed.

Lemma key_rate_nn pk : nn (key_rate pk).
Proof.
  unfold key_rate. case_match; [|apply nn_1]. case_match eqn:E; [|apply nn_1]. right. by apply flt_fle.
Qed.

(** ** Lower case and white space *)

Lemma eqb_lower k a : k < 65 \/ 122 < k -> (lower_byte a =? k) = (a =? k).
Proof. intros Hk. unfold lower_byte. case_match; [|done]. bools. destruct (Z.eqb_spec (a + 32) k), (Z.eqb_spec a k); lia. Qed.

Lemma range_lower lo hi a : hi < 65 \/ 122 < lo -> (lo <=? lower_byte a) && (lower_byte a <=? hi) = (lo <=? a) && (a <=? hi).
Proof.
  intros Hk. unfold lower_byte. case_match; [|done]. bools. apply eq_true_iff_eq. rewrite !andb_true_iff, !Z.leb_le. lia.
Qed.

Lemma drop_space_fmap s2 s3 f l :
  (forall a, space1 (f a) = space1 a) -> (forall a b, s2 (f a) (f b) = s2 a b) -> (forall a b c, s3 (f a) (f b) (f c) = s3 a b c) ->
  drop_space s2 s3 (f <$> l) = f <$> drop_space s2 s3 l.
Proof.
  intros H1 H2 H3. induction l as [l IH] using (induction_ltof1 _ length). unfold ltof in IH.
  destruct l as [|a l1]; [done|]. rewrite fmap_cons. cbn [drop_space]. rewrite H1. case_match; [apply IH; simpl; lia|].
  destruct l1 as [|b l2]; [done|]. rewrite fmap_cons. rewrite H2. case_match; [apply IH; simpl; lia|].
  destruct l2 as [|c l3]; [done|]. rewrite fmap_cons. rewrite H3. case_match; [apply IH; simpl; lia|done].
Qed.

Lemma bytes_ToLower s : bytes (ToLower s) = lower_byte <$> bytes s.
Proof.
  unfold ToLower. apply bytes_of_bytes. apply Forall_fmap. eapply Forall_impl; [|apply bytes_Forall].
  intros a [Ha Hb]. unfold is_byte, compose, lower_byte. case_match; bools; lia.
Qed.

Lemma space1_lower a : space1 (lower_byte a) = space1 a.
Proof. unfold space1. rewrite eqb_lower, range_lower by lia. done. Qed.
Lemma space2_lower a b : space2 (lower_byte a) (lower_byte b) = space2 a b.
Proof. unfold space2. rewrite !eqb_lower by lia. done. Qed.
Lemma space3_lower a b c : space3 (lower_byte a) (lower_byte b) (lower_byte c) = space3 a b c.
Proof. unfold space3. rewrite !eqb_lower, range_lower by lia. done. Qed.

Lemma trim_lower l : trim_right (trim_left (lower_byte <$> l)) = lower_byte <$> trim_right (trim_left l).
Proof.
  unfold trim_left, trim_right. rewrite drop_space_fmap by auto using space1_lower, space2_lower, space3_lower.
  rewrite <- fmap_reverse, drop_space_fmap by auto using space1_lower, space2_lower, space3_lower. by rewrite fmap_reverse.
Qed.

Lemma TrimSpace_ToLower s : TrimSpace (ToLower s) = ToLower (TrimSpace s).
Proof.
  unfold TrimSpace. rewrite bytes_ToLower, trim_lower. unfold ToLower. f_equal.
  by rewrite bytes_of_bytes by apply trim_is_byte, bytes_Forall.
Qed.

(** ** Publishing and lookup *)

Definition keyed (m : gmap string CatalogVersionPrice) : Prop := forall id row, m !! id = Some row -> id = price_id (pr_ModelID row).

Lemma add_catalog_keyed m r : keyed m -> keyed (add_catalog_row m r).
Proof.
  intros Hm. unfold add_catalog_row. case_match; [done|]. case_match; [done|].
  intros id row [[<- <-]|[_ Hl]]%lookup_insert_Some; [done|by apply Hm].
Qed.

Lemma add_litellm_keyed m r : keyed m -> keyed (add_litellm_row m r).
Proof.
  intros Hm. unfold add_litellm_row. case_match; [done|].
  intros id row [[<- <-]|[_ Hl]]%lookup_insert_Some; [done|by apply Hm].
Qed.

Lemma fold_keyed {A} (f : gmap string CatalogVersionPrice -> A -> gmap string CatalogVersionPrice) l m :
  (forall m a, keyed m -> keyed (f m a)) -> keyed m -> keyed (fold_left f l m).
Proof. intros Hf. revert m. induction l as [|a l IH]; intros m Hm; [done|]. simpl. auto. Qed.

Lemma litellm_published catalog l1 r l2 :
  price_id (ll_ModelKey r) <> "" ->
  Forall (fun r' => price_id (ll_ModelKey r') <> price_id (ll_ModelKey r)) l2 ->
  mergeCatalogPrices catalog (l1 ++ r :: l2) !! price_id (ll_ModelKey r) = Some (litellm_row r).
Proof.
  intros Hne Hl. unfold mergeCatalogPrices. rewrite fold_left_app. simpl. set (m := fold_left add_litellm_row l1 _).
  assert (G : add_litellm_row m r !! price_id (ll_ModelKey r) = Some (litellm_row r)).
  { unfold add_litellm_row. rewrite (proj2 (String.eqb_neq _ _) Hne). apply lookup_insert_eq. }
  revert G. generalize (add_litellm_row m r). induction Hl as [|r' l2 Hr Hl IH]; intros m' G; [done|]. simpl. apply IH.
  unfold add_litellm_row. case_match; [done|]. by rewrite lookup_insert_ne.
Qed.

Lemma first_by_vendor_same rows x : rows <> [] -> (forall r, r ∈ rows -> r = x) -> first_by_vendor rows = Some x.
Proof.
  intros Hne Hall. unfold first_by_vendor. destruct rows as [|r rows]; [done|]. rewrite (Hall r) in * by left. simpl.
  assert (G : forall r', r' ∈ rows -> r' = x) by (intros; apply Hall; by right). clear Hall Hne.
  induction rows as [|r' rows IH]; [done|]. simpl. rewrite (G r') by left. case_match; apply IH; intros; apply G; by right.
Qed.

Lemma add_candidate_prefix l cs : l `prefix_of` fold_left add_candidate cs l.
Proof.
  revert l. induction cs as [|c cs IH]; intros l; [done|]. simpl. etransitivity; [|apply IH].
  unfold add_candidate. case_match; [done|]. by apply prefix_app_r.
Qed.

Lemma candidates_head model : TrimSpace model <> "" -> catalogModelID model <> "" -> TrimSpace (catalogModelID model) = catalogModelID model ->
  exists rest, priceLookupCandidates model = catalogModelID model :: rest.
Proof.
  intros Hm Hne Ht. unfold priceLookupCandidates. cbn [app].
  match goal with |- context [fold_left add_candidate (?b :: ?cs) []] =>
    change (fold_left add_candidate (b :: cs) []) with (fold_left add_candidate cs (add_candidate [] b)) end.
  assert (E : add_candidate [] (catalogModelID model) = [catalogModelID model])
    by (unfold add_candidate; by rewrite Ht, (proj2 (String.eqb_neq _ _) Hne)).
  rewrite E. match goal with |- context [fold_left add_candidate ?cs ?l] => destruct (add_candidate_prefix l cs) as [k ->] end.
  simpl. eauto.
Qed.

(** The plain id of a model, its provider prefix dropped, is its first candidate. *)
Lemma plain_candidate_first model key :
  catalogModelID model = price_id key -> TrimSpace key = key -> key <> "" ->
  exists rest, priceLookupCandidates model = [] ++ price_id key :: rest.
Proof.
  intros Hm Ht Hk. assert (Eid : price_id key = ToLower key) by (unfold price_id; by rewrite Ht).
  assert (Hid : price_id key <> "").
  { rewrite Eid. intros E. apply Hk. apply (f_equal bytes) in E. rewrite bytes_ToLower in E.
    rewrite <- (of_bytes_bytes key). by destruct (bytes key). }
  destruct (candidates_head model) as [rest E]; [|by rewrite Hm| |by exists rest; rewrite E, Hm].
  - intros E. apply Hid. rewrite <- Hm. unfold catalogModelID. by rewrite E.
  - by rewrite Hm, Eid, TrimSpace_ToLower, Ht.
Qed.

(** Candidates without a priced row are passed over. *)
Lemma first_card_skip rows pre post :
  Forall (fun c => query_price rows c = None) pre -> first_card rows (pre ++ post) = first_card rows post.
Proof. induction 1 as [|c pre H _ IH]; [done|]. simpl. by rewrite H. Qed.

(** ** The properties *)

(** C10: The cost of a request is sound: with the configured surcharge rules, a price
    card without negative prices and non-negative token counts, a request whose
    cost the upstream did not report is charged the rounded product of its
    receipt's total and the key's rate, which is never negative; and the receipt
    adds up: its total is the rounded sum of its four items, none negative, after
    every ladder, tier, peak-hour and effort multiplier. *)
Theorem settled_cost_sound `{GoZones} times efforts now price effort pk protocol model usage cost d :
  card_ok price -> usage_ok (usageTokensOf usage) -> tu_CostUSD usage = None ->
  settleCost (ConfigureBillingRules times efforts) now price effort pk protocol model usage = (Some cost, Some d) ->
  receipt_ok d /\ rd_RateMultiplier d = key_rate pk /\ rd_Source d = CostSourceEstimated
  /\ cost = round8 (fmul (rd_Total d) (key_rate pk)) /\ rd_Final d = cost /\ (is_nan cost = false -> fle f0 cost = true).
Proof.
  intros Hp Hu Hn. unfold settleCost. rewrite Hn.
  destruct (ComputeCost _ _ _ _ _) as [[v|] [r|]] eqn:E; cbn [res_TotalUSD res_Detail]; try done. intros [= <- <-].
  apply ComputeCost_ok in E as [-> Hr]; [|apply configured_ok|done|done].
  assert (T : fle f0 (rd_Total r) = true) by (destruct Hr as [_ Hf]; rewrite Forall_forall in Hf; apply Hf; simpl; tauto).
  split_and!; try done. apply nn_number, nn_round8, nn_fmul, key_rate_nn. by right.
Qed.

(** C36: Contradictory details of cache writes never bill more than was written:
    the 5m and 1h shares are non-negative, never exceed a positive aggregate, and
    exhaust it exactly when the details claim more. *)
Theorem cache_write_shares u :
  usage_ok u ->
  let '(n5, n1) := normalizeCacheWrite u in
  0 <= n5 /\ 0 <= n1 /\ (0 < ut_CacheWrite u -> n5 + n1 <= ut_CacheWrite u)
  /\ (0 < ut_CacheWrite u < Z.max 0 (ut_CacheWrite5m u) + Z.max 0 (ut_CacheWrite1h u) -> n5 + n1 = ut_CacheWrite u).
Proof.
  intros H. pose proof (normalizeCacheWrite_bounds u H) as B. destruct (normalizeCacheWrite u) as [n5 n1]. lia.
Qed.

(** A peak window is a half-open interval on the circle of the day's minutes:
    it is hit exactly when less than its length has passed since its start.  A
    window whose end equals its start is never hit. *)
Theorem window_is_interval w minute :
  0 <= tw_StartMin w < 1440 -> 0 <= tw_EndMin w < 1440 -> 0 <= minute < 1440 ->
  in_day_window w minute = bool_decide ((minute - tw_StartMin w) mod 1440 < (tw_EndMin w - tw_StartMin w) mod 1440).
Proof.
  intros Hs He Hm. assert (M : forall a, -1440 < a < 1440 -> a mod 1440 = if a <? 0 then a + 1440 else a).
  { intros a Ha. destruct (Z.ltb_spec a 0); [|apply Z.mod_small; lia].
    rewrite <- (Z.mod_small (a + 1440) 1440) at 1 by lia. rewrite Zplus_mod, Z_mod_same_full, Z.add_0_r, Zmod_mod. done. }
  rewrite !M by lia. unfold in_day_window. apply eq_true_iff_eq. rewrite bool_decide_eq_true.
  destruct (Z.ltb_spec (minute - tw_StartMin w) 0), (Z.ltb_spec (tw_EndMin w - tw_StartMin w) 0), (Z.leb_spec (tw_StartMin w) (tw_EndMin w));
    rewrite ?andb_true_iff, ?orb_true_iff, ?Z.leb_le, ?Z.ltb_lt; lia.
Qed.

(** C37: The priority prices of a LiteLLM card, in USD per token, are divided by a
    million as if they were prices per million tokens: at the priority tier a
    million input tokens cost the card's price of one token. *)
Theorem priority_price_divided r p :
  ll_InputPriority r = Some p ->
  ip_In (resolveItemPrices (modelPriceFromRow (litellm_row r)) "priority") = fdiv p million
  /\ ip_In (resolveItemPrices (modelPriceFromRow (litellm_row r)) "") = fdiv (fmul (ll_InputPricePerToken r) million) million
  /\ tierMultiplierFor (modelPriceFromRow (litellm_row r)) "priority" = f1.
Proof.
  intros Hp. unfold resolveItemPrices, tierMultiplierFor, hasPriorityPrices. change (isPriorityTier "priority") with true.
  change (isPriorityTier "") with false. cbn [modelPriceFromRow litellm_row mp_InputPriority pr_InputPriorityPrice].
  rewrite Hp. cbn [given orb andb ip_In]. split_and!; [done| |done]. unfold base_prices. by case_match.
Qed.


(** ** Where the code differs from its comments *)

(** An offset without colon is no fixed zone. *)
Example offset_needs_colon : fixedOffset "+08:00" = Some 28800 /\ fixedOffset "-0530" = None.
Proof. by vm_compute. Qed.

(** A window of which no day is understood is open every day. *)
Example unknown_days_every_day :
  tw_Days <$> parse_window (mkCfgWindow ["weekdays"] "9:00" "18:00" (f_of_Z 2)) = Some [].
Proof. by vm_compute. Qed.

(** The id without its provider is tried before the full id. *)
Example prefix_dropped_first : priceLookupCandidates "azure/gpt-4o" = ["gpt-4o"; "azure/gpt-4o"].
Proof. by vm_compute. Qed.

(** With prices by lifetime the priority price of cache writes is not used. *)
Example priority_writes_ignored p v :
  mp_CacheWrite5m p = Some f1 -> mp_CacheWrite5mPriority p = Some v ->
  ip_Breakdown (resolveItemPrices p "priority") = true /\ ip_W5 (resolveItemPrices p "priority") = f1.
Proof.
  intros H5 Hp. unfold resolveItemPrices, hasPriorityPrices. change (isPriorityTier "priority") with true. rewrite Hp, !orb_true_r. cbn [andb].
  unfold base_prices. rewrite H5. done.
Qed.

(** ** Witnesses *)

#[local] Instance demo_zones : GoZones := {| LoadLocation := fun _ => None; Local_zone := UTC |}.
Definition demo_usage : TokenUsage := mkUsage 1000 200 50000 3000 2000 1000 "" None true.
Definition demo_card : ModelPrice := Eval vm_compute in LookupVersionPrice (Some demo_rows) "claude-opus-4.5".

Lemma demo_card_ok : card_ok demo_card.
Proof.
  assert (P : forall o, match o with Some v => fle f0 v | None => true end = true -> forall v, o = Some v -> nn v)
    by (intros o Ho v ->; by right).
  split_and!; [by right|by right|]. repeat (apply List.Forall_cons; [by apply P|]). apply List.Forall_nil.
Qed.

Lemma settled_cost_sound_witness :
  exists cost d, settleCost (ConfigureBillingRules [] []) 0 demo_card "" None "anthropic" "claude-opus-4.5" demo_usage = (Some cost, Some d)
    /\ receipt_ok d /\ cost = round8 (fmul (rd_Total d) (key_rate None)).
Proof.
  destruct (settleCost (ConfigureBillingRules [] []) 0 demo_card "" None "anthropic" "claude-opus-4.5" demo_usage) as [[cost|] [d|]] eqn:E;
    [|vm_compute in E; discriminate E..].
  exists cost, d. split; [reflexivity|]. eapply settled_cost_sound in E as (R & _ & _ & C & _); [exact (conj R C)| | |reflexivity].
  - exact demo_card_ok.
  - unfold usage_ok. simpl. lia.
Defined.

Lemma cache_write_shares_witness :
  let '(n5, n1) := normalizeCacheWrite (mkTokens 0 0 0 100 90 60 "" true) in n5 = 60 /\ n5 + n1 = 100.
Proof.
  pose proof (cache_write_shares (mkTokens 0 0 0 100 90 60 "" true) ltac:(unfold usage_ok; simpl; lia)) as H.
  destruct (normalizeCacheWrite _) as [n5 n1] eqn:E. split; [vm_compute in E; congruence|]. apply H. simpl. lia.
Defined.

(** A window over midnight, and an empty one. *)
Lemma window_is_interval_witness :
  in_day_window (mkWindow [] 1380 60 f1) 1400 = true /\ in_day_window (mkWindow [] 60 60 f1) 60 = false.
Proof. split; [rewrite window_is_interval by (simpl; lia)|rewrite window_is_interval by (simpl; lia)]; reflexivity. Defined.

Definition demo_gpt : LiteLLMPrice :=
  mkLiteLLM "gpt-5" "openai" (f_dec 125 8) (f_dec 1 5) None None None (Some (f_dec 25 7)) None None None 0 f0 f0.

Lemma priority_price_divided_witness :
  ip_In (resolveItemPrices (modelPriceFromRow (litellm_row demo_gpt)) "priority") = fdiv (f_dec 25 7) million.
Proof. apply (priority_price_divided demo_gpt (f_dec 25 7)). reflexivity. Defined.

(** A prefixed key whose plain id has no price. *)
Definition demo_azure : LiteLLMPrice :=
  mkLiteLLM "azure/gpt-5" "azure" (f_dec 125 8) (f_dec 1 5) None None None (Some (f_dec 25 7)) None None None 0 f0 f0.


(** An unprefixed key, under a model name with a prefix. *)
Example plain_card_found :
  LookupVersionPrice (Some ((map_to_list (mergeCatalogPrices [mkCatalogModel "x" "GPT-5" f1 f1] [demo_claude; demo_gpt; demo_azure])).*2)) "Azure/GPT-5"
  = modelPriceFromRow (litellm_row demo_gpt).
Proof. vm_compute. reflexivity. Qed.
