(* ===== verification/Settle.v ===== *)
(** * Settlement of requests into the dashboard's aggregates
    (internal/dashboard/settle.go, models.go, service.go)

    The gateway reports the start of a request, every attempt and the end as
    events; a queue keeps them until a transaction of [process] has settled them:
    a ledger row per event key, the fact rows, and the counters and amounts of the
    minute and day rows of every dimension.  A run_tx body is a function in
    the monad [Tx]: [faults n] says that its n-th statement fails; the commit may
    fail, or succeed without the client hearing of it.  Decimal columns are taken
    to hold the float64 written to them. *)

From S2P Require Import Prelude GoFloat GoString Json JsonDecode Settings Domain Upstream Billing Cost.

(** ** Constants *)

Definition FamilyRequest : string := "request".
Definition FamilyAttempt : string := "attempt".
Definition DimGlobal : string := "global".
Definition DimGroup : string := "group".
Definition DimProvider : string := "provider".

Definition ReasonUnbound : string := "unbound".
Definition ReasonMissingSale : string := "missing_sale".
Definition ReasonMissingPrice : string := "missing_price".
Definition ReasonMissingUsage : string := "missing_usage".
Definition ReasonInterrupted : string := "interrupted".

Definition FactRetention : duration := 30 * 24 * Hour.
Definition MinuteRetention : duration := 30 * 24 * Hour.
Definition LedgerRetention : duration := 31 * 24 * Hour.
Definition ReplayRejectAge : duration := 30 * 24 * Hour.
Definition QueueLimit : Z := 10000.

(** ** Events *)

Record RequestStart := mkStart {
  rs_UUID : string;
  rs_ConsumerKeyID : Z;
  rs_RouteGroupID : option Z;
  rs_RouteGroupName : string;
  rs_SaleMultiplier : option f64;
  rs_CatalogVersionID : Z;
  rs_Protocol : string;
  rs_Path : string;
  rs_Stream : bool;
  rs_Source : string;
  rs_StartedAt : time;
  rs_RequestLogID : Z
}.

Record AttemptFact := mkAttempt {
  af_UUID : string;
  af_RequestUUID : string;
  af_ProviderID : Z;
  af_ProviderName : string;
  af_KeyID : Z;
  af_CostMultiplier : f64;
  af_StartedAt : time;
  af_CompletedAt : time;
  af_Result : string;
  af_HTTPSent : bool;
  af_StatusCode : Z;
  af_TTFTMs : Z;
  af_TTFTStatus : string;
  af_Protocol : string;
  af_Model : string;
  af_Path : string;
  af_Stream : bool;
  af_Source : string;
  af_InputTokens : Z;
  af_OutputTokens : Z;
  af_CacheReadTokens : Z;
  af_CacheWriteTokens : Z;
  af_UsageKnown : bool;
  af_EstimatedCostUSD : option f64;
  af_ReportedCostUSD : option f64;
  af_ConsumptionUSD : option f64;
  af_CostSource : string;
  af_BaseCostUSD : option f64
}.

Record RequestEnd := mkEnd {
  re_UUID : string;
  re_Model : string;
  re_Protocol : string;
  re_Success : bool;
  re_Interrupted : bool;
  re_CompletedAt : time;
  re_HTTPAttempts : Z;
  re_InputTokens : Z;
  re_OutputTokens : Z;
  re_CacheReadTokens : Z;
  re_CacheWriteTokens : Z;
  re_UsageKnown : bool;
  re_InputPrice : option f64;
  re_OutputPrice : option f64;
  re_CacheReadCoeff : f64;
  re_CacheWriteCoeff : f64;
  re_BaseCostUSD : option f64;
  re_TTFTMs : Z;
  re_TTFTStatus : string;
  re_FinalProviderID : option Z;
  re_FinalProviderName : string
}.

Record minuteSample := mkSample { ms_Bucket : time; ms_Family : string; ms_Integral : f64; ms_Peak : Z }.

Inductive payload : Type :=
| PStart (p : RequestStart)
| PAttempt (a : AttemptFact)
| PEnd (p : RequestEnd)
| PConc (s : minuteSample).

Record queuedEvent := mkEvent {
  qe_Key : string;
  qe_Payload : payload;
  qe_Attempts : Z;
  qe_Next : time;
  qe_At : time
}.

(** A payload is kept as JSON, which has no infinities: such a payload is stored
    empty and never decodes. *)
Definition finite_opt (o : option f64) : bool := match o with Some v => is_fin v | None => true end.
Definition encodes (p : payload) : bool :=
  match p with
  | PStart p => finite_opt (rs_SaleMultiplier p)
  | PAttempt a => is_fin (af_CostMultiplier a) && finite_opt (af_EstimatedCostUSD a) && finite_opt (af_ReportedCostUSD a)
                  && finite_opt (af_ConsumptionUSD a) && finite_opt (af_BaseCostUSD a)
  | PEnd p => finite_opt (re_InputPrice p) && finite_opt (re_OutputPrice p) && is_fin (re_CacheReadCoeff p)
              && is_fin (re_CacheWriteCoeff p) && finite_opt (re_BaseCostUSD p)
  | PConc s => is_fin (ms_Integral s)
  end.

(** ** Rows *)

Record RequestFact := mkFact {
  rf_UUID : string;
  rf_ConsumerKeyID : Z;
  rf_RouteGroupID : option Z;
  rf_RouteGroupName : string;
  rf_SaleMultiplier : option f64;
  rf_CatalogVersionID : Z;
  rf_Model : string;
  rf_Protocol : string;
  rf_Path : string;
  rf_Stream : bool;
  rf_Source : string;
  rf_StartedAt : time;
  rf_CompletedAt : option time;
  rf_Success : bool;
  rf_Interrupted : bool;
  rf_HTTPAttempts : Z;
  rf_InputTokens : Z;
  rf_OutputTokens : Z;
  rf_CacheReadTokens : Z;
  rf_CacheWriteTokens : Z;
  rf_UsageKnown : bool;
  rf_InputPrice : option f64;
  rf_OutputPrice : option f64;
  rf_CacheReadCoeff : f64;
  rf_CacheWriteCoeff : f64;
  rf_BaseCostUSD : option f64;
  rf_RevenueUSD : option f64;
  rf_Covered : bool;
  rf_Reasons : string;
  rf_FinalProviderID : option Z;
  rf_FinalProviderName : string;
  rf_RequestLogID : Z;
  rf_TTFTMs : Z;
  rf_TTFTStatus : string
}.

Definition fact_of_start (p : RequestStart) : RequestFact :=
  mkFact (rs_UUID p) (rs_ConsumerKeyID p) (rs_RouteGroupID p) (rs_RouteGroupName p) (rs_SaleMultiplier p) (rs_CatalogVersionID p)
    "" (rs_Protocol p) (rs_Path p) (rs_Stream p) (rs_Source p) (rs_StartedAt p) None false false 0 0 0 0 0 false None None f0 f0
    None None false "" None "" (rs_RequestLogID p) 0 "".

(** The integer columns of an aggregate. *)
Record Counts := mkCounts {
  n_RequestsStarted : Z;
  n_RequestsCompleted : Z;
  n_RequestsSuccess : Z;
  n_RequestsRetried : Z;
  n_ProviderSuccess : Z;
  n_ProviderFailure : Z;
  n_TTFTSamples : Z;
  n_UnknownConsumption : Z;
  n_CoveredCount : Z;
  n_UnboundCount : Z;
  n_MissingSaleCount : Z;
  n_MissingPriceCount : Z;
  n_MissingUsageCount : Z;
  n_InterruptedCount : Z
}.

(** The amounts of an aggregate; of a delta, where an absent amount is not added. *)
Record Money (A : Type) := mkMoney {
  m_KnownRevenueUSD : A;
  m_KnownCostUSD : A;
  m_ConsumptionUSD : A;
  m_ReportedConsumptionUSD : A;
  m_EstimatedConsumptionUSD : A;
  m_CoveredRevenueUSD : A;
  m_CoveredCostUSD : A
}.
Arguments mkMoney {A}.
Arguments m_KnownRevenueUSD {A}.
Arguments m_KnownCostUSD {A}.
Arguments m_ConsumptionUSD {A}.
Arguments m_ReportedConsumptionUSD {A}.
Arguments m_EstimatedConsumptionUSD {A}.
Arguments m_CoveredRevenueUSD {A}.
Arguments m_CoveredCostUSD {A}.

(** [MinuteAgg] and [DayAgg] have the same columns; the key is apart. *)
Record Agg := mkAgg {
  ag_Counts : Counts;
  ag_InflightIntegralSec : f64;
  ag_InflightPeak : Z;
  ag_TTFTHistJSON : string;
  ag_Money : Money f64
}.

Definition aggKey : Type := time * string * string * Z.   (* bucket, family, dim, dim_id *)

Record DashDB := mkDash {
  db_ledger : gmap string time;      (* event key, processed at *)
  db_facts : gmap string RequestFact;
  db_attempts : gmap string AttemptFact;
  db_minutes : gmap aggKey Agg;
  db_days : gmap aggKey Agg;
  db_gaps : list time;
  db_overflow : bool
}.

(** ** Buckets *)

Definition minuteBucket (t : time) : time := t - t mod Minute.

(** Midnight in Shanghai, eight hours ahead of UTC. *)
Definition shanghaiDay (t : time) : time := (t + 8 * Hour) / (24 * Hour) * (24 * Hour) - 8 * Hour.

(** ** Histograms of times to first token *)

Definition HistBoundsMS : list Z :=
  [100; 250; 500; 1000; 2000; 3000; 5000; 7500; 10000; 15000; 20000; 30000; 60000; 120000; 300000].

Definition emptyHist : list Z := repeat 0 (S (length HistBoundsMS)).

Definition fmt_int (n : Z) : string := if n <? 0 then "-" +:+ fmt_uint (- n) else fmt_uint n.

Definition histJSON (h : list Z) : string := "[" +:+ join_comma (fmt_int <$> h) +:+ "]".

(** An element of a []int64: an integer literal in range; null leaves the zero. *)
Definition json_int64 (v : json) : option Z :=
  match v with JNum l => Atoi (of_bytes l) | JNull => Some 0 | _ => None end.

Definition parseHist (s : string) : list Z :=
  if String.eqb s "" then emptyHist
  else match parse (bytes s) with
       | Some (JArr vs) => match mapM json_int64 vs with
                           | Some raw => imap (fun i _ => default 0 (raw !! i)) emptyHist
                           | None => emptyHist
                           end
       | _ => emptyHist
       end.

Definition addHist (dst src : list Z) : list Z := imap (fun i n => match src !! i with Some m => wrap_i64 (n + m) | None => n end) dst.

Definition hist_index (ms : Z) : nat :=
  match list_find (fun bound => Z.max 0 ms <= bound) HistBoundsMS with Some (i, _) => i | None => length HistBoundsMS end.

Definition observeTTFT (ms : Z) : list Z := <[hist_index ms := 1]> emptyHist.

(** ** Additions to an aggregate *)

Definition noCounts : Counts := mkCounts 0 0 0 0 0 0 0 0 0 0 0 0 0 0.

Definition add_counts (a b : Counts) : Counts := {|
  n_RequestsStarted := wrap_i64 (n_RequestsStarted a + n_RequestsStarted b);
  n_RequestsCompleted := wrap_i64 (n_RequestsCompleted a + n_RequestsCompleted b);
  n_RequestsSuccess := wrap_i64 (n_RequestsSuccess a + n_RequestsSuccess b);
  n_RequestsRetried := wrap_i64 (n_RequestsRetried a + n_RequestsRetried b);
  n_ProviderSuccess := wrap_i64 (n_ProviderSuccess a + n_ProviderSuccess b);
  n_ProviderFailure := wrap_i64 (n_ProviderFailure a + n_ProviderFailure b);
  n_TTFTSamples := wrap_i64 (n_TTFTSamples a + n_TTFTSamples b);
  n_UnknownConsumption := wrap_i64 (n_UnknownConsumption a + n_UnknownConsumption b);
  n_CoveredCount := wrap_i64 (n_CoveredCount a + n_CoveredCount b);
  n_UnboundCount := wrap_i64 (n_UnboundCount a + n_UnboundCount b);
  n_MissingSaleCount := wrap_i64 (n_MissingSaleCount a + n_MissingSaleCount b);
  n_MissingPriceCount := wrap_i64 (n_MissingPriceCount a + n_MissingPriceCount b);
  n_MissingUsageCount := wrap_i64 (n_MissingUsageCount a + n_MissingUsageCount b);
  n_InterruptedCount := wrap_i64 (n_InterruptedCount a + n_InterruptedCount b)
|}.

Definition noMoney : Money (option f64) := mkMoney None None None None None None None.

Definition map_money {A B C} (f : A -> B -> C) (x : Money A) (y : Money B) : Money C :=
  mkMoney (f (m_KnownRevenueUSD x) (m_KnownRevenueUSD y)) (f (m_KnownCostUSD x) (m_KnownCostUSD y))
    (f (m_ConsumptionUSD x) (m_ConsumptionUSD y)) (f (m_ReportedConsumptionUSD x) (m_ReportedConsumptionUSD y))
    (f (m_EstimatedConsumptionUSD x) (m_EstimatedConsumptionUSD y)) (f (m_CoveredRevenueUSD x) (m_CoveredRevenueUSD y))
    (f (m_CoveredCostUSD x) (m_CoveredCostUSD y)).

(** What one event adds to a row. *)
Record Delta := mkDelta {
  dl_Counts : Counts;
  dl_Integral : option f64;
  dl_Peak : Z;
  dl_TTFT : option Z;
  dl_Money : Money (option f64)
}.

Definition empty_agg : Agg := mkAgg noCounts f0 0 (histJSON emptyHist) (mkMoney f0 f0 f0 f0 f0 f0 f0).

(** In a minute row the columns that are present change. *)
Definition add_minute (d : Delta) (row : Agg) : Agg :=
  mkAgg (add_counts (ag_Counts row) (dl_Counts d))
    (match dl_Integral d with Some x => fadd (ag_InflightIntegralSec row) x | None => ag_InflightIntegralSec row end)
    (Z.max (ag_InflightPeak row) (dl_Peak d))
    (match dl_TTFT d with
     | Some ms => histJSON (addHist (parseHist (ag_TTFTHistJSON row)) (observeTTFT ms))
     | None => ag_TTFTHistJSON row
     end)
    (map_money (fun x o => match o with Some v => round8 (fadd x v) | None => x end) (ag_Money row) (dl_Money d)).

(** [addDayFromMinuteDelta]: in a day row every column is added, an absent one as zero. *)
Definition add_day (d : Delta) (row : Agg) : Agg :=
  mkAgg (add_counts (ag_Counts row) (dl_Counts d))
    (fadd (ag_InflightIntegralSec row) (default f0 (dl_Integral d)))
    (Z.max (ag_InflightPeak row) (dl_Peak d))
    (histJSON (addHist (parseHist (ag_TTFTHistJSON row))
       (parseHist (match dl_TTFT d with Some ms => histJSON (observeTTFT ms) | None => "" end))))
    (map_money (fun x o => round8 (fadd x (default f0 o))) (ag_Money row) (dl_Money d)).

(** ** Transactions *)

Inductive settle_err : Type := ErrSQL | ErrNotFound | ErrWaiting | ErrDecode.

Definition Tx (A : Type) : Type := (nat -> bool) -> nat -> DashDB -> result settle_err (A * nat * DashDB).

#[export] Instance tx_ret : MRet Tx := fun A a _ n db => Ok (a, n, db).
#[export] Instance tx_bind : MBind Tx := fun A B f m faults n db =>
  match m faults n db with
  | Ok (a, n', db') => f a faults n' db'
  | Err e => Err e
  end.

Definition tx_fail {A} (e : settle_err) : Tx A := fun _ _ _ => Err e.

(** A statement: it may fail, or it acts on the tables. *)
Definition statement {A} (f : DashDB -> A * DashDB) : Tx A := fun faults n db =>
  if faults n then Err ErrSQL else let '(a, db') := f db in Ok (a, S n, db').

Inductive commit_reply : Type := Committed | CommitLost | CommitFailed.

(** The transaction's error and the tables after it. *)
Definition run_tx {A} (body : Tx A) (faults : nat -> bool) (commit : commit_reply) (db : DashDB) : option settle_err * DashDB :=
  match body faults 0%nat db with
  | Err e => (Some e, db)
  | Ok (_, _, db') => match commit with
                      | Committed => (None, db')
                      | CommitLost => (Some ErrSQL, db')
                      | CommitFailed => (Some ErrSQL, db)
                      end
  end.

Definition set_minutes (db : DashDB) (m : gmap aggKey Agg) : DashDB :=
  mkDash (db_ledger db) (db_facts db) (db_attempts db) m (db_days db) (db_gaps db) (db_overflow db).
Definition set_days (db : DashDB) (m : gmap aggKey Agg) : DashDB :=
  mkDash (db_ledger db) (db_facts db) (db_attempts db) (db_minutes db) m (db_gaps db) (db_overflow db).
Definition set_facts (db : DashDB) (m : gmap string RequestFact) : DashDB :=
  mkDash (db_ledger db) m (db_attempts db) (db_minutes db) (db_days db) (db_gaps db) (db_overflow db).
Definition set_attempts (db : DashDB) (m : gmap string AttemptFact) : DashDB :=
  mkDash (db_ledger db) (db_facts db) m (db_minutes db) (db_days db) (db_gaps db) (db_overflow db).
Definition set_ledger (db : DashDB) (m : gmap string time) : DashDB :=
  mkDash m (db_facts db) (db_attempts db) (db_minutes db) (db_days db) (db_gaps db) (db_overflow db).
Definition set_gaps (db : DashDB) (gaps : list time) (overflow : bool) : DashDB :=
  mkDash (db_ledger db) (db_facts db) (db_attempts db) (db_minutes db) (db_days db) gaps overflow.

Definition getMinute (k : aggKey) : Tx Agg :=
  found ← statement (fun db => (db_minutes db !! k, db));
  match found with
  | Some row => mret row
  | None => statement (fun db => (empty_agg, set_minutes db (<[k := empty_agg]> (db_minutes db))))
  end.
Definition saveMinute (k : aggKey) (row : Agg) : Tx unit :=
  statement (fun db => (tt, set_minutes db (<[k := row]> (db_minutes db)))).

Definition getDay (k : aggKey) : Tx Agg :=
  found ← statement (fun db => (db_days db !! k, db));
  match found with
  | Some row => mret row
  | None => statement (fun db => (empty_agg, set_days db (<[k := empty_agg]> (db_days db))))
  end.
Definition saveDay (k : aggKey) (row : Agg) : Tx unit :=
  statement (fun db => (tt, set_days db (<[k := row]> (db_days db)))).

Definition update_minute (k : aggKey) (d : Delta) : Tx unit := row ← getMinute k; saveMinute k (add_minute d row).
Definition addDayFromMinuteDelta (k : aggKey) (d : Delta) : Tx unit := row ← getDay k; saveDay k (add_day d row).

(** ** The fact of a completed request *)

Definition json_strings (l : list string) : string :=
  "[" +:+ join_comma ((fun s => of_bytes (json_string s)) <$> l) +:+ "]".

Definition parseReasons (s : string) : list string :=
  if String.eqb s "" then []
  else match unmarshal_strings s with Some out => out | None => Split s 44 end.

Section settle.
Context (rules : BillingRules).

Definition fact_base (now : time) (p : RequestEnd) (crc cwc : f64) : option f64 :=
  match re_BaseCostUSD p with
  | Some b => Some b
  | None => match re_InputPrice p, re_OutputPrice p with
            | Some i, Some o =>
                BaseCostUSD rules now (mkPrice i o crc cwc "" true None None None None None None None 0 f0 f0) (re_Protocol p)
                  (re_InputTokens p) (re_CacheReadTokens p) (re_CacheWriteTokens p) (re_OutputTokens p) (re_UsageKnown p)
            | _, _ => None
            end
  end.

Definition cost_known (attempts : list AttemptFact) : bool :=
  forallb (fun a => negb (af_HTTPSent a && negb (given (af_EstimatedCostUSD a)))) attempts.

Definition fact_reasons (f : RequestFact) (p : RequestEnd) (attempts : list AttemptFact) : list string :=
  (if given (rf_RouteGroupID f) then [] else [ReasonUnbound])
  ++ (if given (rf_SaleMultiplier f) then [] else [ReasonMissingSale])
  ++ (if given (re_InputPrice p) && given (re_OutputPrice p) then [] else [ReasonMissingPrice])
  ++ (if negb (re_UsageKnown p) && negb (re_Interrupted p) then [ReasonMissingUsage] else [])
  ++ (if re_Interrupted p then [ReasonInterrupted] else [])
  ++ (if negb (cost_known attempts) && re_UsageKnown p then [ReasonMissingUsage] else []).

Definition fact_covered (f : RequestFact) (p : RequestEnd) (attempts : list AttemptFact) : bool :=
  given (rf_RouteGroupID f) && given (rf_SaleMultiplier f) && (given (re_InputPrice p) && given (re_OutputPrice p))
  && (re_UsageKnown p || negb (re_Success p) && negb (re_Interrupted p)) && cost_known attempts && negb (re_Interrupted p).

Definition fact_revenue (f : RequestFact) (p : RequestEnd) (base : option f64) (covered : bool) : option f64 :=
  let revenue :=
    match re_Success p, rf_SaleMultiplier f, base with
    | true, Some sale, Some b => Some (round8 (fmul b sale))
    | success, _, _ => if negb success && negb (re_Interrupted p) then Some f0 else rf_RevenueUSD f
    end in
  match revenue with
  | None => if covered && negb (re_Success p) then Some f0 else None
  | r => r
  end.

Definition updateRequestFact (now : time) (f : RequestFact) (p : RequestEnd) (attempts : list AttemptFact) : RequestFact :=
  let crc := if feq (re_CacheReadCoeff p) f0 then f_dec 1 1 else re_CacheReadCoeff p in
  let cwc := if feq (re_CacheWriteCoeff p) f0 then f_dec 125 2 else re_CacheWriteCoeff p in
  let base := match fact_base now p crc cwc with Some b => Some b | None =>
                (if given (re_InputPrice p) && given (re_OutputPrice p) then None else rf_BaseCostUSD f) end in
  let covered := fact_covered f p attempts in
  mkFact (rf_UUID f) (rf_ConsumerKeyID f) (rf_RouteGroupID f) (rf_RouteGroupName f) (rf_SaleMultiplier f) (rf_CatalogVersionID f)
    (re_Model p) (re_Protocol p) (rf_Path f) (rf_Stream f) (rf_Source f) (rf_StartedAt f) (Some (re_CompletedAt p)) (re_Success p)
    (re_Interrupted p) (re_HTTPAttempts p) (re_InputTokens p) (re_OutputTokens p) (re_CacheReadTokens p) (re_CacheWriteTokens p)
    (re_UsageKnown p) (re_InputPrice p) (re_OutputPrice p) crc cwc base (fact_revenue f p base covered) covered
    (json_strings (fact_reasons f p attempts)) (re_FinalProviderID p) (re_FinalProviderName p) (rf_RequestLogID f)
    (re_TTFTMs p) (re_TTFTStatus p).

(** ** Aggregates of a request *)

Record contribution := mkContribution {
  cb_dim : string; cb_id : Z; cb_cost : Amount; cb_revenue : option f64; cb_success : bool
}.

Definition provider_costs (attempts : list AttemptFact) : gmap Z Amount :=
  fold_left (fun m a =>
    let m := if af_HTTPSent a then <[af_ProviderID a := default 0 (m !! af_ProviderID a)]> m else m in
    match af_EstimatedCostUSD a with
    | Some c => if af_HTTPSent a then <[af_ProviderID a := amount_Add (default 0 (m !! af_ProviderID a)) (AmountFromFloat c)]> m else m
    | None => m
    end) attempts ∅.

Definition attempts_cost (attempts : list AttemptFact) : Amount :=
  fold_left (fun c a => match af_EstimatedCostUSD a with Some v => amount_Add c (AmountFromFloat v) | None => c end) attempts 0.

(** The dimensions in which a request counts; the order of providers does not
    matter, their rows being distinct. *)
Definition contributions (f : RequestFact) (attempts : list AttemptFact) : list contribution :=
  let cost := attempts_cost attempts in
  [mkContribution DimGlobal 0 cost (rf_RevenueUSD f) (rf_Success f)]
  ++ match rf_RouteGroupID f with Some g => [mkContribution DimGroup g cost (rf_RevenueUSD f) (rf_Success f)] | None => [] end
  ++ ((fun kv => let success := rf_Success f && bool_decide (rf_FinalProviderID f = Some kv.1) in
                 mkContribution DimProvider kv.1 kv.2 (if success then rf_RevenueUSD f else Some f0) success)
      <$> map_to_list (provider_costs attempts)).

Definition b2z (b : bool) : Z := if b then 1 else 0.

Definition start_delta : Delta := mkDelta (mkCounts 1 0 0 0 0 0 0 0 0 0 0 0 0 0) None 0 None noMoney.

(** [once]: the delta of the day row counts a reason at most once. *)
Definition end_delta (f : RequestFact) (once : bool) (c : contribution) : Delta :=
  let measured := String.eqb (rf_TTFTStatus f) "measured" && cb_success c in
  let reason r := let n := Z.of_nat (length (List.filter (String.eqb r) (parseReasons (rf_Reasons f)))) in
                  if once then Z.min 1 n else n in
  let cost := amount_Float (cb_cost c) in
  mkDelta
    (mkCounts 0 1 (b2z (cb_success c)) (b2z (2 <=? rf_HTTPAttempts f)) 0 0 (b2z measured) 0 (b2z (rf_Covered f))
       (reason ReasonUnbound) (reason ReasonMissingSale) (reason ReasonMissingPrice) (reason ReasonMissingUsage) (reason ReasonInterrupted))
    None 0 (if measured then Some (rf_TTFTMs f) else None)
    (mkMoney (cb_revenue c) (if cb_cost c =? 0 then None else Some cost) None None None
       (if rf_Covered f then cb_revenue c else None) (if rf_Covered f then Some cost else None)).

Definition add_contribution (f : RequestFact) (completed : time) (c : contribution) : Tx unit :=
  let at_ b := (b, FamilyRequest, cb_dim c, cb_id c) in
  _ ← update_minute (at_ (minuteBucket (rf_StartedAt f))) start_delta;
  _ ← addDayFromMinuteDelta (at_ (shanghaiDay (rf_StartedAt f))) start_delta;
  _ ← update_minute (at_ (minuteBucket completed)) (end_delta f false c);
  addDayFromMinuteDelta (at_ (shanghaiDay completed)) (end_delta f true c).

Fixpoint each {A} (f : A -> Tx unit) (l : list A) : Tx unit :=
  match l with [] => mret tt | a :: l => _ ← f a; each f l end.

Definition applyRequestAgg (f : RequestFact) (attempts : list AttemptFact) : Tx unit :=
  match rf_CompletedAt f with
  | None => mret tt
  | Some completed => each (add_contribution f completed) (contributions f attempts)
  end.

(** ** Aggregates of an attempt *)

Definition attempt_delta (a : AttemptFact) (business : bool) : Delta :=
  let success := String.eqb (af_Result a) "success" in
  let measured := business && String.eqb (af_TTFTStatus a) "measured" && success in
  mkDelta
    (mkCounts 0 0 0 0 (b2z (business && success)) (b2z (business && String.eqb (af_Result a) "upstream_failure")) (b2z measured)
       (b2z (negb (given (af_ConsumptionUSD a)) && af_HTTPSent a)) 0 0 0 0 0 0)
    None 0 (if measured then Some (af_TTFTMs a) else None)
    (mkMoney None (if business then af_EstimatedCostUSD a else None) (af_ConsumptionUSD a) (af_ReportedCostUSD a)
       (if given (af_ReportedCostUSD a) then None else af_EstimatedCostUSD a) None None).

Definition add_attempt (a : AttemptFact) (business : bool) (dim : string * Z) : Tx unit :=
  let at_ b := (b, FamilyAttempt, dim.1, dim.2) in
  _ ← update_minute (at_ (minuteBucket (af_CompletedAt a))) (attempt_delta a business);
  addDayFromMinuteDelta (at_ (shanghaiDay (af_CompletedAt a))) (attempt_delta a business).

Definition applyAttemptAgg (a : AttemptFact) (business : bool) : Tx unit :=
  each (add_attempt a business) [(DimGlobal, 0); (DimProvider, af_ProviderID a)].

Definition applyConcSample (s : minuteSample) : Tx unit :=
  let d := mkDelta noCounts (Some (ms_Integral s)) (ms_Peak s) None noMoney in
  _ ← update_minute (ms_Bucket s, ms_Family s, DimGlobal, 0) d;
  addDayFromMinuteDelta (shanghaiDay (ms_Bucket s), ms_Family s, DimGlobal, 0) d.

(** ** Processing one event *)

Definition settle_end (now : time) (p : RequestEnd) : Tx unit :=
  found ← statement (fun db => (db_facts db !! re_UUID p, db));
  match found with
  | None => tx_fail ErrNotFound
  | Some fact =>
      if given (rf_CompletedAt fact) then mret tt
      else
        attempts ← statement (fun db => ((map_to_list (db_attempts db)).*2, db));
        let attempts := List.filter (fun a => String.eqb (af_RequestUUID a) (re_UUID p)) attempts in
        let sent := Z.of_nat (length (List.filter af_HTTPSent attempts)) in
        if negb (re_Interrupted p) && (sent <? re_HTTPAttempts p) then tx_fail ErrWaiting
        else
          let fact := updateRequestFact now fact p attempts in
          _ ← statement (fun db => (tt, set_facts db (<[re_UUID p := fact]> (db_facts db))));
          if negb (String.eqb (rf_Source fact) SourceBusiness) then mret tt else applyRequestAgg fact attempts
  end.

(** [ON CONFLICT DO NOTHING]: a row that exists is kept. *)
Definition insert_new {V} (k : string) (v : V) (m : gmap string V) : gmap string V :=
  match m !! k with Some _ => m | None => <[k := v]> m end.

Definition settle_event (now : time) (p : payload) : Tx unit :=
  if negb (encodes p) then tx_fail ErrDecode
  else match p with
  | PStart p => statement (fun db => (tt, set_facts db (insert_new (rs_UUID p) (fact_of_start p) (db_facts db))))
  | PAttempt a =>
      _ ← statement (fun db => (tt, set_attempts db (insert_new (af_UUID a) a (db_attempts db))));
      applyAttemptAgg a (String.eqb (af_Source a) SourceBusiness)
  | PEnd p => settle_end now p
  | PConc s => applyConcSample s
  end.

Definition process_body (now : time) (e : queuedEvent) : Tx unit :=
  fresh ← statement (fun db => match db_ledger db !! qe_Key e with
                               | Some _ => (false, db)
                               | None => (true, set_ledger db (<[qe_Key e := now]> (db_ledger db)))
                               end);
  if fresh : bool then settle_event now (qe_Payload e) else mret tt.

Definition process (now : time) (e : queuedEvent) (faults : nat -> bool) (commit : commit_reply) (db : DashDB)
    : option settle_err * DashDB :=
  if ReplayRejectAge <? now - qe_At e then (None, db) else run_tx (process_body now e) faults commit db.

(** ** The queue *)

Record settler := mkSettler { st_q : list queuedEvent; st_overflow : bool }.

(** [saved]: whether the two writes that report an overflow succeed. *)
Definition Enqueue (now : time) (key : string) (p : payload) (at_ : time) (saved : bool * bool) (s : settler) (db : DashDB) : settler * DashDB :=
  let at_ := if IsZero at_ then now else at_ in
  if ReplayRejectAge <? now - at_ then (s, db)
  else if QueueLimit <=? Z.of_nat (length (st_q s)) then
    (mkSettler (st_q s) true,
     set_gaps db (if saved.1 then db_gaps db ++ [at_] else db_gaps db) (if saved.2 then true else db_overflow db))
  else (mkSettler (st_q s ++ [mkEvent key p 0 now at_]) (st_overflow s), db).

Definition retry_wait (attempts : Z) : duration := Z.min (2 ^ Z.min attempts 5 * Second) (30 * Second).

Definition retry_event (now : time) (e : queuedEvent) : queuedEvent :=
  let attempts := qe_Attempts e + 1 in
  mkEvent (qe_Key e) (qe_Payload e) attempts (now + retry_wait attempts) (qe_At e).

(** What the world contributes to one call of process: the clock before and
    after it, the failing statements and the reply to the commit. *)
Record processing := mkProcessing { pc_now : time; pc_after : time; pc_faults : nat -> bool; pc_commit : commit_reply }.

(** The events in hand are processed one by one; a failed one goes back to the
    queue.  [world n] is the n-th processing. *)
Fixpoint drain_due (world : nat -> processing) (n : nat) (due : list queuedEvent) (s : settler) (db : DashDB) : settler * DashDB :=
  match due with
  | [] => (s, db)
  | e :: due =>
      let w := world n in
      let '(err, db) := process (pc_now w) e (pc_faults w) (pc_commit w) db in
      let s := match err with
               | None => s
               | Some _ => mkSettler (st_q s ++ [retry_event (pc_after w) e]) (st_overflow s)
               end in
      drain_due world (S n) due s db
  end.

Definition drainOnce (now : time) (world : nat -> processing) (s : settler) (db : DashDB) : settler * DashDB :=
  let due := List.filter (fun e => negb (After (qe_Next e) now)) (st_q s) in
  let rest := List.filter (fun e => After (qe_Next e) now) (st_q s) in
  drain_due world 0 due (mkSettler rest (st_overflow s)) db.

Definition make_due (e : queuedEvent) : queuedEvent := mkEvent (qe_Key e) (qe_Payload e) (qe_Attempts e) time_zero (qe_At e).

(** [drainFinal]: passes go on while the queue shrinks; the flag tells whether the
    loop has returned.  Pass [n] sees the clock and the world [passes n]. *)
Fixpoint drainFinal (fuel : nat) (passes : nat -> time * (nat -> processing)) (n : nat) (s : settler) (db : DashDB)
    : bool * (settler * DashDB) :=
  match fuel with
  | O => (false, (s, db))
  | S fuel =>
      let before := length (st_q s) in
      let s := mkSettler (make_due <$> st_q s) (st_overflow s) in
      if (before =? 0)%nat then (true, (s, db))
      else
        let '(s, db) := drainOnce (passes n).1 (passes n).2 s db in
        if (before <=? length (st_q s))%nat then (true, (s, db)) else drainFinal fuel passes (S n) s db
  end.
End settle.

(** ** The service: keys of the events *)

Definition start_key (uuid : string) : string := "req:" +:+ uuid +:+ ":start".
Definition attempt_key_of (uuid : string) : string := "att:" +:+ uuid +:+ ":end".
Definition end_key (uuid : string) : string := "req:" +:+ uuid +:+ ":end".

(** The calendar date of a day number since 1970-01-01. *)
Definition civil_date (days : Z) : Z * Z * Z :=
  let z := days + 719468 in
  let era := z / 146097 in
  let doe := z mod 146097 in
  let yoe := (doe - doe / 1460 + doe / 36524 - doe / 146096) / 365 in
  let doy := doe - (365 * yoe + yoe / 4 - yoe / 100) in
  let mp := (5 * doy + 2) / 153 in
  let m := if mp <? 10 then mp + 3 else mp - 9 in
  (yoe + era * 400 + (if m <=? 2 then 1 else 0), m, doy - (153 * mp + 2) / 5 + 1).

Definition pad2 (n : Z) : string := if n <? 10 then "0" +:+ fmt_uint n else fmt_uint n.

(** [t.UTC().Format("200601021504")]. *)
Definition format_minute (t : time) : string :=
  let s := t / Second in
  let '(y, m, d) := civil_date (s / 86400) in
  fmt_uint y +:+ pad2 m +:+ pad2 d +:+ pad2 (s mod 86400 / 3600) +:+ pad2 (s mod 3600 / 60).

Definition sample_key (s : minuteSample) : string :=
  "conc:" +:+ ms_Family s +:+ ":" +:+ format_minute (ms_Bucket s) +:+ ":" +:+ fmt_int (ms_Peak s).

Definition EnqueueStart (now : time) (p : RequestStart) := Enqueue now (start_key (rs_UUID p)) (PStart p) (rs_StartedAt p).
Definition EnqueueAttempt (now : time) (a : AttemptFact) := Enqueue now (attempt_key_of (af_UUID a)) (PAttempt a) (af_CompletedAt a).
Definition EnqueueEnd (now : time) (p : RequestEnd) := Enqueue now (end_key (re_UUID p)) (PEnd p) (re_CompletedAt p).

(** [flushSamples], each sample with its clock and the writes of a possible overflow. *)
Fixpoint flushSamples (samples : list (minuteSample * time * (bool * bool))) (s : settler) (db : DashDB) : settler * DashDB :=
  match samples with
  | [] => (s, db)
  | (x, now, saved) :: rest =>
      let '(s, db) := Enqueue now (sample_key x) (PConc x) (ms_Bucket x) saved s db in flushSamples rest s db
  end.

(** The end that is reported for a request that was cut off. *)
Definition interrupted_end (uuid : string) (now : time) : RequestEnd :=
  mkEnd uuid "" "" false true now 0 0 0 0 0 false None None f0 f0 None 0 "" None "".

Definition unfinished (db : DashDB) : list RequestFact :=
  List.filter (fun f => negb (given (rf_CompletedAt f)) && negb (rf_Interrupted f)) (map_to_list (db_facts db)).*2.

(** At start: requests that an earlier process left behind; the event carries the
    start of the request as its time. *)
Fixpoint enqueue_ends (now : time) (at_ : RequestFact -> time) (facts : list RequestFact) (s : settler) (db : DashDB) : settler * DashDB :=
  match facts with
  | [] => (s, db)
  | f :: rest =>
      let '(s, db) := Enqueue now (end_key (rf_UUID f)) (PEnd (interrupted_end (rf_UUID f) now)) (at_ f) (true, true) s db in
      enqueue_ends now at_ rest s db
  end.

Definition recoverUnprocessed (now : time) (s : settler) (db : DashDB) : settler * DashDB :=
  enqueue_ends now rf_StartedAt (List.filter (fun f => 6 * Minute <? now - rf_StartedAt f) (unfinished db)) s db.

Definition InterruptStale (now : time) (age : duration) (s : settler) (db : DashDB) : settler * DashDB :=
  enqueue_ends now (fun _ => now) (List.filter (fun f => rf_StartedAt f <? now - age) (unfinished db)) s db.

(** [Purge]; a failing statement ends it, [ok n] telling whether the n-th works. *)
Definition Purge (now : time) (ok : nat -> bool) (db : DashDB) : bool * DashDB :=
  if negb (ok 0%nat) then (false, db) else
  let db := set_facts db (filter (fun kv => ~ (rf_StartedAt kv.2 < now - FactRetention /\ given (rf_CompletedAt kv.2) = true)) (db_facts db)) in
  if negb (ok 1%nat) then (false, db) else
  let db := set_attempts db (filter (fun kv => ~ af_CompletedAt kv.2 < now - FactRetention) (db_attempts db)) in
  if negb (ok 2%nat) then (false, db) else
  let db := set_minutes db (filter (fun kv => ~ kv.1.1.1.1 < now - MinuteRetention) (db_minutes db)) in
  if negb (ok 3%nat) then (false, db) else
  (true, set_ledger db (filter (fun kv => ~ kv.2 < now - LedgerRetention) (db_ledger db))).

(** ** The gateway's reports (handler/dash_hooks.go) *)

(** What the live log keeps for the dashboard. *)
Record dashLog := mkDashLog {
  gl_dashUUID : string;
  gl_source : string;
  gl_price : ModelPrice;
  gl_effort : string;
  gl_httpAttempts : Z;
  gl_ended : bool
}.

(** The columns of [domain.RequestAttempt] that are reported. *)
Record reportedAttempt := mkReported {
  at_ID : string;
  at_PlatformKeyID : Z;
  at_StartedAt : time;
  at_CompletedAt : time;
  at_Result : string;
  at_StatusCode : Z;
  at_TTFTMs : Z;
  at_TTFTStatus : string;
  at_Protocol : string;
  at_Model : string;
  at_Path : string;
  at_Stream : bool;
  at_InputTokens : Z;
  at_OutputTokens : Z;
  at_CacheReadTokens : Z;
  at_CacheCreationTokens : Z
}.

(** Estimated, reported and consumed amounts of an attempt, and their source. *)
Definition attempt_costs (base reported : option f64) (rate : f64) (httpSent : bool) : option f64 * option f64 * option f64 * string :=
  let estimated := (fun b => round8 (fmul b rate)) <$> base in
  let '(consumption, src) :=
    match reported, estimated with
    | Some r, _ => (Some r, CostSourceReported)
    | None, Some e => (Some e, CostSourceEstimated)
    | None, None => (None, CostSourceNone)
    end in
  if httpSent then (estimated, reported, consumption, src) else (Some f0, reported, Some f0, CostSourceNone).

Definition emitDashAttempt (rules : BillingRules) (now : time) (lg : dashLog) (pk : option PlatformKey) (up : option Upstream)
    (a : reportedAttempt) (usage : TokenUsage) (httpSent : bool) : option AttemptFact :=
  if String.eqb (gl_dashUUID lg) "" || String.eqb (gl_source lg) "" then None
  else
    let rate := key_rate pk in
    let '(providerID, providerName) :=
      match up, pk with
      | Some u, _ => (up_ID u, up_Name u)
      | None, Some k => (pk_UpstreamID k, "")
      | None, None => (0, "")
      end in
    let base := res_TotalUSD (ComputeCost rules now (gl_price lg) (mkOptions (at_Protocol a) (at_Model a) now (gl_effort lg)) (usageTokensOf usage)) in
    let '(estimated, reported, consumption, src) := attempt_costs base (tu_CostUSD usage) rate httpSent in
    Some (mkAttempt (at_ID a) (gl_dashUUID lg) providerID providerName (at_PlatformKeyID a) rate (at_StartedAt a) (at_CompletedAt a)
      (at_Result a) httpSent (at_StatusCode a) (at_TTFTMs a) (at_TTFTStatus a) (at_Protocol a) (at_Model a) (at_Path a) (at_Stream a)
      (gl_source lg) (at_InputTokens a) (at_OutputTokens a) (at_CacheReadTokens a) (at_CacheCreationTokens a) (tu_UsageKnown usage)
      estimated reported consumption src base).

Definition floatOrNil (ok : bool) (v : f64) : option f64 := if ok then Some v else None.

(** The end is reported once. *)
Definition emitDashEnd (rules : BillingRules) (now : time) (lg : dashLog) (up : option Upstream) (protocol model : string)
    (success : bool) (usage : TokenUsage) (ttft : Z) (interrupted : bool) : dashLog * option RequestEnd :=
  if String.eqb (gl_dashUUID lg) "" || gl_ended lg then (lg, None)
  else
    let price := gl_price lg in
    let base := res_TotalUSD (ComputeCost rules now price (mkOptions protocol model now (gl_effort lg)) (usageTokensOf usage)) in
    (mkDashLog (gl_dashUUID lg) (gl_source lg) price (gl_effort lg) (gl_httpAttempts lg) true,
     Some (mkEnd (gl_dashUUID lg) model protocol success interrupted now (gl_httpAttempts lg) (tu_InputTokens usage) (tu_OutputTokens usage)
       (tu_CacheReadTokens usage) (tu_CacheCreationTokens usage) (tu_UsageKnown usage) (floatOrNil (mp_OK price) (mp_Input price))
       (floatOrNil (mp_OK price) (mp_Output price)) (mp_CacheReadCoeff price) (mp_CacheWriteCoeff price) base ttft
       (if 0 <? ttft then "measured" else "interrupted") (up_ID <$> up) (match up with Some u => up_Name u | None => "" end))).

(** ** Examples *)

Example histogram_stored : parseHist (histJSON (addHist (observeTTFT 300) (observeTTFT 10000000))) = [0; 0; 1; 0; 0; 0; 0; 0; 0; 0; 0; 0; 0; 0; 0; 1].
Proof. vm_compute. reflexivity. Qed.

Example sample_named : sample_key (mkSample (1767578400 * Second) "request" f0 12) = "conc:request:202601050200:12".
Proof. vm_compute. reflexivity. Qed.
