(* ===== verification/SettleProps.v ===== *)
(** * Properties of settlement

    The aggregates are at all times the recount of the fact tables, whatever the
    order, repetition and failure of the events; an event is settled at most once,
    also across purges; and the last drain settles every event whose dependencies
    were reported. *)

From S2P Require Import Prelude GoFloat GoString Json JsonDecode Settings Domain Upstream Billing Cost Settle.

(** ** Counters *)

Inductive agg_counter : Type :=
| CStarted | CCompleted | CSuccess | CRetried | CProviderSuccess | CProviderFailure | CTTFTSamples | CUnknown
| CCovered | CUnbound | CMissingSale | CMissingPrice | CMissingUsage | CInterrupted.

#[export] Instance counter_eq : EqDecision agg_counter.
Proof. solve_decision. Defined.

Definition count_of (c : agg_counter) (n : Counts) : Z :=
  match c with
  | CStarted => n_RequestsStarted n
  | CCompleted => n_RequestsCompleted n
  | CSuccess => n_RequestsSuccess n
  | CRetried => n_RequestsRetried n
  | CProviderSuccess => n_ProviderSuccess n
  | CProviderFailure => n_ProviderFailure n
  | CTTFTSamples => n_TTFTSamples n
  | CUnknown => n_UnknownConsumption n
  | CCovered => n_CoveredCount n
  | CUnbound => n_UnboundCount n
  | CMissingSale => n_MissingSaleCount n
  | CMissingPrice => n_MissingPriceCount n
  | CMissingUsage => n_MissingUsageCount n
  | CInterrupted => n_InterruptedCount n
  end.

Lemma count_of_add c a b : count_of c (add_counts a b) = wrap_i64 (count_of c a + count_of c b).
Proof. by destruct c. Qed.

Lemma wrap_i64_add a b : wrap_i64 (wrap_i64 a + b) = wrap_i64 (a + b).
Proof.
  unfold wrap_i64. f_equal. replace ((a + 2 ^ 63) mod 2 ^ 64 - 2 ^ 63 + b + 2 ^ 63) with ((a + 2 ^ 63) mod 2 ^ 64 + b) by lia.
  rewrite Zplus_mod_idemp_l. f_equal. lia.
Qed.

(** The counter in the row of a key, zero without a row. *)
Definition cnt (c : agg_counter) (m : gmap aggKey Agg) (k : aggKey) : Z := count_of c (ag_Counts (default empty_agg (m !! k))).

(** ** The effect of an event on the aggregates *)

Definition adds : Type := list (aggKey * Delta).

Definition apply_adds (f : Delta -> Agg -> Agg) (l : adds) (m : gmap aggKey Agg) : gmap aggKey Agg :=
  fold_left (fun m kd => <[kd.1 := f kd.2 (default empty_agg (m !! kd.1))]> m) l m.

Definition added (c : agg_counter) (k : aggKey) (l : adds) : Z :=
  fold_right (fun kd n => (if decide (kd.1 = k) then count_of c (dl_Counts kd.2) else 0) + n) 0 l.

Lemma tally_app c k l1 l2 : added c k (l1 ++ l2) = added c k l1 + added c k l2.
Proof. induction l1 as [|x l1 IH]; simpl; [done|]. rewrite IH. lia. Qed.

Lemma cnt_apply f c k l m x :
  (forall d row, ag_Counts (f d row) = add_counts (ag_Counts row) (dl_Counts d)) ->
  cnt c m k = wrap_i64 x -> cnt c (apply_adds f l m) k = wrap_i64 (x + added c k l).
Proof.
  intros Hf. revert m x. induction l as [|[k' d] l IH]; intros m x Hm; simpl; [by rewrite Z.add_0_r|].
  rewrite Z.add_assoc. apply IH. unfold cnt in *. destruct (decide (k' = k)) as [->|N].
  - rewrite lookup_insert_eq. simpl. by rewrite Hf, count_of_add, Hm, wrap_i64_add.
  - rewrite lookup_insert_ne by done. by rewrite Z.add_0_r.
Qed.

Lemma add_minute_counts d row : ag_Counts (add_minute d row) = add_counts (ag_Counts row) (dl_Counts d).
Proof. done. Qed.
Lemma add_day_counts d row : ag_Counts (add_day d row) = add_counts (ag_Counts row) (dl_Counts d).
Proof. done. Qed.

(** A body that only adds to aggregates. *)
Definition only_adds {A} (m : Tx A) (ms ds : adds) : Prop := forall faults n db a n' db', m faults n db = Ok (a, n', db') ->
  db' = set_days (set_minutes db (apply_adds add_minute ms (db_minutes db))) (apply_adds add_day ds (db_days db)).

Lemma bind_ok {A B} (m : Tx A) (f : A -> Tx B) faults n db b n' db' :
  (m ≫= f) faults n db = Ok (b, n', db') -> exists a n1 db1, m faults n db = Ok (a, n1, db1) /\ f a faults n1 db1 = Ok (b, n', db').
Proof. unfold mbind, tx_bind. destruct (m faults n db) as [[[a n1] db1]|e]; [eauto|done]. Qed.

Lemma statement_ok {A} (f : DashDB -> A * DashDB) faults n db a n' db' :
  statement f faults n db = Ok (a, n', db') -> f db = (a, db') /\ n' = S n.
Proof. unfold statement. destruct (faults n); [done|]. destruct (f db). by intros [= <- <- <-]. Qed.

Lemma ret_ok {A} (x : A) faults n db a n' db' : (mret x : Tx A) faults n db = Ok (a, n', db') -> a = x /\ db' = db.
Proof. by intros [= <- _ <-]. Qed.

Lemma effect_ret {A} (a : A) : only_adds (mret a) [] [].
Proof. intros faults n db x n' db' [_ ->]%ret_ok. by destruct db. Qed.

Lemma effect_seq {A B} (m1 : Tx A) (m2 : Tx B) a1 d1 a2 d2 : only_adds m1 a1 d1 -> only_adds m2 a2 d2 -> only_adds (_ ← m1; m2) (a1 ++ a2) (d1 ++ d2).
Proof.
  intros E1 E2 faults n db b n' db' (a & n1 & db1 & H1 & H2)%bind_ok. apply E1 in H1 as ->. apply E2 in H2 as ->.
  unfold apply_adds. rewrite !fold_left_app. by destruct db.
Qed.

Lemma effect_update_minute k d : only_adds (update_minute k d) [(k, d)] [].
Proof.
  intros faults n db a n' db' (row & n1 & db1 & H1 & H2)%bind_ok. apply statement_ok in H2 as [H2 _]. injection H2 as _ <-.
  apply bind_ok in H1 as (found & n2 & db2 & H1 & H3). apply statement_ok in H1 as [H1 _]. injection H1 as <- <-.
  unfold apply_adds; simpl. destruct (db_minutes db !! k) as [row'|] eqn:E; simpl in *.
  - apply ret_ok in H3 as [-> ->]. by destruct db.
  - apply statement_ok in H3 as [H3 _]. injection H3 as <- <-. destruct db; cbn. by rewrite insert_insert_eq.
Qed.

Lemma effect_day k d : only_adds (addDayFromMinuteDelta k d) [] [(k, d)].
Proof.
  intros faults n db a n' db' (row & n1 & db1 & H1 & H2)%bind_ok. apply statement_ok in H2 as [H2 _]. injection H2 as _ <-.
  apply bind_ok in H1 as (found & n2 & db2 & H1 & H3). apply statement_ok in H1 as [H1 _]. injection H1 as <- <-.
  unfold apply_adds; simpl. destruct (db_days db !! k) as [row'|] eqn:E; simpl in *.
  - apply ret_ok in H3 as [-> ->]. by destruct db.
  - apply statement_ok in H3 as [H3 _]. injection H3 as <- <-. destruct db; cbn. by rewrite insert_insert_eq.
Qed.

Lemma effect_each {A} (f : A -> Tx unit) (g h : A -> adds) l :
  (forall a, only_adds (f a) (g a) (h a)) -> only_adds (each f l) (l ≫= g) (l ≫= h).
Proof. intros Hf. induction l as [|a l IH]; [apply effect_ret|]. cbn [each mbind list_bind]. by apply effect_seq. Qed.

(** ** What one fact counts for: the specification *)

(** A settled request: its fact and the attempts that were stored for it then. *)
Abbreviation settled_request := (RequestFact * list AttemptFact)%type.

(** A completed request of the business counts in the whole, in its group and for
    every provider it was sent to; it succeeds for the provider that answered. *)
Definition went_to (atts : list AttemptFact) (id : Z) : bool := existsb (fun a => af_HTTPSent a && (af_ProviderID a =? id)) atts.

Definition in_dim (x : settled_request) (dim : string) (id : Z) : bool :=
  String.eqb dim DimGlobal && (id =? 0) || String.eqb dim DimGroup && bool_decide (rf_RouteGroupID x.1 = Some id)
  || String.eqb dim DimProvider && went_to x.2 id.

Definition success_in (f : RequestFact) (dim : string) (id : Z) : bool :=
  if String.eqb dim DimProvider then rf_Success f && bool_decide (rf_FinalProviderID f = Some id) else rf_Success f.

Definition at_start (c : agg_counter) : Z := if decide (c = CStarted) then 1 else 0.

Definition has_reason (r : string) (f : RequestFact) : Z := b2z (bool_decide (r ∈ parseReasons (rf_Reasons f))).

Definition at_end (c : agg_counter) (f : RequestFact) (success : bool) : Z :=
  match c with
  | CCompleted => 1
  | CSuccess => b2z success
  | CRetried => b2z (2 <=? rf_HTTPAttempts f)
  | CTTFTSamples => b2z (String.eqb (rf_TTFTStatus f) "measured" && success)
  | CCovered => b2z (rf_Covered f)
  | CUnbound => has_reason ReasonUnbound f
  | CMissingSale => has_reason ReasonMissingSale f
  | CMissingPrice => has_reason ReasonMissingPrice f
  | CMissingUsage => has_reason ReasonMissingUsage f
  | CInterrupted => has_reason ReasonInterrupted f
  | _ => 0
  end.

Definition request_count (bk : time -> time) (c : agg_counter) (b : time) (dim : string) (id : Z) (x : settled_request) : Z :=
  let f := x.1 in
  match rf_CompletedAt f with
  | Some t =>
      if String.eqb (rf_Source f) SourceBusiness && in_dim x dim id then
        (if bk (rf_StartedAt f) =? b then at_start c else 0) + (if bk t =? b then at_end c f (success_in f dim id) else 0)
      else 0
  | None => 0
  end.

(** An attempt counts in the whole and for its provider; quality only for the business. *)
Definition attempt_count (bk : time -> time) (c : agg_counter) (b : time) (dim : string) (id : Z) (a : AttemptFact) : Z :=
  let business := String.eqb (af_Source a) SourceBusiness in
  if (bk (af_CompletedAt a) =? b) && (String.eqb dim DimGlobal && (id =? 0) || String.eqb dim DimProvider && (id =? af_ProviderID a)) then
    match c with
    | CProviderSuccess => b2z (business && String.eqb (af_Result a) "success")
    | CProviderFailure => b2z (business && String.eqb (af_Result a) "upstream_failure")
    | CTTFTSamples => b2z (business && String.eqb (af_TTFTStatus a) "measured" && String.eqb (af_Result a) "success")
    | CUnknown => b2z (negb (given (af_ConsumptionUSD a)) && af_HTTPSent a)
    | _ => 0
    end
  else 0.

Definition total_of {V} (g : V -> Z) (m : gmap string V) : Z := map_fold (fun _ v n => g v + n) 0 m.

Lemma total_insert_new {V} (g : V -> Z) m k v : m !! k = None -> total_of g (<[k := v]> m) = g v + total_of g m.
Proof. intros H. unfold total_of. rewrite map_fold_insert_L; [done|intros; lia|done]. Qed.

Lemma total_insert_old {V} (g : V -> Z) m k v v0 : m !! k = Some v0 -> total_of g (<[k := v]> m) = g v - g v0 + total_of g m.
Proof.
  intros H. rewrite <- (insert_delete_id m k v0 H) at 2. rewrite <- insert_delete_eq.
  rewrite !total_insert_new by apply lookup_delete_eq. lia.
Qed.

(** ** The tallies of the events *)

Lemma key_eq_dec (b b' : time) (fam fam' dim dim' : string) (id id' : Z) (x : Z) :
  (if decide ((b, fam, dim, id) = (b', fam', dim', id')) then x else 0)
  = if (b =? b') && String.eqb fam fam' && String.eqb dim dim' && (id =? id') then x else 0.
Proof.
  destruct (decide _) as [E|N].
  - injection E as -> -> -> ->. by rewrite !Z.eqb_refl, !String.eqb_refl.
  - case_match eqn:E; [|done]. rewrite !andb_true_iff, !Z.eqb_eq, !String.eqb_eq in E. destruct E as [[[-> ->] ->] ->]. done.
Qed.

Definition contribution_adds (bk : time -> time) (once : bool) (f : RequestFact) (t : time) (c : contribution) : adds :=
  [((bk (rf_StartedAt f), FamilyRequest, cb_dim c, cb_id c), start_delta);
   ((bk t, FamilyRequest, cb_dim c, cb_id c), end_delta f once c)].

Lemma effect_contribution f t c :
  only_adds (add_contribution f t c) (contribution_adds minuteBucket false f t c) (contribution_adds shanghaiDay true f t c).
Proof.
  unfold add_contribution, contribution_adds.
  match goal with |- only_adds _ [?a; ?b] [?x; ?y] => change [a; b] with ([a] ++ [] ++ [b] ++ []); change [x; y] with ([] ++ [x] ++ [] ++ [y]) end.
  apply effect_seq; [apply effect_update_minute|]. apply effect_seq; [apply effect_day|].
  apply effect_seq; [apply effect_update_minute|apply effect_day].
Qed.

(** A reason is reported at most once. *)
Definition reasons_once (f : RequestFact) : Prop := NoDup (parseReasons (rf_Reasons f)).

Lemma occurrences r l : NoDup l -> Z.of_nat (length (List.filter (String.eqb r) l)) = b2z (bool_decide (r ∈ l)).
Proof.
  induction 1 as [|x l Hx Hl IH]; [done|]. simpl. destruct (String.eqb_spec r x) as [->|N]; simpl.
  - rewrite bool_decide_true by left. rewrite Nat2Z.inj_succ, IH, bool_decide_false by done. done.
  - rewrite IH. f_equal. apply bool_decide_ext. rewrite elem_of_cons. naive_solver.
Qed.

Lemma end_delta_counts c f once cb : reasons_once f -> count_of c (dl_Counts (end_delta f once cb)) = at_end c f (cb_success cb).
Proof.
  intros Hr. assert (O : forall r, (if once then Z.min 1 (Z.of_nat (length (List.filter (String.eqb r) (parseReasons (rf_Reasons f)))))
    else Z.of_nat (length (List.filter (String.eqb r) (parseReasons (rf_Reasons f))))) = has_reason r f).
  { intros r. rewrite occurrences by done. unfold has_reason. by destruct once, (bool_decide _). }
  destruct c; cbn -[String.eqb]; rewrite ?O; done.
Qed.

Lemma tally_contribution bk once c b fam dim id f t cb :
  reasons_once f ->
  added c (b, fam, dim, id) (contribution_adds bk once f t cb)
  = if String.eqb FamilyRequest fam && String.eqb (cb_dim cb) dim && (cb_id cb =? id)
    then (if bk (rf_StartedAt f) =? b then at_start c else 0) + (if bk t =? b then at_end c f (cb_success cb) else 0) else 0.
Proof.
  intros Hr. unfold contribution_adds. cbn [added fold_right fst snd]. rewrite !key_eq_dec, end_delta_counts by done.
  assert (S : count_of c (dl_Counts start_delta) = at_start c) by by destruct c. rewrite S, Z.add_0_r.
  destruct (bk (rf_StartedAt f) =? b), (bk t =? b), (String.eqb FamilyRequest fam), (String.eqb (cb_dim cb) dim), (cb_id cb =? id); simpl; lia.
Qed.

Lemma tally_bind {A} c k (g : A -> adds) l : added c k (l ≫= g) = fold_right (fun a n => added c k (g a) + n) 0 l.
Proof. induction l as [|a l IH]; [done|]. cbn [mbind list_bind fold_right]. by rewrite tally_app, IH. Qed.

Lemma tally_zero {A} c k (g : A -> adds) l : (forall a, added c k (g a) = 0) -> added c k (l ≫= g) = 0.
Proof. intros H. rewrite tally_bind. induction l as [|a l IH]; simpl; [done|]. by rewrite H, IH. Qed.

(** The providers a request was sent to, each once. *)
Lemma provider_costs_dom atts id : is_Some (provider_costs atts !! id) <-> went_to atts id = true.
Proof.
  unfold provider_costs, went_to. change (existsb (fun a => af_HTTPSent a && (af_ProviderID a =? id)) atts) with (false || existsb (fun a => af_HTTPSent a && (af_ProviderID a =? id)) atts).
  assert (H0 : is_Some ((∅ : gmap Z Amount) !! id) <-> false = true) by (rewrite lookup_empty; split; [by intros []|done]).
  revert H0. generalize false as seen, (∅ : gmap Z Amount) as m. induction atts as [|a atts IH]; intros seen m Hm; cbn [fold_left existsb]; [by rewrite orb_false_r|].
  rewrite orb_assoc. apply IH. destruct (af_HTTPSent a); cbn [andb]; [|rewrite orb_false_r; by destruct (af_EstimatedCostUSD a)].
  assert (Hi : forall v, is_Some (<[af_ProviderID a := v]> m !! id) <-> seen || (af_ProviderID a =? id) = true).
  { intros v. rewrite lookup_insert_is_Some', orb_true_iff, Z.eqb_eq, Hm. tauto. }
  destruct (af_EstimatedCostUSD a); [rewrite insert_insert_eq|]; apply Hi.
Qed.

Lemma sum_keys {V} (id x : Z) (l : list (Z * V)) : NoDup l.*1 ->
  fold_right (fun kv n => (if kv.1 =? id then x else 0) + n) 0 l = if existsb (fun kv => kv.1 =? id) l then x else 0.
Proof.
  induction l as [|kv l IH]; [done|]. cbn. intros [Hn Hl]%list.NoDup_cons. rewrite IH by done.
  destruct (Z.eqb_spec kv.1 id) as [E|N]; [|done]. cbn [orb]. destruct (existsb _ l) eqn:Ex; [|lia].
  exfalso. apply existsb_exists in Ex as (kv' & Hin & E'%Z.eqb_eq). apply Hn. rewrite E, <- E'. apply list_elem_of_fmap. exists kv'. split; [done|]. by apply list_elem_of_In.
Qed.

Lemma tally_providers bk once c b fam dim id f t atts (mk : Z * Amount -> contribution) :
  reasons_once f -> (forall kv, cb_dim (mk kv) = DimProvider /\ cb_id (mk kv) = kv.1 /\ cb_success (mk kv) = success_in f DimProvider kv.1) ->
  added c (b, fam, dim, id) ((mk <$> map_to_list (provider_costs atts)) ≫= contribution_adds bk once f t)
  = if String.eqb FamilyRequest fam && (String.eqb dim DimProvider && went_to atts id)
    then (if bk (rf_StartedAt f) =? b then at_start c else 0) + (if bk t =? b then at_end c f (success_in f dim id) else 0) else 0.
Proof.
  intros Hr Hmk. rewrite list_fmap_bind, tally_bind.
  set (x := if String.eqb FamilyRequest fam && String.eqb dim DimProvider
            then (if bk (rf_StartedAt f) =? b then at_start c else 0) + (if bk t =? b then at_end c f (success_in f dim id) else 0) else 0).
  assert (E : forall kv, added c (b, fam, dim, id) ((contribution_adds bk once f t ∘ mk) kv) = if kv.1 =? id then x else 0).
  { intros kv. unfold compose. rewrite tally_contribution by done. destruct (Hmk kv) as (-> & -> & ->). unfold x. rewrite (String.eqb_sym DimProvider).
    destruct (String.eqb FamilyRequest fam), (String.eqb_spec dim DimProvider) as [->|], (Z.eqb_spec kv.1 id) as [->|]; cbn [andb]; done. }
  transitivity (fold_right (fun (kv : Z * Amount) n => (if kv.1 =? id then x else 0) + n) 0 (map_to_list (provider_costs atts))).
  { clear -E. induction (map_to_list _) as [|kv l IH]; [done|]. cbn [fold_right]. by rewrite E, IH. }
  rewrite sum_keys by apply NoDup_fst_map_to_list.
  assert (W : existsb (fun kv : Z * Amount => kv.1 =? id) (map_to_list (provider_costs atts)) = went_to atts id).
  { apply eq_true_iff_eq. rewrite <- provider_costs_dom, existsb_exists. split.
    - intros ([k v] & Hin & Hk%Z.eqb_eq). cbn in Hk. subst k. exists v. by apply elem_of_map_to_list, list_elem_of_In.
    - intros [v Hv]. exists (id, v). split; [by apply list_elem_of_In, elem_of_map_to_list|apply Z.eqb_refl]. }
  rewrite W. unfold x. destruct (String.eqb FamilyRequest fam), (String.eqb dim DimProvider), (went_to atts id); done.
Qed.

Lemma tally_request bk once c b fam dim id f t atts :
  reasons_once f -> rf_CompletedAt f = Some t -> rf_Source f = SourceBusiness ->
  added c (b, fam, dim, id) (contributions f atts ≫= contribution_adds bk once f t)
  = if String.eqb fam FamilyRequest then request_count bk c b dim id (f, atts) else 0.
Proof.
  intros Hr Ht Hs. unfold contributions. rewrite !bind_app, !tally_app. rewrite tally_providers by done.
  unfold request_count, in_dim. cbn [fst snd]. rewrite Ht, Hs, (String.eqb_sym fam), (String.eqb_sym dim DimGlobal), (String.eqb_sym dim DimGroup), (Z.eqb_sym id 0).
  change (String.eqb SourceBusiness SourceBusiness) with true. cbn [mbind list_bind app].
  rewrite app_nil_r, tally_contribution by done. cbn [cb_dim cb_id cb_success andb].
  assert (G : added c (b, fam, dim, id) (match rf_RouteGroupID f with Some g => [mkContribution DimGroup g (attempts_cost atts) (rf_RevenueUSD f) (rf_Success f)] | None => [] end
                 ≫= contribution_adds bk once f t)
    = if String.eqb FamilyRequest fam && (String.eqb DimGroup dim && bool_decide (rf_RouteGroupID f = Some id))
      then (if bk (rf_StartedAt f) =? b then at_start c else 0) + (if bk t =? b then at_end c f (rf_Success f) else 0) else 0).
  { destruct (rf_RouteGroupID f) as [g|]; cbn [mbind list_bind app].
    - rewrite app_nil_r, tally_contribution by done. cbn [cb_dim cb_id cb_success]. rewrite (bool_decide_ext (Some g = Some id) (g = id)) by naive_solver.
      destruct (Z.eqb_spec g id); [rewrite bool_decide_true by done|rewrite bool_decide_false by done]; by rewrite <- !andb_assoc.
    - rewrite bool_decide_false by done. by rewrite !andb_false_r. }
  rewrite G. clear G. unfold success_in.
  destruct (String.eqb FamilyRequest fam); [|done]. cbn [andb].
  destruct (String.eqb_spec DimGlobal dim) as [<-|N1].
  { change (String.eqb DimGlobal DimProvider) with false. change (String.eqb DimGroup DimGlobal) with false. cbn [andb]. rewrite !orb_false_r. destruct (0 =? id); lia. }
  destruct (String.eqb_spec DimGroup dim) as [<-|N2]; cbn [andb orb].
  { change (String.eqb DimGroup DimProvider) with false. cbn [andb]. rewrite orb_false_r. destruct (bool_decide _); lia. }
  destruct (String.eqb dim DimProvider); cbn [andb]; [|done]. destruct (went_to atts id); lia.
Qed.

Definition attempt_adds (bk : time -> time) (a : AttemptFact) (business : bool) : adds :=
  [(DimGlobal, 0); (DimProvider, af_ProviderID a)] ≫= fun dim => [((bk (af_CompletedAt a), FamilyAttempt, dim.1, dim.2), attempt_delta a business)].

Lemma effect_attempt a business : only_adds (applyAttemptAgg a business) (attempt_adds minuteBucket a business) (attempt_adds shanghaiDay a business).
Proof.
  apply effect_each. intros dim. unfold add_attempt.
  match goal with |- only_adds _ [?a] [?x] => change [a] with ([a] ++ []); change [x] with ([] ++ [x]) end.
  apply effect_seq; [apply effect_update_minute|apply effect_day].
Qed.

Lemma tally_attempt bk c b fam dim id a :
  added c (b, fam, dim, id) (attempt_adds bk a (String.eqb (af_Source a) SourceBusiness))
  = if String.eqb fam FamilyAttempt then attempt_count bk c b dim id a else 0.
Proof.
  unfold attempt_adds. cbn [mbind list_bind app added fold_right fst snd]. rewrite !key_eq_dec.
  unfold attempt_count. rewrite (String.eqb_sym fam), (String.eqb_sym dim DimGlobal), (String.eqb_sym dim DimProvider), (Z.eqb_sym id 0), (Z.eqb_sym id).
  assert (Nd : String.eqb DimGlobal dim = true -> String.eqb DimProvider dim = false) by (intros <-%String.eqb_eq; done).
  destruct (bk (af_CompletedAt a) =? b), (String.eqb FamilyAttempt fam); cbn [andb]; try lia.
  destruct (String.eqb DimGlobal dim) eqn:E1; [rewrite Nd by done|]; cbn [andb orb].
  - rewrite orb_false_r. destruct (0 =? id); [|done]. rewrite Z.add_0_r. by destruct c.
  - destruct (String.eqb DimProvider dim && (af_ProviderID a =? id)); [|done]. rewrite Z.add_0_r. by destruct c.
Qed.

Definition sample_adds (bk : time) (s : minuteSample) : adds :=
  [((bk, ms_Family s, DimGlobal, 0), mkDelta noCounts (Some (ms_Integral s)) (ms_Peak s) None noMoney)].

Lemma effect_sample s : only_adds (applyConcSample s) (sample_adds (ms_Bucket s) s) (sample_adds (shanghaiDay (ms_Bucket s)) s).
Proof.
  unfold applyConcSample, sample_adds.
  match goal with |- only_adds _ [?a] [?x] => change [a] with ([a] ++ []); change [x] with ([] ++ [x]) end.
  apply effect_seq; [apply effect_update_minute|apply effect_day].
Qed.

Lemma tally_sample c k bk s : added c k (sample_adds bk s) = 0.
Proof. unfold sample_adds. simpl. case_match; [|done]. by destruct c. Qed.

(** ** Keys of events *)

Definition event_key (p : payload) : string :=
  match p with
  | PStart p => start_key (rs_UUID p)
  | PAttempt a => attempt_key_of (af_UUID a)
  | PEnd p => end_key (re_UUID p)
  | PConc s => sample_key s
  end.

(** The events the service enqueues carry the key of their payload. *)
Definition made (e : queuedEvent) : Prop := qe_Key e = event_key (qe_Payload e).

(** The time of a start, an attempt or a sample is fixed by its key, as in
    [EnqueueStart], [EnqueueAttempt] and [flushSamples]: when the request started,
    the attempt ended, the minute of the sample.  Ends carry any time: the handler
    gives the completion, [recoverUnprocessed] the start of the request and
    [InterruptStale] the clock. *)
Definition timed (at_of : string -> time) (e : queuedEvent) : Prop :=
  match qe_Payload e with
  | PStart p => rs_StartedAt p = at_of (qe_Key e) /\ qe_At e = at_of (qe_Key e)
  | PAttempt a => af_CompletedAt a = at_of (qe_Key e) /\ qe_At e = at_of (qe_Key e)
  | PConc _ => qe_At e = at_of (qe_Key e)
  | PEnd _ => True
  end.

Definition is_end (e : queuedEvent) : Prop := exists p, qe_Payload e = PEnd p.

(** Such are the events in the queue of the service, whatever it reports, recovers,
    interrupts and drains. *)
Definition queue_ok (at_of : string -> time) (s : settler) : Prop := Forall (fun e => made e /\ timed at_of e) (st_q s).

Lemma Enqueue_ok at_of now p at_ saved s db :
  queue_ok at_of s -> timed at_of (mkEvent (event_key p) p 0 now (if IsZero at_ then now else at_)) ->
  queue_ok at_of (Enqueue now (event_key p) p at_ saved s db).1.
Proof.
  intros Q T. unfold Enqueue. set (t := if IsZero at_ then now else at_) in *. clearbody t. case_match; [done|]. case_match; [done|]. apply Forall_app. split; [done|]. by constructor.
Qed.

Lemma reports_ok at_of now saved s db : queue_ok at_of s ->
  (forall p, IsZero (rs_StartedAt p) = false -> at_of (start_key (rs_UUID p)) = rs_StartedAt p -> queue_ok at_of (EnqueueStart now p saved s db).1)
  /\ (forall a, IsZero (af_CompletedAt a) = false -> at_of (attempt_key_of (af_UUID a)) = af_CompletedAt a -> queue_ok at_of (EnqueueAttempt now a saved s db).1)
  /\ (forall p, queue_ok at_of (EnqueueEnd now p saved s db).1).
Proof.
  intros Q. split_and!.
  - intros p Z E. apply (Enqueue_ok at_of now (PStart p)); [done|]. rewrite Z. unfold timed. cbn [qe_Payload qe_Key qe_At event_key]. by rewrite E.
  - intros a Z E. apply (Enqueue_ok at_of now (PAttempt a)); [done|]. rewrite Z. unfold timed. cbn [qe_Payload qe_Key qe_At event_key]. by rewrite E.
  - intros p. by apply (Enqueue_ok at_of now (PEnd p)).
Qed.

Lemma enqueue_ends_ok at_of now at_ facts : forall s db, queue_ok at_of s -> queue_ok at_of (enqueue_ends now at_ facts s db).1.
Proof.
  induction facts as [|f facts IH]; intros s db Q; [done|]. simpl.
  pose proof (Enqueue_ok at_of now (PEnd (interrupted_end (rf_UUID f) now)) (at_ f) (true, true) s db Q I) as Q'. simpl in Q'.
  destruct (Enqueue _ _ _ _ _ _ _) as [s' db']. by apply IH.
Qed.

Lemma drain_ok rules at_of world due : forall n s db,
  Forall (fun e => made e /\ timed at_of e) due -> queue_ok at_of s -> queue_ok at_of (drain_due rules world n due s db).1.
Proof.
  induction due as [|e due IH]; intros n s db D Q; [done|]. simpl. inversion D as [|? ? De Dd]; subst.
  destruct (process _ _ _ _ _ _) as [[err|] db']; apply IH; try done. apply Forall_app. split; [done|]. by constructor.
Qed.

Lemma string_app_inj_l (p s t : string) : p +:+ s = p +:+ t -> s = t.
Proof. induction p; simpl; [done|]. intros [= H]. auto. Qed.

Lemma string_app_inj_r (s t e : string) : s +:+ e = t +:+ e -> s = t.
Proof.
  intros H. apply (f_equal bytes) in H. rewrite !bytes_app in H. apply app_inv_tail in H.
  by rewrite <- (of_bytes_bytes s), H, of_bytes_bytes.
Qed.

Lemma attempt_key_inj u v : attempt_key_of u = attempt_key_of v -> u = v.
Proof. intros H%string_app_inj_l. by apply string_app_inj_r in H. Qed.

Lemma end_key_inj u v : end_key u = end_key v -> u = v.
Proof. intros H%string_app_inj_l. by apply string_app_inj_r in H. Qed.

(** Only an end has the key of an end. *)
Lemma key_of_end e u : made e -> qe_Key e = end_key u -> exists p, qe_Payload e = PEnd p /\ re_UUID p = u.
Proof.
  unfold made. intros -> H. destruct (qe_Payload e) as [p|a|p|s]; cbn [event_key] in H; [exfalso|done| |done].
  - apply string_app_inj_l in H. apply (f_equal (fun s => list.last (bytes s))) in H. rewrite !bytes_app, !last_app in H. discriminate H.
  - exists p. split; [done|]. by apply end_key_inj.
Qed.

(** ** Runs of the settlement

    A run is any sequence of processings and purges under a clock that does not run
    backwards: events in any order, repeated, with any statement failing and any
    commit failing or losing its reply.  Beside the tables it keeps what the tables
    alone do not tell after a purge: [done] every request that was completed, with
    the attempts stored for it at that moment, [sent] every attempt that was stored;
    and the keys of the events that took effect, the last first. *)

Definition attempts_of (db : DashDB) (uuid : string) : list AttemptFact :=
  List.filter (fun a => String.eqb (af_RequestUUID a) uuid) (map_to_list (db_attempts db)).*2.

Definition completed_now (db db' : DashDB) (u : string) : option RequestFact :=
  match db_facts db !! u, db_facts db' !! u with
  | Some f, Some f' => if negb (given (rf_CompletedAt f)) && given (rf_CompletedAt f') then Some f' else None
  | _, _ => None
  end.

Definition note_done (e : queuedEvent) (db db' : DashDB) (done : gmap string settled_request) : gmap string settled_request :=
  match qe_Payload e with
  | PEnd p => match completed_now db db' (re_UUID p) with
              | Some f => <[re_UUID p := (f, attempts_of db (re_UUID p))]> done
              | None => done
              end
  | _ => done
  end.

(** Everything but the ledger. *)
Definition same_books (db db' : DashDB) : Prop :=
  db_facts db' = db_facts db /\ db_attempts db' = db_attempts db /\ db_minutes db' = db_minutes db /\ db_days db' = db_days db.

Definition empty_db : DashDB := mkDash ∅ ∅ ∅ ∅ ∅ [] false.

Inductive settling (rules : BillingRules) (at_of : string -> time)
    : time -> DashDB -> gmap string settled_request -> gmap string AttemptFact -> list string -> Prop :=
| settling_empty t : settling rules at_of t empty_db ∅ ∅ []
| settling_process t t' db done sent ks ks' e faults commit :
    settling rules at_of t db done sent ks -> t <= t' -> made e -> timed at_of e -> (~ is_end e -> at_of (qe_Key e) <= t') ->
    let db' := (process rules t' e faults commit db).2 in
    same_books db db' /\ ks' = ks \/ ~ same_books db db' /\ ks' = qe_Key e :: ks ->
    settling rules at_of t' db' (note_done e db db' done) (db_attempts db' ∪ sent) ks'
| settling_purge t t' db done sent ks ok :
    settling rules at_of t db done sent ks -> t <= t' -> settling rules at_of t' (Purge t' ok db).2 done sent ks.

(** ** The invariant *)

Lemma reasons_reported_once rules now f p atts : reasons_once (updateRequestFact rules now f p atts).
Proof.
  unfold reasons_once. cbn [rf_Reasons updateRequestFact]. apply (bool_decide_unpack _). unfold fact_reasons.
  destruct (given (rf_RouteGroupID f)), (given (rf_SaleMultiplier f)), (given (re_InputPrice p) && given (re_OutputPrice p)),
    (re_UsageKnown p), (re_Interrupted p), (cost_known atts); vm_compute; exact I.
Qed.

(** The rows whose bucket satisfies [P] hold the recount. *)
Definition recounted (bk : time -> time) (P : time -> Prop) (m : gmap aggKey Agg) (done : gmap string settled_request) (sent : gmap string AttemptFact) : Prop :=
  forall c b dim id, P b ->
    cnt c m (b, FamilyRequest, dim, id) = wrap_i64 (total_of (request_count bk c b dim id) done)
    /\ cnt c m (b, FamilyAttempt, dim, id) = wrap_i64 (total_of (attempt_count bk c b dim id) sent).

Definition kept_minute (t : time) (b : time) : Prop := t - MinuteRetention <= b.

(** A key that is not settled again: it is in the ledger, or its events are too old. *)
Definition remembered_key (at_of : string -> time) (t : time) (db : DashDB) (k : string) : Prop :=
  (exists p : time, db_ledger db !! k = Some p /\ at_of k <= p) \/ at_of k + ReplayRejectAge < t.

Record books (at_of : string -> time) (t : time) (db : DashDB) (done : gmap string settled_request) (sent : gmap string AttemptFact) (ks : list string) : Prop := {
  bk_minutes : recounted minuteBucket (kept_minute t) (db_minutes db) done sent;
  bk_days : recounted shanghaiDay (fun _ => True) (db_days db) done sent;
  bk_facts : forall u f, db_facts db !! u = Some f -> rf_StartedAt f = at_of (start_key u)
             /\ fst <$> done !! u = if given (rf_CompletedAt f) then Some f else None;
  bk_done : forall u x, done !! u = Some x -> rf_StartedAt x.1 = at_of (start_key u)
            /\ (db_facts db !! u = Some x.1 \/ rf_StartedAt x.1 < t - FactRetention);
  bk_sent : forall u a, sent !! u = Some a -> af_CompletedAt a = at_of (attempt_key_of u) /\ remembered_key at_of t db (attempt_key_of u)
            /\ (db_attempts db !! u = Some a \/ af_CompletedAt a < t - FactRetention);
  bk_attempts : db_attempts db ⊆ sent;
  bk_once : NoDup ks;
  bk_keys : forall k, k ∈ ks -> (forall u, k <> end_key u) /\ remembered_key at_of t db k \/ exists u, k = end_key u /\ is_Some (done !! u)
}.

Lemma recounted_later bk P Q m done sent : (forall b, Q b -> P b) -> recounted bk P m done sent -> recounted bk Q m done sent.
Proof. intros H R c b dim id Hb. by apply R, H. Qed.

Lemma remembered_later at_of t t' db k : t <= t' -> remembered_key at_of t db k -> remembered_key at_of t' db k.
Proof. intros Ht [H|H]; [by left|right; lia]. Qed.

(** Time alone changes nothing. *)
Lemma books_later at_of t t' db done sent ks : t <= t' -> books at_of t db done sent ks -> books at_of t' db done sent ks.
Proof.
  intros Ht [Bm Bd Bf Bo Bs Ba Bn Bk]. split; try done.
  - eapply recounted_later; [|exact Bm]. unfold kept_minute. intros b. lia.
  - intros u x Hx. destruct (Bo u x Hx) as [? [?|?]]; (split; [done|]); [by left|right; lia].
  - intros u a Hs. destruct (Bs u a Hs) as (? & ? & H). split_and!; [done|by eapply remembered_later|]. destruct H; [by left|right; lia].
  - intros k Hk. destruct (Bk k Hk) as [[? ?]|?]; [left|by right]. split; [done|]. by eapply remembered_later.
Qed.

(** Adding to the aggregates what was settled keeps them recounted. *)
Lemma recounted_adds bk P f m done sent done' sent' l :
  (forall d row, ag_Counts (f d row) = add_counts (ag_Counts row) (dl_Counts d)) ->
  recounted bk P m done sent ->
  (forall c b dim id, total_of (request_count bk c b dim id) done' = total_of (request_count bk c b dim id) done + added c (b, FamilyRequest, dim, id) l) ->
  (forall c b dim id, total_of (attempt_count bk c b dim id) sent' = total_of (attempt_count bk c b dim id) sent + added c (b, FamilyAttempt, dim, id) l) ->
  recounted bk P (apply_adds f l m) done' sent'.
Proof.
  intros Hf Hm Hr Ha c b dim id Hb. destruct (Hm c b dim id Hb) as [H1 H2].
  rewrite Hr, Ha. split; apply cnt_apply; auto.
Qed.

(** *** What an event does *)

(** A processing either leaves the tables alone or settles an event whose key is
    new and which is not too old. *)
Lemma process_cases rules now e faults commit db :
  let db' := (process rules now e faults commit db).2 in
  db' = db \/ now - qe_At e <= ReplayRejectAge /\ db_ledger db !! qe_Key e = None
    /\ exists n u n', settle_event rules now (qe_Payload e) faults n (set_ledger db (<[qe_Key e := now]> (db_ledger db))) = Ok (u, n', db').
Proof.
  unfold process, run_tx. destruct (Z.ltb_spec ReplayRejectAge (now - qe_At e)); [by left|].
  destruct (process_body rules now e faults 0%nat db) as [[[u n] db']|err] eqn:E; [|by left].
  apply bind_ok in E as (fresh & n1 & db1 & H1 & H2). apply statement_ok in H1 as [H1 _].
  destruct (db_ledger db !! qe_Key e) eqn:El; injection H1 as <- <-.
  - apply ret_ok in H2 as [_ ->]. left. by destruct commit.
  - destruct commit; cbn [snd]; [right|right|by left]; (split_and!; [lia|done|by eexists _, _, _]).
Qed.

(** The tables after an end: unchanged, or the fact is completed and counted. *)
Lemma settle_end_cases rules now p faults n db u n' db' :
  settle_end rules now p faults n db = Ok (u, n', db') ->
  db' = db \/ exists f f', db_facts db !! re_UUID p = Some f /\ rf_CompletedAt f = None
    /\ f' = updateRequestFact rules now f p (attempts_of db (re_UUID p))
    /\ let counted := if String.eqb (rf_Source f') SourceBusiness then contributions f' (attempts_of db (re_UUID p)) else [] in
       db' = mkDash (db_ledger db) (<[re_UUID p := f']> (db_facts db)) (db_attempts db)
               (apply_adds add_minute (counted ≫= contribution_adds minuteBucket false f' (re_CompletedAt p)) (db_minutes db))
               (apply_adds add_day (counted ≫= contribution_adds shanghaiDay true f' (re_CompletedAt p)) (db_days db)) (db_gaps db) (db_overflow db).
Proof.
  intros (found & n1 & db1 & H1 & H2)%bind_ok. apply statement_ok in H1 as [H1 _]. injection H1 as <- <-.
  destruct (db_facts db !! re_UUID p) as [fact|] eqn:Ef; [|done].
  destruct (rf_CompletedAt fact) eqn:Ec; cbn [given] in H2; [apply ret_ok in H2 as [_ ->]; by left|]. right.
  apply bind_ok in H2 as (atts & n2 & db2 & H1 & H2). apply statement_ok in H1 as [H1 _]. injection H1 as <- <-.
  change (List.filter _ (map_to_list (db_attempts db)).*2) with (attempts_of db (re_UUID p)) in H2. case_match; [done|].
  apply bind_ok in H2 as (? & n3 & db3 & H1 & H2). apply statement_ok in H1 as [H1 _]. injection H1 as _ <-.
  eexists fact, _. split_and!; [done|done|reflexivity|]. cbv zeta. set (f' := updateRequestFact _ _ _ _ _) in *.
  destruct (String.eqb (rf_Source f') SourceBusiness); cbn [negb] in H2.
  - unfold applyRequestAgg in H2. change (rf_CompletedAt f') with (Some (re_CompletedAt p)) in H2.
    eapply (effect_each _ _ _ _ (effect_contribution f' (re_CompletedAt p))) in H2. by destruct db.
  - apply ret_ok in H2 as [_ ->]. by destruct db.
Qed.

(** *** The ledger *)

Definition keeps_ledger {A} (m : Tx A) : Prop := forall faults n db a n' db', m faults n db = Ok (a, n', db') -> db_ledger db' = db_ledger db.

Lemma keeps_bind {A B} (m : Tx A) (f : A -> Tx B) : keeps_ledger m -> (forall a, keeps_ledger (f a)) -> keeps_ledger (m ≫= f).
Proof. intros Hm Hf faults n db b n' db' (a & n1 & db1 & H1 & H2)%bind_ok. rewrite (Hf _ _ _ _ _ _ _ H2). by eapply Hm. Qed.

Lemma keeps_statement {A} (f : DashDB -> A * DashDB) : (forall db, db_ledger (f db).2 = db_ledger db) -> keeps_ledger (statement f).
Proof. intros Hf faults n db a n' db' [H _]%statement_ok. specialize (Hf db). by rewrite H in Hf. Qed.

Lemma keeps_ret {A} (a : A) : keeps_ledger (mret a : Tx A).
Proof. by intros faults n db x n' db' [_ ->]%ret_ok. Qed.

Lemma keeps_effect {A} (m : Tx A) ms ds : only_adds m ms ds -> keeps_ledger m.
Proof. intros E faults n db a n' db' ->%E. done. Qed.

Lemma keeps_fail {A} e : keeps_ledger (tx_fail e : Tx A).
Proof. by intros faults n db a n' db' H. Qed.

Lemma settle_event_keeps rules now p : keeps_ledger (settle_event rules now p).
Proof.
  unfold settle_event. case_match; [apply keeps_fail|]. destruct p as [p|a|p|s].
  - by apply keeps_statement.
  - apply keeps_bind; [by apply keeps_statement|intros _; eapply keeps_effect, effect_attempt].
  - apply keeps_bind; [by apply keeps_statement|]. intros [fact|]; [|apply keeps_fail].
    case_match; [apply keeps_ret|]. apply keeps_bind; [by apply keeps_statement|]. intros atts. cbv zeta. case_match; [apply keeps_fail|].
    apply keeps_bind; [by apply keeps_statement|]. intros _. case_match; [apply keeps_ret|]. unfold applyRequestAgg.
    case_match; [|apply keeps_ret]. eapply keeps_effect, effect_each. intros c. apply effect_contribution.
  - eapply keeps_effect, effect_sample.
Qed.

(** *** Processing keeps the books *)

Lemma remembered_insert at_of t db db' k k' :
  db_ledger db !! k = None -> db_ledger db' = <[k := t]> (db_ledger db) -> remembered_key at_of t db k' -> remembered_key at_of t db' k'.
Proof.
  intros Hn E [(p & Hp & Ha)|H]; [|by right]. left. exists p. rewrite E, lookup_insert_ne; [done|]. intros <-. congruence.
Qed.

Lemma remembered_new at_of t db db' k : db_ledger db' = <[k := t]> (db_ledger db) -> at_of k <= t -> remembered_key at_of t db' k.
Proof. intros E Ha. left. exists t. by rewrite E, lookup_insert_eq. Qed.

Section event.
Context (at_of : string -> time) (t : time) (e : queuedEvent) (db db' : DashDB)
  (done : gmap string settled_request) (sent : gmap string AttemptFact) (ks ks' : list string).
Context (B : books at_of t db done sent ks) (Hm : made e) (Ht : timed at_of e) (Hnow : ~ is_end e -> at_of (qe_Key e) <= t).
Context (Age : t - qe_At e <= ReplayRejectAge) (New : db_ledger db !! qe_Key e = None)
  (Led : db_ledger db' = <[qe_Key e := t]> (db_ledger db)).
Context (Hks : same_books db db' /\ ks' = ks \/ ~ same_books db db' /\ ks' = qe_Key e :: ks).

Lemma fresh_key : qe_At e = at_of (qe_Key e) -> ~ remembered_key at_of t db (qe_Key e).
Proof. intros E [(p & Hp & _)|H]; [congruence|lia]. Qed.

(** The keys that took effect stay different. *)
Lemma keys_kept (done' : gmap string settled_request) :
  (forall u, is_Some (done !! u) -> is_Some (done' !! u)) ->
  (~ is_end e -> qe_At e = at_of (qe_Key e)) ->
  (~ same_books db db' -> is_end e -> exists u, qe_Key e = end_key u /\ done !! u = None /\ is_Some (done' !! u)) ->
  NoDup ks' /\ forall k, k ∈ ks' -> (forall u, k <> end_key u) /\ remembered_key at_of t db' k \/ exists u, k = end_key u /\ is_Some (done' !! u).
Proof.
  intros Hd Hat Hend. destruct B as [_ _ _ _ _ _ Bn Bk].
  assert (Old : forall k, k ∈ ks -> (forall u, k <> end_key u) /\ remembered_key at_of t db' k \/ exists u, k = end_key u /\ is_Some (done' !! u)).
  { intros k Hk. destruct (Bk k Hk) as [[? ?]|(u & ? & ?)]; [left|right; eauto]. split; [done|]. by eapply remembered_insert. }
  destruct Hks as [[_ ->]|[Hs ->]]; [done|]. assert (D : is_end e \/ ~ is_end e).
  { unfold is_end. destruct (qe_Payload e); [right; by intros []|right; by intros []|left; eauto|right; by intros []]. }
  destruct D as [He|He].
  - destruct (Hend Hs He) as (u & Eu & Hn & Hy). split.
    + apply list.NoDup_cons. split; [|done]. intros Hin. destruct (Bk _ Hin) as [[N _]|(u' & Eu' & Hu')]; [by apply (N u)|].
      rewrite Eu in Eu'. apply end_key_inj in Eu' as <-. rewrite Hn in Hu'. by destruct Hu'.
    + intros k [->|Hk]%elem_of_cons; [right; eauto|by apply Old].
  - assert (Ne : forall u, qe_Key e <> end_key u) by (intros u Hu; destruct (key_of_end e u Hm Hu) as (q & Hq & _); apply He; by exists q).
    split.
    + apply list.NoDup_cons. split; [|done]. intros Hin. destruct (Bk _ Hin) as [[_ R]|(u & Eu & _)]; [|by apply (Ne u)].
      exact (fresh_key (Hat He) R).
    + intros k [->|Hk]%elem_of_cons; [left; split; [done|]|by apply Old]. by apply (remembered_new at_of t db); [|apply Hnow].
Qed.

(** An attempt was never stored before. *)
Lemma attempt_is_new a : qe_Payload e = PAttempt a -> sent !! af_UUID a = None.
Proof.
  intros Hp. destruct (sent !! af_UUID a) as [a'|] eqn:Ea; [|done]. exfalso. apply (bk_sent _ _ _ _ _ _ B) in Ea as (_ & R & _).
  unfold made, timed in *. rewrite Hp in Hm, Ht. cbn [event_key] in Hm. rewrite <- Hm in R. exact (fresh_key (proj2 Ht) R).
Qed.

(** A request that was completed is not started again. *)
Lemma start_is_new p : qe_Payload e = PStart p -> db_facts db !! rs_UUID p = None -> done !! rs_UUID p = None.
Proof.
  intros Hp Hf. destruct (done !! rs_UUID p) as [x|] eqn:Ex; [|done]. exfalso. apply (bk_done _ _ _ _ _ _ B) in Ex as [Es [E|Old]]; [congruence|].
  unfold made, timed in *. rewrite Hp in Hm, Ht. cbn [event_key] in Hm. rewrite Es, <- Hm in Old. destruct Ht as [_ Eq]. rewrite Eq in Age.
  unfold FactRetention, ReplayRejectAge in *. lia.
Qed.

(** Clauses that an event without new attempts keeps. *)
Lemma sent_kept : db_attempts db' = db_attempts db ->
  db_attempts db' ∪ sent = sent
  /\ (forall u a, sent !! u = Some a -> af_CompletedAt a = at_of (attempt_key_of u) /\ remembered_key at_of t db' (attempt_key_of u)
        /\ (db_attempts db' !! u = Some a \/ af_CompletedAt a < t - FactRetention))
  /\ db_attempts db' ⊆ sent.
Proof.
  intros E. rewrite E. destruct B as [_ _ _ _ Bs Ba _ _]. split_and!; [by apply map_subseteq_union| |done].
  intros u a Ha. destruct (Bs u a Ha) as (? & ? & ?). split_and!; [done|by eapply remembered_insert|done].
Qed.

Lemma books_start p : qe_Payload e = PStart p ->
  db' = set_facts (set_ledger db (<[qe_Key e := t]> (db_ledger db))) (insert_new (rs_UUID p) (fact_of_start p) (db_facts db)) ->
  books at_of t db' (note_done e db db' done) (db_attempts db' ∪ sent) ks'.
Proof.
  intros Hp Hdb. assert (Ea : db_attempts db' = db_attempts db) by by rewrite Hdb. destruct (sent_kept Ea) as (-> & Hs & Ha).
  unfold note_done. rewrite Hp. pose proof (start_is_new p Hp) as Hnew. destruct (keys_kept done) as [K1 K2]; [done| | |].
  { intros _. unfold timed in Ht. rewrite Hp in Ht. apply Ht. }
  { intros _ [q Hq]. congruence. }
  assert (Hf : forall u f, db_facts db' !! u = Some f -> db_facts db !! u = Some f \/ u = rs_UUID p /\ db_facts db !! u = None /\ f = fact_of_start p).
  { intros u f. rewrite Hdb. cbn [db_facts set_facts]. unfold insert_new. destruct (db_facts db !! rs_UUID p) eqn:Ef; [by left|].
    intros [[<- <-]|[_ H]]%lookup_insert_Some; [by right|by left]. }
  destruct B as [Bm Bd Bf Bo _ _ _ _]. split; try done.
  - by rewrite Hdb.
  - by rewrite Hdb.
  - intros u f [H|(-> & Hn & ->)]%Hf; [by apply Bf|]. rewrite (Hnew Hn). unfold made, timed in *. rewrite Hp in Hm, Ht. cbn [event_key] in Hm. rewrite <- Hm. by split; [apply Ht|].
  - intros u x Hx. destruct (Bo u x Hx) as [? [H|H]]; (split; [done|]); [left|by right]. rewrite Hdb. cbn [db_facts set_facts]. unfold insert_new.
    destruct (db_facts db !! rs_UUID p) eqn:Ef; [done|]. apply lookup_insert_Some. right. split; [|done]. intros E. congruence.
Qed.

Lemma books_attempt a : qe_Payload e = PAttempt a ->
  db_facts db' = db_facts db -> db_attempts db' = insert_new (af_UUID a) a (db_attempts db) ->
  db_minutes db' = apply_adds add_minute (attempt_adds minuteBucket a (String.eqb (af_Source a) SourceBusiness)) (db_minutes db) ->
  db_days db' = apply_adds add_day (attempt_adds shanghaiDay a (String.eqb (af_Source a) SourceBusiness)) (db_days db) ->
  books at_of t db' (note_done e db db' done) (db_attempts db' ∪ sent) ks'.
Proof.
  intros Hp Ef Ea Em Ed. pose proof (attempt_is_new a Hp) as Hn. unfold note_done. rewrite Hp.
  assert (At : af_CompletedAt a = at_of (attempt_key_of (af_UUID a)) /\ qe_Key e = attempt_key_of (af_UUID a) /\ qe_At e = at_of (qe_Key e)).
  { unfold made, timed in *. rewrite Hp in Hm, Ht. cbn [event_key] in Hm. rewrite <- Hm. by destruct Ht. }
  destruct At as (At & Ek & Eq). destruct (keys_kept done) as [K1 K2]; [done|done| |]; [intros _ [q Hq]; congruence|].
  destruct B as [Bm Bd Bf Bo Bs Ba _ _].
  assert (Hd : db_attempts db !! af_UUID a = None) by (destruct (db_attempts db !! af_UUID a) eqn:E; [|done]; eapply lookup_weaken in E; [|exact Ba]; congruence).
  unfold insert_new in Ea. rewrite Hd in Ea. assert (Es : db_attempts db' ∪ sent = <[af_UUID a := a]> sent).
  { rewrite Ea, <- insert_union_l. f_equal. by apply map_subseteq_union. }
  rewrite Es. assert (Tr : forall bk c b dim id, total_of (request_count bk c b dim id) done
    = total_of (request_count bk c b dim id) done + added c (b, FamilyRequest, dim, id) (attempt_adds bk a (String.eqb (af_Source a) SourceBusiness))).
  { intros. rewrite tally_attempt. change (String.eqb FamilyRequest FamilyAttempt) with false. cbv iota. lia. }
  assert (Ta : forall bk c b dim id, total_of (attempt_count bk c b dim id) (<[af_UUID a := a]> sent)
    = total_of (attempt_count bk c b dim id) sent + added c (b, FamilyAttempt, dim, id) (attempt_adds bk a (String.eqb (af_Source a) SourceBusiness))).
  { intros. rewrite total_insert_new, tally_attempt by done. change (String.eqb FamilyAttempt FamilyAttempt) with true. cbv iota. lia. }
  split; try done.
  - rewrite Em. by eapply recounted_adds.
  - rewrite Ed. by eapply recounted_adds.
  - by rewrite Ef.
  - by rewrite Ef.
  - intros u x [[<- <-]|[Hne Hx]]%lookup_insert_Some.
    + split_and!; [done| |left; by rewrite Ea, lookup_insert_eq]. rewrite <- Ek. apply (remembered_new at_of t db); [done|]. apply Hnow. intros [q Hq]. congruence.
    + destruct (Bs u x Hx) as (? & ? & H). split_and!; [done|by eapply remembered_insert|]. rewrite Ea, lookup_insert_ne by done. done.
  - rewrite Ea. by apply insert_mono.
Qed.

Lemma books_sample x : qe_Payload e = PConc x ->
  db_facts db' = db_facts db -> db_attempts db' = db_attempts db ->
  db_minutes db' = apply_adds add_minute (sample_adds (ms_Bucket x) x) (db_minutes db) ->
  db_days db' = apply_adds add_day (sample_adds (shanghaiDay (ms_Bucket x)) x) (db_days db) ->
  books at_of t db' (note_done e db db' done) (db_attempts db' ∪ sent) ks'.
Proof.
  intros Hp Ef Ea Em Ed. destruct (sent_kept Ea) as (-> & Hs & Ha). unfold note_done. rewrite Hp.
  destruct (keys_kept done) as [K1 K2]; [done| | |]; [intros _; unfold timed in Ht; by rewrite Hp in Ht|intros _ [q Hq]; congruence|].
  destruct B as [Bm Bd Bf Bo _ _ _ _]. split; try done.
  - rewrite Em. eapply recounted_adds; [done|exact Bm|..]; intros; rewrite tally_sample; lia.
  - rewrite Ed. eapply recounted_adds; [done|exact Bd|..]; intros; rewrite tally_sample; lia.
  - by rewrite Ef.
  - by rewrite Ef.
Qed.
(** An end that changes nothing but the ledger. *)
Lemma books_idle_end p : qe_Payload e = PEnd p -> same_books db db' -> books at_of t db' (note_done e db db' done) (db_attempts db' ∪ sent) ks'.
Proof.
  intros Hp S. destruct S as (Ef & Ea & Em & Ed). destruct (sent_kept Ea) as (-> & Hs & Ha).
  assert (E : note_done e db db' done = done).
  { unfold note_done, completed_now. rewrite Hp, Ef. destruct (db_facts db !! re_UUID p) as [f|]; [|done]. by destruct (given (rf_CompletedAt f)). }
  rewrite E. destruct (keys_kept done) as [K1 K2]; [done| | |].
  { intros He. exfalso. apply He. by exists p. }
  { intros H. exfalso. apply H. by split_and!. }
  destruct B as [Bm Bd Bf Bo _ _ _ _]. split; rewrite ?Ef, ?Em, ?Ed; done.
Qed.

Lemma books_end p f f' counted : qe_Payload e = PEnd p ->
  db_facts db !! re_UUID p = Some f -> rf_CompletedAt f = None -> rf_CompletedAt f' = Some (re_CompletedAt p) -> rf_StartedAt f' = rf_StartedAt f -> reasons_once f' ->
  counted = (if String.eqb (rf_Source f') SourceBusiness then contributions f' (attempts_of db (re_UUID p)) else []) ->
  db_facts db' = <[re_UUID p := f']> (db_facts db) -> db_attempts db' = db_attempts db ->
  db_minutes db' = apply_adds add_minute (counted ≫= contribution_adds minuteBucket false f' (re_CompletedAt p)) (db_minutes db) ->
  db_days db' = apply_adds add_day (counted ≫= contribution_adds shanghaiDay true f' (re_CompletedAt p)) (db_days db) ->
  books at_of t db' (note_done e db db' done) (db_attempts db' ∪ sent) ks'.
Proof.
  intros Hp Hf Ho Hc Hst Hr Hcount Ef Ea Em Ed. destruct (sent_kept Ea) as (-> & Hs & Ha). set (atts := attempts_of db (re_UUID p)) in *.
  assert (E : note_done e db db' done = <[re_UUID p := (f', atts)]> done).
  { unfold note_done, completed_now. by rewrite Hp, Ef, Hf, lookup_insert_eq, Ho, Hc. }
  assert (Hd : done !! re_UUID p = None).
  { destruct (bk_facts _ _ _ _ _ _ B _ _ Hf) as [_ H]. rewrite Ho in H. by apply fmap_None in H. }
  rewrite E. destruct (keys_kept (<[re_UUID p := (f', atts)]> done)) as [K1 K2].
  { intros u Hu. apply lookup_insert_is_Some. by destruct (decide (re_UUID p = u)); [left|right]. }
  { intros He. exfalso. apply He. by exists p. }
  { intros _ _. exists (re_UUID p). rewrite lookup_insert_eq. unfold made in Hm. rewrite Hp in Hm. done. }
  assert (T : forall bk once c b fam dim id, added c (b, fam, dim, id) (counted ≫= contribution_adds bk once f' (re_CompletedAt p))
    = if String.eqb fam FamilyRequest then request_count bk c b dim id (f', atts) else 0).
  { intros. rewrite Hcount. destruct (String.eqb (rf_Source f') SourceBusiness) eqn:Es.
    - apply String.eqb_eq in Es. by apply tally_request.
    - cbn [mbind list_bind added fold_right]. unfold request_count. cbn [fst]. rewrite Hc, Es. cbn [andb]. by destruct (String.eqb fam FamilyRequest). }
  destruct B as [Bm Bd Bf Bo _ _ _ _]. split; try done.
  - rewrite Em. eapply recounted_adds; [done|exact Bm|..]; intros; rewrite T; [rewrite total_insert_new by done|];
      [change (String.eqb FamilyRequest FamilyRequest) with true|change (String.eqb FamilyAttempt FamilyRequest) with false]; cbv iota; lia.
  - rewrite Ed. eapply recounted_adds; [done|exact Bd|..]; intros; rewrite T; [rewrite total_insert_new by done|];
      [change (String.eqb FamilyRequest FamilyRequest) with true|change (String.eqb FamilyAttempt FamilyRequest) with false]; cbv iota; lia.
  - intros u x. rewrite Ef. intros [[<- <-]|[Hne Hx]]%lookup_insert_Some.
    + rewrite lookup_insert_eq, Hc, Hst. split; [by apply (Bf _ _ Hf)|done].
    + rewrite lookup_insert_ne by done. by apply Bf.
  - intros u x [[<- <-]|[Hne Hx]]%lookup_insert_Some.
    + cbn [fst]. rewrite Hst, Ef, lookup_insert_eq. split; [by apply (Bf _ _ Hf)|by left].
    + rewrite Ef, lookup_insert_ne by done. by apply Bo.
Qed.
End event.

Lemma books_process rules at_of t db done sent ks ks' e faults commit :
  books at_of t db done sent ks -> made e -> timed at_of e -> (~ is_end e -> at_of (qe_Key e) <= t) ->
  let db' := (process rules t e faults commit db).2 in
  same_books db db' /\ ks' = ks \/ ~ same_books db db' /\ ks' = qe_Key e :: ks ->
  books at_of t db' (note_done e db db' done) (db_attempts db' ∪ sent) ks'.
Proof.
  intros B Hm Ht Hnow db' Hks. pose proof (process_cases rules t e faults commit db) as C. fold db' in C. clearbody db'.
  destruct C as [E|(Age & New & n & u & n' & H)].
  { rewrite E in *. destruct Hks as [[_ ->]|[H _]]; [|by destruct H].
    assert (Ed : note_done e db db done = done).
    { unfold note_done, completed_now. destruct (qe_Payload e) as [| |p|]; try done. destruct (db_facts db !! re_UUID p) as [f|]; [|done]. by destruct (given (rf_CompletedAt f)). }
    rewrite Ed, map_subseteq_union by apply B. done. }
  assert (Led : db_ledger db' = <[qe_Key e := t]> (db_ledger db)) by (rewrite (settle_event_keeps _ _ _ _ _ _ _ _ _ H); done).
  unfold settle_event in H. destruct (encodes (qe_Payload e)); [|done]. cbn [negb] in H. destruct (qe_Payload e) as [p|a|p|x] eqn:Hp.
  - apply statement_ok in H as [H _]. injection H as _ Hdb. by eapply (books_start at_of t e db _ done sent ks).
  - apply bind_ok in H as (? & n1 & db1 & H1 & H2). apply statement_ok in H1 as [H1 _]. injection H1 as _ <-. apply effect_attempt in H2.
    eapply (books_attempt at_of t e db); try done; by rewrite H2.
  - apply settle_end_cases in H as [H|(f & f' & Hf & Ho & Ef' & H)].
    + apply (books_idle_end at_of t e db _ _ _ ks _ B Hm Hnow Age New Led Hks p Hp). by rewrite H.
    + eapply (books_end at_of t e db _ _ _ ks _ B Hm Hnow Age New Led Hks p f f' _ Hp Hf Ho); [by rewrite Ef'|by rewrite Ef'|rewrite Ef'; apply reasons_reported_once|reflexivity|by rewrite H..].
  - apply effect_sample in H. eapply (books_sample at_of t e db); try done; by rewrite H.
Qed.

(** *** Purging keeps the books *)

Lemma purge_cases t ok db :
  let db' := (Purge t ok db).2 in
  (db_facts db' = db_facts db \/ db_facts db' = filter (fun kv => ~ (rf_StartedAt kv.2 < t - FactRetention /\ given (rf_CompletedAt kv.2) = true)) (db_facts db))
  /\ (db_attempts db' = db_attempts db \/ db_attempts db' = filter (fun kv => ~ af_CompletedAt kv.2 < t - FactRetention) (db_attempts db))
  /\ (db_minutes db' = db_minutes db \/ db_minutes db' = filter (fun kv => ~ kv.1.1.1.1 < t - MinuteRetention) (db_minutes db))
  /\ (db_ledger db' = db_ledger db \/ db_ledger db' = filter (fun kv => ~ kv.2 < t - LedgerRetention) (db_ledger db))
  /\ db_days db' = db_days db.
Proof. unfold Purge. repeat case_match; cbn; split_and!; auto. Qed.

Lemma purge_remembers at_of t ok db k : remembered_key at_of t db k -> remembered_key at_of t (Purge t ok db).2 k.
Proof.
  intros [(p & Hp & Ha)|H]; [|by right]. unfold remembered_key. destruct (purge_cases t ok db) as (_ & _ & _ & [->| ->] & _); [by left; eauto|].
  destruct (decide (p < t - LedgerRetention)) as [L|L].
  - right. unfold LedgerRetention, ReplayRejectAge, Hour, Minute, Second in *. lia.
  - left. exists p. split; [|done]. apply map_lookup_filter_Some. done.
Qed.

Lemma cnt_kept (c : agg_counter) (m : gmap aggKey Agg) (low : time) (k : aggKey) : ~ k.1.1.1 < low -> cnt c (filter (fun kv => ~ kv.1.1.1.1 < low) m) k = cnt c m k.
Proof.
  intros Hk. unfold cnt. destruct (m !! k) as [row|] eqn:E.
  - by rewrite (map_lookup_filter_Some_2 _ _ _ row E).
  - by rewrite map_lookup_filter_None_2 by (by left).
Qed.

Lemma books_purge at_of t ok db done sent ks : books at_of t db done sent ks -> books at_of t (Purge t ok db).2 done sent ks.
Proof.
  intros [Bm Bd Bf Bo Bs Ba Bn Bk]. pose proof (purge_remembers at_of t ok db) as R. destruct (purge_cases t ok db) as (Cf & Ca & Cm & _ & Cd).
  set (db' := (Purge t ok db).2) in *. split; try done.
  - destruct Cm as [->| ->]; [done|]. intros c b dim id Hb. unfold kept_minute in Hb.
    rewrite !cnt_kept by (cbn; lia). by apply Bm.
  - by rewrite Cd.
  - intros u f Hf. apply Bf. destruct Cf as [Cf|Cf]; rewrite Cf in Hf; [done|]. by apply map_lookup_filter_Some in Hf as [? _].
  - intros u x Hx. destruct (Bo u x Hx) as [Es [H|H]]; (split; [done|]); [|by right]. destruct Cf as [->| ->]; [by left|].
    destruct (decide (rf_StartedAt x.1 < t - FactRetention)); [by right|left]. apply map_lookup_filter_Some. split; [done|]. cbn. tauto.
  - intros u a Hx. destruct (Bs u a Hx) as (? & ? & H). split_and!; [done|by apply R|]. destruct H as [H|H]; [|by right]. destruct Ca as [->| ->]; [by left|].
    destruct (decide (af_CompletedAt a < t - FactRetention)); [by right|left]. by apply map_lookup_filter_Some.
  - destruct Ca as [->| ->]; [done|]. etrans; [|exact Ba]. apply map_filter_subseteq.
  - intros k Hk. destruct (Bk k Hk) as [[? ?]|?]; [left|by right]. split; [done|by apply R].
Qed.

Lemma settling_books rules at_of t db done sent ks : settling rules at_of t db done sent ks -> books at_of t db done sent ks.
Proof.
  induction 1 as [t|t t' db done sent ks ks' e faults commit _ IH Htt Hm Ht Hnow db' Hks|t t' db done sent ks ok _ IH Htt].
  - split; try done; try (intros c b dim id _; split; by destruct c).
    + constructor.
    + intros k Hk. by apply elem_of_nil in Hk.
  - apply (books_process rules at_of t' db done sent ks ks' e faults commit); try done. by eapply books_later.
  - apply books_purge. by eapply books_later.
Qed.


(** *** Exactly once *)

Lemma total_zero {V} (g : V -> Z) m : (forall k v, m !! k = Some v -> g v = 0) -> total_of g m = 0.
Proof.
  induction m as [|k v m Hn IH] using map_ind; intros H; [done|]. rewrite total_insert_new by done.
  rewrite (H k v) by apply lookup_insert_eq. rewrite IH; [done|]. intros k' v' H'. apply (H k'). apply lookup_insert_Some. right. split; [congruence|done].
Qed.

(** Rows that do not count may be left out. *)
Lemma total_subset {V} (g : V -> Z) (m m' : gmap string V) : m ⊆ m' -> (forall k v, m' !! k = Some v -> m !! k = None -> g v = 0) -> total_of g m' = total_of g m.
Proof.
  revert m'. induction m as [|k v m Hn IH] using map_ind; intros m' Hs Hz; [apply total_zero; intros k v H; by apply (Hz k)|].
  assert (Hk : m' !! k = Some v) by (eapply lookup_weaken; [apply lookup_insert_eq|exact Hs]).
  rewrite <- (insert_delete_id m' k v Hk), !total_insert_new by (done || apply lookup_delete_eq). f_equal. apply IH.
  - apply map_subseteq_spec. intros k' v' H'. assert (k <> k') by congruence. rewrite lookup_delete_ne by done. eapply lookup_weaken; [|exact Hs]. by rewrite lookup_insert_ne.
  - intros k' v' [Hne H']%lookup_delete_Some Hm. apply (Hz k'); [done|]. by rewrite lookup_insert_ne.
Qed.

Lemma day_starts_before x : shanghaiDay x <= x.
Proof. unfold shanghaiDay. assert (0 < 24 * Hour) by (unfold Hour, Minute, Second; lia). pose proof (Z.mul_div_le (x + 8 * Hour) (24 * Hour)). lia. Qed.

(** C7: The aggregates are the recount of what was settled.  However events are
    ordered, repeated and retried, whichever statements and commits fail or lose
    their reply, and however often old rows are purged in between: in every day row,
    and every minute row within the retention, each counter equals the number of
    requests completed so far (in the whole, by route group, and by provider they
    had been sent to when they were completed) or of attempts stored so far (in the
    whole and by provider) that count there.  Nothing is counted twice, nothing is
    lost, minutes and days never disagree; the tables still hold all those requests
    and attempts but the ones older than the retention, so that day rows of the
    attempts within it equal the recount of the table itself.  Events are those the
    service enqueues (see [reports_ok], [enqueue_ends_ok]): each carries the key of its
    payload, and all but ends the time of what they report. *)
Theorem aggregates_recount rules at_of t db done sent ks : settling rules at_of t db done sent ks ->
  (forall c b dim id,
     cnt c (db_days db) (b, FamilyRequest, dim, id) = wrap_i64 (total_of (request_count shanghaiDay c b dim id) done)
     /\ cnt c (db_days db) (b, FamilyAttempt, dim, id) = wrap_i64 (total_of (attempt_count shanghaiDay c b dim id) sent)
     /\ (t - MinuteRetention <= b ->
         cnt c (db_minutes db) (b, FamilyRequest, dim, id) = wrap_i64 (total_of (request_count minuteBucket c b dim id) done)
         /\ cnt c (db_minutes db) (b, FamilyAttempt, dim, id) = wrap_i64 (total_of (attempt_count minuteBucket c b dim id) sent))
     /\ (t - FactRetention <= b -> cnt c (db_days db) (b, FamilyAttempt, dim, id) = wrap_i64 (total_of (attempt_count shanghaiDay c b dim id) (db_attempts db))))
  /\ (forall u f, db_facts db !! u = Some f -> given (rf_CompletedAt f) = true -> fst <$> done !! u = Some f)
  /\ (forall u x, done !! u = Some x -> db_facts db !! u = Some x.1 \/ rf_StartedAt x.1 < t - FactRetention)
  /\ db_attempts db ⊆ sent
  /\ (forall u a, sent !! u = Some a -> db_attempts db !! u = Some a \/ af_CompletedAt a < t - FactRetention).
Proof.
  intros [Bm Bd Bf Bo Bs Ba _ _]%settling_books. split_and!.
  - intros c b dim id. destruct (Bd c b dim id I) as [D1 D2]. split_and!; [done|done|by apply Bm|]. intros Hb. rewrite D2. f_equal.
    apply total_subset; [done|]. intros u a Ha Hn. destruct (Bs u a Ha) as (_ & _ & [H|H]); [congruence|]. unfold attempt_count.
    pose proof (day_starts_before (af_CompletedAt a)). by destruct (Z.eqb_spec (shanghaiDay (af_CompletedAt a)) b); [lia|].
  - intros u f Hf Hc. destruct (Bf u f Hf) as [_ H]. by rewrite Hc in H.
  - intros u x Hx. by apply Bo.
  - done.
  - intros u a Ha. by destruct (Bs u a Ha) as (_ & _ & ?).
Qed.

(** C25: No event takes effect twice, not even after the ledger has been purged.
    In every run of processings and purges the keys of the events that changed a
    fact, an attempt or an aggregate are all different.  Starts, attempts and
    samples carry the time of what they report, so that the ledger outlives the age
    at which they are rejected; ends may carry any time, as those of the handler, of
    the recovery at start and of the job that interrupts stale requests differ, and
    are stopped by the completed fact. *)
Theorem settled_at_most_once rules at_of t db done sent ks : settling rules at_of t db done sent ks -> NoDup ks.
Proof. intros B%settling_books. apply B. Qed.

(** ** The last drain *)

Definition no_faults : nat -> bool := fun _ => false.

(** A body that cannot fail on a working database. *)
Definition succeeds {A} (m : Tx A) : Prop := forall n db, exists a n' db', m no_faults n db = Ok (a, n', db').

Lemma succeeds_ret {A} (a : A) : succeeds (mret a : Tx A).
Proof. intros n db. by eexists _, _, _. Qed.

Lemma succeeds_statement {A} (f : DashDB -> A * DashDB) : succeeds (statement f).
Proof. intros n db. unfold statement. simpl. destruct (f db). by eexists _, _, _. Qed.

Lemma succeeds_bind {A B} (m : Tx A) (f : A -> Tx B) : succeeds m -> (forall a, succeeds (f a)) -> succeeds (m ≫= f).
Proof. intros Hm Hf n db. destruct (Hm n db) as (a & n1 & db1 & E). unfold mbind, tx_bind. rewrite E. apply Hf. Qed.
Create HintDb tx.
#[local] Hint Resolve succeeds_ret succeeds_statement succeeds_bind : tx.

Lemma succeeds_update_minute k d : succeeds (update_minute k d).
Proof. apply succeeds_bind; [|intros; apply succeeds_statement]. apply succeeds_bind; [apply succeeds_statement|]. intros [row|]; auto with tx. Qed.

Lemma succeeds_day k d : succeeds (addDayFromMinuteDelta k d).
Proof. apply succeeds_bind; [|intros; apply succeeds_statement]. apply succeeds_bind; [apply succeeds_statement|]. intros [row|]; auto with tx. Qed.
#[local] Hint Resolve succeeds_update_minute succeeds_day : tx.

Lemma succeeds_each {A} (f : A -> Tx unit) l : (forall a, succeeds (f a)) -> succeeds (each f l).
Proof. intros Hf. induction l as [|a l IH]; simpl; auto with tx. Qed.

Lemma succeeds_request f atts : succeeds (applyRequestAgg f atts).
Proof.
  unfold applyRequestAgg. case_match; auto with tx. apply succeeds_each. intros c. unfold add_contribution. auto 10 with tx.
Qed.

(** What is left of an event that does not settle on a working database. *)
Definition unsettleable (db : DashDB) (e : queuedEvent) : Prop :=
  encodes (qe_Payload e) = false
  \/ exists p, qe_Payload e = PEnd p
     /\ (db_facts db !! re_UUID p = None
         \/ re_Interrupted p = false
            /\ Z.of_nat (length (List.filter af_HTTPSent (List.filter (fun a => String.eqb (af_RequestUUID a) (re_UUID p))
                 (map_to_list (db_attempts db)).*2))) < re_HTTPAttempts p).

Lemma statement_then {A B} (f : DashDB -> A * DashDB) (g : A -> Tx B) n db :
  (statement f ≫= g) no_faults n db = g (f db).1 no_faults (S n) (f db).2.
Proof. unfold mbind, tx_bind, statement. simpl. by destruct (f db). Qed.

Lemma succeeds_not {A} (m : Tx A) n db err : succeeds m -> m no_faults n db <> Err err.
Proof. intros Hm E. destruct (Hm n db) as (? & ? & ? & E'). congruence. Qed.

Lemma settle_end_fails rules now p n db err :
  settle_end rules now p no_faults n db = Err err ->
  db_facts db !! re_UUID p = None
  \/ re_Interrupted p = false
     /\ Z.of_nat (length (List.filter af_HTTPSent (List.filter (fun a => String.eqb (af_RequestUUID a) (re_UUID p))
          (map_to_list (db_attempts db)).*2))) < re_HTTPAttempts p.
Proof.
  unfold settle_end. rewrite statement_then. cbn [fst snd]. destruct (db_facts db !! re_UUID p) as [fact|]; [|by left].
  intros H. right. destruct (given (rf_CompletedAt fact)); [done|]. rewrite statement_then in H. cbn [fst snd] in H. cbv zeta in H.
  set (atts := List.filter _ (map_to_list _).*2) in *. case_match eqn:W; [bools; split; [done|lia]|]. exfalso.
  rewrite statement_then in H. revert H. apply succeeds_not. case_match; [apply succeeds_ret|apply succeeds_request].
Qed.

Lemma settle_event_fails rules now p n db err :
  settle_event rules now p no_faults n db = Err err -> encodes p = false \/ exists q, p = PEnd q
     /\ (db_facts db !! re_UUID q = None
         \/ re_Interrupted q = false
            /\ Z.of_nat (length (List.filter af_HTTPSent (List.filter (fun a => String.eqb (af_RequestUUID a) (re_UUID q))
                 (map_to_list (db_attempts db)).*2))) < re_HTTPAttempts q).
Proof.
  unfold settle_event. destruct (encodes p) eqn:En; [|by left]. cbn [negb]. destruct p as [p|a|p|s]; intros H.
  - exfalso. revert H. apply succeeds_not. auto with tx.
  - exfalso. revert H. apply succeeds_not, succeeds_bind; [auto with tx|]. intros _. apply succeeds_each. intros d. unfold add_attempt. auto with tx.
  - right. exists p. split; [done|]. by eapply settle_end_fails.
  - exfalso. revert H. apply succeeds_not. unfold applyConcSample. auto with tx.
Qed.

Lemma process_fails rules now e db err db' :
  process rules now e no_faults Committed db = (Some err, db') -> db' = db /\ unsettleable db e.
Proof.
  unfold process, run_tx. case_match; [done|].
  destruct (process_body rules now e no_faults 0%nat db) as [[[u n] db1]|err'] eqn:E; [done|]. intros [= <- <-]. split; [done|].
  unfold process_body in E. rewrite statement_then in E. destruct (db_ledger db !! qe_Key e); cbn [fst snd] in E; [done|].
  by apply settle_event_fails in E.
Qed.

(** A world in which every statement and commit works. *)
Definition working (w : processing) : Prop := pc_faults w = no_faults /\ pc_commit w = Committed.

Lemma drain_due_length rules world n due s db :
  (length (st_q (drain_due rules world n due s db).1) <= length (st_q s) + length due)%nat.
Proof.
  revert n s db. induction due as [|e due IH]; intros n s db; simpl; [lia|].
  destruct (process _ _ _ _ _ db) as [err db1]. etransitivity; [apply IH|]. destruct err; cbn [st_q]; rewrite ?length_app; simpl; lia.
Qed.

(** If no event settles the tables are as before and every event is left with a reason. *)
Lemma drain_due_stuck rules world n due s db :
  (forall m, working (world m)) ->
  length (st_q (drain_due rules world n due s db).1) = (length (st_q s) + length due)%nat ->
  (drain_due rules world n due s db).2 = db
  /\ exists left, st_q (drain_due rules world n due s db).1 = st_q s ++ left /\ Forall (unsettleable db) left.
Proof.
  intros Hw. revert n s. induction due as [|e due IH]; intros n s Hl; simpl in *.
  { split; [done|]. exists []. by rewrite app_nil_r. }
  destruct (Hw n) as [Hf Hc]. rewrite Hf, Hc in *. destruct (process rules (pc_now (world n)) e no_faults Committed db) as [[err|] db1] eqn:E.
  - apply process_fails in E as [-> Hu]. destruct (IH (S n) (mkSettler (st_q s ++ [retry_event (pc_after (world n)) e]) (st_overflow s))) as [Hd (l & Hq & Hl')].
    { rewrite Hl. cbn [st_q]. rewrite length_app. simpl. lia. }
    split; [done|]. exists (retry_event (pc_after (world n)) e :: l). rewrite Hq. cbn [st_q]. rewrite <- app_assoc. split; [done|].
    constructor; [|done]. destruct Hu as [Hu|Hu]; [by left|by right].
  - exfalso. pose proof (drain_due_length rules world (S n) due s db1). lia.
Qed.

Lemma drainOnce_all rules now world s db :
  time_zero <= now ->
  drainOnce rules now world (mkSettler (make_due <$> st_q s) (st_overflow s)) db
  = drain_due rules world 0 (make_due <$> st_q s) (mkSettler [] (st_overflow s)) db.
Proof.
  intros Hn. unfold drainOnce. cbn [st_q st_overflow].
  assert (D : forall e, After (qe_Next (make_due e)) now = false) by (intros e; unfold After; simpl; lia).
  assert (F1 : forall l, List.filter (fun e => negb (After (qe_Next e) now)) (make_due <$> l) = make_due <$> l).
  { induction l as [|e l IH]; [done|]. rewrite fmap_cons. cbn [List.filter]. rewrite D. cbn [negb]. by rewrite IH. }
  assert (F2 : forall l, List.filter (fun e => After (qe_Next e) now) (make_due <$> l) = []).
  { induction l as [|e l IH]; [done|]. rewrite fmap_cons. cbn [List.filter]. by rewrite D. }
  by rewrite F1, F2.
Qed.

(** C26: The last drain ends and leaves nothing it could settle.  Whatever fails, the
    passes end, after at most one more pass than there are events; and if the
    database works, an event that is left is an end whose start or whose attempts
    were never stored, or cannot be decoded: however the events were ordered, an
    end that arrived before its attempts is settled in a later pass. *)
Theorem shutdown_settles rules passes s db fuel :
  (forall n, time_zero <= (passes n).1) -> (length (st_q s) < fuel)%nat ->
  let '(returned, (s', db')) := drainFinal rules fuel passes 0 s db in
  returned = true /\ ((forall n m, working ((passes n).2 m)) -> Forall (unsettleable db') (st_q s')).
Proof.
  intros Ht. generalize 0%nat as n. revert s db. induction fuel as [|fuel IH]; intros s db n Hf; [lia|]. simpl.
  destruct (Nat.eqb_spec (length (st_q s)) 0) as [E|N].
  { split; [done|]. intros _. simpl. destruct (st_q s); [constructor|done]. }
  rewrite drainOnce_all by apply Ht. pose proof (drain_due_length rules (passes n).2 0 (make_due <$> st_q s) (mkSettler [] (st_overflow s)) db) as L.
  pose proof (drain_due_stuck rules (passes n).2 0 (make_due <$> st_q s) (mkSettler [] (st_overflow s)) db) as St.
  destruct (drain_due _ _ _ _ _ _) as [s1 db1]. cbn [fst snd st_q length] in *. rewrite length_fmap in *.
  destruct (Nat.leb_spec (length (st_q s)) (length (st_q s1))); [|apply IH; lia].
  split; [done|]. intros Hw. destruct St as [-> (l & -> & Hl)]; [done|lia|]. done.
Qed.

(** ** Witnesses *)

Definition demo_request_start : RequestStart :=
  mkStart "r1" 1 (Some 5) "vip" (Some (f_of_Z 2)) 1 "openai" "/v1/chat/completions" true SourceBusiness (1767578400 * Second) 9.
Definition demo_attempt_fact : AttemptFact :=
  mkAttempt "a1" "r1" 3 "main" 7 f1 (1767578401 * Second) (1767578410 * Second) "success" true 200 350 "measured" "openai" "gpt-5"
    "/v1/chat/completions" true SourceBusiness 1000 200 0 0 true (Some (f_dec 5 1)) None (Some (f_dec 5 1)) "estimated" (Some (f_dec 5 1)).
Definition demo_end : RequestEnd :=
  mkEnd "r1" "gpt-5" "openai" true false (1767578411 * Second) 1 1000 200 0 0 true (Some f1) (Some f1) f0 f0 (Some (f_dec 5 1)) 350 "measured"
    (Some 3) "main".
Definition demo_event (p : payload) (at_ : time) : queuedEvent := mkEvent (event_key p) p 0 at_ at_.
Definition demo_now : time := 1767578420 * Second.
Definition demo_rules : BillingRules := mkRules [] [].

(** The time of an event is the start of the request or the end of the attempt. *)
Definition demo_at (k : string) : time :=
  if String.eqb k (start_key "r1") then rs_StartedAt demo_request_start
  else if String.eqb k (attempt_key_of "a1") then af_CompletedAt demo_attempt_fact else demo_now.
Definition demo_report (p : payload) : queuedEvent := demo_event p (demo_at (event_key p)).
Definition demo_process (now : time) (p : payload) (faults : nat -> bool) (commit : commit_reply) (db : DashDB) : DashDB :=
  (process demo_rules now (demo_report p) faults commit db).2.

Lemma demo_effect now p faults commit db done sent ks :
  settling demo_rules demo_at now db done sent ks -> timed demo_at (demo_report p) -> demo_at (event_key p) <= now ->
  ~ same_books db (demo_process now p faults commit db) ->
  exists done' sent', settling demo_rules demo_at now (demo_process now p faults commit db) done' sent' (event_key p :: ks).
Proof.
  intros S Ht Hn H. eexists _, _. apply (settling_process _ _ now now db done sent ks _ (demo_report p) faults commit S (Z.le_refl _) eq_refl Ht); [done|by right].
Qed.

(** A failed processing, and one of a known key, leave the tables as they are. *)
Lemma demo_idle now e faults db done sent ks :
  settling demo_rules demo_at now db done sent ks -> made e -> timed demo_at e -> demo_at (qe_Key e) <= now ->
  (is_Some (db_ledger db !! qe_Key e) \/ is_Some (process demo_rules now e faults Committed db).1) ->
  exists done' sent', settling demo_rules demo_at now (process demo_rules now e faults Committed db).2 done' sent' ks.
Proof.
  intros S Hm Ht Hn H. assert (E : (process demo_rules now e faults Committed db).2 = db).
  { destruct H as [[x Hx]|[x Hx]].
    - destruct (process_cases demo_rules now e faults Committed db) as [E|(_ & N & _)]; [exact E|]. congruence.
    - unfold process, run_tx in *. destruct (_ <? _); [done|]. by destruct (process_body _ _ _ _ _ _) as [[[u n] db']|err]. }
  eexists _, _. apply (settling_process _ _ now now db done sent ks _ e faults Committed S (Z.le_refl _) Hm Ht); [done|].
  left. split; [|done]. by rewrite E.
Qed.

(** The start; the end, tried too early; the attempt, whose commit is lost; the
    attempt again; the end with a failing statement; the end; a purge of everything
    40 days later; and an end that interrupts the request. *)
Definition demo_db1 := demo_process demo_now (PStart demo_request_start) no_faults Committed empty_db.
Definition demo_db2 := demo_process demo_now (PEnd demo_end) no_faults Committed demo_db1.
Definition demo_db3 := demo_process demo_now (PAttempt demo_attempt_fact) no_faults CommitLost demo_db2.
Definition demo_db4 := demo_process demo_now (PAttempt demo_attempt_fact) no_faults Committed demo_db3.
Definition demo_db5 := demo_process demo_now (PEnd demo_end) (Nat.eqb 6) Committed demo_db4.
Definition demo_db6 := demo_process demo_now (PEnd demo_end) no_faults Committed demo_db5.
Definition demo_later : time := demo_now + 40 * 24 * Hour.
Definition demo_db7 := (Purge demo_later (fun _ => true) demo_db6).2.
Definition demo_stale_end : queuedEvent := demo_event (PEnd (interrupted_end "r1" demo_later)) demo_later.
Definition demo_db8 := (process demo_rules demo_later demo_stale_end no_faults Committed demo_db7).2.

Lemma changed {A} `{EqDecision A} (f : DashDB -> A) db db' : (forall x y, same_books x y -> f y = f x) -> bool_decide (f db' = f db) = false -> ~ same_books db db'.
Proof. intros Hf H S. by rewrite (Hf _ _ S), bool_decide_true in H. Qed.

Lemma demo_settled : exists done sent, settling demo_rules demo_at demo_now demo_db6 done sent ["req:r1:end"; "att:a1:end"; "req:r1:start"].
Proof.
  assert (Le : forall p, demo_at (event_key p) <= demo_now).
  { intros p. unfold demo_at. repeat case_match; vm_compute; discriminate. }
  destruct (demo_effect demo_now (PStart demo_request_start) no_faults Committed empty_db ∅ ∅ []) as (d1 & s1 & S1).
  { constructor. } { split; reflexivity. } { apply Le. } { apply (changed (fun db => size (db_facts db))); [by intros ? ? (-> & _)|vm_compute; reflexivity]. }
  destruct (demo_idle _ (demo_report (PEnd demo_end)) no_faults _ _ _ _ S1) as (d2 & s2 & S2); [done|done|apply Le|right; vm_compute; by eexists|].
  destruct (demo_effect _ (PAttempt demo_attempt_fact) no_faults CommitLost _ _ _ _ S2) as (d3 & s3 & S3).
  { split; reflexivity. } { apply Le. } { apply (changed (fun db => size (db_attempts db))); [by intros ? ? (_ & -> & _)|vm_compute; reflexivity]. }
  destruct (demo_idle _ (demo_report (PAttempt demo_attempt_fact)) no_faults _ _ _ _ S3) as (d4 & s4 & S4); [done|split; reflexivity|apply Le|left; vm_compute; by eexists|].
  destruct (demo_idle _ (demo_report (PEnd demo_end)) (Nat.eqb 6) _ _ _ _ S4) as (d5 & s5 & S5); [done|done|apply Le|right; vm_compute; by eexists|].
  destruct (demo_effect _ (PEnd demo_end) no_faults Committed _ _ _ _ S5) as (d6 & s6 & S6).
  { done. } { apply Le. } { apply (changed (fun db => (fun f => given (rf_CompletedAt f)) <$> db_facts db !! "r1")); [by intros ? ? (-> & _)|vm_compute; reflexivity]. }
  by exists d6, s6.
Qed.

Lemma demo_purged : exists done sent, settling demo_rules demo_at demo_later demo_db8 done sent ["req:r1:end"; "att:a1:end"; "req:r1:start"].
Proof.
  destruct demo_settled as (d & s & S). pose proof (settling_purge _ _ _ demo_later _ _ _ _ (fun _ => true) S ltac:(vm_compute; discriminate)) as S7.
  apply (demo_idle demo_later demo_stale_end no_faults demo_db7 d s _ S7); [done|done|vm_compute; discriminate|right; vm_compute; by eexists].
Qed.

Lemma aggregates_recount_witness : exists done sent ks,
  settling demo_rules demo_at demo_later demo_db8 done sent ks
  /\ db_facts demo_db8 = ∅
  /\ cnt CCompleted (db_days demo_db8) (shanghaiDay demo_now, FamilyRequest, DimProvider, 3) = 1
  /\ wrap_i64 (total_of (request_count shanghaiDay CCompleted (shanghaiDay demo_now) DimProvider 3) done) = 1.
Proof.
  destruct demo_purged as (d & s & S). exists d, s, ["req:r1:end"; "att:a1:end"; "req:r1:start"].
  destruct (aggregates_recount _ _ _ _ _ _ _ S) as [H _]. destruct (H CCompleted (shanghaiDay demo_now) DimProvider 3) as [H1 _].
  split; [exact S|]. split; [vm_compute; reflexivity|]. split; [vm_compute; reflexivity|]. rewrite <- H1. vm_compute. reflexivity.
Defined.

Lemma settled_at_most_once_witness : exists done sent ks, settling demo_rules demo_at demo_later demo_db8 done sent ks /\ NoDup ks.
Proof. destruct demo_purged as (d & s & S). exists d, s. eexists. exact (conj S (settled_at_most_once _ _ _ _ _ _ _ S)). Defined.

Definition demo_passes (n : nat) : time * (nat -> processing) := (demo_now, fun _ => mkProcessing demo_now demo_now no_faults Committed).
Definition demo_queue : settler :=
  mkSettler [demo_event (PEnd demo_end) demo_now; demo_event (PAttempt demo_attempt_fact) demo_now; demo_event (PStart demo_request_start) demo_now] false.

Lemma shutdown_settles_witness :
  let '(returned, (s', db')) := drainFinal (mkRules [] []) 4 demo_passes 0 demo_queue empty_db in
  returned = true /\ st_q s' = [] /\ Forall (unsettleable db') (st_q s').
Proof.
  pose proof (shutdown_settles (mkRules [] []) demo_passes demo_queue empty_db 4 ltac:(intros n; discriminate) ltac:(simpl; lia)) as H.
  destruct (drainFinal (mkRules [] []) 4 demo_passes 0 demo_queue empty_db) as [returned [s' db']] eqn:E. destruct H as [Hr Hw].
  split; [exact Hr|]. split; [|apply Hw; intros n m; split; reflexivity].
  apply (f_equal (fun r => st_q r.2.1)) in E. cbn [snd fst] in E. rewrite <- E. vm_compute. reflexivity.
Defined.
